(* ===== verification/_CoqProject ===== *)
-Q . S2P
Prelude.v
JSMap.v
JSValue.v
JsonPrint.v
Dates.v
Host.v
Text.v
Protocol.v
JsonParse.v
Negotiation.v
Kademlia.v
DhtRecords.v
Admission.v
Inbox.v
Transparency.v
Ledger.v
Claims.v
Provenance.v
Evidence.v
Pki.v
Receipts.v
Lifecycle.v
Verifiers.v
Cosmos.v
SharedHistory.v
Sessions.v
Identity.v
Security.v
DurableStore.v
Objects.v
Replicas.v
DhtReplication.v
PeerRecords.v
PeerWalk.v
PeerControl.v
PeerRefresh.v
RpcLanes.v
RelayRouting.v
Relay.v
RelayAccounts.v
RelayLife.v
