(* ===== verification/Prelude.v ===== *)
(** * TRUYN: verification of the network's core logic

    TRUYN is a decentralised network in which nodes publish signed OFFERs and
    NEEDs, route work to providers, replicate signed records, and attach
    evidence to claims.  This library models the program's own core logic in
    the sources under src/ and proves what makes each part correct.  Data that
    arrives from the network is a dynamically typed JavaScript value
    ([JSValue.jval]); state the program owns is a typed record; a thrown
    exception is [Throw]; a handler that changes state is a computation of the
    monad [M S A] of this file, which keeps the changes made before a throw as
    the program does.

    ** The platform

    - [Prelude] (this file): errors, the result and state monads, traces of a
      step relation, insertion sort, strings, the shared tactics.
    - [JSValue], [JsonPrint], [JSMap], [Dates], [Text]: the parts of the
      language and of its standard library the sources use: values, property
      access, strict equality, number printing, JSON.stringify and its
      injectivity, insertion-ordered maps, the calendar behind Date.parse and
      toISOString, text normalisation.
    - [Host]: what the sources call and do not define (SHA-256, Ed25519,
      base64, localeCompare, NFKC, legacy date formats) as operations of a
      class; the documented behaviour a theorem relies on is a separate class
      of laws, and [Host.Toy] is a concrete platform on which they hold, used
      by the witnesses.

    ** The components

    - [Protocol] (core/protocol/index.js, need-admission.js,
      core/identity/index.js): canonical text and digests, keys and node
      identifiers, envelopes, compact frames, the admission window of a NEED.
      Canonical text identifies a value up to member order; an altered envelope
      needs a signature over a text its signer never signed, a reduction to the
      unforgeability of the signatures that assumes nothing of them; envelopes
      and compact frames do not mix.
    - [Negotiation] (core/protocol/negotiation.js, normalized-errors.js): both
      peers reach the same, greatest common generation; error classes are
      closed.
    - [Kademlia], [DhtRecords] (network/dht/kademlia.js): the routing table
      with its bucket invariant and the correctness of [closest], snapshots,
      signed records, their store and the memo of verified signatures.
    - [Admission] (network/admission/bounded-queue.js, need-replay.js,
      network/faults/controller.js): the queue as a transition system over
      arrivals, resumptions and completions; the replay guard against an
      interface [NeedLedger].
    - [Inbox] (network/admission/durable-inbox.js): accepted work is never
      lost, results are replayed; what failing writes and overlapping calls do.
    - [Ledger] (network/relay/durable-lifecycle-ledger.js): every operation is
      a transaction that refines the abstract transition [commits]; the table
      invariant; delivery of results; an effect is granted once.  It discharges
      the interface of [Admission].
    - [Transparency] (core/trust/transparency-log.js): the hash-chained log:
      append-only, equal hashes have equal histories, replicas catch up, forks
      are detected.
    - [Claims] (core/claims/index.js), [Provenance] (core/provenance/index.js),
      [Evidence] (core/trust/claim-verification.js): signed claims and
      attestations; grouping by shared lineage with union-find; the provenance
      graph; what "verified" means.
    - [Pki] (core/trust/source-owner-pki.js), [Receipts]
      (core/trust/receipt-v2.js): owner certificates, delegations and receipts;
      an accepted receipt stands on the unrevoked state of a [Transparency]
      log.
    - [Lifecycle] (core/trust/lifecycle.js), [Verifiers] (core/trust/network.js):
      revocations, lineage certificates, challenges and disputes, the active
      assessment of a claim, and the choice of authorised verifiers.
    - [Cosmos], [SharedHistory] (network/relay/cosmos-lifecycle-ledger.js): the
      ledger of several hosts over a remote document store.  [Cosmos] is the
      code, with one HTTP request as the operation of a class [Remote];
      [SharedHistory.Store] states what the store does, with other hosts
      writing between and during requests and replies being lost.  Every
      operation keeps the shared history legal (rely and guarantee are the same
      relation), so closed documents stay closed, confirmed writes lose no
      update, and an effect is granted once among all hosts.
    - [Sessions] (network/sessions/authenticated-session.js): the signed
      handshake of two peers: both agree on the negotiated protocol, an accept
      answers one hello, a hello is accepted once.
    - [JsonParse]: [JSON.parse] on the values of [JSValue], and that it reads
      back whatever [JSON.stringify] of [JsonPrint] writes.
    - [Identity] (core/identity/storage.js, rotation.js, revocation.js,
      migration.js, recovery-bundle.js): stored identities are read back, a
      rotation retires the old identity, recovery bundles open under their
      passphrase.
    - [Security] (core/security/provider-access.js, provider-billing.js,
      node-backchannel.js, relay-provider-policy.js, paid-need-admission.js):
      who may use a provider and who pays; a paid request goes from the relay's
      authorisation through [Cosmos.reserveNeed], the shared store of
      [SharedHistory] with what other hosts do to it, and [Cosmos.getNeed], to
      the one provider that accepts it.
    - [DurableStore] (core/security/durable-json-store.js): transactions on a
      file under a lock file, as a transition system of processes that
      interleave at every call and crash; exclusion and serialisation, and the
      race that breaks them.
    - [Objects] (core/object/integrity.js): references to objects and the
      bytes accepted for them.
    - [Replicas] (network/replication/transparency-replication.js,
      network/transport/json-stream.js): replicas of a [Transparency] log over an
      interface [Network]: append-only against any peer, convergence with an
      honest one while every message is within its reader's limit, and an
      example of a gap that no message can close.
    - [DhtReplication] (network/replication/dht-replication.js): reads and
      quorum writes of [DhtRecords] records over an interface [Overlay]: a read
      asks boundedly many peers once each; a write, whose answers and timers
      are events in any order, ends, and succeeds only with enough distinct
      holders.
    - [PeerRecords], [PeerWalk], [PeerRefresh]
      (network/discovery/peer-discovery.js), [RpcLanes], [PeerControl]
      (network/discovery/quic-rpc.js): discovery.  [PeerRecords] is signed peer
      records and the store of verified ones beside the routing table of
      [Kademlia], sound under any operations on untrusted values, and bounded
      and free of exceptions unless a record's sequence cannot be compared;
      [PeerWalk] the iterative lookup as a machine whose events (answers,
      failures, the [finally] of a promise, hedge timers, other changes of the
      store) interleave freely: it asks boundedly many nodes once each, ends,
      and for a reason; [PeerRefresh] what is refreshed and the pool of workers
      that does it; [RpcLanes] the scheduler of calls, which never exceeds a
      limit, never lets a call wait that could run, keeps the order per peer,
      and drains; [PeerControl] what other nodes can ask, and what their
      requests can change in [PeerRecords] and [DhtRecords].
    - [RelayRouting], [Relay], [RelayAccounts], [RelayLife]
      (network/relay/server.js, without a ledger): [RelayRouting] is the index
      of offers and the ranking of providers; [Relay] the state (registry, table
      of requests, mail, links), one definition per function and route, and
      [handle], which makes the relay a transition system over messages.  A
      [server] is a [relay] with the handlers whose head was read and whose body
      was not, so a need's requester and key are those its head found; tables are
      keyed by [rid], the value of a frame's identifier and, of an object, its
      identity; results that one read of a connection brings are handled in
      lockstep ([in_turn]), each up to its next [await].
      [RelayAccounts] has the invariant of its counters, slots and final results,
      with what an operation owes in between as a parameter ([pending]), and that
      the final result exists exactly once, if no two results of a request are
      read together; two examples at its end show where the accounts stop
      holding; [RelayLife] the relation between the table before and after a
      message: who may do what to a request, where a need goes, that outcomes and
      identifiers are final.

    ** Conventions

    A definition keeps the name of the function it models; a class method is a
    function on the record of the class's fields.  The clock is an argument.
    A refusal that the sources return as [{ ok: false, reason }] inside a [try]
    block is thrown with its reason ([throw_if], [to_verdict]), as an exception
    caught there is.  File writes, SQL transactions and remote calls are atomic
    steps whose outcome comes from a list of booleans or from an argument, so a
    theorem holds for every pattern of failures.  Asynchronous code is modelled
    at its suspension points, as steps of a transition system, where the order
    matters; a handler of the relay is one step (its head and its body are two),
    because without a ledger it waits for nothing outside the process once its
    body is read, except that results read together take their steps in turn.
    Other requests pipelined on one HTTP connection, whose handlers could take
    turns in the same way, are handled one after another, and a socket's CHAIN
    messages are left out.  A comparison of untrusted values throws the
    language's TypeError where an operand has no primitive value ([Host.js_gt]).

    Fuel occurs three times.  [Provenance.UnionFind.find] walks at most as many parents
    as the array has elements, and [groups_are_classes] shows that the walk of
    every call made by the analysis ends within it.  [JsonParse.parse] recurses
    with twice the length of the text plus one, and [JsonParse.all_settled] shows
    that no text exhausts it.  [DhtReplication.read_loop] queries a peer in each
    round, so its budget of queries is enough rounds, and [read_bounded] shows
    that it stops for one of the code's reasons.  The numbers of attempts in [Cosmos] are the code's
    own bounds.

    ** Not modelled

    Strings are code units below 256; surrogates are handled by
    [Protocol.Canonical.checkUnicode] on code units given as numbers.  Objects
    are finite trees: cycles and prototypes are not represented.  Sockets,
    timers, HTTP servers, process wiring, adapters to external protocols and
    providers, the command line and reporting are I/O around this logic.  The
    manifest lists every part of the system with its status. *)
From stdpp Require Export base tactics list gmap strings sorting fin_maps sets.
From Stdlib Require Export ZArith Lia.

From Stdlib Require Export Ascii.

Declare Scope truyn_scope.
Delimit Scope truyn_scope with truyn.
Open Scope truyn_scope.

Create HintDb truyn discriminated.
Create Rewrite HintDb truyn.

(** ** Errors and fallible code *)

(** A thrown JavaScript [Error]: its message and the fields the sources attach
    to it ([code], [httpStatus], [publicCode]). *)
Record jerror := JError {
  e_message : string;
  e_code : option string;
  e_httpStatus : option Z;
  e_publicCode : option string
}.

#[export] Instance jerror_eq_dec : EqDecision jerror.
Proof. solve_decision. Defined.

(** [new Error(m)] *)
Definition error (m : string) : jerror := JError m None None None.

(** [const error = new Error(m); error.code = c] *)
Definition error_code (c m : string) : jerror := JError m (Some c) None None.

(** the [fault(status, code)] helper the network modules share *)
Definition fault (status : Z) (code : string) : jerror :=
  JError code None (Some status) (Some code).

(** Outcome of code that may throw. *)
Inductive result (A : Type) : Type :=
| Ok (a : A)
| Throw (e : jerror).
Arguments Ok {A} a.
Arguments Throw {A} e.

#[export] Instance result_eq_dec `{EqDecision A} : EqDecision (result A).
Proof. solve_decision. Defined.

#[export] Instance result_ret : MRet result := λ A a, Ok a.
#[export] Instance result_bind : MBind result := λ A B f m,
  match m with Ok a => f a | Throw e => Throw e end.
#[export] Instance result_fmap : FMap result := λ A B f m,
  match m with Ok a => Ok (f a) | Throw e => Throw e end.

(** [try { return m } catch (error) { return h(error) }] *)
Definition try_catch {A} (m : result A) (h : jerror → A) : A :=
  match m with Ok a => a | Throw e => h e end.

Lemma Ok_inj {A} (a b : A) : Ok a = Ok b → a = b.
Proof. congruence. Qed.

(** [for (const x of l) s = f(s, x)], stopped by an exception *)
Fixpoint result_fold {A S} (f : S → A → result S) (l : list A) (s : S) : result S :=
  match l with
  | [] => Ok s
  | x :: l => s' ← f s x; result_fold f l s'
  end.

Lemma result_fold_invariant {A S} (I : S → Prop) (f : S → A → result S) l s s' :
  (∀ x s s', x ∈ l → I s → f s x = Ok s' → I s') → I s → result_fold f l s = Ok s' → I s'.
Proof.
  revert s. induction l as [|x l IH]; cbn [result_fold]; intros s Hf Hs; [by intros [= <-]|].
  destruct (f s x) as [s1|e] eqn:H1; cbn; [|done]. apply IH.
  - intros y t t' Hy. apply Hf. by right.
  - eapply Hf; [left|exact Hs|done].
Qed.

Definition ok_or {A} (d : A) (m : result A) : A :=
  match m with Ok a => a | Throw _ => d end.

Definition is_ok {A} (m : result A) : bool :=
  match m with Ok _ => true | Throw _ => false end.

(** [if (b) throw e] *)
Definition throw_if (b : bool) (e : jerror) : result unit :=
  if b then Throw e else Ok tt.

Lemma throw_if_Ok b e : throw_if b e = Ok tt ↔ b = false.
Proof. destruct b; done. Qed.

Fixpoint result_map {A B} (f : A → result B) (l : list A) : result (list B) :=
  match l with
  | [] => Ok []
  | x :: l => y ← f x; ys ← result_map f l; Ok (y :: ys)
  end.

(** ** Stateful code *)

(** Code that reads and mutates a state [S] and may throw: an exception keeps
    the mutations made before it, as in JavaScript. *)
Definition M (S A : Type) : Type := S → S * result A.

#[export] Instance M_ret S : MRet (M S) := λ A a s, (s, Ok a).
#[export] Instance M_bind S : MBind (M S) := λ A B f m s,
  match m s with
  | (s', Ok a) => f a s'
  | (s', Throw e) => (s', Throw e)
  end.

Definition get_state {S} : M S S := λ s, (s, Ok s).
Definition put_state {S} (s : S) : M S unit := λ _, (s, Ok tt).
Definition modify {S} (f : S → S) : M S unit := λ s, (f s, Ok tt).
Definition throw {S A} (e : jerror) : M S A := λ s, (s, Throw e).
Definition lift_result {S A} (r : result A) : M S A := λ s, (s, r).

(** [if (b) throw e] in stateful code *)
Definition guard_throw {S} (b : bool) (e : jerror) : M S unit :=
  λ s, (s, if b then Throw e else Ok tt).

(** [for (const x of l) await f(x)] *)
Fixpoint for_each {S A} (f : A → M S unit) (l : list A) : M S unit :=
  match l with
  | [] => mret tt
  | x :: l => _ ← f x; for_each f l
  end.

(** [finally]-free database transaction: the writes of a throwing body are
    undone. *)
Definition atomically {S A} (m : M S A) : M S A := λ s,
  match m s with
  | (s', Ok a) => (s', Ok a)
  | (_, Throw e) => (s, Throw e)
  end.

(** [try { m } catch (error) { h(error) }] and [try { m } finally { f }] *)
Definition catch_with {S A} (m : M S A) (h : jerror → M S A) : M S A := λ s,
  match m s with
  | (s', Ok a) => (s', Ok a)
  | (s', Throw e) => h e s'
  end.

Definition finally {S A} (m : M S A) (f : S → S) : M S A := λ s,
  let '(s', r) := m s in (f s', r).

(** Independent calls one after the other, each with its own outcome. *)
Fixpoint run_all {S A B} (f : A → M S B) (l : list A) (s : S) : S * list (result B) :=
  match l with
  | [] => (s, [])
  | x :: l => let '(s, r) := f x s in
              let '(s, rs) := run_all f l s in (s, r :: rs)
  end.

Arguments M_ret {S A} a / _.
Arguments M_bind {S A B} f m / _.
Arguments get_state {S} / _.
Arguments put_state {S} s / _.
Arguments modify {S} f / _.
Arguments throw {S A} e / _.
Arguments lift_result {S A} r / _.
Arguments guard_throw {S} b e / _.

Section monad_lemmas.
Context {S : Type}.

Lemma bind_Ok_inv {A B} (m : result A) (f : A → result B) b :
  (x ← m; f x) = Ok b → ∃ a, m = Ok a ∧ f a = Ok b.
Proof. destruct m; naive_solver. Qed.

Lemma bind_step {A B} (m : result A) (f : A → result B) a : m = Ok a → (x ← m; f x) = f a.
Proof. by intros ->. Qed.

Lemma M_bind_Ok_inv {A B} (m : M S A) (f : A → M S B) s s' b :
  (x ← m; f x) s = (s', Ok b) →
  ∃ s1 a, m s = (s1, Ok a) ∧ f a s1 = (s', Ok b).
Proof.
  unfold mbind, M_bind. destruct (m s) as [s1 [a|e]]; naive_solver.
Qed.

Lemma M_bind_step {A B} (m : M S A) (f : A → M S B) s s1 a :
  m s = (s1, Ok a) → (x ← m; f x) s = f a s1.
Proof. intros H. unfold mbind, M_bind. by rewrite H. Qed.

Lemma M_bind_throw {A B} (m : M S A) (f : A → M S B) s s1 e :
  m s = (s1, Throw e) → (x ← m; f x) s = (s1, Throw e).
Proof. intros H. unfold mbind, M_bind. by rewrite H. Qed.

(** A property of the state kept by every step of a loop is kept by it. *)
Lemma for_each_preserves {A} (I : S → Prop) (f : A → M S unit) l s :
  (∀ x s, x ∈ l → I s → I (f x s).1) → I s → I (for_each f l s).1.
Proof.
  revert s. induction l as [|x l IH]; intros s Hf Hs; [done|].
  cbn. unfold mbind, M_bind.
  assert (Hx : I (f x s).1) by (apply Hf; [left|]; done).
  destruct (f x s) as [s1 [[]|e]]; simpl in *; [|done].
  apply IH; [|done]. intros y s2 Hy. apply Hf. by right.
Qed.

Lemma for_each_step {A} (f : A → M S unit) x l s s1 :
  f x s = (s1, Ok tt) → for_each f (x :: l) s = for_each f l s1.
Proof. intros H. cbn [for_each]. by rewrite (M_bind_step _ _ _ _ _ H). Qed.

Lemma for_each_app {A} (f : A → M S unit) l1 l2 s s1 :
  for_each f l1 s = (s1, Ok tt) → for_each f (l1 ++ l2) s = for_each f l2 s1.
Proof.
  revert s. induction l1 as [|x l1 IH]; intros s Hx; [by injection Hx as ->|]. cbn [app for_each] in *.
  apply M_bind_Ok_inv in Hx as (s' & [] & Hx1 & Hx2). rewrite (M_bind_step _ _ _ _ _ Hx1). by apply IH.
Qed.

(** Calls that keep an invariant under which they answer as a pure function
    answer as that function along the whole sequence. *)
Lemma run_all_pure {A B} (I : S → Prop) (f : A → M S B) (g : A → result B) l s :
  (∀ x s, I s → (f x s).2 = g x ∧ I (f x s).1) → I s →
  (run_all f l s).2 = map g l ∧ I (run_all f l s).1.
Proof.
  intros Hf. revert s. induction l as [|x l IH]; intros s Hs; [done|]. cbn [run_all map].
  destruct (Hf x s Hs) as [Hr Hs']. destruct (f x s) as [s' r]. cbn [fst snd] in *.
  destruct (IH s' Hs') as [Hrs Hs'']. destruct (run_all f l s') as [s'' rs]. cbn [fst snd] in *.
  by subst.
Qed.

Lemma atomically_throw {A} (m : M S A) s s' e :
  atomically m s = (s', Throw e) → s' = s.
Proof. unfold atomically. destruct (m s) as [s1 [a|e']]; naive_solver. Qed.

Lemma atomically_ok {A} (m : M S A) s s' a :
  atomically m s = (s', Ok a) ↔ m s = (s', Ok a).
Proof. unfold atomically. destruct (m s) as [s1 [b|e']]; naive_solver. Qed.
End monad_lemmas.

(** ** Transition systems *)

Section traces.
Context {State Label : Type} (step : State → Label → State → Prop).

(** Sequences of labelled steps. *)
Inductive steps : State → list Label → State → Prop :=
| steps_nil s : steps s [] s
| steps_cons s l s1 ls s2 : step s l s1 → steps s1 ls s2 → steps s (l :: ls) s2.

Lemma steps_app s ls1 s1 ls2 s2 :
  steps s ls1 s1 → steps s1 ls2 s2 → steps s (ls1 ++ ls2) s2.
Proof. induction 1; simpl; eauto using steps. Qed.

Lemma steps_snoc s ls s1 l s2 :
  steps s ls s1 → step s1 l s2 → steps s (ls ++ [l]) s2.
Proof. intros. eapply steps_app; eauto using steps. Qed.

(** Rule induction: an invariant of every step holds along a trace. *)
Lemma steps_invariant (I : State → Prop) s ls s' :
  (∀ s l s', I s → step s l s' → I s') → I s → steps s ls s' → I s'.
Proof. intros HI Hs. induction 1; eauto. Qed.
End traces.

(** ** Stable sorting *)

(** [Array.prototype.sort] with a comparator [cmp]: the language requires a
    stable sort, so the result is determined by [leb x y := cmp(x, y) <= 0]. *)
Section stable_sort.
Context {A : Type} (leb : A → A → bool).

Fixpoint sort_insert (x : A) (l : list A) : list A :=
  match l with
  | [] => [x]
  | y :: l' => if leb x y then x :: l else y :: sort_insert x l'
  end.

Definition sort_by (l : list A) : list A := foldr sort_insert [] l.

Lemma sort_insert_perm x l : sort_insert x l ≡ₚ x :: l.
Proof.
  induction l as [|y l IH]; simpl; [done|].
  destruct (leb x y); [done|]. rewrite IH. apply Permutation_swap.
Qed.

Lemma sort_by_perm l : sort_by l ≡ₚ l.
Proof.
  induction l as [|x l IH]; simpl; [done|]. by rewrite sort_insert_perm, IH.
Qed.

Lemma elem_of_sort_by x l : x ∈ sort_by l ↔ x ∈ l.
Proof. by rewrite sort_by_perm. Qed.

Lemma length_sort_by l : length (sort_by l) = length l.
Proof. by rewrite sort_by_perm. Qed.

Lemma NoDup_sort_by l : NoDup (sort_by l) ↔ NoDup l.
Proof. by rewrite sort_by_perm. Qed.

Section total.
Context (Htotal : ∀ x y, leb x y = true ∨ leb y x = true).
Context (Htrans : ∀ x y z, leb x y = true → leb y z = true → leb x z = true).

Lemma sort_insert_sorted x l :
  StronglySorted (λ a b, leb a b = true) l →
  StronglySorted (λ a b, leb a b = true) (sort_insert x l).
Proof.
  induction 1 as [|y l Hl IH Hy]; simpl; [by repeat constructor|].
  destruct (leb x y) eqn:Hxy.
  - constructor; [by constructor|]. constructor; [done|].
    eapply Forall_impl; [exact Hy|]. eauto.
  - constructor; [done|]. rewrite sort_insert_perm. constructor; [|done].
    destruct (Htotal x y); congruence.
Qed.

Lemma sort_by_sorted l : StronglySorted (λ a b, leb a b = true) (sort_by l).
Proof. induction l; simpl; [constructor|]. by apply sort_insert_sorted. Qed.

(** Whatever precedes an element in the sorted list is at most it. *)
Lemma sort_by_take_le l n x y :
  x ∈ take n (sort_by l) → y ∈ drop n (sort_by l) → leb x y = true.
Proof.
  intros Hx Hy. pose proof (sort_by_sorted l) as Hs.
  rewrite <- (take_drop n (sort_by l)) in Hs.
  revert Hx Hy Hs. generalize (take n (sort_by l)) (drop n (sort_by l)).
  intros l1 l2 Hx Hy Hs. induction l1 as [|z l1 IH]; [by apply not_elem_of_nil in Hx|].
  apply StronglySorted_inv in Hs as [Hs Hz].
  apply elem_of_cons in Hx as [->|Hx]; [|by apply IH].
  rewrite Forall_forall in Hz. apply Hz. apply elem_of_app. by right.
Qed.
End total.

(** Sorting is a function of the multiset when the order is antisymmetric
    on it. *)
Lemma sorted_perm_unique l1 l2 :
  (∀ x y, x ∈ l1 → y ∈ l1 → leb x y = true → leb y x = true → x = y) →
  StronglySorted (λ a b, leb a b = true) l1 →
  StronglySorted (λ a b, leb a b = true) l2 → l1 ≡ₚ l2 → l1 = l2.
Proof.
  intros Ha Hs1. revert l2 Ha. induction Hs1 as [|x l1 Hs1 IH Hx]; intros l2 Ha Hs2 Hp.
  { by apply Permutation_nil_l in Hp. }
  destruct Hs2 as [|y l2 Hs2 Hy]; [by apply Permutation_nil_r in Hp|].
  rewrite Forall_forall in Hx, Hy.
  assert (x = y) as ->.
  { assert (Hxin : x ∈ y :: l2) by (rewrite <- Hp; left).
    assert (Hyin : y ∈ x :: l1) by (rewrite Hp; left).
    apply elem_of_cons in Hxin as [->|Hxin]; [done|].
    apply elem_of_cons in Hyin as [->|Hyin]; [done|].
    apply Ha; [left|by right|by apply Hx|by apply Hy]. }
  f_equal. apply IH; [|done|by apply Permutation.Permutation_cons_inv in Hp].
  intros a b Ha' Hb'. apply Ha; by right.
Qed.
End stable_sort.

Lemma StronglySorted_weaken {A} (R1 R2 : A → A → Prop) l :
  (∀ x y, R1 x y → R2 x y) → StronglySorted R1 l → StronglySorted R2 l.
Proof.
  intros HR. induction 1 as [|x l Hl IH Hx]; constructor; [done|].
  eapply Forall_impl; [exact Hx|]. auto.
Qed.

Lemma elem_of_take_list {A} (n : nat) (l : list A) x : x ∈ take n l → x ∈ l.
Proof. intros Hx. rewrite <- (take_drop n l). apply elem_of_app. by left. Qed.

(** ** JavaScript sets as lists *)

(** [[...new Set(l)]]: duplicates removed, first occurrences kept in order. *)
Section uniq.
Context `{EqDecision A}.

Fixpoint uniq_from (seen : list A) (l : list A) : list A :=
  match l with
  | [] => []
  | x :: l => if decide (x ∈ seen) then uniq_from seen l
              else x :: uniq_from (x :: seen) l
  end.

Definition uniq (l : list A) : list A := uniq_from [] l.

Lemma elem_of_uniq_from seen l x : x ∈ uniq_from seen l ↔ x ∈ l ∧ x ∉ seen.
Proof.
  revert seen. induction l as [|y l IH]; intros seen; simpl; [set_solver|].
  case_decide; [rewrite IH; set_solver|].
  rewrite !elem_of_cons, IH. destruct (decide (x = y)); set_solver.
Qed.

Lemma elem_of_uniq l x : x ∈ uniq l ↔ x ∈ l.
Proof. unfold uniq. rewrite elem_of_uniq_from. set_solver. Qed.

Lemma NoDup_uniq_from seen l : NoDup (uniq_from seen l).
Proof.
  revert seen. induction l as [|y l IH]; intros seen; simpl; [constructor|].
  case_decide; [done|]. constructor; [|done]. rewrite elem_of_uniq_from. set_solver.
Qed.

Lemma NoDup_uniq l : NoDup (uniq l).
Proof. apply NoDup_uniq_from. Qed.
End uniq.

#[export] Hint Resolve NoDup_uniq : truyn.
#[export] Hint Rewrite @elem_of_uniq @elem_of_sort_by @length_sort_by : truyn.

(** ** Strings *)

(** Code-unit order on strings, as used by the default [sort()]. *)
Definition str_leb (a b : string) : bool := bool_decide (String.le a b).

Lemma str_leb_total a b : str_leb a b = true ∨ str_leb b a = true.
Proof.
  unfold str_leb. rewrite !bool_decide_eq_true. apply (total String.le).
Qed.

Lemma str_leb_trans a b c : str_leb a b = true → str_leb b c = true → str_leb a c = true.
Proof. unfold str_leb. rewrite !bool_decide_eq_true. apply (transitivity (R:=String.le)). Qed.

Lemma str_leb_antisym a b : str_leb a b = true → str_leb b a = true → a = b.
Proof. unfold str_leb. rewrite !bool_decide_eq_true. intros. by apply (anti_symm String.le). Qed.

#[export] Hint Resolve str_leb_total str_leb_trans str_leb_antisym : truyn.

(** [arr.sort()] on strings *)
Definition sort_strings (l : list string) : list string := sort_by str_leb l.

Lemma sort_strings_perm_eq l1 l2 : l1 ≡ₚ l2 → sort_strings l1 = sort_strings l2.
Proof.
  intros Hp. unfold sort_strings. apply (sorted_perm_unique str_leb).
  - intros; by apply str_leb_antisym.
  - apply sort_by_sorted; [apply str_leb_total|apply str_leb_trans].
  - apply sort_by_sorted; [apply str_leb_total|apply str_leb_trans].
  - by rewrite !sort_by_perm.
Qed.

Lemma string_app_assoc (a b c : string) : (a +:+ b) +:+ c = a +:+ (b +:+ c).
Proof. induction a as [|x a IH]; [done|]. exact (f_equal (String x) IH). Qed.

Lemma string_app_nil_r (a : string) : a +:+ "" = a.
Proof. induction a as [|x a IH]; [done|]. exact (f_equal (String x) IH). Qed.

Lemma string_app_length (a b : string) :
  String.length (a +:+ b) = String.length a + String.length b.
Proof. induction a as [|x a IH]; [done|]. exact (f_equal S IH). Qed.

(** Concatenations split at equal lengths. *)
Lemma string_app_inj (a b x y : string) :
  String.length a = String.length b → a +:+ x = b +:+ y → a = b ∧ x = y.
Proof.
  revert b. induction a as [|c a IH]; intros [|d b] Hl Heq; try done.
  injection Hl as Hl.
  assert (c = d ∧ a +:+ x = b +:+ y) as [-> Heq'] by (by injection Heq as -> ->).
  by destruct (IH b Hl Heq') as [-> ->].
Qed.

Lemma string_app_inj_suffix (a b x y : string) :
  String.length x = String.length y → a +:+ x = b +:+ y → a = b ∧ x = y.
Proof.
  intros Hl Heq. apply string_app_inj; [|done].
  apply (f_equal String.length) in Heq. rewrite !string_app_length in Heq. lia.
Qed.

Lemma string_app_inj_l (a x y : string) : a +:+ x = a +:+ y → x = y.
Proof. intros Heq. by apply string_app_inj in Heq as [_ ?]. Qed.

(** White space removed by [trim], among the code units below 256: TAB, LF, VT,
    FF, CR, space and NO-BREAK SPACE. *)
Definition js_space (c : Ascii.ascii) : bool :=
  let n := Ascii.N_of_ascii c in
  bool_decide ((9 ≤ n ∧ n ≤ 13)%N ∨ n = 32%N ∨ n = 160%N).

Fixpoint trim_start (s : string) : string :=
  match s with
  | EmptyString => EmptyString
  | String c s' => if js_space c then trim_start s' else s
  end.

Fixpoint trim_end (s : string) : string :=
  match s with
  | EmptyString => EmptyString
  | String c s' =>
      match trim_end s' with
      | EmptyString => if js_space c then EmptyString else String c EmptyString
      | r => String c r
      end
  end.

(** [s.trim()] *)
Definition trim (s : string) : string := trim_end (trim_start s).

(** [s.toLowerCase()] on code units below 256 *)
Definition lower_char (c : Ascii.ascii) : Ascii.ascii :=
  let n := Ascii.N_of_ascii c in
  if bool_decide ((65 ≤ n ∧ n ≤ 90)%N ∨ (192 ≤ n ∧ n ≤ 222 ∧ n ≠ 215)%N) then Ascii.ascii_of_N (n + 32) else c.

Fixpoint to_lower (s : string) : string :=
  match s with
  | EmptyString => EmptyString
  | String c s => String (lower_char c) (to_lower s)
  end.

(** [s.slice(n)] and [s.slice(0, n)] for [n >= 0] *)
Fixpoint str_drop (n : nat) (s : string) : string :=
  match n, s with
  | S n, String _ s => str_drop n s
  | _, _ => s
  end.

Fixpoint str_take (n : nat) (s : string) : string :=
  match n, s with
  | S n, String c s => String c (str_take n s)
  | _, _ => EmptyString
  end.

Fixpoint str_forall (p : Ascii.ascii → bool) (s : string) : bool :=
  match s with
  | EmptyString => true
  | String c s => p c && str_forall p s
  end.

(** [s.split(',')] *)
Fixpoint split_on (sep : Ascii.ascii) (s : string) : list string :=
  match s with
  | EmptyString => [EmptyString]
  | String c s' =>
      if decide (c = sep) then EmptyString :: split_on sep s'
      else match split_on sep s' with
           | [] => [String c EmptyString]
           | x :: xs => String c x :: xs
           end
  end.

(** A string is falsy exactly when it is empty. *)
Definition nonempty_str (s : string) : bool := negb (bool_decide (s = "")).

Lemma nonempty_str_true s : nonempty_str s = true ↔ s ≠ "".
Proof. unfold nonempty_str. case_bool_decide; naive_solver. Qed.

(** ** Tactics *)

(** Split boolean guards in hypotheses into propositions. *)
Ltac bool_hyps :=
  repeat match goal with
  | H : _ && _ = true |- _ => apply andb_prop in H as [??]
  | H : _ || _ = false |- _ => apply orb_false_iff in H as [??]
  | H : negb _ = true |- _ => apply negb_true_iff in H
  | H : negb _ = false |- _ => apply negb_false_iff in H
  | H : bool_decide _ = true |- _ => apply bool_decide_eq_true in H
  | H : bool_decide _ = false |- _ => apply bool_decide_eq_false in H
  | H : (_ <? _)%Z = true |- _ => apply Z.ltb_lt in H
  | H : (_ <? _)%Z = false |- _ => apply Z.ltb_ge in H
  | H : (_ <=? _)%Z = true |- _ => apply Z.leb_le in H
  | H : (_ <=? _)%Z = false |- _ => apply Z.leb_gt in H
  | H : (_ =? _)%Z = true |- _ => apply Z.eqb_eq in H
  | H : (_ =? _)%Z = false |- _ => apply Z.eqb_neq in H
  end.

(** Takes the first step of a computation known to return, in the hypothesis
    [H] and in the goal alike. *)
Ltac bind_along H :=
  let E := fresh "E" in
  apply bind_Ok_inv in H as (? & E & H); rewrite (bind_step _ _ _ E); clear E; cbv beta zeta in H |- *.

(** Case analysis on the guard a definition is blocked on. *)
Ltac step_guard :=
  match goal with
  | H : context [if ?b then _ else _] |- _ => destruct b eqn:?; simplify_eq/=
  | |- context [if ?b then _ else _] => destruct b eqn:?; simplify_eq/=
  | H : context [match ?x with Some _ => _ | None => _ end] |- _ => destruct x eqn:?; simplify_eq/=
  | |- context [match ?x with Some _ => _ | None => _ end] => destruct x eqn:?; simplify_eq/=
  end.

Ltac guards := repeat step_guard.
