(* ===== verification/JSMap.v ===== *)
(** * JavaScript maps and bounded memo tables

    A [Map] keeps its entries in insertion order: [set] on a present key
    replaces the value in place, on an absent key it appends, and iteration
    follows that order.  [jsmap] is that list, with the laws of lookup, the
    uniqueness of keys and the size bounds that the components share.  [Memo]
    is the bounded first-in first-out memo table that several modules keep in
    front of a pure function. *)
From S2P Require Import Prelude.

Notation jsmap K V := (list (K * V)) (only parsing).

Section jsmap.
Context {K V : Type} `{EqDecision K}.
Implicit Types (m : jsmap K V).

Fixpoint map_get (k : K) m : option V :=
  match m with
  | [] => None
  | (k', v) :: m => if decide (k = k') then Some v else map_get k m
  end.

Definition map_has (k : K) m : bool := bool_decide (is_Some (map_get k m)).

Fixpoint map_set (k : K) (v : V) m : jsmap K V :=
  match m with
  | [] => [(k, v)]
  | (k', w) :: m => if decide (k = k') then (k, v) :: m else (k', w) :: map_set k v m
  end.

Definition map_delete (k : K) m : jsmap K V := filter (λ e, e.1 ≠ k) m.

Definition map_keys m : list K := m.*1.
Definition map_values m : list V := m.*2.
Definition map_size m : Z := Z.of_nat (length m).

(** [map.delete(map.keys().next().value)] *)
Definition map_delete_first m : jsmap K V := tail m.

(** Every map reached from the empty one has distinct keys. *)
Definition map_wf m : Prop := NoDup (map_keys m).

Lemma map_get_set k k' v m :
  map_get k (map_set k' v m) = if decide (k = k') then Some v else map_get k m.
Proof.
  induction m as [|[j w] m IH]; simpl; [done|].
  destruct (decide (k' = j)) as [->|]; simpl; [by repeat case_decide|].
  rewrite IH. repeat case_decide; congruence.
Qed.

Lemma map_get_delete k k' m :
  map_get k (map_delete k' m) = if decide (k = k') then None else map_get k m.
Proof.
  unfold map_delete. induction m as [|[j w] m IH]; [by repeat case_decide|].
  rewrite filter_cons. cbn [fst].
  destruct (decide (j ≠ k')); cbn [map_get]; rewrite IH; repeat case_decide; naive_solver.
Qed.

Lemma map_get_elem k v m : map_get k m = Some v → (k, v) ∈ m.
Proof.
  induction m as [|[j w] m IH]; simpl; [done|]. case_decide as Hk; [intros [= <-]; subst; left|].
  intros Hm. right. auto.
Qed.

Lemma map_get_is_Some k m : is_Some (map_get k m) ↔ k ∈ map_keys m.
Proof.
  unfold map_keys. induction m as [|[j w] m IH]; simpl.
  - split; [by intros [? [=]]|by intros []%elem_of_nil].
  - rewrite elem_of_cons, <- IH. case_decide; split; try tauto; eauto.
Qed.

Lemma map_get_None k m : map_get k m = None ↔ k ∉ map_keys m.
Proof. rewrite <- map_get_is_Some, <- not_eq_None_Some. destruct (map_get k m); naive_solver. Qed.

Lemma map_elem_get k v m : map_wf m → (k, v) ∈ m → map_get k m = Some v.
Proof.
  unfold map_wf, map_keys. induction m as [|[j w] m IH]; cbn [map_get fmap list_fmap fst]; intros Hm Hin.
  - by apply elem_of_nil in Hin.
  - apply NoDup_cons in Hm as [Hj Hm]. apply elem_of_cons in Hin as [[= -> ->]|Hin].
    + by case_decide.
    + rewrite decide_False; [auto|]. intros ->. apply Hj, list_elem_of_fmap. by exists (j, v).
Qed.

Lemma map_has_true k m : map_has k m = true ↔ k ∈ map_keys m.
Proof. unfold map_has. by rewrite bool_decide_eq_true, map_get_is_Some. Qed.

Lemma map_has_false k m : map_has k m = false ↔ k ∉ map_keys m.
Proof. unfold map_has. by rewrite bool_decide_eq_false, map_get_is_Some. Qed.

Lemma map_keys_set k v m :
  map_keys (map_set k v m) = if decide (k ∈ map_keys m) then map_keys m else map_keys m ++ [k].
Proof.
  unfold map_keys. induction m as [|[j w] m IH]; cbn [map_set fmap list_fmap fst].
  - rewrite decide_False; [done|]. by apply not_elem_of_nil.
  - destruct (decide (k = j)) as [->|Hj]; cbn [fmap list_fmap fst].
    + rewrite decide_True; [done|by left].
    + rewrite IH. destruct (decide (k ∈ m.*1)).
      * rewrite decide_True; [done|by right].
      * rewrite decide_False; [done|]. by apply not_elem_of_cons.
Qed.

Lemma map_wf_nil : map_wf [].
Proof. constructor. Qed.

Lemma map_wf_set k v m : map_wf m → map_wf (map_set k v m).
Proof.
  unfold map_wf. rewrite map_keys_set. case_decide as Hk; [done|]. intros Hm.
  apply NoDup_app. split; [done|]. split; [set_solver|apply NoDup_singleton].
Qed.

Lemma map_keys_filter (P : K * V → Prop) `{∀ e, Decision (P e)} m k :
  k ∈ map_keys (filter P m) → k ∈ map_keys m.
Proof.
  unfold map_keys. rewrite !list_elem_of_fmap. intros (e & -> & He).
  apply list_elem_of_filter in He as [_ He]. eauto.
Qed.

Lemma map_wf_filter (P : K * V → Prop) `{∀ e, Decision (P e)} m : map_wf m → map_wf (filter P m).
Proof.
  unfold map_wf. induction m as [|e m IH]; [done|]. intros Hm.
  apply NoDup_cons in Hm as [He Hm]. rewrite filter_cons. case_decide; [|by apply IH].
  apply NoDup_cons. split; [|by apply IH]. intros Hin. apply He. by eapply map_keys_filter.
Qed.

Lemma map_wf_delete k m : map_wf m → map_wf (map_delete k m).
Proof. apply map_wf_filter. Qed.

Lemma map_wf_delete_first m : map_wf m → map_wf (map_delete_first m).
Proof. unfold map_wf. destruct m; [done|]. by intros [_ ?]%NoDup_cons. Qed.

Lemma map_size_nonneg m : (0 ≤ map_size m)%Z.
Proof. unfold map_size. lia. Qed.

Lemma map_size_set k v m :
  map_size (map_set k v m) = if decide (k ∈ map_keys m) then map_size m else (map_size m + 1)%Z.
Proof.
  unfold map_size. rewrite <- (length_map fst (map_set k v m)).
  change (map fst (map_set k v m)) with (map_keys (map_set k v m)).
  rewrite map_keys_set. case_decide.
  - unfold map_keys. by rewrite length_fmap.
  - rewrite length_app. unfold map_keys. rewrite length_fmap. simpl. lia.
Qed.

Lemma map_size_delete_le k m : (map_size (map_delete k m) ≤ map_size m)%Z.
Proof. unfold map_size, map_delete. pose proof (length_filter (λ e : K * V, e.1 ≠ k) m). lia. Qed.

Lemma filter_other_keys k m : k ∉ map_keys m → filter (λ e : K * V, e.1 ≠ k) m = m.
Proof.
  unfold map_keys. induction m as [|[j w] m IH]; [done|]. cbn [fmap list_fmap fst].
  intros [Hj Hk]%not_elem_of_cons. rewrite filter_cons_True by (cbn; congruence).
  f_equal. by apply IH.
Qed.

Lemma map_size_delete k m :
  map_wf m → k ∈ map_keys m → map_size (map_delete k m) = (map_size m - 1)%Z.
Proof.
  unfold map_wf, map_size, map_delete, map_keys. induction m as [|[j w] m IH]; simpl.
  - by intros _ ?%elem_of_nil.
  - intros [Hj Hm]%NoDup_cons Hk. rewrite filter_cons. cbn [fst]. case_decide as Hjk.
    + cbn [length]. apply elem_of_cons in Hk as [->|Hk]; [done|]. specialize (IH Hm Hk). lia.
    + subst j. assert (filter (λ e : K * V, e.1 ≠ k) m = m) as ->; [|lia].
      by apply filter_other_keys.
Qed.

(** Sums over the values: counting the entries of a kind is a sum of zeros and
    ones. *)
Fixpoint map_sum (f : V → Z) m : Z :=
  match m with [] => 0 | (_, v) :: m => f v + map_sum f m end%Z.

Lemma map_sum_set f k v m :
  map_sum f (map_set k v m) = (map_sum f m + f v - match map_get k m with Some w => f w | None => 0 end)%Z.
Proof.
  induction m as [|[j w] m IH]; cbn [map_set map_sum map_get]; [lia|]. case_decide; cbn [map_sum]; lia.
Qed.

Lemma map_sum_delete f k m :
  map_wf m → map_sum f (map_delete k m) = (map_sum f m - match map_get k m with Some w => f w | None => 0 end)%Z.
Proof.
  unfold map_wf, map_delete, map_keys. induction m as [|[j w] m IH]; cbn [map_sum map_get]; [done|]. intros [Hj Hm]%NoDup_cons.
  rewrite filter_cons. cbn [fst]. destruct (decide (j ≠ k)) as [Hjk|Hjk].
  - rewrite decide_False by congruence. cbn [map_sum]. rewrite (IH Hm). lia.
  - assert (j = k) as -> by (destruct (decide (j = k)); tauto). rewrite decide_True, filter_other_keys by done. lia.
Qed.

Lemma map_sum_nonneg f m : (∀ v, 0 ≤ f v)%Z → (0 ≤ map_sum f m)%Z.
Proof. intros Hf. induction m as [|[j w] m IH]; cbn [map_sum]; [lia|]. specialize (Hf w). lia. Qed.

Lemma map_sum_ext f g m : (∀ k v, (k, v) ∈ m → f v = g v) → map_sum f m = map_sum g m.
Proof.
  induction m as [|[j w] m IH]; intros Hf; cbn [map_sum]; [done|]. rewrite (Hf j w) by (by left). f_equal. apply IH.
  intros k v Hin. apply (Hf k). by right.
Qed.

Lemma map_sum_le f k v m : (∀ v, 0 ≤ f v)%Z → map_get k m = Some v → (f v ≤ map_sum f m)%Z.
Proof.
  intros Hf. induction m as [|[j w] m IH]; cbn [map_sum map_get]; [done|]. pose proof (map_sum_nonneg f m Hf) as Hm.
  case_decide; [intros [= ->]; lia|]. intros Hv%IH. specialize (Hf w). lia.
Qed.
End jsmap.

(** ** Bounded memo tables *)

Module Memo.
Section memo.
Context {K V : Type} `{EqDecision K}.
Context (limit : Z) (f : K → result V).

(** [if (cache.size >= LIMIT) cache.delete(first); cache.set(key, value)] *)
Definition remember (cache : jsmap K V) (key : K) (value : V) : jsmap K V :=
  map_set key value (if bool_decide (limit ≤ map_size cache)%Z then map_delete_first cache else cache).

(** A lookup in the cache, or the computed value remembered; a computation that
    throws is not remembered. *)
Definition recall (key : K) : M (jsmap K V) V := λ cache,
  match map_get key cache with
  | Some v => (cache, Ok v)
  | None => match f key with
            | Ok v => (remember cache key v, Ok v)
            | Throw e => (cache, Throw e)
            end
  end.

(** Every remembered value is the function's. *)
Definition consistent (cache : jsmap K V) : Prop :=
  ∀ k v, map_get k cache = Some v → f k = Ok v.

Definition bounded (cache : jsmap K V) : Prop :=
  map_wf cache ∧ (map_size cache ≤ limit)%Z ∧ consistent cache.

Lemma map_get_delete_first (cache : jsmap K V) k v :
  map_wf cache → map_get k (map_delete_first cache) = Some v → map_get k cache = Some v.
Proof.
  intros Hwf Hk. apply map_elem_get; [done|]. apply map_get_elem in Hk.
  destruct cache; [done|]. by right.
Qed.

Lemma remember_consistent cache k v :
  map_wf cache → consistent cache → f k = Ok v → consistent (remember cache k v).
Proof.
  intros Hwf Hc Hf j w. unfold remember. rewrite map_get_set. case_decide as Hj.
  - intros [= <-]. by subst.
  - case_bool_decide; [|apply Hc]. intros Hg%map_get_delete_first; eauto.
Qed.

Lemma remember_size cache k v :
  (0 < limit)%Z → (map_size cache ≤ limit)%Z → (map_size (remember cache k v) ≤ limit)%Z.
Proof.
  intros Hl Hs. unfold remember. rewrite map_size_set. case_bool_decide as Hf.
  - assert (map_size (map_delete_first cache) = map_size cache - 1)%Z.
    { destruct cache; unfold map_size in *; simpl in *; lia. }
    case_decide; lia.
  - case_decide; lia.
Qed.

Lemma remember_wf cache k v : map_wf cache → map_wf (remember cache k v).
Proof. intros. apply map_wf_set. case_bool_decide; [by apply map_wf_delete_first|done]. Qed.

(** The memo answers as the function does and keeps its bound, whatever was
    evicted. *)
Lemma recall_transparent key cache :
  (0 < limit)%Z → bounded cache →
  (recall key cache).2 = f key ∧ bounded (recall key cache).1.
Proof.
  intros Hl (Hwf & Hs & Hc). unfold recall.
  destruct (map_get key cache) as [v|] eqn:Hg; [split; [by rewrite (Hc _ _ Hg)|done]|].
  destruct (f key) as [v|e] eqn:Hf; [|done]. split; [done|]. simpl.
  unfold bounded. auto using remember_wf, remember_size, remember_consistent.
Qed.

Lemma bounded_nil : (0 < limit)%Z → bounded [].
Proof. intros. split; [apply map_wf_nil|]. split; [unfold map_size; simpl; lia|by intros k v]. Qed.
End memo.
End Memo.
