(* ===== verification/JSValue.v ===== *)
(** * JavaScript values

    The dynamically typed values the sources inspect ([envelope?.payload],
    [typeof x === 'string'], ...) as an inductive type, with the operations of
    the language and of its standard library that the modelled code uses:
    truthiness, [typeof], strict equality on primitives, property access,
    string conversion and [JSON.stringify].  Values are finite trees: a cyclic
    object is not representable.  Strings are sequences of code units below
    256.  An object is the list of its own members in property order. *)
From S2P Require Import Prelude.
From Stdlib Require Import Decimal DecimalString DecimalZ.

(** A number: a safe integer, a finite non-integer given by its shortest
    decimal expansion [m / 10^k] (the digits ECMAScript's Number::toString
    prints), NaN or an infinity. *)
Inductive jnum :=
| JInt (z : Z)
| JDec (m : Z) (k : positive)
| JNaN
| JInfinity (negative : bool).

(** [JHole] is a missing element of a sparse array; it reads as [undefined]. *)
Inductive jval :=
| JUndef
| JHole
| JNull
| JBool (b : bool)
| JNum (n : jnum)
| JStr (s : string)
| JArr (l : list jval)
| JObj (kvs : list (string * jval)).

#[export] Instance jnum_eq_dec : EqDecision jnum.
Proof. solve_decision. Defined.

(** Induction on values with hypotheses for array elements and members. *)
Section jval_induction.
Context (P : jval → Prop).
Context (HUndef : P JUndef) (HHole : P JHole) (HNull : P JNull).
Context (HBool : ∀ b, P (JBool b)) (HNum : ∀ n, P (JNum n)) (HStr : ∀ s, P (JStr s)).
Context (HArr : ∀ l, Forall P l → P (JArr l)).
Context (HObj : ∀ kvs, Forall (λ kv, P kv.2) kvs → P (JObj kvs)).

Fixpoint jval_nested_ind (v : jval) : P v :=
  match v with
  | JUndef => HUndef
  | JHole => HHole
  | JNull => HNull
  | JBool b => HBool b
  | JNum n => HNum n
  | JStr s => HStr s
  | JArr l => HArr l
      ((fix go l : Forall P l :=
          match l with
          | [] => Forall_nil_2 _
          | x :: l => Forall_cons_2 _ _ _ (jval_nested_ind x) (go l)
          end) l)
  | JObj kvs => HObj kvs
      ((fix go l : Forall (λ kv, P kv.2) l :=
          match l with
          | [] => Forall_nil_2 _
          | x :: l => Forall_cons_2 _ _ _ (jval_nested_ind x.2) (go l)
          end) kvs)
  end.
End jval_induction.

(** Values with the same members are equal; the language compares objects by
    identity, which [===] and the keys of maps account for. *)
Fixpoint jval_eqb (v w : jval) : bool :=
  match v, w with
  | JUndef, JUndef | JHole, JHole | JNull, JNull => true
  | JBool b, JBool c => bool_decide (b = c)
  | JNum n, JNum m => bool_decide (n = m)
  | JStr s, JStr t => bool_decide (s = t)
  | JArr l, JArr k =>
      (fix go l k :=
         match l, k with
         | [], [] => true
         | x :: l, y :: k => jval_eqb x y && go l k
         | _, _ => false
         end) l k
  | JObj l, JObj k =>
      (fix go l k :=
         match l, k with
         | [], [] => true
         | x :: l, y :: k => bool_decide (x.1 = y.1) && jval_eqb x.2 y.2 && go l k
         | _, _ => false
         end) l k
  | _, _ => false
  end.

Lemma jval_eqb_eq v w : jval_eqb v w = true ↔ v = w.
Proof.
  revert w. induction v as [| | |b|n|s|l IH|l IH] using jval_nested_ind; intros [| | |c|m|t|k|k]; cbn [jval_eqb]; try done;
    rewrite ?bool_decide_eq_true; try (by split; congruence).
  - revert k. induction IH as [|x l Hx _ IH]; intros [|y k]; try done. rewrite andb_true_iff, Hx, IH. naive_solver.
  - revert k. induction IH as [|[i x] l Hx _ IH]; intros [|[j y] k]; try done. cbn [fst snd] in *.
    rewrite !andb_true_iff, bool_decide_eq_true, Hx, IH. naive_solver.
Qed.

#[export] Instance jval_eq_dec : EqDecision jval.
Proof. refine (λ v w, cast_if (decide (jval_eqb v w = true))); by rewrite <- jval_eqb_eq. Defined.

(** ** Numbers *)

Definition js_finite (n : jnum) : bool :=
  match n with JInt _ | JDec _ _ => true | JNaN | JInfinity _ => false end.

(** [Number.isFinite(v)], [Number.isInteger(v)], [Number.isSafeInteger(v)] *)
Definition is_finite (v : jval) : bool :=
  match v with JNum n => js_finite n | _ => false end.

Definition is_integer (v : jval) : option Z :=
  match v with JNum (JInt z) => Some z | _ => None end.

Definition max_safe : Z := 9007199254740991.

Definition is_safe_integer (v : jval) : option Z :=
  match v with
  | JNum (JInt z) => if bool_decide (Z.abs z ≤ max_safe)%Z then Some z else None
  | _ => None
  end.

Definition Z_to_string (z : Z) : string := NilZero.string_of_int (Z.to_int z).

Fixpoint zeros (n : nat) : string :=
  match n with O => "" | S n => "0" +:+ zeros n end.

(** Number::toString *)
Definition num_to_string (n : jnum) : string :=
  match n with
  | JInt z => Z_to_string z
  | JNaN => "NaN"
  | JInfinity neg => if neg then "-Infinity" else "Infinity"
  | JDec m k =>
      let ds := Z_to_string (Z.abs m) in
      let len := Z.of_nat (String.length ds) in
      let n := (len - Zpos k)%Z in
      let sign := if bool_decide (m < 0)%Z then "-" else "" in
      sign +:+
      (if bool_decide (0 < n)%Z then
         str_take (Z.to_nat n) ds +:+ "." +:+ str_drop (Z.to_nat n) ds
       else if bool_decide (-6 < n)%Z then "0." +:+ zeros (Z.to_nat (- n)) +:+ ds
       else str_take 1 ds +:+
            (if bool_decide (len = 1)%Z then "" else "." +:+ str_drop 1 ds) +:+
            "e-" +:+ Z_to_string (1 - n))
  end.

(** ** Primitive operations *)

Definition truthy (v : jval) : bool :=
  match v with
  | JUndef | JHole | JNull => false
  | JBool b => b
  | JNum n => match n with
              | JInt z => negb (bool_decide (z = 0)%Z)
              | JDec m _ => negb (bool_decide (m = 0)%Z)
              | JNaN => false
              | JInfinity _ => true
              end
  | JStr s => nonempty_str s
  | JArr _ | JObj _ => true
  end.

Definition nullish (v : jval) : bool :=
  match v with JUndef | JHole | JNull => true | _ => false end.

(** [v ?? w] and [v || w] *)
Definition js_coalesce (v w : jval) : jval := if nullish v then w else v.
Definition js_or (v w : jval) : jval := if truthy v then v else w.

Definition is_string (v : jval) : bool :=
  match v with JStr _ => true | _ => false end.
Definition is_array (v : jval) : bool :=
  match v with JArr _ => true | _ => false end.
Definition is_boolean (v : jval) : bool :=
  match v with JBool _ => true | _ => false end.
(** [typeof v === 'object'] *)
Definition is_typeof_object (v : jval) : bool :=
  match v with JNull | JArr _ | JObj _ => true | _ => false end.

(** An object that is neither null nor an array. *)
Definition is_record (v : jval) : bool := truthy v && is_typeof_object v && negb (is_array v).

(** [v === w].  Two objects are different references: the modelled code
    compares freshly parsed or freshly built objects only. *)
Definition strict_eq (v w : jval) : bool :=
  match v, w with
  | (JUndef | JHole), (JUndef | JHole) => true
  | JNull, JNull => true
  | JBool a, JBool b => Bool.eqb a b
  | JNum JNaN, _ => false
  | JNum a, JNum b => bool_decide (a = b)
  | JStr a, JStr b => bool_decide (a = b)
  | _, _ => false
  end.

(** [v === 's'] and [v === n] *)
Definition eq_str (v : jval) (s : string) : bool := strict_eq v (JStr s).
Definition eq_int (v : jval) (z : Z) : bool := strict_eq v (JNum (JInt z)).

(** Property access on own members. [lookup_key] is the member list lookup,
    [prop] is [v.k] on a value already known not to be nullish, [oprop] is
    [v?.k], and [get] is [v.k] with its TypeError. *)
Fixpoint lookup_key (k : string) (kvs : list (string * jval)) : option jval :=
  match kvs with
  | [] => None
  | (k', v) :: kvs => if decide (k = k') then Some v else lookup_key k kvs
  end.

Definition oprop (v : jval) (k : string) : jval :=
  match v with
  | JObj kvs => default JUndef (lookup_key k kvs)
  | _ => JUndef
  end.

Notation prop := oprop (only parsing).

Definition get (v : jval) (k : string) : result jval :=
  if nullish v then Throw (error ("Cannot read properties (reading '" +:+ k +:+ "')"))
  else Ok (oprop v k).

(** [Object.hasOwn(v, k)] *)
Definition has_own (v : jval) (k : string) : bool :=
  match v with JObj kvs => bool_decide (is_Some (lookup_key k kvs)) | _ => false end.

Definition keys (kvs : list (string * jval)) : list string := kvs.*1.

(** [{...v, k: w}] *)
Fixpoint set_key (k : string) (w : jval) (kvs : list (string * jval)) : list (string * jval) :=
  match kvs with
  | [] => [(k, w)]
  | (k', v) :: kvs => if decide (k = k') then (k, w) :: kvs else (k', v) :: set_key k w kvs
  end.

(** [const { k, ...rest } = v] *)
Definition remove_key (k : string) (kvs : list (string * jval)) : list (string * jval) :=
  filter (λ kv, kv.1 ≠ k) kvs.

(** [arr || []] on a value expected to be an array; anything else iterates as
    the empty list. *)
Definition elements_of (v : jval) : list jval :=
  match v with JArr l => l | _ => [] end.

(** [`${v}`] *)
Fixpoint to_string (v : jval) : string :=
  match v with
  | JUndef | JHole => "undefined"
  | JNull => "null"
  | JBool b => if b then "true" else "false"
  | JNum n => num_to_string n
  | JStr s => s
  | JArr l => String.concat "," (map (λ x, if nullish x then "" else to_string x) l)
  | JObj _ => "[object Object]"
  end.

(** Whether converting [v] to a primitive throws: the parsed text gave the object
    an own member [toString], which no JSON value of it makes callable, or the
    object is an array that holds such an object. *)
Fixpoint no_primitive (v : jval) : bool :=
  match v with
  | JObj kvs => bool_decide (is_Some (lookup_key "toString" kvs))
  | JArr l => existsb no_primitive l
  | _ => false
  end.

Definition cannot_convert : jerror := error "Cannot convert object to primitive value".

(** ** JSON.stringify *)

Definition hex_digit (n : N) : Ascii.ascii :=
  Ascii.ascii_of_N (if bool_decide (n < 10)%N then 48 + n else 87 + n).

Definition backslash : Ascii.ascii := Ascii.ascii_of_N 92.
Definition dquote : Ascii.ascii := Ascii.ascii_of_N 34.

(** QuoteJSONString, one code unit *)
Definition quote_char (c : Ascii.ascii) : string :=
  let n := Ascii.N_of_ascii c in
  if bool_decide (n = 8)%N then String backslash "b"
  else if bool_decide (n = 9)%N then String backslash "t"
  else if bool_decide (n = 10)%N then String backslash "n"
  else if bool_decide (n = 12)%N then String backslash "f"
  else if bool_decide (n = 13)%N then String backslash "r"
  else if bool_decide (n = 34)%N then String backslash (String dquote "")
  else if bool_decide (n = 92)%N then String backslash (String backslash "")
  else if bool_decide (n < 32)%N then
    String backslash ("u00" +:+ String (hex_digit (n / 16)) (String (hex_digit (n mod 16)) ""))
  else String c "".

Fixpoint quote_body (s : string) : string :=
  match s with
  | EmptyString => EmptyString
  | String c s => quote_char c +:+ quote_body s
  end.

Definition quote (s : string) : string :=
  String dquote "" +:+ quote_body s +:+ String dquote "".

(** [JSON.stringify(v)], [None] standing for the result [undefined] *)
Fixpoint stringify (v : jval) : option string :=
  match v with
  | JUndef | JHole => None
  | JNull => Some "null"
  | JBool b => Some (if b then "true" else "false")
  | JNum n => Some (if js_finite n then num_to_string n else "null")
  | JStr s => Some (quote s)
  | JArr l =>
      Some ("[" +:+ String.concat "," (map (λ x, default "null" (stringify x)) l) +:+ "]")
  | JObj kvs =>
      Some ("{" +:+ String.concat ","
              (flat_map (λ kv, match stringify kv.2 with
                               | Some s => [quote kv.1 +:+ ":" +:+ s]
                               | None => []
                               end) kvs) +:+ "}")
  end.

(** ** Own property order *)

Definition is_digit (c : Ascii.ascii) : bool :=
  let n := Ascii.N_of_ascii c in bool_decide (48 ≤ n ∧ n ≤ 57)%N.

Fixpoint digits_value (acc : Z) (s : string) : Z :=
  match s with
  | EmptyString => acc
  | String c s => digits_value (10 * acc + (Z.of_N (Ascii.N_of_ascii c) - 48)) s
  end.

(** An array index: the canonical decimal form of an integer in
    [0, 2^32 - 2]. *)
Definition array_index (s : string) : option Z :=
  if str_forall is_digit s && nonempty_str s && (bool_decide (String.length s ≤ 10)) then
    let z := digits_value 0 s in
    if bool_decide (Z_to_string z = s) && bool_decide (z < 4294967295)%Z then Some z else None
  else None.

Definition index_leb (a b : string * jval) : bool :=
  bool_decide (default 0 (array_index a.1) ≤ default 0 (array_index b.1))%Z.

(** The property order of an object created with the members [kvs] in that
    order: array indices ascending, then the other names in creation order. *)
Definition property_order (kvs : list (string * jval)) : list (string * jval) :=
  sort_by index_leb (filter (λ kv, is_Some (array_index kv.1)) kvs) ++
  filter (λ kv, ¬ is_Some (array_index kv.1)) kvs.

(** [Object.fromEntries] on entries with distinct names. *)
Definition from_entries (kvs : list (string * jval)) : list (string * jval) :=
  property_order kvs.

Lemma property_order_perm kvs : property_order kvs ≡ₚ kvs.
Proof.
  unfold property_order. rewrite sort_by_perm.
  induction kvs as [|kv kvs IH]; [done|].
  rewrite !filter_cons. repeat case_decide; try tauto; simpl.
  - by rewrite IH.
  - by rewrite <- Permutation_middle, IH.
Qed.

(** Members under distinct names. *)
Lemma keys_unique (kvs : list (string * jval)) x y :
  NoDup (keys kvs) → x ∈ kvs → y ∈ kvs → x.1 = y.1 → x = y.
Proof.
  unfold keys. intros Hnd Hx Hy Hk. apply list_elem_of_lookup in Hx as [i Hi], Hy as [j Hj].
  assert (i = j) as <-; [|by simplify_eq].
  eapply (NoDup_lookup kvs.*1 i j x.1); [done|rewrite list_lookup_fmap, Hi; done|].
  by rewrite list_lookup_fmap, Hj, Hk.
Qed.

Lemma perm_same_keys (a b : list (string * jval)) : a ≡ₚ b → keys a = keys b → NoDup (keys a) → a = b.
Proof.
  revert b. induction a as [|x a IH]; intros [|y b] Hp Hk Hnd; try done.
  assert (x = y) as ->.
  { apply (keys_unique (y :: b)); [by rewrite <- Hk|rewrite <- Hp; by left|by left|by injection Hk]. }
  apply Permutation_cons_inv in Hp. injection Hk as Hk. apply NoDup_cons in Hnd as [_ Hnd]. f_equal. by apply IH.
Qed.

(** ** Comparison with an integer *)

(** [n < z], [n >= z], ... all false on NaN *)
Definition num_compare (n : jnum) (z : Z) : option comparison :=
  match n with
  | JInt x => Some (Z.compare x z)
  | JDec m k => Some (Z.compare m (z * 10 ^ Zpos k))
  | JNaN => None
  | JInfinity neg => Some (if neg then Lt else Gt)
  end.

Definition num_lt (n : jnum) (z : Z) : bool :=
  match num_compare n z with Some Lt => true | _ => false end.
Definition num_ge (n : jnum) (z : Z) : bool :=
  match num_compare n z with Some (Eq | Gt) => true | _ => false end.

(** [({ a = d }) => ...]: a default replaces [undefined] only *)
Definition with_default (v d : jval) : jval :=
  match v with JUndef => d | _ => v end.

(** [typeof v === 'string' ? v : ''] *)
Definition string_or_empty (v : jval) : string :=
  match v with JStr s => s | _ => "" end.

Lemma eq_int_true v z : eq_int v z = true → v = JNum (JInt z).
Proof.
  destruct v as [| | | |[]| | |]; cbn; try done. by intros [= ->]%bool_decide_eq_true.
Qed.

Lemma eq_str_true v s : eq_str v s = true → v = JStr s.
Proof.
  destruct v as [| | | |[]| | |]; cbn; try done. by intros ->%bool_decide_eq_true.
Qed.

(** ** Maps and sets of values *)

(** Keys of a Map and members of a Set are compared by SameValueZero. *)
Definition same_key (v w : jval) : bool :=
  strict_eq v w || match v, w with JNum JNaN, JNum JNaN => true | _, _ => false end.

(** [map.get(k)] of a Map given by the entries set on it, in order: a later
    entry replaces an earlier one. *)
Definition last_entry {A} (m : list (jval * A)) (k : jval) : option A :=
  snd <$> last (List.filter (λ e, same_key e.1 k) m).

(** [set.has(v)] *)
Definition set_has (s : list jval) (v : jval) : bool := existsb (λ x, same_key x v) s.

(** [...] of [flatMap]: an array is spread, anything else is one element. *)
Definition spread (v : jval) : list jval := match v with JArr l => l | _ => [v] end.

Lemma last_entry_in {A} (m : list (jval * A)) k a :
  last_entry m k = Some a → ∃ k', (k', a) ∈ m ∧ same_key k' k = true.
Proof.
  unfold last_entry. destruct (last _) as [[k' a']|] eqn:Hl; [|done]. cbn. intros [= <-].
  apply last_Some_elem_of, list_elem_of_In, filter_In in Hl as [Hin Hk]. exists k'.
  split; [by apply list_elem_of_In|done].
Qed.
