(* ===== verification/JsonPrint.v ===== *)
(** * Injectivity of JSON.stringify

    The text printed for a value determines the value, for JSON values whose
    numbers are safe integers.  Each printed form is a prefix code, so the
    statements carry the text that follows. *)
From S2P Require Import Prelude JSValue.
From Stdlib Require Import Decimal DecimalString DecimalZ.

(** JSON values without fractions, with distinct member names. *)
Fixpoint json_int (v : jval) : bool :=
  match v with
  | JUndef | JHole => false
  | JNull | JBool _ | JStr _ => true
  | JNum (JInt _) => true
  | JNum _ => false
  | JArr l => forallb json_int l
  | JObj kvs => forallb (λ kv, json_int kv.2) kvs && bool_decide (NoDup (keys kvs))
  end.

Definition out (v : jval) : string := default "" (stringify v).

Lemma app_cons c a b : String c a +:+ b = String c (a +:+ b).
Proof. done. Qed.
Lemma app_nil_l b : "" +:+ b = b.
Proof. done. Qed.

Create Rewrite HintDb text.
#[export] Hint Rewrite string_app_assoc app_cons app_nil_l : text.
Ltac text := autorewrite with text in *.

Lemma json_int_stringify v : json_int v = true → stringify v = Some (out v).
Proof. destruct v; done. Qed.

(** ** Delimiters *)

Definition delim_char (c : Ascii.ascii) : bool :=
  let n := Ascii.N_of_ascii c in bool_decide (n = 44 ∨ n = 93 ∨ n = 125)%N.

Definition delimited (s : string) : bool :=
  match s with EmptyString => true | String c _ => delim_char c end.

Definition starts_value (s : string) : Prop :=
  ∃ c r, s = String c r ∧ delim_char c = false.

(** ** Strings *)

(** Decoder of one printed code unit. *)
Definition unhex (c : Ascii.ascii) : N :=
  let n := Ascii.N_of_ascii c in if bool_decide (n < 58)%N then n - 48 else n - 87.

Definition unquote_char (s : string) : option (Ascii.ascii * string) :=
  match s with
  | EmptyString => None
  | String c r =>
      if decide (c = backslash) then
        match r with
        | EmptyString => None
        | String e r =>
            let n := Ascii.N_of_ascii e in
            let lit z := Some (Ascii.ascii_of_N z, r) in
            if decide (n = 98)%N then lit 8%N
            else if decide (n = 116)%N then lit 9%N
            else if decide (n = 110)%N then lit 10%N
            else if decide (n = 102)%N then lit 12%N
            else if decide (n = 114)%N then lit 13%N
            else if decide (n = 117)%N then
              match r with
              | String _ (String _ (String h (String l r))) =>
                  Some (Ascii.ascii_of_N (16 * unhex h + unhex l), r)
              | _ => None
              end
            else Some (e, r)
        end
      else Some (c, r)
  end.

Lemma unquote_quote_char c x : unquote_char (quote_char c +:+ x) = Some (c, x).
Proof. destruct c as [[] [] [] [] [] [] [] []]; reflexivity. Qed.

Lemma quote_char_head c : ∃ d r, quote_char c = String d r ∧ d ≠ dquote.
Proof. destruct c as [[] [] [] [] [] [] [] []]; by do 2 eexists. Qed.

Lemma quote_body_inj s1 s2 x y :
  quote_body s1 +:+ String dquote x = quote_body s2 +:+ String dquote y → s1 = s2 ∧ x = y.
Proof.
  revert s2. induction s1 as [|c1 s1 IH]; intros [|c2 s2]; simpl; text; intros H.
  - by simplify_eq.
  - destruct (quote_char_head c2) as (d & r & Hd & ?). rewrite Hd in H. text. by simplify_eq.
  - destruct (quote_char_head c1) as (d & r & Hd & ?). rewrite Hd in H. text. by simplify_eq.
  - apply (f_equal unquote_char) in H. rewrite !unquote_quote_char in H. simplify_eq.
    by edestruct IH as [-> ->].
Qed.

Lemma quote_inj s1 s2 x y : quote s1 +:+ x = quote s2 +:+ y → s1 = s2 ∧ x = y.
Proof. unfold quote. text. intros [=H]. by apply quote_body_inj in H. Qed.

(** ** Numbers *)

Definition num_char (c : Ascii.ascii) : bool :=
  let n := Ascii.N_of_ascii c in bool_decide (n = 45 ∨ 48 ≤ n ∧ n ≤ 57)%N.

Lemma uint_chars d : str_forall num_char (NilEmpty.string_of_uint d) = true.
Proof. induction d; done. Qed.

Lemma int_chars z : str_forall num_char (Z_to_string z) = true.
Proof.
  unfold Z_to_string, NilZero.string_of_int, NilZero.string_of_uint.
  destruct (Z.to_int z) as [d|d]; destruct d; simpl; try done; apply uint_chars.
Qed.

Lemma int_nonempty z : Z_to_string z ≠ "".
Proof.
  unfold Z_to_string, NilZero.string_of_int, NilZero.string_of_uint.
  destruct (Z.to_int z) as [d|d]; destruct d; done.
Qed.

Lemma Z_to_int_not_nil z : Z.to_int z ≠ Pos Nil ∧ Z.to_int z ≠ Neg Nil.
Proof.
  destruct z as [|p|p]; simpl; [done| |];
    split; intros [= H]; by apply (DecimalPos.Unsigned.to_uint_nonnil p).
Qed.

Lemma Z_to_string_inj z1 z2 : Z_to_string z1 = Z_to_string z2 → z1 = z2.
Proof.
  unfold Z_to_string. intros H. apply DecimalZ.to_int_inj.
  apply (f_equal NilZero.int_of_string) in H.
  rewrite !NilZero.isi in H by apply Z_to_int_not_nil. by simplify_eq.
Qed.

(** Maximal munch: a run of characters of a class is determined by what
    follows it. *)
Lemma munch (p : Ascii.ascii → bool) a b x y :
  str_forall p a = true → str_forall p b = true →
  (∀ c r, x = String c r → p c = false) → (∀ c r, y = String c r → p c = false) →
  a +:+ x = b +:+ y → a = b ∧ x = y.
Proof.
  revert b. induction a as [|c a IH]; intros [|d b] Ha Hb Hx Hy H; simpl in *; text.
  - done.
  - bool_hyps. rewrite (Hx d (b +:+ y)) in *; done.
  - bool_hyps. rewrite (Hy c (a +:+ x)) in *; done.
  - bool_hyps. simplify_eq. by edestruct IH as [-> ->].
Qed.

Lemma delim_not_num c : delim_char c = true → num_char c = false.
Proof. destruct c as [[] [] [] [] [] [] [] []]; done. Qed.

Lemma num_not_delim c : num_char c = true → delim_char c = false.
Proof. destruct c as [[] [] [] [] [] [] [] []]; done. Qed.

Lemma int_inj z1 z2 x y :
  delimited x = true → delimited y = true →
  Z_to_string z1 +:+ x = Z_to_string z2 +:+ y → z1 = z2 ∧ x = y.
Proof.
  intros Hx Hy H. apply (munch num_char) in H as [H ->]; eauto using int_chars.
  - by apply Z_to_string_inj in H.
  - intros c r ->. by apply delim_not_num.
  - intros c r ->. by apply delim_not_num.
Qed.

(** ** Sequences *)

Section join.
Context {A : Type} (p : A → string) (close : Ascii.ascii).
Context (Hclose : delim_char close = true) (Hcomma : close ≠ ","%char).

Definition joined (l : list A) (x : string) : string :=
  String.concat "," (map p l) +:+ String close x.

Lemma joined_cons a l x :
  joined (a :: l) x =
    p a +:+ match l with [] => String close x | _ => "," +:+ joined l x end.
Proof. unfold joined. destruct l; simpl; by text. Qed.

Lemma joined_inj l1 l2 x y :
  Forall (λ a, starts_value (p a)) l1 → Forall (λ a, starts_value (p a)) l2 →
  Forall (λ a, ∀ b x y, b ∈ l2 → delimited x = true → delimited y = true →
                        p a +:+ x = p b +:+ y → a = b ∧ x = y) l1 →
  joined l1 x = joined l2 y → l1 = l2 ∧ x = y.
Proof.
  intros H1. revert l2. induction H1 as [|a l1 (c & r & Ha & Hc) Hl1 IH];
    intros l2 H2 Hinj; destruct H2 as [|b l2 (d & q & Hb & Hd) Hl2]; intros H.
  - unfold joined in H. simpl in H. text. by simplify_eq.
  - rewrite joined_cons, Hb in H. unfold joined in H. simpl in H. text. simplify_eq. congruence.
  - rewrite joined_cons, Ha in H. unfold joined in H. simpl in H. text. simplify_eq. congruence.
  - rewrite !joined_cons in H. apply Forall_cons in Hinj as [Hab Hinj].
    apply Hab in H as [-> H]; [|apply list_elem_of_here|by destruct l1|by destruct l2].
    destruct l1 as [|a1 l1], l2 as [|b1 l2]; text; simplify_eq; try done.
    apply IH in H as [-> ->]; [done|done|].
    eapply Forall_impl; [exact Hinj|]. simpl. intros a' Ha' b' x' y' Hb'.
    apply Ha'. by right.
Qed.
End join.

(** ** Values *)

Definition member_out (kv : string * jval) : string := quote kv.1 +:+ ":" +:+ out kv.2.

Lemma out_arr l x :
  json_int (JArr l) = true → out (JArr l) +:+ x = "[" +:+ joined out "]" l x.
Proof.
  intros Hl. unfold out at 1, joined. simpl. text.
  rewrite (map_ext_in _ out); [done|]. intros a Ha. simpl in Hl.
  rewrite forallb_forall in Hl. unfold out. by rewrite (json_int_stringify a) by auto.
Qed.

Lemma out_obj kvs x :
  json_int (JObj kvs) = true → out (JObj kvs) +:+ x = "{" +:+ joined member_out "}" kvs x.
Proof.
  intros Hl. unfold out, joined. simpl in *. text. bool_hyps.
  assert (Hm : flat_map (λ kv : string * jval, match stringify kv.2 with
             | Some s => [quote kv.1 +:+ ":" +:+ s] | None => [] end) kvs = map member_out kvs);
    [|by rewrite Hm].
  clear H0. induction kvs as [|kv kvs IH]; [done|]. simpl in *. bool_hyps.
  rewrite (json_int_stringify kv.2) by done. simpl. by rewrite IH.
Qed.

Lemma out_starts v : json_int v = true → starts_value (out v).
Proof.
  destruct v as [| | |[]|[z| | |]|s|l|kvs]; try done; intros _;
    try (by unfold out; simpl; do 2 eexists).
  unfold out; simpl. pose proof (int_chars z) as Hc. pose proof (int_nonempty z) as Hn.
  destruct (Z_to_string z) as [|c r]; [done|]. simpl in Hc. bool_hyps.
  do 2 eexists. split; [done|]. by apply num_not_delim.
Qed.

(** The first character of a printed value tells its kind. *)
Definition head_kind (v : jval) : N :=
  match v with
  | JNull => 110 | JBool true => 116 | JBool false => 102
  | JStr _ => 34 | JArr _ => 91 | JObj _ => 123 | JNum _ => 48 | _ => 0
  end.

Lemma out_head v : json_int v = true →
  ∃ c r, out v = String c r ∧
    (if num_char c then 48%N else Ascii.N_of_ascii c) = head_kind v.
Proof.
  destruct v as [| | |[]|[z| | |]|s|l|kvs]; try done; intros _;
    try (by unfold out; simpl; do 2 eexists).
  unfold out; simpl. pose proof (int_chars z) as Hc. pose proof (int_nonempty z) as Hn.
  destruct (Z_to_string z) as [|c r]; [done|]. simpl in Hc. bool_hyps.
  do 2 eexists. split; [done|]. by case_match.
Qed.

Lemma out_same_head v w x y :
  json_int v = true → json_int w = true → out v +:+ x = out w +:+ y →
  head_kind v = head_kind w.
Proof.
  intros Hv Hw H. destruct (out_head v Hv) as (c & r & Hc & <-).
  destruct (out_head w Hw) as (d & q & Hd & <-). rewrite Hc, Hd in H. text. by simplify_eq.
Qed.

Lemma out_inj v w x y :
  json_int v = true → json_int w = true → delimited x = true → delimited y = true →
  out v +:+ x = out w +:+ y → v = w ∧ x = y.
Proof.
  revert w x y. induction v as [| | |b|n|s|l IH|kvs IH] using jval_nested_ind;
    intros w x y Hv Hw Hx Hy H;
    pose proof (out_same_head _ _ _ _ Hv Hw H) as Hk; try done;
    destruct w as [| | |b'|n'|s'|l'|kvs']; try done;
    try (by destruct b'); try (by destruct b).
  - unfold out in H. simpl in H. text. by simplify_eq.
  - destruct b, b'; try done; unfold out in H; simpl in H; text; by simplify_eq.
  - destruct n as [z| | |], n' as [z'| | |]; try done.
    apply int_inj in H; [|done|done]. by destruct H as [-> ->].
  - apply quote_inj in H. by destruct H as [-> ->].
  - rewrite !out_arr in H by done. text. simpl in Hv, Hw.
    rewrite forallb_forall in Hv, Hw.
    simplify_eq. apply joined_inj in H as [-> ->]; try done.
    + apply Forall_forall. intros a Ha. apply out_starts, Hv. by apply list_elem_of_In.
    + apply Forall_forall. intros a Ha. apply out_starts, Hw. by apply list_elem_of_In.
    + rewrite Forall_forall in IH |- *. intros a Ha b x' y' Hb.
      apply IH; [done|apply Hv|apply Hw]; by apply list_elem_of_In.
  - rewrite !out_obj in H by done. text. simpl in Hv, Hw.
    apply andb_prop in Hv as [Hv _], Hw as [Hw _].
    rewrite forallb_forall in Hv, Hw. rewrite Forall_forall in IH.
    simplify_eq. apply joined_inj in H as [-> ->]; try done.
    + apply Forall_forall. intros a Ha. by do 2 eexists.
    + apply Forall_forall. intros a Ha. by do 2 eexists.
    + apply Forall_forall. intros [k u] Hu [k' u'] x' y' Hu' Hx' Hy' E.
      unfold member_out in E. simpl in E. text. apply quote_inj in E as [-> E]. text. simplify_eq.
      destruct (IH (k', u) Hu u' x' y') as [<- ->]; try done.
      * apply Hv. by apply list_elem_of_In.
      * apply (Hw (k', u')). by apply list_elem_of_In.
Qed.

(** Two JSON values printed alike are the same value. *)
Lemma stringify_inj v w :
  json_int v = true → json_int w = true → stringify v = stringify w → v = w.
Proof.
  intros Hv Hw H. destruct (out_inj v w "" "") as [? _]; try done.
  unfold out. by rewrite H.
Qed.
