(* ===== verification/Dates.v ===== *)
(** * Date arithmetic

    [Date.parse] on the internet timestamp shape
    [YYYY-MM-DDTHH:MM:SS(.fff)?(Z|±HH:MM)] and [Date.prototype.toISOString],
    as the ECMAScript engine computes them: a day of month up to 31 is accepted
    and normalised, hour 24 is accepted only as 24:00:00, the zone offset is
    not range checked, fractions are cut to milliseconds.  Time values are
    milliseconds since the epoch; other date formats are a parameter of
    [Host.Host]. *)
From S2P Require Import Prelude JSValue.
#[local] Open Scope Z_scope.

(** ** Civil calendar *)

Definition is_leap (y : Z) : bool :=
  (y mod 4 =? 0) && (negb (y mod 100 =? 0) || (y mod 400 =? 0)).

Definition days_in_month (y m : Z) : Z :=
  if m =? 2 then (if is_leap y then 29 else 28)
  else if bool_decide (m ∈ [4; 6; 9; 11]) then 30 else 31.

(** Days since 1970-01-01 of a date; [d] may exceed the month (MakeDay). *)
Definition days_from_civil (y m d : Z) : Z :=
  let y' := if m <=? 2 then y - 1 else y in
  let era := y' / 400 in
  let yoe := y' mod 400 in
  let mp := if 2 <? m then m - 3 else m + 9 in
  let doy := (153 * mp + 2) / 5 + d - 1 in
  let doe := yoe * 365 + yoe / 4 - yoe / 100 + doy in
  era * 146097 + doe - 719468.

(** Year, month and day of a day number. *)
Definition year_of_era (doe : Z) : Z :=
  (doe - doe / 1460 + doe / 36524 - doe / 146096) / 365.

Definition civil_from_days (z : Z) : Z * Z * Z :=
  let z := z + 719468 in
  let era := z / 146097 in
  let doe := z mod 146097 in
  let yoe := year_of_era doe in
  let doy := doe - (365 * yoe + yoe / 4 - yoe / 100) in
  let mp := (5 * doy + 2) / 153 in
  let d := doy - (153 * mp + 2) / 5 + 1 in
  let m := if mp <? 10 then mp + 3 else mp - 9 in
  (if m <=? 2 then yoe + era * 400 + 1 else yoe + era * 400, m, d).

(** A property of all integers of a range, by evaluation. *)
Definition all_below (n : Z) (p : Z → bool) : bool := forallb p (seqZ 0 n).

Lemma all_below_spec n p x : all_below n p = true → 0 ≤ x < n → p x = true.
Proof.
  unfold all_below. rewrite forallb_forall. intros H Hx. apply H.
  apply list_elem_of_In, elem_of_seqZ. lia.
Qed.

(** Length of a year counted from 1 March, [yoe] being its index in the era. *)
Definition march_year_length (yoe : Z) : Z := if is_leap (yoe + 1) then 366 else 365.

Lemma sub_div_mono a b c : 0 < c → a ≤ b → a - a / c ≤ b - b / c.
Proof.
  intros Hc Hab. assert (b / c ≤ a / c + (b - a)); [|lia].
  rewrite <- Z.div_add by lia. apply Z.div_le_mono; nia.
Qed.

Lemma year_of_era_mono a b : a ≤ b → year_of_era a ≤ year_of_era b.
Proof.
  intros Hab. unfold year_of_era. apply Z.div_le_mono; [lia|].
  pose proof (sub_div_mono a b 1460 ltac:(lia) Hab) as H1.
  assert (H2 : a / 36524 ≤ b / 36524) by (apply Z.div_le_mono; lia).
  replace 146096 with (36524 * 4) by done. rewrite <- !Z.div_div by lia.
  revert H2. generalize (a / 36524) (b / 36524). intros p q H2.
  pose proof (sub_div_mono p q 4 ltac:(lia) H2). lia.
Qed.

(** The year found is right at both ends of a year, so it is right within. *)
Lemma year_of_era_correct yoe doy :
  0 ≤ yoe < 400 → 0 ≤ doy < march_year_length yoe →
  year_of_era (yoe * 365 + yoe / 4 - yoe / 100 + doy) = yoe.
Proof.
  assert (H : all_below 400 (λ yoe,
    (year_of_era (yoe * 365 + yoe / 4 - yoe / 100 + 0) =? yoe) &&
    (year_of_era (yoe * 365 + yoe / 4 - yoe / 100 + (march_year_length yoe - 1)) =? yoe)) = true)
    by (vm_compute; done).
  intros Hy Hd. apply (all_below_spec _ _ _ H) in Hy as Hb. cbv beta in Hb.
  apply andb_prop in Hb as [Hlo Hhi]. apply Z.eqb_eq in Hlo, Hhi.
  apply Z.le_antisymm; [rewrite <- Hhi at 4|rewrite <- Hlo at 1]; apply year_of_era_mono; lia.
Qed.

Lemma march_year_bound yoe doy :
  0 ≤ yoe < 400 → 0 ≤ doy < march_year_length yoe →
  0 ≤ yoe * 365 + yoe / 4 - yoe / 100 + doy < 146097.
Proof.
  assert (H : all_below 400 (λ yoe,
    yoe * 365 + yoe / 4 - yoe / 100 + march_year_length yoe <=? 146097) = true)
    by (vm_compute; done).
  intros Hy Hd. apply (all_below_spec _ _ _ H) in Hy as Hb. cbv beta in Hb. bool_hyps.
  Z.div_mod_to_equations. lia.
Qed.

Lemma month_of_march_day mp d :
  0 ≤ mp < 12 → 1 ≤ d ≤ (if mp =? 11 then 29 else days_in_month 1 (if mp <? 10 then mp + 3 else mp - 9)) →
  (5 * ((153 * mp + 2) / 5 + d - 1) + 2) / 153 = mp.
Proof.
  assert (H : all_below 12 (λ mp, all_below 31 (λ d,
     implb (d + 1 <=? (if mp =? 11 then 29 else days_in_month 1 (if mp <? 10 then mp + 3 else mp - 9)))
       ((5 * ((153 * mp + 2) / 5 + (d + 1) - 1) + 2) / 153 =? mp))) = true) by (vm_compute; done).
  intros Hm Hd. assert (Hd' : 0 ≤ d - 1 < 31).
  { revert Hd. unfold days_in_month. repeat case_match; lia. }
  pose proof (all_below_spec _ _ _ (all_below_spec _ _ _ H Hm) Hd') as Hi. cbv beta in Hi.
  replace (d - 1 + 1) with d in Hi by lia.
  apply Z.eqb_eq. destruct (d <=? _) eqn:E in Hi; [done|]. apply Z.leb_gt in E. lia.
Qed.

(** The Gregorian calendar repeats every 400 years. *)
Lemma is_leap_period z k : is_leap (z + 400 * k) = is_leap z.
Proof.
  unfold is_leap.
  replace (z + 400 * k) with (z + (100 * k) * 4) at 1 by lia.
  replace (z + 400 * k) with (z + (4 * k) * 100) at 1 by lia.
  replace (z + 400 * k) with (z + k * 400) by lia.
  by rewrite !Z_mod_plus_full.
Qed.

(** Evaluate the closed guards of conditionals. *)
Ltac eval_guards :=
  repeat match goal with
  | |- context [if ?b then _ else _] =>
      let v := eval vm_compute in b in
      match v with true => change b with true | false => change b with false end; cbv iota
  | H : context [if ?b then _ else _] |- _ =>
      let v := eval vm_compute in b in
      match v with true => change b with true in H | false => change b with false in H end;
      cbv iota in H
  end.

Lemma march_day_range y m d :
  1 ≤ m ≤ 12 → 1 ≤ d ≤ days_in_month y m →
  let y' := if m <=? 2 then y - 1 else y in
  let mp := if 2 <? m then m - 3 else m + 9 in
  0 ≤ mp < 12 ∧
  1 ≤ d ≤ (if mp =? 11 then 29 else days_in_month 1 (if mp <? 10 then mp + 3 else mp - 9)) ∧
  0 ≤ (153 * mp + 2) / 5 + d - 1 < march_year_length (y' mod 400).
Proof.
  intros Hm Hd. unfold march_year_length.
  assert (Hl : is_leap ((if m <=? 2 then y - 1 else y) mod 400 + 1)
               = is_leap ((if m <=? 2 then y - 1 else y) + 1)).
  { set (y' := if m <=? 2 then _ else _). rewrite <- (is_leap_period _ (y' / 400)).
    f_equal. pose proof (Z.div_mod y' 400). lia. }
  rewrite Hl. clear Hl.
  assert (Hcases : m = 1 ∨ m = 2 ∨ m = 3 ∨ m = 4 ∨ m = 5 ∨ m = 6 ∨ m = 7 ∨ m = 8 ∨
                   m = 9 ∨ m = 10 ∨ m = 11 ∨ m = 12) by lia.
  destruct_or! Hcases; subst m; unfold days_in_month in *; cbv zeta; eval_guards;
    try replace (y - 1 + 1) with y by lia;
    destruct (is_leap y); try destruct (is_leap (y + 1)); eval_guards;
    Z.div_mod_to_equations; lia.
Qed.

(** Day numbers and valid calendar dates correspond. *)
Lemma civil_from_days_from_civil y m d :
  1 ≤ m ≤ 12 → 1 ≤ d ≤ days_in_month y m →
  civil_from_days (days_from_civil y m d) = (y, m, d).
Proof.
  intros Hm Hd. destruct (march_day_range y m d Hm Hd) as (Hmp & Hd' & Hdoy).
  unfold civil_from_days, days_from_civil.
  set (y' := if m <=? 2 then y - 1 else y) in *.
  set (mp := if 2 <? m then m - 3 else m + 9) in *.
  set (doy := (153 * mp + 2) / 5 + d - 1) in *.
  pose proof (Z.mod_pos_bound y' 400 ltac:(lia)) as Hyoe.
  set (yoe := y' mod 400) in *.
  pose proof (march_year_bound _ _ Hyoe Hdoy) as Hdoe.
  set (doe := yoe * 365 + yoe / 4 - yoe / 100 + doy) in *.
  replace (y' / 400 * 146097 + doe - 719468 + 719468) with (doe + y' / 400 * 146097) by lia.
  rewrite Z.div_add, Z_mod_plus_full by lia.
  rewrite (Z.div_small doe), (Z.mod_small doe) by lia.
  replace (year_of_era doe) with yoe by (symmetry; by apply year_of_era_correct).
  replace (doe - (365 * yoe + yoe / 4 - yoe / 100)) with doy by (unfold doe; lia).
  pose proof (month_of_march_day _ _ Hmp Hd') as Hmm. fold doy in Hmm. rewrite Hmm.
  assert (Hy' : yoe + (0 + y' / 400) * 400 = y')
    by (unfold yoe; pose proof (Z.div_mod y' 400); lia).
  rewrite Hy'.
  assert (Hm' : (if mp <? 10 then mp + 3 else mp - 9) = m)
    by (unfold mp; destruct (Z.ltb_spec 2 m);
        [destruct (Z.ltb_spec (m - 3) 10)|destruct (Z.ltb_spec (m + 9) 10)]; lia).
  rewrite Hm'. replace (doy - (153 * mp + 2) / 5 + 1) with d by (unfold doy; lia).
  unfold y'. destruct (m <=? 2); [|done]. by replace (y - 1 + 1) with y by lia.
Qed.

(** Every day of an era lies in one of its years. *)
Lemma era_decompose doe : 0 ≤ doe < 146097 →
  ∃ yoe doy, 0 ≤ yoe < 400 ∧ 0 ≤ doy < march_year_length yoe ∧
             doe = yoe * 365 + yoe / 4 - yoe / 100 + doy.
Proof.
  intros Hdoe.
  assert (Hn : ∀ n : nat, Z.of_nat n ≤ 400 →
    doe < Z.of_nat n * 365 + Z.of_nat n / 4 - Z.of_nat n / 100 + (if Z.of_nat n =? 400 then 1 else 0) →
    ∃ yoe doy, 0 ≤ yoe < Z.of_nat n ∧ 0 ≤ doy < march_year_length yoe ∧
               doe = yoe * 365 + yoe / 4 - yoe / 100 + doy).
  { induction n as [|n IH]; intros Hn Hlt.
    { assert (doe < 0) by exact Hlt. lia. }
    assert (Hstart : all_below 400 (λ y, (y + 1) * 365 + (y + 1) / 4 - (y + 1) / 100 +
        (if y + 1 =? 400 then 1 else 0) =? y * 365 + y / 4 - y / 100 + march_year_length y) = true)
      by (vm_compute; done).
    apply (all_below_spec _ _ (Z.of_nat n)) in Hstart; [|lia]. apply Z.eqb_eq in Hstart.
    replace (Z.of_nat (S n)) with (Z.of_nat n + 1) in * by lia. rewrite Hstart in Hlt.
    destruct (Z.le_gt_cases (Z.of_nat n * 365 + Z.of_nat n / 4 - Z.of_nat n / 100) doe) as [Hge|Hge].
    - eexists (Z.of_nat n), (doe - (Z.of_nat n * 365 + Z.of_nat n / 4 - Z.of_nat n / 100)).
      repeat split; lia.
    - destruct IH as (yoe & doy & ? & ? & ?); [lia|destruct (Z.eqb_spec (Z.of_nat n) 400); lia|].
      exists yoe, doy. repeat split; lia. }
  destruct (Hn 400%nat) as (yoe & doy & Hy & Hd & ->); [lia|apply Hdoe|].
  by exists yoe, doy.
Qed.

Lemma march_day_split doy : 0 ≤ doy < 366 →
  let mp := (5 * doy + 2) / 153 in
  let d := doy - (153 * mp + 2) / 5 + 1 in
  0 ≤ mp < 12 ∧ 1 ≤ d ∧
  d ≤ (if mp =? 11 then (if doy =? 365 then 29 else 28)
       else days_in_month 1 (if mp <? 10 then mp + 3 else mp - 9)).
Proof.
  assert (H : all_below 366 (λ doy, let mp := (5 * doy + 2) / 153 in
    let d := doy - (153 * mp + 2) / 5 + 1 in
    (0 <=? mp) && (mp <? 12) && (1 <=? d) &&
    (d <=? (if mp =? 11 then (if doy =? 365 then 29 else 28)
            else days_in_month 1 (if mp <? 10 then mp + 3 else mp - 9)))) = true)
    by (vm_compute; done).
  intros Hd. apply (all_below_spec _ _ _ H) in Hd. cbv beta zeta in Hd. bool_hyps.
  cbv zeta. lia.
Qed.

Lemma march_year_length_le yoe : march_year_length yoe ≤ 366.
Proof. unfold march_year_length. destruct (is_leap _); lia. Qed.

(** Every day number is a date, and the date gives the day number back. *)
Lemma days_from_civil_from_days z y m d :
  civil_from_days z = (y, m, d) →
  1 ≤ m ≤ 12 ∧ 1 ≤ d ≤ days_in_month y m ∧ days_from_civil y m d = z.
Proof.
  unfold civil_from_days. set (z' := z + 719468).
  pose proof (Z.mod_pos_bound z' 146097 ltac:(lia)) as Hdoe.
  destruct (era_decompose _ Hdoe) as (yoe & doy & Hyoe & Hdoy & E). rewrite E.
  rewrite year_of_era_correct by done.
  replace (yoe * 365 + yoe / 4 - yoe / 100 + doy - (365 * yoe + yoe / 4 - yoe / 100))
    with doy by lia.
  pose proof (march_year_length_le yoe) as Hlen.
  destruct (march_day_split doy ltac:(lia)) as (Hmp & Hd & Hd'). cbv zeta.
  set (mp := (5 * doy + 2) / 153) in *.
  set (m' := if mp <? 10 then mp + 3 else mp - 9).
  set (b := z' / 146097) in *.
  assert (Hm : 1 ≤ m' ≤ 12 ∧ (if 2 <? m' then m' - 3 else m' + 9) = mp ∧ (m' <=? 2) = negb (mp <? 10)).
  { unfold m'. destruct (Z.ltb_spec mp 10); simpl.
    - destruct (Z.ltb_spec 2 (mp + 3)), (Z.leb_spec (mp + 3) 2); repeat split; lia.
    - destruct (Z.ltb_spec 2 (mp - 9)), (Z.leb_spec (mp - 9) 2); repeat split; lia. }
  destruct Hm as (Hm & Hmp' & Hle). intros [= <- <- <-].
  split; [done|]. split.
  { split; [done|]. etrans; [exact Hd'|]. fold m'. unfold days_in_month.
    rewrite Hle. destruct (Z.eqb_spec mp 11) as [->|Hmp11].
    - change (m' =? 2) with true. cbv iota. simpl. unfold march_year_length in Hdoy.
      rewrite <- (is_leap_period (yoe + 1) b) in Hdoy.
      replace (yoe + b * 400 + 1) with (yoe + 1 + 400 * b) by lia.
      destruct (Z.eqb_spec doy 365), (is_leap _); lia.
    - destruct (Z.eqb_spec m' 2); [|done].
      unfold m' in *. destruct (Z.ltb_spec mp 10); lia. }
  unfold days_from_civil. rewrite Hmp', Hle.
  replace (if negb (mp <? 10) then (if negb (mp <? 10) then yoe + b * 400 + 1 else yoe + b * 400) - 1
           else if negb (mp <? 10) then yoe + b * 400 + 1 else yoe + b * 400)
    with (yoe + b * 400) by (destruct (mp <? 10); simpl; lia).
  rewrite Z.div_add, Z_mod_plus_full by lia.
  rewrite (Z.div_small yoe), (Z.mod_small yoe) by lia.
  pose proof (Z.div_mod z' 146097 ltac:(lia)) as Hz. fold b in Hz. rewrite E in Hz.
  unfold z' in Hz. lia.
Qed.

(** ** Timestamps *)

(** Fields of [/^(\d{4})-(\d{2})-(\d{2})T(\d{2}):(\d{2}):(\d{2})(?:\.\d+)?(Z|[+-]\d{2}:\d{2})$/] *)
Record stamp := Stamp {
  st_year : Z; st_month : Z; st_day : Z;
  st_hour : Z; st_min : Z; st_sec : Z;
  st_frac : string;            (* digits after the point, possibly none *)
  st_zone : option (bool * Z * Z)  (* None for Z; (negative, hours, minutes) *)
}.

Definition digit_value (c : ascii) : Z := Z.of_N (N_of_ascii c) - 48.

(** [\d{n}] *)
Fixpoint read_digits (n : nat) (acc : Z) (s : string) : option (Z * string) :=
  match n with
  | O => Some (acc, s)
  | S n => match s with
           | String c s => if is_digit c then read_digits n (10 * acc + digit_value c) s else None
           | EmptyString => None
           end
  end.

Definition read_char (c : ascii) (s : string) : option string :=
  match s with
  | String d s => if decide (c = d) then Some s else None
  | EmptyString => None
  end.

(** [\d+] (greedy), its text and the rest *)
Fixpoint read_run (s : string) : string * string :=
  match s with
  | EmptyString => ("", "")
  | String c s' => if is_digit c then let '(a, b) := read_run s' in (String c a, b) else ("", s)
  end.

(** [(Z|[+-]\d{2}:\d{2})$] *)
Definition read_zone (s : string) : option (option (bool * Z * Z)) :=
  match s with
  | String c r =>
      if decide (c = "Z"%char) then (if decide (r = "") then Some None else None)
      else if bool_decide (c = "+"%char) || bool_decide (c = "-"%char) then
        '(h, r) ← read_digits 2 0 r;
        r ← read_char ":" r;
        '(m, r) ← read_digits 2 0 r;
        if decide (r = "") then Some (Some (bool_decide (c = "-"%char), h, m)) else None
      else None
  | EmptyString => None
  end.

Definition read_stamp (s : string) : option stamp :=
  '(y, s) ← read_digits 4 0 s; s ← read_char "-" s;
  '(mo, s) ← read_digits 2 0 s; s ← read_char "-" s;
  '(d, s) ← read_digits 2 0 s; s ← read_char "T" s;
  '(h, s) ← read_digits 2 0 s; s ← read_char ":" s;
  '(mi, s) ← read_digits 2 0 s; s ← read_char ":" s;
  '(se, s) ← read_digits 2 0 s;
  let '(fr, s) :=
    match read_char "." s with
    | Some r => let '(a, b) := read_run r in if decide (a = "") then ("", s) else (a, b)
    | None => ("", s)
    end in
  z ← read_zone s;
  Some (Stamp y mo d h mi se fr z).

(** Milliseconds of the fraction: its first three digits. *)
Definition frac_ms (fr : string) : Z :=
  digits_value 0 (str_take 3 (fr +:+ "000")).

Definition day_ms : Z := 86400000.

(** [MakeTime], without the zone. *)
Definition local_time (t : stamp) : Z :=
  days_from_civil (st_year t) (st_month t) (st_day t) * day_ms +
  st_hour t * 3600000 + st_min t * 60000 + st_sec t * 1000 + frac_ms (st_frac t).

Definition zone_minutes (t : stamp) : Z :=
  match st_zone t with
  | None => 0
  | Some (neg, h, m) => (if neg : bool then -1 else 1) * (h * 60 + m)
  end.

(** The engine's range checks on the fields. *)
Definition engine_accepts (t : stamp) : bool :=
  bool_decide (1 ≤ st_month t ≤ 12) && bool_decide (1 ≤ st_day t ≤ 31) &&
  bool_decide (st_min t ≤ 59) && bool_decide (st_sec t ≤ 59) &&
  (bool_decide (st_hour t ≤ 23) ||
   (bool_decide (st_hour t = 24) && bool_decide (st_min t = 0) && bool_decide (st_sec t = 0) &&
    bool_decide (frac_ms (st_frac t) = 0))).

Definition stamp_time (t : stamp) : option Z :=
  if engine_accepts t then Some (local_time t - zone_minutes t * 60000) else None.

(** ** Printing *)

Fixpoint pad (n : nat) (z : Z) : string :=
  match n with
  | O => ""
  | S n => String (ascii_of_N (Z.to_N (z / 10 ^ Z.of_nat n mod 10) + 48)) (pad n z)
  end.

Arguments pad : simpl never.

Lemma pad_S n z :
  pad (S n) z = String (ascii_of_N (Z.to_N (z / 10 ^ Z.of_nat n mod 10) + 48)) (pad n z).
Proof. done. Qed.

(** Year of [toISOString]: four digits, or a sign and six digits. *)
Definition iso_year (y : Z) : string :=
  if bool_decide (0 ≤ y ≤ 9999) then pad 4 y
  else (if bool_decide (y < 0) then "-" else "+") +:+ pad 6 (Z.abs y).

(** Seconds part of [new Date(t).toISOString()], the [slice(0, 19)] of it for
    four-digit years. *)
Definition iso_seconds (t : Z) : string :=
  let '(y, m, d) := civil_from_days (t / day_ms) in
  let r := t mod day_ms in
  iso_year y +:+ "-" +:+ pad 2 m +:+ "-" +:+ pad 2 d +:+ "T" +:+
  pad 2 (r / 3600000) +:+ ":" +:+ pad 2 (r / 60000 mod 60) +:+ ":" +:+ pad 2 (r / 1000 mod 60).

Definition toISOString (t : Z) : string :=
  iso_seconds t +:+ "." +:+ pad 3 (t mod 1000) +:+ "Z".

Lemma string_app_cons c a b : String c a +:+ b = String c (a +:+ b).
Proof. done. Qed.

Lemma digit_char_spec z : 0 ≤ z < 10 →
  is_digit (ascii_of_N (Z.to_N z + 48)) = true ∧
  digit_value (ascii_of_N (Z.to_N z + 48)) = z.
Proof.
  intros Hz. unfold is_digit, digit_value. rewrite N_ascii_embedding by lia.
  split; [apply bool_decide_eq_true|]; lia.
Qed.

Lemma read_digits_pad n z acc s :
  read_digits n acc (pad n z +:+ s) = Some (acc * 10 ^ Z.of_nat n + z mod 10 ^ Z.of_nat n, s).
Proof.
  revert acc. induction n as [|n IH]; intros acc.
  { simpl. rewrite Z.mod_1_r. do 2 f_equal. lia. }
  rewrite pad_S. cbn [read_digits]. rewrite string_app_cons.
  pose proof (Z.mod_pos_bound (z / 10 ^ Z.of_nat n) 10 ltac:(lia)) as Hd.
  destruct (digit_char_spec _ Hd) as [-> ->]. rewrite IH. do 2 f_equal.
  rewrite Nat2Z.inj_succ, Z.pow_succ_r by lia.
  assert (0 < 10 ^ Z.of_nat n) by (apply Z.pow_pos_nonneg; lia).
  rewrite (Z.mul_comm 10 (10 ^ _)), (Z.rem_mul_r z) by lia. lia.
Qed.

Lemma read_digits_small n z s : 0 ≤ z < 10 ^ Z.of_nat n →
  read_digits n 0 (pad n z +:+ s) = Some (z, s).
Proof. intros Hz. rewrite read_digits_pad, Z.mod_small by done. do 2 f_equal. Qed.

Lemma pow10_pos n : 0 < 10 ^ Z.of_nat n.
Proof. apply Z.pow_pos_nonneg; lia. Qed.

Lemma pad_add_mult n z k : pad n (z + k * 10 ^ Z.of_nat n) = pad n z.
Proof.
  revert k. induction n as [|n IH]; intros k; [done|]. rewrite ?pad_S.
  pose proof (pow10_pos n). rewrite Nat2Z.inj_succ, Z.pow_succ_r by lia.
  replace (z + k * (10 * 10 ^ Z.of_nat n)) with (z + (k * 10) * 10 ^ Z.of_nat n) by lia.
  by rewrite IH, Z.div_add, Z_mod_plus_full by lia.
Qed.

Lemma read_digits_inv n acc s z r :
  read_digits n acc s = Some (z, r) →
  ∃ x, 0 ≤ x < 10 ^ Z.of_nat n ∧ z = acc * 10 ^ Z.of_nat n + x ∧ s = pad n x +:+ r.
Proof.
  revert acc s. induction n as [|n IH]; intros acc s H; simpl in H.
  { simplify_eq. exists 0. split; [done|]. split; [lia|done]. }
  destruct s as [|c s]; [done|]. destruct (is_digit c) eqn:Hc; [|done].
  apply IH in H as (x & Hx & -> & ->). clear IH.
  assert (Hv : 0 ≤ digit_value c < 10).
  { unfold is_digit, digit_value in *. bool_hyps. lia. }
  exists (digit_value c * 10 ^ Z.of_nat n + x). pose proof (pow10_pos n).
  rewrite Nat2Z.inj_succ, Z.pow_succ_r by lia.
  split; [nia|]. split; [lia|]. rewrite ?pad_S. rewrite string_app_cons.
  rewrite Z.div_add_l, (Z.div_small x), Z.add_0_r, Z.mod_small by lia.
  f_equal.
  - unfold digit_value. rewrite Z2N.inj_sub, N2Z.id by lia.
    unfold is_digit in Hc. bool_hyps.
    rewrite N.sub_add by (simpl; lia). by rewrite ascii_N_embedding.
  - by rewrite Z.add_comm, pad_add_mult.
Qed.

Lemma read_digits_0_inv n s z r :
  read_digits n 0 s = Some (z, r) → 0 ≤ z < 10 ^ Z.of_nat n ∧ s = pad n z +:+ r.
Proof. intros (x & Hx & -> & ->)%read_digits_inv. by rewrite Z.mul_0_l, Z.add_0_l. Qed.

Lemma pad_app_inj n x y r r' :
  0 ≤ x < 10 ^ Z.of_nat n → 0 ≤ y < 10 ^ Z.of_nat n →
  pad n x +:+ r = pad n y +:+ r' → x = y ∧ r = r'.
Proof.
  intros Hx Hy H. apply (f_equal (read_digits n 0)) in H.
  rewrite !read_digits_small in H by done. by simplify_eq.
Qed.

Lemma read_char_inv c s r : read_char c s = Some r → s = String c r.
Proof. destruct s; simpl; [done|]. case_decide; naive_solver. Qed.

(** ** Shape of an accepted timestamp *)

(** The first nineteen characters, as printed from the fields. *)
Definition seconds_text (t : stamp) : string :=
  pad 4 (st_year t) +:+ "-" +:+ pad 2 (st_month t) +:+ "-" +:+ pad 2 (st_day t) +:+ "T" +:+
  pad 2 (st_hour t) +:+ ":" +:+ pad 2 (st_min t) +:+ ":" +:+ pad 2 (st_sec t).

Definition fields_in_width (t : stamp) : Prop :=
  0 ≤ st_year t < 10000 ∧ 0 ≤ st_month t < 100 ∧ 0 ≤ st_day t < 100 ∧
  0 ≤ st_hour t < 100 ∧ 0 ≤ st_min t < 100 ∧ 0 ≤ st_sec t < 100.

Lemma option_bind_inv {A B} (o : option A) (f : A → option B) b :
  (x ← o; f x) = Some b → ∃ a, o = Some a ∧ f a = Some b.
Proof. destruct o; naive_solver. Qed.

Lemma read_run_digits s : str_forall is_digit (read_run s).1 = true.
Proof.
  induction s as [|c s IH]; [done|]. simpl. destruct (is_digit c) eqn:Hc; [|done].
  destruct (read_run s); simpl in *. by rewrite Hc, IH.
Qed.

Lemma read_stamp_inv s t :
  read_stamp s = Some t →
  fields_in_width t ∧ str_forall is_digit (st_frac t) = true ∧
  ∃ rest, s = seconds_text t +:+ rest.
Proof.
  unfold read_stamp. intros H.
  repeat (apply option_bind_inv in H as ([? ?] & ?%read_digits_0_inv & H);
          try (apply option_bind_inv in H as (? & ?%read_char_inv & H))).
  destruct_and!. subst.
  match type of H with (let '(_, _) := ?p in _) = _ => destruct p as [fr s'] eqn:Hfr end.
  apply option_bind_inv in H as (zn & _ & H). simplify_eq.
  split; [done|]. split.
  { simpl. destruct (read_char _ _) as [r|]; [|by simplify_eq].
    pose proof (read_run_digits r). destruct (read_run r).
    case_decide; simplify_eq/=; done. }
  eexists. unfold seconds_text. simpl.
  rewrite !string_app_assoc. done.
Qed.

Lemma sep_inj c a b : String c "" +:+ a = String c "" +:+ b → a = b.
Proof. by intros [= H]. Qed.

Lemma length_pad n z : String.length (pad n z) = n.
Proof. induction n; [done|]. rewrite pad_S. simpl. congruence. Qed.

Lemma str_take_app a b : str_take (String.length a) (a +:+ b) = a.
Proof. induction a as [|c a IH]; [by destruct b|]. cbn. by f_equal. Qed.

Lemma length_string_app a b : String.length (a +:+ b) = (String.length a + String.length b)%nat.
Proof. induction a as [|c a IH]; [done|]. exact (f_equal S IH). Qed.

Lemma frac_ms_bound fr : str_forall is_digit fr = true → 0 ≤ frac_ms fr < 1000.
Proof.
  intros H. unfold frac_ms.
  assert (Hd : str_forall is_digit (fr +:+ "000") = true).
  { induction fr as [|c fr IH]; [done|]. rewrite string_app_cons. simpl in *. bool_hyps.
    rewrite IH by done. by rewrite H. }
  assert (Hl : (3 ≤ String.length (fr +:+ "000"))%nat) by (rewrite length_string_app; simpl; lia).
  revert Hd Hl. generalize (fr +:+ "000"). intros s Hd Hl.
  destruct s as [|c1 [|c2 [|c3 s]]]; simpl in Hl; try lia. simpl in *.
  unfold is_digit in Hd. bool_hyps. lia.
Qed.

(** Printed text of a time value whose calendar fields are known. *)
Lemma toISOString_seconds L y m d h mi se :
  civil_from_days (L / day_ms) = (y, m, d) →
  h = L mod day_ms / 3600000 → mi = L mod day_ms / 60000 mod 60 →
  se = L mod day_ms / 1000 mod 60 → 0 ≤ y ≤ 9999 →
  str_take 19 (toISOString L) = seconds_text (Stamp y m d h mi se "" None).
Proof.
  intros Hc -> -> -> Hy. unfold toISOString, iso_seconds. rewrite Hc. unfold iso_year.
  rewrite bool_decide_eq_true_2 by done.
  set (txt := pad 4 y +:+ _). change (txt) with (seconds_text (Stamp y m d
    (L mod day_ms / 3600000) (L mod day_ms / 60000 mod 60) (L mod day_ms / 1000 mod 60) "" None)).
  set (w := seconds_text _). assert (Hw : String.length w = 19%nat); [|by rewrite <- Hw, str_take_app].
  unfold w, seconds_text. repeat (rewrite length_string_app || rewrite length_pad || simpl). done.
Qed.

Lemma time_of_day_fields h mi se ms :
  0 ≤ h ≤ 23 → 0 ≤ mi ≤ 59 → 0 ≤ se ≤ 59 → 0 ≤ ms < 1000 →
  let r := h * 3600000 + mi * 60000 + se * 1000 + ms in
  0 ≤ r < day_ms ∧ r / 3600000 = h ∧ r / 60000 mod 60 = mi ∧ r / 1000 mod 60 = se.
Proof. intros. unfold r, day_ms. Z.div_mod_to_equations. lia. Qed.

Lemma local_time_split t :
  0 ≤ st_hour t ≤ 23 → 0 ≤ st_min t ≤ 59 → 0 ≤ st_sec t ≤ 59 → 0 ≤ frac_ms (st_frac t) < 1000 →
  local_time t / day_ms = days_from_civil (st_year t) (st_month t) (st_day t) ∧
  local_time t mod day_ms / 3600000 = st_hour t ∧
  local_time t mod day_ms / 60000 mod 60 = st_min t ∧
  local_time t mod day_ms / 1000 mod 60 = st_sec t.
Proof.
  intros Hh Hmi Hse Hms.
  destruct (time_of_day_fields _ _ _ _ Hh Hmi Hse Hms) as (Hr & H1 & H2 & H3).
  unfold local_time. set (r := st_hour t * 3600000 + _ + _ + _) in *.
  set (D := days_from_civil _ _ _).
  replace (D * day_ms + st_hour t * 3600000 + st_min t * 60000 + st_sec t * 1000 +
           frac_ms (st_frac t)) with (r + D * day_ms) by (unfold r; lia).
  rewrite Z.div_add, Z_mod_plus_full by done.
  rewrite (Z.div_small r), (Z.mod_small r) by done. done.
Qed.

Definition first_is_digit (s : string) : bool :=
  match s with String c _ => is_digit c | EmptyString => false end.

Lemma first_char_take n s : first_is_digit (str_take (S n) s) = first_is_digit s.
Proof. by destruct s. Qed.

Lemma pad_head n z s : first_is_digit (pad (S n) z +:+ s) = true.
Proof.
  rewrite pad_S, string_app_cons. unfold first_is_digit.
  apply digit_char_spec, Z.mod_pos_bound. lia.
Qed.

Lemma sign_head (b : bool) s :
  first_is_digit ((if b then "-" else "+") +:+ s) = false.
Proof. by destruct b. Qed.

Lemma toISOString_head L y m d :
  civil_from_days (L / day_ms) = (y, m, d) → ¬ (0 ≤ y ≤ 9999) →
  first_is_digit (toISOString L) = false.
Proof.
  intros Hc Hy. unfold toISOString, iso_seconds. rewrite Hc. unfold iso_year.
  rewrite bool_decide_eq_false_2 by done. rewrite !string_app_assoc. apply sign_head.
Qed.

(** A timestamp the engine accepts is printed back with the same first
    nineteen characters exactly when it is a real calendar instant. *)
Lemma printed_back_iff t :
  fields_in_width t → engine_accepts t = true → 0 ≤ frac_ms (st_frac t) < 1000 →
  str_take 19 (toISOString (local_time t)) = seconds_text t ↔
  st_day t ≤ days_in_month (st_year t) (st_month t) ∧ st_hour t ≤ 23.
Proof.
  intros (Hy & Hmo & Hd & Hh & Hmi & Hse) Ha Hms.
  unfold engine_accepts in Ha. bool_hyps. split.
  - intros Htxt.
    destruct (civil_from_days (local_time t / day_ms)) as [[y m] d] eqn:Hc.
    destruct (days_from_civil_from_days _ _ _ _ Hc) as (Hm' & Hd' & _).
    pose proof (Z.mod_pos_bound (local_time t) day_ms ltac:(done)) as Hr.
    destruct (decide (0 ≤ y ≤ 9999)) as [Hy'|Hy'].
    + rewrite (toISOString_seconds _ y m d _ _ _ Hc eq_refl eq_refl eq_refl) in Htxt by done.
      unfold seconds_text in Htxt. simpl in Htxt.
      assert (Hdim : days_in_month y m ≤ 31) by (unfold days_in_month; repeat case_match; lia).
      assert (Hh' : 0 ≤ local_time t mod day_ms / 3600000 ≤ 23)
        by (unfold day_ms in *; Z.div_mod_to_equations; lia).
      apply pad_app_inj in Htxt as [<- Htxt]; [|simpl; lia..].
      apply sep_inj in Htxt. apply pad_app_inj in Htxt as [<- Htxt]; [|simpl; lia..].
      apply sep_inj in Htxt. apply pad_app_inj in Htxt as [<- Htxt]; [|simpl; lia..].
      apply sep_inj in Htxt. apply pad_app_inj in Htxt as [<- Htxt]; [|simpl; lia..].
      lia.
    + exfalso. pose proof (toISOString_head _ _ _ _ Hc Hy') as Hhd.
      rewrite <- (first_char_take 18), Htxt in Hhd. unfold seconds_text in Hhd.
      rewrite pad_head in Hhd by lia. done.
  - intros [Hdim Hhr].
    destruct (local_time_split t) as (E1 & E2 & E3 & E4); [lia..|].
    rewrite (toISOString_seconds _ (st_year t) (st_month t) (st_day t)
               (st_hour t) (st_min t) (st_sec t)); [done| |done..|lia].
    rewrite E1. apply civil_from_days_from_civil; lia.
Qed.

(** ** Round trip of printing and parsing *)

Definition representable (L : Z) : Prop :=
  ∃ y m d, civil_from_days (L / day_ms) = (y, m, d) ∧ 0 ≤ y ≤ 9999.

Definition fields_of (L y m d : Z) : stamp :=
  Stamp y m d (L mod day_ms / 3600000) (L mod day_ms / 60000 mod 60)
    (L mod day_ms / 1000 mod 60) (pad 3 (L mod 1000)) None.

Lemma read_char_cons c s : read_char c (String c "" +:+ s) = Some s.
Proof. simpl. by rewrite decide_True. Qed.

Lemma read_run_pad n z c s :
  is_digit c = false → read_run (pad n z +:+ String c s) = (pad n z, String c s).
Proof.
  intros Hc. induction n as [|n IH].
  - simpl. by rewrite Hc.
  - rewrite pad_S, string_app_cons. simpl.
    destruct (digit_char_spec (z / 10 ^ Z.of_nat n mod 10)) as [-> _];
      [apply Z.mod_pos_bound; lia|]. by rewrite IH.
Qed.

Lemma read_stamp_toISOString L y m d :
  civil_from_days (L / day_ms) = (y, m, d) → 0 ≤ y ≤ 9999 →
  read_stamp (toISOString L) = Some (fields_of L y m d).
Proof.
  intros Hc Hy. destruct (days_from_civil_from_days _ _ _ _ Hc) as (Hm & Hd & _).
  assert (Hdim : days_in_month y m ≤ 31) by (unfold days_in_month; repeat case_match; lia).
  pose proof (Z.mod_pos_bound L day_ms ltac:(done)) as Hr. unfold day_ms in Hr.
  unfold toISOString, iso_seconds, read_stamp. rewrite Hc. unfold iso_year.
  rewrite bool_decide_eq_true_2 by done. rewrite !string_app_assoc.
  repeat (rewrite read_digits_small by (simpl; unfold day_ms; Z.div_mod_to_equations; lia);
          cbn [mbind option_bind]; rewrite ?read_char_cons; cbn [mbind option_bind]).
  by rewrite (read_run_pad 3 _ "Z" "").
Qed.

Lemma frac_ms_pad z : 0 ≤ z < 1000 → frac_ms (pad 3 z) = z.
Proof.
  intros Hz. unfold frac_ms. rewrite !pad_S. change (pad 0 z) with "".
  rewrite !string_app_cons. cbn [str_take digits_value].
  fold (digit_value (ascii_of_N (Z.to_N (z / 10 ^ Z.of_nat 2 mod 10) + 48))).
  fold (digit_value (ascii_of_N (Z.to_N (z / 10 ^ Z.of_nat 1 mod 10) + 48))).
  fold (digit_value (ascii_of_N (Z.to_N (z / 10 ^ Z.of_nat 0 mod 10) + 48))).
  rewrite !(λ x H, proj2 (digit_char_spec (x mod 10) H)) by (apply Z.mod_pos_bound; lia).
  change (10 ^ Z.of_nat 2) with 100. change (10 ^ Z.of_nat 1) with 10.
  change (10 ^ Z.of_nat 0) with 1. Z.div_mod_to_equations. lia.
Qed.

Lemma stamp_time_fields_of L y m d :
  civil_from_days (L / day_ms) = (y, m, d) → stamp_time (fields_of L y m d) = Some L.
Proof.
  intros Hc. destruct (days_from_civil_from_days _ _ _ _ Hc) as (Hm & Hd & E).
  assert (Hdim : days_in_month y m ≤ 31) by (unfold days_in_month; repeat case_match; lia).
  pose proof (Z.mod_pos_bound L day_ms ltac:(done)) as Hr.
  assert (Hf : frac_ms (pad 3 (L mod 1000)) = L mod 1000)
    by (apply frac_ms_pad, Z.mod_pos_bound; lia).
  unfold stamp_time, engine_accepts, local_time, zone_minutes, fields_of. simpl. rewrite Hf, E.
  rewrite !bool_decide_eq_true_2 by (unfold day_ms in *; Z.div_mod_to_equations; lia).
  simpl. f_equal. unfold day_ms in *. Z.div_mod_to_equations. lia.
Qed.

(** Parsing the text printed for a time gives the time. *)
Lemma parse_toISOString L :
  representable L → (read_stamp (toISOString L) ≫= stamp_time) = Some L.
Proof.
  intros (y & m & d & Hc & Hy). rewrite (read_stamp_toISOString _ _ _ _ Hc Hy).
  simpl. by apply stamp_time_fields_of.
Qed.

Arguments read_stamp : simpl never.
Arguments stamp_time : simpl never.
Arguments engine_accepts : simpl never.
Arguments local_time : simpl never.
Arguments toISOString : simpl never.
Arguments iso_seconds : simpl never.
Arguments civil_from_days : simpl never.
Arguments days_from_civil : simpl never.

Lemma toISOString_nonempty z : toISOString z ≠ "".
Proof.
  intros Hz. apply (f_equal String.length) in Hz. unfold toISOString in Hz.
  rewrite length_string_app in Hz. change (String.length ("." +:+ ?s)) with (S (String.length s)) in Hz.
  cbn in Hz. lia.
Qed.
