(* ===== verification/Host.v ===== *)
(** * The platform under the sources

    What the modelled code takes from Node.js and from the engine without its
    source being in the repository: SHA-256, Ed25519 keys and signatures,
    base64, locale collation, Unicode normalisation and the date formats
    outside [Dates].  The operations are the class [Host]; the documented
    behaviour a theorem relies on is a separate class of laws, so that a
    statement shows what it assumes.  [Toy] is a concrete platform on which the
    laws hold: the witnesses run on it. *)
From S2P Require Import Prelude JSValue Dates.

Class Host := {
  (** [createHash('sha256').update(s).digest('hex')] *)
  sha256_hex : string → string;
  (** [createPublicKey(pem)]: its [asymmetricKeyType] and its SPKI DER export *)
  createPublicKey : jval → result (string * string);
  (** [cryptoSign(null, Buffer.from(text), privateKeyPem)] *)
  crypto_sign : string → string → result string;
  (** [cryptoVerify(null, Buffer.from(text), publicKey, signature)] *)
  crypto_verify : string → jval → string → result bool;
  (** [Buffer.from(s, 'base64')] and [b.toString('base64')], with their
      base64url variants *)
  base64_decode : string → string;
  base64_encode : string → string;
  base64url_decode : string → string;
  base64url_encode : string → string;
  (** [a.localeCompare(b)] *)
  localeCompare : string → string → Z;
  (** [s.normalize('NFKC')] *)
  nfkc : string → string;
  (** [Date.parse] on the formats outside the internet timestamp shape *)
  legacy_date_parse : string → option Z
}.

(** [Date.parse(s)], [None] standing for NaN *)
Definition Date_parse `{Host} (s : string) : option Z :=
  match read_stamp s with
  | Some t => stamp_time t
  | None => legacy_date_parse s
  end.

Lemma Date_parse_toISOString `{Host} L :
  representable L → Date_parse (toISOString L) = Some L.
Proof.
  intros (y & m & d & Hc & Hy). unfold Date_parse.
  rewrite (read_stamp_toISOString _ _ _ _ Hc Hy). by apply stamp_time_fields_of.
Qed.

(** [new Date(t).toISOString()], [None] standing for NaN *)
Definition date_toISOString (t : option Z) : result string :=
  match t with
  | Some z => if bool_decide (Z.abs z ≤ 8640000000000000)%Z then Ok (toISOString z)
              else Throw (error "Invalid time value")
  | None => Throw (error "Invalid time value")
  end.

(** Relational operators of the engine on operands that have primitives and are
    not both numbers: [a > b], and the sign of [a - b] ([None] for NaN). *)
Class Coercions := {
  coerced_gt : jval → jval → bool;
  coerced_minus : jval → jval → option comparison;
  (** [arr[v - 1]] for [v] not a number: the position read, if it is one *)
  coerced_position : jval → option nat
}.

Definition num_compare_num (a b : jnum) : option comparison :=
  match a, b with
  | JInt x, _ => CompOpp <$> num_compare b x
  | _, JInt y => num_compare a y
  | JDec m j, JDec n k => Some (Z.compare (m * 10 ^ Zpos k) (n * 10 ^ Zpos j))
  | JDec _ _, JInfinity neg => Some (if neg then Gt else Lt)
  | JInfinity neg, JDec _ _ => Some (if neg then Lt else Gt)
  | JInfinity x, JInfinity y => Some (if Bool.eqb x y then Eq else if x then Lt else Gt)
  | _, _ => None
  end.

(** [a > b]: a TypeError for an object without a primitive value. *)
Definition js_gt `{Coercions} (a b : jval) : result bool :=
  match a, b with
  | JNum x, JNum y => Ok (match num_compare_num x y with Some Gt => true | _ => false end)
  | _, _ => if no_primitive a || no_primitive b then Throw cannot_convert else Ok (coerced_gt a b)
  end.

Lemma js_gt_Throw `{Coercions} a b e :
  js_gt a b = Throw e → e = cannot_convert ∧ no_primitive a || no_primitive b = true.
Proof. unfold js_gt. destruct a, b; try done; destruct (_ || _) eqn:E; try done; by intros [= <-]. Qed.

(** Whether a sort of [l] by the difference of [key] throws: each of two
    elements or more is compared at least once. *)
Definition sort_throws (key : jval → jval) (l : list jval) : bool :=
  bool_decide (2 ≤ length l) && existsb (λ v, no_primitive (key v)) l.

Definition js_minus_sign `{Coercions} (a b : jval) : option comparison :=
  match a, b with
  | JNum x, JNum y => num_compare_num x y
  | _, _ => coerced_minus a b
  end.

(** [arr[v - 1]]: the position read, if it is one *)
Definition position_before `{Coercions} (v : jval) : option nat :=
  match v with
  | JNum (JInt n) => if bool_decide (1 ≤ n)%Z then Some (Z.to_nat (n - 1)) else None
  | JNum _ => None
  | _ => coerced_position v
  end.

(** ** Laws *)

(** A SHA-256 digest is 64 lower-case hexadecimal digits. *)
Definition is_hex_digit (c : ascii) : bool :=
  let n := N_of_ascii c in bool_decide ((48 ≤ n ∧ n ≤ 57) ∨ (97 ≤ n ∧ n ≤ 102))%N.

Class HashShape (H : Host) := {
  sha256_length s : String.length (sha256_hex s) = 64;
  sha256_chars s : str_forall is_hex_digit (sha256_hex s) = true
}.

(** [localeCompare] is a consistent comparison: the sign of the result orders
    strings totally. *)
Class Collation (H : Host) := {
  collate_total a b : (localeCompare a b ≤ 0 ∨ localeCompare b a ≤ 0)%Z;
  collate_trans a b c :
    (localeCompare a b ≤ 0 → localeCompare b c ≤ 0 → localeCompare a c ≤ 0)%Z
}.

(** A key pair: what the private key signs, the public key verifies. *)
Class KeyPair (H : Host) (pub priv : string) := {
  keypair_type : ∃ der, createPublicKey (JStr pub) = Ok ("ed25519", der);
  keypair_signs text : ∃ sig, crypto_sign text priv = Ok sig ∧
    String.length sig = 64 ∧ crypto_verify text (JStr pub) sig = Ok true
}.

(** Base64 text of a 64-byte buffer: its alphabet, and the exact round trip. *)
Definition base64_char (c : ascii) : bool :=
  let n := N_of_ascii c in
  bool_decide ((65 ≤ n ∧ n ≤ 90) ∨ (97 ≤ n ∧ n ≤ 122) ∨ (48 ≤ n ∧ n ≤ 57) ∨ n = 43 ∨ n = 47)%N.

(** [/^[A-Za-z0-9+/]+={0,2}$/] *)
Fixpoint base64_tail (pads : nat) (s : string) : bool :=
  match s with
  | EmptyString => true
  | String c s => match pads with
                  | O => false
                  | S pads => bool_decide (c = "="%char) && base64_tail pads s
                  end
  end.
Fixpoint base64_body (s : string) : bool :=
  base64_tail 2 s ||
  match s with EmptyString => true | String c s => base64_char c && base64_body s end.
Definition base64_shape (s : string) : bool :=
  match s with EmptyString => false | String c s => base64_char c && base64_body s end.

Class Base64Laws (H : Host) := {
  base64_round_trip b : base64_decode (base64_encode b) = b;
  base64_text b : String.length b = 64 → base64_shape (base64_encode b) = true;
  base64_nonblank b : String.length b = 64 → trim (base64_encode b) ≠ ""
}.

(** Distinct texts have distinct digests among those considered. *)
Definition collision_free `{Host} (texts : string → Prop) : Prop :=
  ∀ a b, texts a → texts b → sha256_hex a = sha256_hex b → a = b.

(** The hypothesis is decidable on finitely many texts. *)
Definition distinct_digests `{Host} (l : list string) : bool :=
  forallb (λ a, forallb (λ b, implb (String.eqb (sha256_hex a) (sha256_hex b)) (String.eqb a b)) l) l.

Lemma distinct_digests_collision_free `{Host} (texts : string → Prop) l :
  distinct_digests l = true → (∀ t, texts t → t ∈ l) → collision_free texts.
Proof.
  unfold distinct_digests. rewrite forallb_forall. intros Hl Hin a b Ha%Hin%list_elem_of_In Hb%Hin%list_elem_of_In Hh.
  specialize (Hl a Ha). rewrite forallb_forall in Hl. specialize (Hl b Hb).
  rewrite Hh, String.eqb_refl in Hl. by apply String.eqb_eq.
Qed.

(** ** A concrete platform *)

Module Toy.
(** Thirty-three times the hash so far plus the next character, kept to 48
    bits with shifts: cheap enough for the witnesses to be evaluated. *)
Fixpoint hash (s : string) (acc : N) : N :=
  match s with
  | EmptyString => acc
  | String c s => hash s (N.land (N.shiftl acc 5 + acc + N_of_ascii c + 1) (N.ones 48))
  end.

Fixpoint hex_onto (n : nat) (z : N) (rest : string) : string :=
  match n with
  | O => rest
  | S n => hex_onto n (N.shiftr z 4) (String (hex_digit (N.land z 15)) rest)
  end.

Definition hex (n : nat) (z : N) : string := hex_onto n z "".

(** The fixed 64-byte signature. *)
Definition signature : string := hex 64 0.

(** Two letters per byte, standing for base64. *)
Definition letter (n : N) : ascii := ascii_of_N (65 + n).
Fixpoint letters (s : string) : string :=
  match s with
  | EmptyString => EmptyString
  | String c s => String (letter (N_of_ascii c / 16)) (String (letter (N_of_ascii c mod 16)) (letters s))
  end.
Fixpoint unletters (s : string) : string :=
  match s with
  | String a (String b s) =>
      String (ascii_of_N (16 * (N_of_ascii a - 65) + (N_of_ascii b - 65))) (unletters s)
  | _ => EmptyString
  end.

Definition order (a b : string) : Z :=
  if str_leb a b then (if str_leb b a then 0 else -1)%Z else 1%Z.

#[export] Instance host : Host := {|
  sha256_hex s := hex 64 (hash s 1);
  createPublicKey k :=
    match k with JStr s => Ok ("ed25519", s) | _ => Throw (error "invalid key") end;
  crypto_sign _ _ := Ok signature;
  crypto_verify _ _ sig := Ok (bool_decide (sig = signature));
  base64_decode := unletters;
  base64_encode := letters;
  base64url_decode := unletters;
  base64url_encode := letters;
  localeCompare := order;
  nfkc s := s;
  legacy_date_parse _ := None
|}.

Lemma hex_length n z : String.length (hex n z) = n.
Proof.
  unfold hex. rewrite <- (Nat.add_0_r n) at 2. change 0 with (String.length "") at 1.
  generalize "". revert z. induction n as [|n IH]; intros z r; [done|]. cbn [hex_onto]. rewrite IH. cbn. lia.
Qed.

Lemma hex_digit_ok n : (n < 16)%N → is_hex_digit (hex_digit n) = true.
Proof.
  intros Hn. unfold is_hex_digit, hex_digit. apply bool_decide_eq_true.
  case_bool_decide; rewrite N_ascii_embedding; lia.
Qed.

Lemma hex_chars n z : str_forall is_hex_digit (hex n z) = true.
Proof.
  unfold hex. assert (Hr : str_forall is_hex_digit "" = true) by done. revert Hr. generalize "". revert z.
  induction n as [|n IH]; intros z r Hr; [done|]. cbn [hex_onto]. apply IH. cbn [str_forall].
  rewrite Hr, hex_digit_ok; [done|]. change 15%N with (N.ones 4). rewrite N.land_ones. by apply N.mod_lt.
Qed.

#[export] Instance hash_shape : HashShape host.
Proof. constructor; intros; [apply hex_length|apply hex_chars]. Qed.

Lemma unletters_letters s : unletters (letters s) = s.
Proof.
  induction s as [|c s IH]; [done|]. cbn [letters unletters]. rewrite IH. f_equal.
  destruct c as [[] [] [] [] [] [] [] []]; reflexivity.
Qed.

Lemma letter_ok n : (n < 16)%N → base64_char (letter n) = true ∧ js_space (letter n) = false.
Proof.
  intros Hn. unfold base64_char, js_space, letter. rewrite N_ascii_embedding by lia.
  split; [apply bool_decide_eq_true|apply bool_decide_eq_false]; lia.
Qed.

Lemma letters_body s : base64_body (letters s) = true.
Proof.
  induction s as [|c s IH]; [done|]. cbn [letters base64_body].
  pose proof (N_ascii_bounded c).
  destruct (letter_ok (N_of_ascii c / 16)) as [-> _]; [apply N.Div0.div_lt_upper_bound; lia|].
  destruct (letter_ok (N_of_ascii c mod 16)) as [-> _]; [apply N.mod_lt; lia|].
  rewrite IH. by rewrite !orb_true_r.
Qed.

Lemma letters_shape s : s ≠ "" → base64_shape (letters s) = true ∧ trim (letters s) ≠ "".
Proof.
  destruct s as [|c s]; [done|]. intros _. pose proof (letters_body (String c s)) as Hb.
  pose proof (N_ascii_bounded c). cbn [letters base64_shape] in *.
  destruct (letter_ok (N_of_ascii c / 16)) as [H1 H2]; [apply N.Div0.div_lt_upper_bound; lia|].
  destruct (letter_ok (N_of_ascii c mod 16)) as [H3 _]; [apply N.mod_lt; lia|].
  split.
  - rewrite H1. cbn [andb base64_body]. rewrite H3, letters_body. by rewrite orb_true_r.
  - unfold trim. cbn [trim_start]. rewrite H2. cbn [trim_end]. rewrite H2. by repeat case_match.
Qed.

#[export] Instance base64_laws : Base64Laws host.
Proof.
  constructor; cbn.
  - apply unletters_letters.
  - intros b Hb. apply letters_shape. by intros ->.
  - intros b Hb. apply letters_shape. by intros ->.
Qed.

#[export] Instance collation : Collation host.
Proof.
  constructor; unfold localeCompare, host, order.
  - intros a b. destruct (str_leb_total a b) as [H|H]; rewrite H;
      repeat case_match; lia.
  - intros a b c. destruct (str_leb a b) eqn:E1, (str_leb b c) eqn:E2; try lia.
    all: intros; try (rewrite (str_leb_trans a b c) by done); repeat case_match; lia.
Qed.

#[export] Instance key_pair pub priv : KeyPair host pub priv.
Proof.
  constructor; [by eexists|]. intros text. exists signature. split; [done|]. by vm_compute.
Qed.
End Toy.

(** Operands other than numbers are incomparable. *)
Definition toy_coercions : Coercions := {| coerced_gt _ _ := false; coerced_minus _ _ := None; coerced_position _ := None |}.

#[export] Existing Instances Toy.hash_shape Toy.collation Toy.base64_laws Toy.key_pair.
