(* ===== verification/Text.v ===== *)
(** * Text normalisation

    The string operations the signed objects are normalised with: white space
    collapsed and trimmed, lower case, and lists of identifiers trimmed,
    deduplicated, sorted and cut.  Normalising twice is normalising once. *)
From S2P Require Import Prelude JSValue Host.

Module Text.

(** [s.replace(/\s+/g, ' ')]; [space] tells whether the previous character was
    white space. *)
Fixpoint collapse_from (space : bool) (s : string) : string :=
  match s with
  | EmptyString => EmptyString
  | String c s =>
      if js_space c then (if space then collapse_from true s else String " " (collapse_from true s))
      else String c (collapse_from false s)
  end.
Definition collapse (s : string) : string := collapse_from false s.

(** Every run of white space is one space. *)
Fixpoint collapsed_from (space : bool) (s : string) : bool :=
  match s with
  | EmptyString => true
  | String c s =>
      if js_space c then bool_decide (c = " "%char) && negb space && collapsed_from true s
      else collapsed_from false s
  end.

Definition is_ascii (c : Ascii.ascii) : bool := bool_decide (Ascii.N_of_ascii c < 128)%N.

(** Text in the seven-bit range is stable under NFKC. *)
Class NfkcLaws (H : Host) := nfkc_ascii s : str_forall is_ascii s = true → nfkc s = s.

#[export] Instance toy_nfkc_laws : NfkcLaws Toy.host.
Proof. by intros s. Qed.

(** ** White space *)

Lemma collapse_from_collapsed b s : collapsed_from b (collapse_from b s) = true.
Proof.
  revert b. induction s as [|c s IH]; intros b; [done|]. cbn [collapse_from].
  destruct (js_space c) eqn:Hc; [|cbn [collapsed_from]; by rewrite Hc, IH].
  destruct b; [apply IH|]. cbn [collapsed_from]. cbn. apply IH.
Qed.

Lemma collapse_from_id b s : collapsed_from b s = true → collapse_from b s = s.
Proof.
  revert b. induction s as [|c s IH]; intros b; [done|]. cbn [collapsed_from collapse_from].
  destruct (js_space c); [|intros Hs; by rewrite IH]. intros Hs. bool_hyps. subst. by rewrite IH.
Qed.

Lemma collapsed_weaken s : collapsed_from true s = true → collapsed_from false s = true.
Proof.
  destruct s as [|c s]; [done|]. cbn. destruct (js_space c); [|done]. by rewrite andb_false_r.
Qed.

Lemma trim_start_collapsed b s :
  collapsed_from b s = true → collapsed_from false (trim_start s) = true.
Proof.
  revert b. induction s as [|c s IH]; intros b Hs; [done|]. cbn [trim_start collapsed_from] in *.
  destruct (js_space c) eqn:Hc; [bool_hyps; by eapply IH|].
  cbn [collapsed_from]. by rewrite Hc.
Qed.

Lemma trim_end_collapsed b s : collapsed_from b s = true → collapsed_from b (trim_end s) = true.
Proof.
  revert b. induction s as [|c s IH]; intros b Hs; [done|]. cbn [trim_end collapsed_from] in *.
  destruct (js_space c) eqn:Hc.
  - bool_hyps. specialize (IH true ltac:(done)). destruct (trim_end s) as [|c' s'] eqn:Ht; [done|].
    cbn [collapsed_from] in *. rewrite Hc, IH. subst c b. done.
  - specialize (IH false Hs). destruct (trim_end s) as [|c' s']; cbn [collapsed_from] in *; by rewrite Hc.
Qed.

Lemma trim_collapsed s : collapsed_from false s = true → collapsed_from false (trim s) = true.
Proof. intros Hs. by eapply trim_end_collapsed, trim_start_collapsed. Qed.

Lemma trim_end_idem s : trim_end (trim_end s) = trim_end s.
Proof.
  induction s as [|c s IH]; [done|]. cbn [trim_end].
  destruct (trim_end s) as [|c' s'] eqn:Ht.
  - destruct (js_space c) eqn:Hc; [done|]. cbn. by rewrite Hc.
  - cbn [trim_end] in *. by rewrite IH.
Qed.

Lemma trim_start_first s : match trim_start s with String c _ => js_space c = false | _ => True end.
Proof. induction s as [|c s IH]; [done|]. cbn. destruct (js_space c) eqn:Hc; [done|]. by cbn. Qed.

Lemma trim_start_fixed c s : js_space c = false → trim_start (String c s) = String c s.
Proof. intros Hc. cbn. by rewrite Hc. Qed.

Lemma trim_end_first c s :
  js_space c = false → ∃ s', trim_end (String c s) = String c s'.
Proof. intros Hc. cbn [trim_end]. destruct (trim_end s); [rewrite Hc|]; eauto. Qed.

Lemma trim_idem s : trim (trim s) = trim s.
Proof.
  unfold trim. pose proof (trim_start_first s) as Hf. destruct (trim_start s) as [|c s1]; [done|].
  destruct (trim_end_first c s1 Hf) as [s2 Ht]. rewrite Ht, (trim_start_fixed c s2 Hf), <- Ht.
  apply trim_end_idem.
Qed.

(** ** Lower case *)

Lemma lower_char_space c : js_space (lower_char c) = js_space c.
Proof. by destruct c as [[] [] [] [] [] [] [] []]. Qed.

Lemma lower_char_idem c : lower_char (lower_char c) = lower_char c.
Proof. by destruct c as [[] [] [] [] [] [] [] []]. Qed.

Lemma lower_char_ascii c : is_ascii c = true → is_ascii (lower_char c) = true.
Proof. by destruct c as [[] [] [] [] [] [] [] []]. Qed.

Lemma lower_space c : js_space c = true → lower_char c = c.
Proof. by destruct c as [[] [] [] [] [] [] [] []]. Qed.

Lemma to_lower_idem s : to_lower (to_lower s) = to_lower s.
Proof. induction s as [|c s IH]; [done|]. cbn. by rewrite lower_char_idem, IH. Qed.

Lemma to_lower_length s : String.length (to_lower s) = String.length s.
Proof. induction s; cbn; congruence. Qed.

Lemma to_lower_collapsed b s : collapsed_from b (to_lower s) = collapsed_from b s.
Proof.
  revert b. induction s as [|c s IH]; intros b; [done|]. cbn [to_lower collapsed_from].
  rewrite lower_char_space. destruct (js_space c) eqn:Hc; [|apply IH].
  by rewrite (lower_space c Hc), IH.
Qed.

Lemma to_lower_trim_start s : trim_start (to_lower s) = to_lower (trim_start s).
Proof. induction s as [|c s IH]; [done|]. cbn. rewrite lower_char_space. by destruct (js_space c). Qed.

Lemma to_lower_trim_end s : trim_end (to_lower s) = to_lower (trim_end s).
Proof.
  induction s as [|c s IH]; [done|]. cbn [to_lower trim_end]. rewrite IH, lower_char_space.
  destruct (trim_end s); [by destruct (js_space c)|done].
Qed.

Lemma to_lower_trim s : trim (to_lower s) = to_lower (trim s).
Proof. unfold trim. by rewrite to_lower_trim_start, to_lower_trim_end. Qed.

(** ** Characters kept *)

Lemma collapse_ascii b s : str_forall is_ascii s = true → str_forall is_ascii (collapse_from b s) = true.
Proof.
  revert b. induction s as [|c s IH]; intros b Hs; [done|]. cbn [str_forall collapse_from] in *. bool_hyps.
  destruct (js_space c); [destruct b; [auto|]|]; cbn [str_forall]; rewrite IH by done; [done|].
  by rewrite andb_true_r.
Qed.

Lemma trim_start_forall p s : str_forall p s = true → str_forall p (trim_start s) = true.
Proof.
  induction s as [|c s IH]; [done|]. cbn [trim_start]. destruct (js_space c); [|done].
  cbn. intros. bool_hyps. auto.
Qed.

Lemma trim_end_forall p s : str_forall p s = true → str_forall p (trim_end s) = true.
Proof.
  induction s as [|c s IH]; [done|]. cbn [str_forall trim_end]. intros Hs. bool_hyps.
  destruct (trim_end s) eqn:Ht; [destruct (js_space c); [done|]; cbn; by rewrite andb_true_r|].
  cbn [str_forall] in *. rewrite IH by done. by rewrite andb_true_r.
Qed.

Lemma trim_ascii s : str_forall is_ascii s = true → str_forall is_ascii (trim s) = true.
Proof. intros. by apply trim_end_forall, trim_start_forall. Qed.

Lemma to_lower_ascii s : str_forall is_ascii s = true → str_forall is_ascii (to_lower s) = true.
Proof.
  induction s as [|c s IH]; [done|]. cbn. intros. bool_hyps. by rewrite lower_char_ascii, IH.
Qed.

(** ** Text *)

Section text.
Context `{Host}.

Definition normalizeText (value : jval) (label : string) (max : Z) : result string :=
  match value with
  | JStr s =>
      if negb (nonempty_str (trim s)) then Throw (error (label +:+ " is required"))
      else let normalized := trim (collapse (nfkc s)) in
           if bool_decide (max < Z.of_nat (String.length normalized))%Z
           then Throw (error (label +:+ " is too long"))
           else Ok normalized
  | _ => Throw (error (label +:+ " is required"))
  end.

(** What normalisation leaves alone. *)
Definition tidy (max : Z) (t : string) : Prop :=
  collapse t = t ∧ trim t = t ∧ t ≠ "" ∧ str_forall is_ascii t = true ∧
  (Z.of_nat (String.length t) ≤ max)%Z.

Lemma trim_nonblank_collapse s : trim s ≠ "" → trim (collapse s) ≠ "".
Proof.
  unfold collapse. generalize false. induction s as [|c s IH]; intros b; [done|].
  cbn [collapse_from]. unfold trim in *. destruct (js_space c) eqn:Hc.
  - cbn [trim_start]. rewrite Hc. intros Hs. destruct b; [by apply IH|]. cbn. by apply IH.
  - intros _. rewrite trim_start_fixed by done. destruct (trim_end_first c (collapse_from false s) Hc) as [x ->]. done.
Qed.

Lemma normalizeText_tidy `{!NfkcLaws _} s label max t :
  str_forall is_ascii s = true → normalizeText (JStr s) label max = Ok t → tidy max t.
Proof.
  intros Ha. unfold normalizeText. destruct (negb _) eqn:Hn; [done|]. cbv zeta.
  rewrite nfkc_ascii by done. case_bool_decide; [done|]. intros Hx%Ok_inj. subst t. bool_hyps.
  apply nonempty_str_true in Hn. split_and!.
  - apply collapse_from_id, trim_collapsed, collapse_from_collapsed.
  - apply trim_idem.
  - by apply trim_nonblank_collapse.
  - by apply trim_ascii, collapse_ascii.
  - lia.
Qed.

Lemma normalizeText_fixed `{!NfkcLaws _} label max t : tidy max t → normalizeText (JStr t) label max = Ok t.
Proof.
  intros (Hc & Ht & Hn & Ha & Hl). unfold normalizeText. rewrite Ht.
  apply nonempty_str_true in Hn. rewrite Hn. cbn [negb]. cbv zeta. rewrite nfkc_ascii by done.
  rewrite Hc, Ht. by rewrite bool_decide_eq_false_2 by lia.
Qed.

Lemma tidy_lower max t : tidy max t → tidy max (to_lower t).
Proof.
  intros (Hc & Ht & Hn & Ha & Hl). split_and!.
  - apply collapse_from_id. rewrite to_lower_collapsed.
    assert (Hx := collapse_from_collapsed false t). unfold collapse in Hc. by rewrite Hc in Hx.
  - by rewrite to_lower_trim, Ht.
  - by destruct t.
  - by apply to_lower_ascii.
  - by rewrite to_lower_length.
Qed.
End text.

(** ** Lists of identifiers *)

Definition trimmed_strings (l : list jval) : list string :=
  filter (λ s, s ≠ "") (omap (λ v, match v with JStr s => Some (trim s) | _ => None end) l).

Definition normalizeStringList (value : jval) (max : nat) : list string :=
  match value with
  | JArr l => take max (sort_strings (uniq (trimmed_strings l)))
  | _ => []
  end.

Definition string_list (l : list string) : jval := JArr (map JStr l).

Lemma uniq_NoDup_id (l : list string) : NoDup l → uniq l = l.
Proof.
  unfold uniq. assert (∀ seen, (∀ x, x ∈ l → x ∉ seen) → NoDup l → uniq_from seen l = l) as Hg;
    [|intros; apply Hg; [|done]; intros x _; by apply not_elem_of_nil].
  induction l as [|x l IH]; intros seen Hs Hn; [done|]. apply NoDup_cons in Hn as [Hx Hn].
  cbn. rewrite decide_False by (apply Hs; left). f_equal. apply IH; [|done].
  intros y Hy. apply not_elem_of_cons. split; [by intros ->|]. apply Hs. by right.
Qed.

Lemma sort_strings_sorted_id (l : list string) :
  StronglySorted (λ a b, str_leb a b = true) l → sort_strings l = l.
Proof.
  intros Hl. induction Hl as [|x l Hl IH Hx]; [done|].
  change (sort_strings (x :: l)) with (sort_insert str_leb x (sort_strings l)). rewrite IH.
  destruct l as [|y l]; [done|]. cbn. apply Forall_cons_1 in Hx as [Hx _]. by rewrite Hx.
Qed.

Lemma trimmed_strings_fixed l :
  (∀ x, x ∈ l → trim x = x ∧ x ≠ "") → trimmed_strings (map JStr l) = l.
Proof.
  intros Hl. unfold trimmed_strings.
  assert (omap (λ v, match v with JStr s => Some (trim s) | _ => None end) (map JStr l) = l) as ->.
  { induction l as [|x l IH]; [done|]. cbn. destruct (Hl x ltac:(left)) as [-> _]. f_equal.
    apply IH. intros y Hy. apply Hl. by right. }
  induction l as [|x l IH]; [done|]. rewrite filter_cons_True by (apply Hl; left). f_equal.
  apply IH. intros y Hy. apply Hl. by right.
Qed.

Lemma StronglySorted_take {A} (R : A → A → Prop) n l : StronglySorted R l → StronglySorted R (take n l).
Proof.
  intros Hl. revert n. induction Hl as [|x l Hl IH Hx]; intros [|n]; cbn; constructor; auto.
  by apply Forall_take.
Qed.

Lemma normalizeStringList_members v max x :
  x ∈ normalizeStringList v max → trim x = x ∧ x ≠ "".
Proof.
  destruct v as [| | | | | |l|]; cbn; try by intros []%elem_of_nil.
  intros Hx%elem_of_take_list. unfold sort_strings in Hx. rewrite elem_of_sort_by, elem_of_uniq in Hx.
  unfold trimmed_strings in Hx. apply list_elem_of_filter in Hx as [Hx Hin]. split; [|done].
  apply list_elem_of_omap in Hin as ([| | | | |s| |] & _ & Hs); try done. injection Hs as <-. apply trim_idem.
Qed.

(** Normalising a normalised list changes nothing. *)
Lemma normalizeStringList_idem v max :
  normalizeStringList (string_list (normalizeStringList v max)) max = normalizeStringList v max.
Proof.
  unfold string_list at 1. cbn [normalizeStringList].
  rewrite (trimmed_strings_fixed (normalizeStringList v max))
    by (intros x Hx; by eapply normalizeStringList_members).
  destruct v as [| | | | | |l|]; try (by destruct max). cbn [normalizeStringList].
  set (k := sort_strings (uniq (trimmed_strings l))).
  assert (Hk : NoDup (take max k)).
  { eapply sublist_NoDup; [|apply sublist_take]. unfold k, sort_strings. apply NoDup_sort_by, NoDup_uniq. }
  rewrite uniq_NoDup_id by done. rewrite sort_strings_sorted_id.
  - by rewrite take_take, Nat.min_id.
  - apply StronglySorted_take. unfold k, sort_strings. apply (sort_by_sorted _ str_leb_total str_leb_trans).
Qed.

End Text.
