(* ===== verification/Protocol.v ===== *)
(** * Messages of TRUYN/1 (core/protocol/index.js, core/protocol/need-admission.js)

    [Canonical] is the canonical JSON text that is signed ([normalize],
    [assertCanonicalJsonValue], [canonicalize]); [Keys] derives node identities
    from public keys; [Envelope] builds and verifies signed envelopes; [Compact]
    the compact frames; [NeedWindow] the admission window of a NEED. *)
From S2P Require Import Prelude JSMap JSValue JsonPrint Dates Host.

(** ** Canonical JSON *)

Module Canonical.
(** The numeric codes of a string's UTF-16 units. *)
Fixpoint code_units (s : string) : list Z :=
  match s with
  | EmptyString => []
  | String c s => Z.of_N (N_of_ascii c) :: code_units s
  end.

Definition is_high (c : Z) : bool := bool_decide (55296 ≤ c ≤ 56319)%Z.
Definition is_low (c : Z) : bool := bool_decide (56320 ≤ c ≤ 57343)%Z.

Definition unpaired : jerror := error "TCJ1 unpaired surrogate".

(** The scan over [charCodeAt(index)], with its extra step over the second
    half of a pair. *)
Fixpoint checkUnicode (text : list Z) : result unit :=
  match text with
  | [] => Ok tt
  | code :: rest =>
      if is_high code then
        match rest with
        | [] => Throw unpaired
        | next :: rest => if is_low next then checkUnicode rest else Throw unpaired
        end
      else if is_low code then Throw unpaired
      else checkUnicode rest
  end.

Fixpoint assertCanonicalJsonValue (value : jval) : result unit :=
  match value with
  | JNull | JBool _ => Ok tt
  | JNum n => throw_if (negb (js_finite n)) (error "TCJ1 non-finite number")
  | JStr s => checkUnicode (code_units s)
  | JUndef | JHole => Throw (error "TCJ1 requires JSON value")
  | JArr l =>
      (fix elements l :=
         match l with
         | [] => Ok tt
         | JHole :: _ => Throw (error "TCJ1 sparse array")
         | x :: l => _ ← assertCanonicalJsonValue x; elements l
         end) l
  | JObj kvs =>
      (fix members kvs :=
         match kvs with
         | [] => Ok tt
         | kv :: kvs =>
             _ ← checkUnicode (code_units kv.1);
             _ ← assertCanonicalJsonValue kv.2;
             members kvs
         end) kvs
  end.

Definition key_leb (a b : string * jval) : bool := str_leb a.1 b.1.

(** [Object.fromEntries(Object.keys(v).sort().map(k => [k, normalize(v[k])]))] *)
Fixpoint normalize (value : jval) : jval :=
  match value with
  | JArr l => JArr (map normalize l)
  | JObj kvs =>
      JObj (from_entries (sort_by key_leb (map (λ kv, (kv.1, normalize kv.2)) kvs)))
  | _ => value
  end.

Definition canonicalize (value : jval) : result string :=
  _ ← assertCanonicalJsonValue value;
  Ok (default "undefined" (stringify (normalize value))).

(** ** What canonical text identifies *)

(** The same JSON value: arrays element by element, objects as the same
    member names with the same values, in any order. *)
Fixpoint same_json (v w : jval) : Prop :=
  match v, w with
  | JArr l, JArr l' =>
      (fix elements l l' :=
         match l, l' with
         | [], [] => True
         | x :: l, y :: l' => same_json x y ∧ elements l l'
         | _, _ => False
         end) l l'
  | JObj a, JObj b =>
      length a = length b ∧
      (fix members a :=
         match a with
         | [] => True
         | kv :: a => (∃ y, lookup_key kv.1 b = Some y ∧ same_json kv.2 y) ∧ members a
         end) a
  | JArr _, _ | JObj _, _ => False
  | _, _ => v = w
  end.

(** Canonical text by the letter of the specification: names sorted by code
    units at every depth. *)
Fixpoint tcj1_order (value : jval) : jval :=
  match value with
  | JArr l => JArr (map tcj1_order l)
  | JObj kvs => JObj (sort_by key_leb (map (λ kv, (kv.1, tcj1_order kv.2)) kvs))
  | _ => value
  end.

(** No member name, at any depth, is an array index. *)
Fixpoint no_index_names (value : jval) : bool :=
  match value with
  | JArr l => forallb no_index_names l
  | JObj kvs =>
      forallb (λ kv, bool_decide (array_index kv.1 = None) && no_index_names kv.2) kvs
  | _ => true
  end.

(** ** Lemmas *)

Lemma key_leb_total a b : key_leb a b = true ∨ key_leb b a = true.
Proof. apply str_leb_total. Qed.
Lemma key_leb_trans a b c : key_leb a b = true → key_leb b c = true → key_leb a c = true.
Proof. apply str_leb_trans. Qed.

Lemma lookup_key_elem k v kvs :
  NoDup (keys kvs) → lookup_key k kvs = Some v ↔ (k, v) ∈ kvs.
Proof.
  unfold keys. induction kvs as [|[k' v'] kvs IH]; simpl; intros Hnd; [set_solver|].
  apply NoDup_cons in Hnd as [Hk Hnd]. rewrite elem_of_cons. case_decide as E.
  - subst. split; [intros [= ->]; by left|]. intros [[= ->]|H]; [done|].
    exfalso. apply Hk. apply (list_elem_of_fmap_2 fst) in H. done.
  - rewrite IH by done. naive_solver.
Qed.

Lemma sort_keys_unique (a b : list (string * jval)) :
  NoDup (keys a) → a ≡ₚ b → sort_by key_leb a = sort_by key_leb b.
Proof.
  intros Hnd Hp. apply (sorted_perm_unique key_leb).
  - intros x y Hx Hy H1 H2. rewrite elem_of_sort_by in Hx, Hy.
    eapply keys_unique; eauto. by apply str_leb_antisym.
  - apply sort_by_sorted; [apply key_leb_total|apply key_leb_trans].
  - apply sort_by_sorted; [apply key_leb_total|apply key_leb_trans].
  - by rewrite !sort_by_perm.
Qed.

Lemma normalize_members_perm kvs :
  from_entries (sort_by key_leb (map (λ kv, (kv.1, normalize kv.2)) kvs))
  ≡ₚ map (λ kv, (kv.1, normalize kv.2)) kvs.
Proof. unfold from_entries. by rewrite property_order_perm, sort_by_perm. Qed.

Lemma keys_map_snd (f : jval → jval) kvs : keys (map (λ kv, (kv.1, f kv.2)) kvs) = keys kvs.
Proof. induction kvs as [|kv kvs IH]; [done|]. exact (f_equal (cons kv.1) IH). Qed.

Lemma json_int_normalize v : json_int v = true → json_int (normalize v) = true.
Proof.
  induction v as [| | |b|n|s|l IH|kvs IH] using jval_nested_ind; try done; simpl.
  - rewrite Forall_forall in IH. rewrite !forallb_forall. intros H x Hx.
    apply in_map_iff in Hx as (y & <- & Hy). apply IH; [by apply list_elem_of_In|by apply H].
  - rewrite Forall_forall in IH. intros H. bool_hyps. rewrite forallb_forall in H.
    apply andb_true_intro. split.
    + apply forallb_forall. intros kv Hkv%list_elem_of_In.
      rewrite normalize_members_perm in Hkv. apply list_elem_of_In, in_map_iff in Hkv as (y & <- & Hy).
      apply IH; [by apply list_elem_of_In|by apply H].
    + apply bool_decide_eq_true. unfold keys. rewrite normalize_members_perm.
      by rewrite (keys_map_snd normalize).
Qed.

Definition normalize_member (kv : string * jval) : string * jval := (kv.1, normalize kv.2).

Lemma same_json_obj a b :
  same_json (JObj a) (JObj b) ↔
  length a = length b ∧
  ∀ kv, kv ∈ a → ∃ y, lookup_key kv.1 b = Some y ∧ same_json kv.2 y.
Proof.
  simpl. apply and_iff_compat_l.
  induction a as [|kv a IH]; [set_solver|]. rewrite IH. split.
  - intros [Hkv Hm] kv' [->|Hin]%elem_of_cons; [done|by apply Hm].
  - intros Hm. split; [apply Hm; by left|]. intros. apply Hm. by right.
Qed.

Lemma normalize_obj_iff a b :
  NoDup (keys a) →
  normalize (JObj a) = normalize (JObj b) ↔ map normalize_member a ≡ₚ map normalize_member b.
Proof.
  intros Hnd. split.
  - intros [= E]. etrans; [symmetry; apply normalize_members_perm|].
    rewrite E. apply normalize_members_perm.
  - intros Hp. simpl. unfold from_entries. do 2 f_equal.
    apply sort_keys_unique; [by rewrite (keys_map_snd normalize)|done].
Qed.

Lemma members_perm_iff a b :
  NoDup (keys a) → NoDup (keys b) →
  map normalize_member a ≡ₚ map normalize_member b ↔
  length a = length b ∧
  ∀ kv, kv ∈ a → ∃ y, lookup_key kv.1 b = Some y ∧ normalize kv.2 = normalize y.
Proof.
  intros Ha Hb. split.
  - intros Hp. split; [apply Permutation_length in Hp; by rewrite !length_map in Hp|].
    intros kv Hkv. assert (Hin : normalize_member kv ∈ map normalize_member b).
    { rewrite <- Hp. apply list_elem_of_In, in_map. by apply list_elem_of_In. }
    apply list_elem_of_In, in_map_iff in Hin as ([k y] & [= Hk Hn] & Hy%list_elem_of_In).
    exists y. split; [|done]. apply lookup_key_elem; [done|]. by rewrite <- Hk.
  - intros [Hlen Hm]. apply submseteq_length_Permutation; [|by rewrite !length_map, Hlen].
    apply NoDup_submseteq.
    { apply (NoDup_fmap_1 fst). change (NoDup (keys (map normalize_member a))).
      by rewrite (keys_map_snd normalize). }
    intros x (kv & <- & Hkv%list_elem_of_In)%list_elem_of_In%in_map_iff.
    destruct (Hm kv Hkv) as (y & Hy & Hs). apply lookup_key_elem in Hy; [|done].
    apply list_elem_of_In, in_map_iff. exists (kv.1, y).
    split; [|by apply list_elem_of_In]. unfold normalize_member. simpl. by rewrite Hs.
Qed.

(** [normalize] identifies exactly the values that are the same JSON. *)
Lemma normalize_eq_iff v w :
  json_int v = true → json_int w = true → normalize v = normalize w ↔ same_json v w.
Proof.
  revert w. induction v as [| | |b|n|s|l IH|a IH] using jval_nested_ind;
    intros w Hv Hw; try done; destruct w as [| | |b'|n'|s'|l'|kvs]; try done;
    try (by split; intros ?).
  - simpl in Hv, Hw. rewrite forallb_forall in Hv, Hw.
    assert (Hgo : map normalize l = map normalize l' ↔ same_json (JArr l) (JArr l'));
      [|rewrite <- Hgo; simpl; split; [by intros [= ?]|by intros ->]].
    revert l' Hw. induction IH as [|x l Hx IH IHl]; intros [|y l'] Hw; try done.
    change (normalize x :: map normalize l = normalize y :: map normalize l' ↔
            same_json x y ∧ same_json (JArr l) (JArr l')).
    rewrite <- (Hx y), <- IHl by (intros; auto with datatypes).
    split; [by intros [= -> ->]|by intros [-> ->]].
  - simpl in Hv, Hw. apply andb_prop in Hv as [Ja Na], Hw as [Jb Nb].
    apply bool_decide_eq_true in Na, Nb.
    rewrite forallb_forall in Ja, Jb. rewrite Forall_forall in IH.
    rewrite normalize_obj_iff, members_perm_iff, same_json_obj by done.
    apply and_iff_compat_l.
    split; intros Hm kv Hkv; destruct (Hm kv Hkv) as (y & Hy & Hs); exists y; split; try done;
      apply lookup_key_elem in Hy; try done; apply (IH kv Hkv); try done;
      (apply Ja; by apply list_elem_of_In) || (apply (Jb (kv.1, y)); by apply list_elem_of_In).
Qed.

Lemma checkUnicode_code_units s : checkUnicode (code_units s) = Ok tt.
Proof.
  induction s as [|c s IH]; [done|]. simpl. pose proof (N_ascii_bounded c).
  unfold is_high, is_low. rewrite !bool_decide_eq_false_2 by lia. done.
Qed.

(** Every JSON value without fractions is signable. *)
Lemma json_int_canonical v : json_int v = true → assertCanonicalJsonValue v = Ok tt.
Proof.
  induction v as [| | |b|[]|s|l IH|kvs IH] using jval_nested_ind; try done; simpl.
  - intros _. apply checkUnicode_code_units.
  - induction IH as [|x l Hx IH IHl]; [done|]. simpl. intros H. bool_hyps.
    rewrite Hx by done. simpl. destruct x; try done; by apply IHl.
  - intros H. apply andb_prop in H as [H _].
    induction IH as [|x l Hx IH IHl]; [done|]. simpl in *. bool_hyps.
    rewrite checkUnicode_code_units. simpl. rewrite Hx by done. simpl. by apply IHl.
Qed.

Lemma canonicalize_ok v :
  json_int v = true → canonicalize v = Ok (out (normalize v)).
Proof.
  intros Hv. unfold canonicalize. rewrite json_int_canonical by done. simpl.
  by rewrite json_int_stringify by (by apply json_int_normalize).
Qed.

Lemma canonicalize_inj v w :
  json_int v = true → json_int w = true →
  canonicalize v = canonicalize w → same_json v w.
Proof.
  intros Hv Hw H. rewrite !canonicalize_ok in H by done. injection H as H.
  apply normalize_eq_iff; [done..|].
  apply stringify_inj; [by apply json_int_normalize..|].
  rewrite !json_int_stringify by (by apply json_int_normalize). by f_equal.
Qed.

Lemma canonicalize_same v w :
  json_int v = true → json_int w = true → same_json v w →
  canonicalize v = canonicalize w.
Proof.
  intros Hv Hw H. rewrite !canonicalize_ok by done.
  by apply normalize_eq_iff in H as ->.
Qed.

(** ** Properties *)

(** C1: canonical text is total and faithful on JSON values (safe-integer
    numbers): every such value has a canonical text, and two values have the
    same text exactly when they are the same JSON value, whatever the order
    of their members. *)
Theorem canonicalize_iff v w :
  json_int v = true → json_int w = true →
  (∃ s, canonicalize v = Ok s) ∧ (canonicalize v = canonicalize w ↔ same_json v w).
Proof.
  intros Hv Hw. split; [eexists; by apply canonicalize_ok|].
  split; [by apply canonicalize_inj|by apply canonicalize_same].
Qed.

Definition sample_a : jval :=
  JObj [("b", JNum (JInt 2)); ("a", JArr [JStr "x"; JNull])].
Definition sample_b : jval :=
  JObj [("a", JArr [JStr "x"; JNull]); ("b", JNum (JInt 2))].

Lemma canonicalize_iff_witness :
  canonicalize sample_a = canonicalize sample_b ↔ same_json sample_a sample_b.
Proof. apply (canonicalize_iff sample_a sample_b); vm_compute; reflexivity. Defined.

Lemma property_order_plain kvs :
  Forall (λ kv, array_index kv.1 = None) kvs → property_order kvs = kvs.
Proof.
  intros H. unfold property_order.
  replace (filter (λ kv, is_Some (array_index kv.1)) kvs) with (@nil (string * jval)).
  - simpl. induction H as [|kv kvs Hkv H IH]; [done|].
    rewrite filter_cons_True by (rewrite Hkv; by intros [? ?]). by rewrite IH.
  - induction H as [|kv kvs Hkv H IH]; [done|].
    rewrite filter_cons_False by (rewrite Hkv; by intros [? ?]). done.
Qed.

Lemma normalize_plain v : no_index_names v = true → normalize v = tcj1_order v.
Proof.
  induction v as [| | |b|n|s|l IH|kvs IH] using jval_nested_ind; try done; simpl; intros H.
  - f_equal. rewrite forallb_forall in H. rewrite Forall_forall in IH.
    apply map_ext_in. intros x Hx. apply IH; [by apply list_elem_of_In|auto].
  - rewrite forallb_forall in H. rewrite Forall_forall in IH. f_equal.
    assert (E : map (λ kv, (kv.1, normalize kv.2)) kvs = map (λ kv, (kv.1, tcj1_order kv.2)) kvs).
    { apply map_ext_in. intros kv Hkv. specialize (H kv Hkv). bool_hyps.
      by rewrite (IH kv) by (done || by apply list_elem_of_In). }
    unfold from_entries. rewrite E. apply property_order_plain, Forall_forall.
    intros kv Hkv. rewrite elem_of_sort_by in Hkv.
    apply list_elem_of_In, in_map_iff in Hkv as (y & <- & Hy). simpl.
    specialize (H y Hy). by bool_hyps.
Qed.

(** The canonical text is the specified one (member names in code-unit
    order at every depth, spec/protocol/v1/envelope.md) for every value none of
    whose member names is an array index. *)
Theorem canonicalize_meets_spec v :
  no_index_names v = true → json_int v = true →
  canonicalize v = Ok (default "" (stringify (tcj1_order v))).
Proof.
  intros Hi Hv. rewrite canonicalize_ok by done. by rewrite normalize_plain.
Qed.

Lemma canonicalize_meets_spec_witness :
  no_index_names sample_a = true ∧
  canonicalize sample_a = Ok (default "" (stringify (tcj1_order sample_a))).
Proof. split; [reflexivity|]. apply canonicalize_meets_spec; reflexivity. Defined.

(** Integer-like names leave the specified order: the engine lists them
    first, in numeric order, whatever order [fromEntries] received. *)
Definition index_sample : jval :=
  JObj [("10", JNum (JInt 1)); ("9", JNum (JInt 2))].

Lemma index_names_diverge :
  canonicalize index_sample ≠ Ok (default "" (stringify (tcj1_order index_sample))).
Proof. vm_compute. discriminate. Qed.

(** Scalar values and their UTF-16 encoding. *)
Definition scalar (c : Z) : Prop := (0 ≤ c < 55296 ∨ 57344 ≤ c < 1114112)%Z.
Definition utf16 (c : Z) : list Z :=
  if bool_decide (c < 65536)%Z then [c]
  else [55296 + (c - 65536) / 1024; 56320 + (c - 65536) mod 1024]%Z.

Lemma checkUnicode_app_scalar c us :
  scalar c → checkUnicode (utf16 c ++ us) = checkUnicode us.
Proof.
  unfold scalar, utf16, is_high, is_low. intros Hc. case_bool_decide; simpl; unfold is_high, is_low.
  - rewrite !bool_decide_eq_false_2 by lia. done.
  - pose proof (Z.mod_pos_bound (c - 65536) 1024 ltac:(lia)).
    rewrite !bool_decide_eq_true_2 by (Z.div_mod_to_equations; lia). done.
Qed.

Lemma checkUnicode_decode n us :
  length us ≤ n → Forall (λ u, (0 ≤ u < 65536)%Z) us → checkUnicode us = Ok tt →
  ∃ cs, Forall scalar cs ∧ us = concat (map utf16 cs).
Proof.
  revert us. induction n as [|n IH]; intros [|c us] Hlen Hus H; simpl in Hlen; try lia;
    try (exists []; split; [constructor|done]).
  apply Forall_cons in Hus as [Hc Hus]. simpl in H. unfold is_high, is_low in H.
  case_bool_decide as Hhi.
  - destruct us as [|d us]; [done|]. apply Forall_cons in Hus as [Hd Hus].
    case_bool_decide as Hlo; [|done]. simpl in Hlen.
    destruct (IH us) as (cs & Hcs & ->); [lia|done|done|].
    exists ((65536 + (c - 55296) * 1024 + (d - 56320))%Z :: cs). split.
    + constructor; [unfold scalar; lia|done].
    + assert (E : utf16 (65536 + (c - 55296) * 1024 + (d - 56320)) = [c; d]).
      { unfold utf16. rewrite bool_decide_eq_false_2 by lia.
        set (x := (_ - 65536)%Z).
        assert (E1 : (55296 + x / 1024)%Z = c) by (unfold x; Z.div_mod_to_equations; lia).
        assert (E2 : (56320 + x mod 1024)%Z = d) by (unfold x; Z.div_mod_to_equations; lia).
        by rewrite E1, E2. }
      cbn [map concat]. by rewrite E.
  - case_bool_decide as Hlo; [done|].
    destruct (IH us) as (cs & Hcs & ->); [lia|done|done|].
    exists (c :: cs). split; [constructor; [unfold scalar; lia|done]|].
    assert (E : utf16 c = [c]) by (unfold utf16; by rewrite bool_decide_eq_true_2 by lia).
    cbn [map concat]. by rewrite E.
Qed.

(** The surrogate scan accepts exactly the well-formed UTF-16 texts, the
    encodings of sequences of Unicode scalar values. *)
Theorem checkUnicode_iff us :
  Forall (λ u, (0 ≤ u < 65536)%Z) us →
  checkUnicode us = Ok tt ↔ ∃ cs, Forall scalar cs ∧ us = concat (map utf16 cs).
Proof.
  intros Hus. split; [by apply (checkUnicode_decode (length us))|].
  intros (cs & Hcs & ->). clear Hus. induction Hcs as [|c cs Hc Hcs IH]; [done|].
  simpl. by rewrite checkUnicode_app_scalar.
Qed.

Lemma checkUnicode_iff_witness :
  checkUnicode [97; 55357; 56832]%Z = Ok tt ↔
  ∃ cs, Forall scalar cs ∧ [97; 55357; 56832]%Z = concat (map utf16 cs).
Proof. apply checkUnicode_iff. repeat constructor; vm_compute; congruence. Defined.
Lemma canonical_elements l : assertCanonicalJsonValue (JArr l) = Ok tt →
  ∀ x, x ∈ l → assertCanonicalJsonValue x = Ok tt.
Proof.
  induction l as [|y l IH]; intros Hok x Hx; [by apply elem_of_nil in Hx|].
  assert (Hy : assertCanonicalJsonValue y = Ok tt ∧ assertCanonicalJsonValue (JArr l) = Ok tt).
  { assert (Heq : (_ ← assertCanonicalJsonValue y; assertCanonicalJsonValue (JArr l)) = Ok tt)
      by (destruct y; first [exact Hok|discriminate Hok]).
    by apply bind_Ok_inv in Heq as ([] & ? & ?). }
  apply elem_of_cons in Hx as [->|Hx]; [apply Hy|apply IH; [apply Hy|done]].
Qed.

Lemma canonical_members kvs : assertCanonicalJsonValue (JObj kvs) = Ok tt →
  ∀ kv, kv ∈ kvs → assertCanonicalJsonValue kv.2 = Ok tt.
Proof.
  induction kvs as [|y kvs IH]; intros Hok kv Hx; [by apply elem_of_nil in Hx|].
  change (assertCanonicalJsonValue (JObj (y :: kvs))) with
    (_ ← checkUnicode (code_units y.1); _ ← assertCanonicalJsonValue y.2; assertCanonicalJsonValue (JObj kvs)) in Hok.
  apply bind_Ok_inv in Hok as ([] & _ & Hok). apply bind_Ok_inv in Hok as ([] & Hy & Hl).
  apply elem_of_cons in Hx as [->|Hx]; [done|by apply IH].
Qed.

Lemma canonicalize_member kvs t kv :
  canonicalize (JObj kvs) = Ok t → kv ∈ kvs → ∃ t', canonicalize kv.2 = Ok t'.
Proof.
  unfold canonicalize. intros ([] & Hc & _)%bind_Ok_inv Hin.
  rewrite (canonical_members _ Hc kv Hin). by eexists.
Qed.
End Canonical.

(** ** Node identities *)

Module Keys.
Section keys.
Context `{Host}.

(** [publicKeyFingerprint] without its memo (see [Memo]). *)
Definition publicKeyFingerprint (publicKeyPem : jval) : result string :=
  '(kind, der) ← createPublicKey publicKeyPem;
  if bool_decide (kind ≠ "ed25519") then
    Throw (error "TRUYN/1 requires Ed25519 public keys")
  else Ok (sha256_hex der).

Definition FINGERPRINT_CACHE_LIMIT : Z := 8192.

(** The exported function: only string keys go through the memo. *)
Definition publicKeyFingerprint_cached (publicKeyPem : jval) : M (jsmap string string) string :=
  match publicKeyPem with
  | JStr cacheKey =>
      Memo.recall FINGERPRINT_CACHE_LIMIT (λ s, publicKeyFingerprint (JStr s)) cacheKey
  | _ => lift_result (publicKeyFingerprint publicKeyPem)
  end.

(** The fingerprint memo is invisible and bounded: along any sequence of
    calls, hits, misses, evictions and invalid keys included, each call returns
    or throws what the computation without a memo does, and the memo never
    holds more than 8192 entries. *)
Theorem fingerprint_memo_transparent pems :
  (run_all publicKeyFingerprint_cached pems []).2 = map publicKeyFingerprint pems ∧
  (map_size (run_all publicKeyFingerprint_cached pems []).1 ≤ 8192)%Z.
Proof.
  set (f := λ s, publicKeyFingerprint (JStr s)).
  destruct (run_all_pure (Memo.bounded FINGERPRINT_CACHE_LIMIT f) publicKeyFingerprint_cached
              publicKeyFingerprint pems []) as [Hr (_ & Hs & _)]; [|by apply Memo.bounded_nil|done].
  intros [| | | | |k| |] cache Hb; try done. by apply (Memo.recall_transparent _ f k cache).
Qed.

Definition nodeIdFromPublicKey (publicKeyPem : jval) : result string :=
  fp ← publicKeyFingerprint publicKeyPem; Ok ("truyn:node:" +:+ fp).

(** [digest(value)] of the claim, trust and transparency modules *)
Definition digest (value : jval) : result string :=
  text ← Canonical.canonicalize value; Ok ("sha256:" +:+ sha256_hex text).

(** [signValue] and [verifyValue] of core/identity/index.js *)
Definition signValue (value : jval) (privateKeyPem : string) : result string :=
  text ← Canonical.canonicalize value;
  sig ← crypto_sign text privateKeyPem;
  Ok (base64_encode sig).

(** [Buffer.from(v, encoding)]: text is decoded, an array is taken as bytes,
    anything else throws. *)
Definition byte_of (v : jval) : ascii :=
  match v with JNum (JInt z) => ascii_of_N (Z.to_N (z mod 256)) | _ => ascii_of_N 0 end.

Definition buffer_of (decode : string → string) (v : jval) : result string :=
  match v with
  | JStr s => Ok (decode s)
  | JArr l => Ok (foldr (λ x s, String (byte_of x) s) "" l)
  | _ => Throw (error "ERR_INVALID_ARG_TYPE")
  end.

(** [publicKeyObject]: a string key is parsed, which may throw. *)
Definition publicKeyObject (publicKeyPem : jval) : result jval :=
  match publicKeyPem with
  | JStr _ => _ ← createPublicKey publicKeyPem; Ok publicKeyPem
  | _ => Ok publicKeyPem
  end.

Definition verifyValue (value signature publicKeyPem : jval) : result bool :=
  text ← Canonical.canonicalize value;
  key ← publicKeyObject publicKeyPem;
  bytes ← buffer_of base64_decode signature;
  crypto_verify text key bytes.

Lemma verifyValue_inv value signature pk :
  verifyValue value signature pk = Ok true →
  ∃ text bytes, Canonical.canonicalize value = Ok text ∧
    buffer_of base64_decode signature = Ok bytes ∧ crypto_verify text pk bytes = Ok true.
Proof.
  unfold verifyValue. intros Hv.
  apply bind_Ok_inv in Hv as (text & Ht & Hv). apply bind_Ok_inv in Hv as (key & Hk & Hv).
  apply bind_Ok_inv in Hv as (bytes & Hb & Hv).
  assert (key = pk) as ->.
  { destruct pk; cbn in Hk; try congruence. by apply bind_Ok_inv in Hk as (? & _ & [= <-]). }
  eauto 10.
Qed.

(** What a key pair signs verifies. *)
Lemma verifyValue_signValue pub priv value sig (HK : KeyPair _ pub priv) (HL : Base64Laws _) :
  signValue value priv = Ok sig → verifyValue value (JStr sig) (JStr pub) = Ok true.
Proof.
  unfold signValue, verifyValue. destruct (Canonical.canonicalize value) as [text|]; [|done].
  destruct (keypair_signs text) as (bytes & Hs & _ & Hv). destruct keypair_type as [der Hd].
  unfold mbind, result_bind. rewrite Hs. intros [= <-]. cbn [publicKeyObject].
  unfold mbind, result_bind. rewrite Hd. cbn [buffer_of]. by rewrite base64_round_trip.
Qed.

(** A signature is not the empty text. *)
Lemma signValue_nonempty pub priv (HK : KeyPair _ pub priv) (HL : Base64Laws _) v sig :
  signValue v priv = Ok sig → sig ≠ "".
Proof.
  unfold signValue. intros (t & _ & Hs)%bind_Ok_inv. apply bind_Ok_inv in Hs as (b & Hb & Hs%Ok_inj).
  destruct (keypair_signs (pub := pub) (priv := priv) t) as (b' & Hb' & Hl & _).
  rewrite Hb in Hb'. apply Ok_inj in Hb' as <-. subst sig. intros He. by apply (base64_nonblank b Hl); rewrite He.
Qed.
End keys.
End Keys.
Import Canonical Keys.

(** ** Verification outcomes *)

(** [{ ok: true, ... }] or [{ ok: false, reason }] *)
Inductive verdict :=
| Accepted
| Rejected (reason : string).

#[export] Instance verdict_eq_dec : EqDecision verdict.
Proof. solve_decision. Defined.

Definition accepted (v : verdict) : bool :=
  match v with Accepted => true | Rejected _ => false end.

(** ** Signed envelopes *)

Module Envelope.
Definition PROTOCOL : string := "TRUYN/1".
Definition MVP_TYPES : list string := ["IDENTITY"; "OFFER"; "NEED"; "RESULT"; "REVOKE"].

Definition isNonEmptyString (value : jval) : bool :=
  match value with JStr s => nonempty_str (trim s) | _ => false end.

Definition isPayloadObject (value : jval) : bool :=
  match value with JObj _ => true | _ => false end.

(** [allowedTypes.includes(v)] *)
Definition includes (l : list string) (v : jval) : bool :=
  match v with JStr s => bool_decide (s ∈ l) | _ => false end.

Definition str_of (v : jval) : string :=
  match v with JStr s => s | _ => "" end.

Section envelope.
Context `{Host}.

Definition isRfc3339Timestamp (value : jval) : bool :=
  if negb (isNonEmptyString value) then false else
  match read_stamp (str_of value) with
  | None => false
  | Some t =>
      match Date_parse (str_of value) with
      | None => false
      | Some utcTime =>
          let '(negative, hours, minutes) := default (false, 0, 0)%Z (st_zone t) in
          if bool_decide (hours > 23)%Z || bool_decide (minutes > 59)%Z then false
          else
            let offsetMinutes := ((if negative : bool then -1 else 1) * (hours * 60 + minutes))%Z in
            bool_decide (str_take 19 (toISOString (utcTime + offsetMinutes * 60000)%Z)
                         = str_take 19 (str_of value))
      end
  end.

Definition unsignedEnvelope (envelope : list (string * jval)) : jval :=
  JObj (remove_key "signature" envelope).

(** The arguments of [createEnvelope]; [to] defaults to null, [id] and
    [createdAt] to a fresh identifier and the current time. *)
Record envelope_args := EnvelopeArgs {
  a_type : jval; a_from : jval; a_payload : jval;
  a_privateKeyPem : jval; a_publicKeyPem : jval;
  a_to : jval; a_id : jval; a_createdAt : jval
}.

Definition unsigned_of (a : envelope_args) : list (string * jval) :=
  [("protocol", JStr PROTOCOL); ("type", a_type a); ("id", a_id a); ("from", a_from a);
   ("to", a_to a); ("createdAt", a_createdAt a); ("publicKey", a_publicKeyPem a);
   ("payload", a_payload a)].

Definition createEnvelope (a : envelope_args) : result (list (string * jval)) :=
  if negb (includes MVP_TYPES (a_type a)) then
    Throw (error ("Unsupported MVP message type: " +:+ to_string (a_type a)))
  else if negb (isNonEmptyString (a_from a)) || negb (isPayloadObject (a_payload a)) ||
          negb (isNonEmptyString (a_privateKeyPem a)) || negb (isNonEmptyString (a_publicKeyPem a)) then
    Throw (error "from, payload object, privateKeyPem and publicKeyPem are required")
  else if negb (isNonEmptyString (a_id a)) || negb (isNonEmptyString (a_createdAt a)) then
    Throw (error "id and createdAt are required")
  else if negb (isRfc3339Timestamp (a_createdAt a)) then
    Throw (error "createdAt must be a valid RFC 3339 timestamp")
  else if negb (strict_eq (a_to a) JNull) && negb (isNonEmptyString (a_to a)) then
    Throw (error "to must be null or a non-empty node ID")
  else
    expectedNodeId ← nodeIdFromPublicKey (a_publicKeyPem a);
    if negb (eq_str (a_from a) expectedNodeId) then
      Throw (error "Sender node ID does not match the supplied public key")
    else
      text ← canonicalize (JObj (unsigned_of a));
      sig ← crypto_sign text (str_of (a_privateKeyPem a));
      Ok (unsigned_of a ++ [("signature", JStr (base64_encode sig))]).

Definition verifyEnvelope (envelope : jval) (allowedTypes : list string) : verdict :=
  if negb (truthy envelope) || negb (eq_str (prop envelope "protocol") PROTOCOL) then
    Rejected "unsupported_protocol"
  else if negb (includes allowedTypes (prop envelope "type")) then
    Rejected "unsupported_type"
  else if
    negb (isNonEmptyString (prop envelope "id")) ||
    negb (isNonEmptyString (prop envelope "from")) ||
    negb (isNonEmptyString (prop envelope "createdAt")) ||
    negb (isNonEmptyString (prop envelope "publicKey")) ||
    negb (isPayloadObject (prop envelope "payload")) ||
    negb (isNonEmptyString (prop envelope "signature")) then
    Rejected "missing_required_field"
  else if
    negb (strict_eq (prop envelope "to") JUndef) &&
    negb (strict_eq (prop envelope "to") JNull) &&
    negb (isNonEmptyString (prop envelope "to")) then
    Rejected "invalid_optional_field"
  else if negb (isRfc3339Timestamp (prop envelope "createdAt")) then
    Rejected "invalid_timestamp"
  else
    let text := str_of (prop envelope "signature") in
    if negb (base64_shape text) then Rejected "invalid_signature"
    else
      let signature := base64_decode text in
      if bool_decide (String.length signature ≠ 64) ||
         bool_decide (base64_encode signature ≠ text) then
        Rejected "invalid_signature"
      else
        try_catch
          (nodeId ← nodeIdFromPublicKey (prop envelope "publicKey");
           if negb (eq_str (prop envelope "from") nodeId) then
             Ok (Rejected "node_id_key_mismatch")
           else
             match envelope with
             | JObj kvs =>
                 signed ← canonicalize (unsignedEnvelope kvs);
                 ok ← crypto_verify signed (prop envelope "publicKey") signature;
                 Ok (if ok : bool then Accepted else Rejected "invalid_signature")
             | _ => Ok (Rejected "invalid_signature")
             end)
          (λ _, Rejected "invalid_signature").
End envelope.

(** ** Timestamps *)

(** A real calendar instant with a zone offset within a day. *)
Definition calendar_valid (t : stamp) : Prop :=
  (1 ≤ st_month t ≤ 12 ∧ 1 ≤ st_day t ≤ days_in_month (st_year t) (st_month t) ∧
   st_hour t ≤ 23 ∧ st_min t ≤ 59 ∧ st_sec t ≤ 59 ∧
   match st_zone t with None => True | Some (_, h, m) => h ≤ 23 ∧ m ≤ 59 end)%Z.

Lemma days_in_month_le y m : (days_in_month y m ≤ 31)%Z.
Proof. unfold days_in_month. repeat case_match; lia. Qed.

Lemma calendar_engine t :
  fields_in_width t → calendar_valid t → engine_accepts t = true.
Proof.
  intros Hw (Hmo & Hd & Hh & Hmi & Hs & _). unfold engine_accepts.
  pose proof (days_in_month_le (st_year t) (st_month t)).
  rewrite !bool_decide_eq_true_2 by lia. done.
Qed.

Lemma seconds_text_length t : String.length (seconds_text t) = 19.
Proof.
  unfold seconds_text. repeat (rewrite length_string_app || rewrite length_pad || simpl). done.
Qed.

Lemma first_digit_nonblank s : first_is_digit s = true → nonempty_str (trim s) = true.
Proof.
  destruct s as [|c s]; [done|]. simpl. intros Hc. unfold trim. simpl.
  assert (Hs : js_space c = false).
  { unfold is_digit, js_space in *. bool_hyps. apply bool_decide_eq_false. lia. }
  rewrite Hs. simpl. rewrite Hs. by destruct (trim_end s).
Qed.

Section timestamp.
Context `{Host}.

Lemma isRfc3339_read s t :
  read_stamp s = Some t →
  isRfc3339Timestamp (JStr s) =
    engine_accepts t &&
    match st_zone t with
    | None => true
    | Some (_, h, m) => bool_decide (h ≤ 23)%Z && bool_decide (m ≤ 59)%Z
    end &&
    bool_decide (str_take 19 (toISOString (local_time t)) = seconds_text t).
Proof.
  intros Hr. destruct (read_stamp_inv _ _ Hr) as (Hw & _ & rest & Hs).
  unfold isRfc3339Timestamp. cbn [isNonEmptyString str_of]. unfold Date_parse. rewrite Hr.
  rewrite (first_digit_nonblank s) by (rewrite Hs; unfold seconds_text; rewrite !string_app_assoc; apply pad_head).
  cbn [negb]. unfold stamp_time. destruct (engine_accepts t); [|done]. cbn [andb].
  assert (Ht : str_take 19 s = seconds_text t)
    by (rewrite Hs, <- (seconds_text_length t); apply str_take_app).
  assert (E : ∀ z, (local_time t - z * 60000 + z * 60000)%Z = local_time t) by lia.
  rewrite Ht. unfold zone_minutes. destruct (st_zone t) as [[[n h] m]|]; cbn [default from_option id].
  - destruct (bool_decide_reflect (h > 23)%Z), (bool_decide_reflect (h ≤ 23)%Z); try lia; cbn [orb andb]; try done.
    destruct (bool_decide_reflect (m > 59)%Z), (bool_decide_reflect (m ≤ 59)%Z); try lia; cbn [orb andb]; try done.
    cbv zeta. rewrite E, ?andb_true_l. reflexivity.
  - cbv zeta. change (bool_decide (0 > 23)%Z || bool_decide (0 > 59)%Z) with false.
    cbv iota. change ((1 * (0 * 60 + 0)))%Z with 0%Z. rewrite E, andb_true_l. reflexivity.
Qed.

(** A text is accepted as a timestamp exactly when it has the RFC 3339
    shape and names a real calendar instant: February 30, April 31, hour 24,
    second 60 and offsets beyond 23:59 are refused, although the date parser
    underneath accepts or normalises them. *)
Theorem isRfc3339Timestamp_iff s :
  isRfc3339Timestamp (JStr s) = true ↔
  ∃ t, read_stamp s = Some t ∧ calendar_valid t.
Proof.
  destruct (read_stamp s) as [t|] eqn:Hr; cycle 1.
  { unfold isRfc3339Timestamp. cbn [isNonEmptyString str_of]. rewrite Hr. destruct (negb _); split; try done; by intros (? & [=] & _). }
  rewrite (isRfc3339_read _ _ Hr).
  destruct (read_stamp_inv _ _ Hr) as (Hw & Hfr & _). pose proof (frac_ms_bound _ Hfr) as Hms.
  split.
  - intros [[He Hz]%andb_prop Hp]%andb_prop. exists t. split; [done|].
    apply bool_decide_eq_true, printed_back_iff in Hp as [Hdim Hhr]; [|done..].
    unfold engine_accepts in He. bool_hyps.
    repeat split; try lia.
    destruct (st_zone t) as [[[? ?] ?]|]; [|done]. by bool_hyps.
  - intros (t' & [= <-] & Hv). rewrite (calendar_engine _ Hw Hv).
    assert (Hp : str_take 19 (toISOString (local_time t)) = seconds_text t)
      by (apply printed_back_iff; [done|by apply calendar_engine|done|];
          destruct Hv as (?&?&?&?&?&?); lia).
    rewrite (bool_decide_eq_true_2 _ Hp).
    destruct Hv as (_ & _ & _ & _ & _ & Hz). destruct (st_zone t) as [[[? ?] ?]|]; [|done].
    rewrite !bool_decide_eq_true_2 by lia. done.
Qed.
End timestamp.

(** ** Properties of envelopes *)

Section envelope_properties.
Context `{Host}.

(** What an accepted envelope has been checked for. *)
Definition authentic (allowed : list string) (kvs : list (string * jval)) : Prop :=
  ∃ nodeId signed sig,
    eq_str (oprop (JObj kvs) "protocol") PROTOCOL = true ∧
    includes allowed (oprop (JObj kvs) "type") = true ∧
    isNonEmptyString (oprop (JObj kvs) "id") = true ∧
    isPayloadObject (oprop (JObj kvs) "payload") = true ∧
    isRfc3339Timestamp (oprop (JObj kvs) "createdAt") = true ∧
    oprop (JObj kvs) "signature" = JStr sig ∧
    String.length (base64_decode sig) = 64 ∧ base64_encode (base64_decode sig) = sig ∧
    nodeIdFromPublicKey (oprop (JObj kvs) "publicKey") = Ok nodeId ∧
    oprop (JObj kvs) "from" = JStr nodeId ∧
    canonicalize (unsignedEnvelope kvs) = Ok signed ∧
    crypto_verify signed (oprop (JObj kvs) "publicKey") (base64_decode sig) = Ok true.

Lemma verifyEnvelope_authentic e allowed :
  verifyEnvelope e allowed = Accepted → ∃ kvs, e = JObj kvs ∧ authentic allowed kvs.
Proof.
  unfold verifyEnvelope.
  destruct (negb (truthy e) || _) eqn:G1; [done|].
  destruct (negb (includes _ _)) eqn:G2; [done|].
  destruct (_ || negb (isNonEmptyString (oprop e "signature"))) eqn:G3; [done|].
  destruct (_ && negb (isNonEmptyString (oprop e "to"))) eqn:G4; [done|].
  destruct (negb (isRfc3339Timestamp _)) eqn:G5; [done|].
  cbv zeta. destruct (negb (base64_shape _)) eqn:G6; [done|].
  destruct (bool_decide (String.length _ ≠ 64) || _) eqn:G7; [done|].
  bool_hyps. intros Hv.
  destruct (nodeIdFromPublicKey (oprop e "publicKey")) as [nodeId|] eqn:Hn; [|done].
  unfold mbind, result_bind in Hv. cbn [try_catch] in Hv.
  destruct (negb (eq_str (oprop e "from") nodeId)) eqn:Hf; [done|]. bool_hyps.
  destruct e as [| | | | | | |kvs]; try done.
  destruct (canonicalize (unsignedEnvelope kvs)) as [signed|] eqn:Hc; [|done].
  destruct (crypto_verify signed _ _) as [[]|] eqn:Hcv; try done.
  exists kvs. split; [done|].
  destruct (oprop (JObj kvs) "signature") as [| | | | |sig| |] eqn:Hs; try done.
  exists nodeId, signed, sig. cbn [str_of] in *.
  apply eq_str_true in Hf. destruct_and?.
  repeat split; try done; by apply dec_stable.
Qed.

(** The texts a signer signs for the envelopes [made]. *)
Definition signed_texts (made : list (list (string * jval))) : list string :=
  omap (λ kvs, match canonicalize (unsignedEnvelope kvs) with Ok text => Some text | Throw _ => None end) made.

(** C2: a verified envelope binds every member it carries, up to a forgery of
    the signature.  Let [made] be the envelopes the holder of a key ever signed,
    and let numbers be integers.  An accepted envelope names the node identity of
    its embedded key as its sender, its signature verifies its own canonical
    text, and that text is one the holder signed exactly when the envelope, apart
    from its signature, is the same JSON value as one of [made].  So an envelope
    whose type, recipient, identifier, timestamp, payload or any other member
    was altered, added or dropped is accepted only with a signature that verifies
    a text its signer never signed, also for the altered envelope of another
    signature. *)
Theorem envelope_tamper_evident allowed kvs made :
  json_int (JObj (remove_key "signature" kvs)) = true →
  (∀ kvs', kvs' ∈ made → json_int (JObj (remove_key "signature" kvs')) = true) →
  verifyEnvelope (JObj kvs) allowed = Accepted →
  ∃ nodeId text sig,
    nodeIdFromPublicKey (oprop (JObj kvs) "publicKey") = Ok nodeId ∧ oprop (JObj kvs) "from" = JStr nodeId ∧
    oprop (JObj kvs) "signature" = JStr sig ∧ canonicalize (JObj (remove_key "signature" kvs)) = Ok text ∧
    crypto_verify text (oprop (JObj kvs) "publicKey") (base64_decode sig) = Ok true ∧
    (text ∈ signed_texts made ↔
     ∃ kvs', kvs' ∈ made ∧
       same_json (JObj (remove_key "signature" kvs)) (JObj (remove_key "signature" kvs'))).
Proof.
  intros J Jm (k & [= <-] & n & t & sig & _&_&_&_&_&Hs&_&_&Hn&Hf&Hc&Hv)%verifyEnvelope_authentic.
  exists n, t, sig. split_and!; [done..|]. unfold signed_texts. rewrite list_elem_of_omap. split.
  - intros (kvs' & Hin & Ht). exists kvs'. split; [done|].
    destruct (canonicalize (unsignedEnvelope kvs')) as [t'|] eqn:Hc'; [|done]. injection Ht as ->.
    apply canonicalize_inj; [done|by apply Jm|]. unfold unsignedEnvelope in *. congruence.
  - intros (kvs' & Hin & Hsame). exists kvs'. split; [done|].
    apply canonicalize_same in Hsame; [|done|by apply Jm]. unfold unsignedEnvelope in *. rewrite <- Hsame, Hc. done.
Qed.

Lemma unsigned_of_signed a v :
  unsignedEnvelope (unsigned_of a ++ [("signature", v)]) = JObj (unsigned_of a).
Proof. reflexivity. Qed.

(** Checks passed one after the other lead to acceptance. *)
Lemma verifyEnvelope_accepts allowed kvs nodeId signed sig :
  let e := JObj kvs in
  eq_str (oprop e "protocol") PROTOCOL = true →
  includes allowed (oprop e "type") = true →
  isNonEmptyString (oprop e "id") = true → isNonEmptyString (oprop e "from") = true →
  isNonEmptyString (oprop e "createdAt") = true →
  isNonEmptyString (oprop e "publicKey") = true →
  isPayloadObject (oprop e "payload") = true →
  strict_eq (oprop e "to") JNull = true ∨ isNonEmptyString (oprop e "to") = true →
  isRfc3339Timestamp (oprop e "createdAt") = true →
  oprop e "signature" = JStr sig → isNonEmptyString (JStr sig) = true →
  base64_shape sig = true → String.length (base64_decode sig) = 64 →
  base64_encode (base64_decode sig) = sig →
  nodeIdFromPublicKey (oprop e "publicKey") = Ok nodeId →
  eq_str (oprop e "from") nodeId = true →
  canonicalize (unsignedEnvelope kvs) = Ok signed →
  crypto_verify signed (oprop e "publicKey") (base64_decode sig) = Ok true →
  verifyEnvelope e allowed = Accepted.
Proof.
  intros e H1 H2 H3 H4 H5 H6 H7 H8 H9 H10 H11 H12 H13 H14 H15 H16 H17 H18.
  unfold verifyEnvelope. change (truthy e) with true.
  rewrite H1, H2, H3, H4, H5, H6, H7, H9, H10, H11. cbn [negb orb].
  assert (Hto : negb (strict_eq (oprop e "to") JUndef) && negb (strict_eq (oprop e "to") JNull)
                && negb (isNonEmptyString (oprop e "to")) = false)
    by (destruct H8 as [-> | ->]; by rewrite !andb_false_r).
  rewrite Hto. cbv zeta. cbn [str_of]. rewrite H12. cbn [negb].
  rewrite !bool_decide_eq_false_2 by (intros Hc; by apply Hc). cbn [orb].
  rewrite H15. unfold mbind, result_bind. rewrite H16. cbn [negb]. unfold e in *.
  rewrite H17, H18. reflexivity.
Qed.

(** What a node signs, every node accepts: an envelope built by
    [createEnvelope] with a matching key pair passes [verifyEnvelope]. *)
Theorem envelope_round_trip (HL : Base64Laws _) pub priv a env :
  KeyPair _ pub priv →
  a_publicKeyPem a = JStr pub → a_privateKeyPem a = JStr priv →
  createEnvelope a = Ok env →
  verifyEnvelope (JObj env) MVP_TYPES = Accepted.
Proof.
  intros HK Hpub Hpriv. unfold createEnvelope.
  destruct (negb (includes _ _)) eqn:G1; [done|].
  destruct (negb (isNonEmptyString (a_from a)) || _ || _ || _) eqn:G2; [done|].
  destruct (_ || negb (isNonEmptyString (a_createdAt a))) eqn:G3; [done|].
  destruct (negb (isRfc3339Timestamp _)) eqn:G4; [done|].
  destruct (_ && negb (isNonEmptyString (a_to a))) eqn:G5; [done|].
  intros (nodeId & Hn & Hc)%bind_Ok_inv. destruct (negb (eq_str _ _)) eqn:G6; [done|].
  apply bind_Ok_inv in Hc as (text & Ht & Hc). apply bind_Ok_inv in Hc as (sig & Hs & [= <-]).
  bool_hyps. rewrite Hpriv in Hs. cbn [str_of] in Hs.
  destruct (keypair_signs text) as (sig' & Hs' & Hlen & Hv). rewrite Hs' in Hs.
  injection Hs as <-.
  eapply (verifyEnvelope_accepts _ _ nodeId text (base64_encode sig')).
  1-9: try done; try (by cbn).
  - destruct (strict_eq (a_to a) JNull) eqn:E; [by left|]. right. cbn in G5. by bool_hyps.
  - reflexivity.
  - by apply nonempty_str_true, base64_nonblank.
  - by apply base64_text.
  - by rewrite base64_round_trip.
  - by rewrite base64_round_trip.
  - exact Hn.
  - exact G6.
  - exact Ht.
  - rewrite base64_round_trip. change (oprop _ "publicKey") with (a_publicKeyPem a).
    by rewrite Hpub.
Qed.
End envelope_properties.

(** A NEED envelope on the concrete platform. *)
Definition toy_args : envelope_args :=
  let pub := "pem" in
  EnvelopeArgs (JStr "NEED")
    (JStr (match nodeIdFromPublicKey (H := Toy.host) (JStr pub) with Ok s => s | Throw _ => "" end))
    (JObj [("capability", JStr "echo")]) (JStr "priv") (JStr pub) JNull (JStr "id-1")
    (JStr "2026-10-13T12:30:00.000Z").

Definition toy_envelope : list (string * jval) :=
  unsigned_of toy_args ++ [("signature", JStr (Toy.letters Toy.signature))].

(** The same envelope with its members in another order. *)
Definition toy_envelope_reordered : list (string * jval) := rev toy_envelope.

Lemma envelope_round_trip_witness :
  verifyEnvelope (H := Toy.host) (JObj toy_envelope) MVP_TYPES = Accepted.
Proof.
  apply (@envelope_round_trip Toy.host Toy.base64_laws "pem" "priv" toy_args toy_envelope
           (Toy.key_pair "pem" "priv")); vm_compute; reflexivity.
Defined.

Lemma envelope_tamper_evident_witness :
  same_json (JObj (remove_key "signature" toy_envelope_reordered)) (JObj (remove_key "signature" toy_envelope)).
Proof.
  destruct (envelope_tamper_evident (H := Toy.host) MVP_TYPES toy_envelope_reordered [toy_envelope])
    as (n & t & sig & _ & _ & _ & Hc & _ & Hiff).
  - vm_compute. reflexivity.
  - intros kvs' ->%list_elem_of_singleton. vm_compute. reflexivity.
  - vm_compute. reflexivity.
  - assert (E : Ok t = canonicalize (JObj (remove_key "signature" toy_envelope))) by (rewrite <- Hc; vm_compute; reflexivity).
    destruct (proj1 Hiff) as (kvs' & ->%list_elem_of_singleton & Hsame); [|exact Hsame].
    unfold signed_texts, unsignedEnvelope. cbn [omap list_omap]. rewrite <- E. left.
Defined.
End Envelope.

(** ** Compact frames *)

Module Compact.
Import Envelope.

Definition COMPACT_TYPES : list string :=
  ["NEED"; "RESULT"; "PARTIAL"; "CHAIN"; "CONTEXT_PUT"; "CONTEXT_DELTA"].

Definition COMPACT_TYPE_CODES : list (string * string) :=
  [("NEED", "N"); ("RESULT", "R"); ("PARTIAL", "T"); ("CHAIN", "C");
   ("CONTEXT_PUT", "P"); ("CONTEXT_DELTA", "D")].

Definition COMPACT_CODE_TYPES : list (string * string) :=
  [("N", "NEED"); ("R", "RESULT"); ("T", "PARTIAL"); ("C", "CHAIN");
   ("P", "CONTEXT_PUT"); ("D", "CONTEXT_DELTA")].

Fixpoint assoc (k : string) (l : list (string * string)) : option string :=
  match l with
  | [] => None
  | (k', v) :: l => if decide (k = k') then Some v else assoc k l
  end.

(** [n.toString(36)] for one digit *)
Definition base36_digit (n : Z) : string :=
  String (ascii_of_N (Z.to_N (if bool_decide (n < 10)%Z then 48 + n else 87 + n))) "".

Definition compactStageRequestId (chainId stageIndex : jval) : result string :=
  match chainId with
  | JStr s =>
      if negb (nonempty_str s) then Throw (error "chainId is required")
      else match is_integer stageIndex with
           | Some i =>
               if bool_decide (i < 0)%Z || bool_decide (i > 35)%Z then
                 Throw (error "stageIndex must be an integer between 0 and 35")
               else Ok (str_take 15 s +:+ base36_digit i)
           | None => Throw (error "stageIndex must be an integer between 0 and 35")
           end
  | _ => Throw (error "chainId is required")
  end.

Definition compactType (frame : jval) : option string :=
  assoc (to_string (oprop frame "t")) COMPACT_CODE_TYPES.

Definition compactSigningValue (type : string) (id payload : jval) : result jval :=
  match assoc type COMPACT_TYPE_CODES with
  | Some code => Ok (JArr [JStr code; id; payload])
  | None => Throw (error ("Unsupported compact message type: " +:+ type))
  end.

Section compact.
Context `{Host}.

Definition createCompactFrame (type : string) (payload privateKeyPem id : jval) : result jval :=
  if negb (bool_decide (type ∈ COMPACT_TYPES)) then
    Throw (error ("Unsupported compact message type: " +:+ type))
  else if negb (truthy id) || negb (is_string id) || negb (truthy payload) ||
          negb (truthy privateKeyPem) then
    Throw (error "id, payload and privateKeyPem are required for compact frames")
  else
    signing ← compactSigningValue type id payload;
    text ← canonicalize signing;
    sig ← crypto_sign text (str_of privateKeyPem);
    Ok (JObj [("t", JStr (default "" (assoc type COMPACT_TYPE_CODES))); ("i", id);
              ("s", JStr (base64url_encode sig))]).

(** [Buffer.from(v, 'base64url')] *)
Definition buffer_from : jval → result string := buffer_of base64url_decode.

(** [Ok (inl reason)] is [{ ok: false, reason }], [Ok (inr type)] is
    [{ ok: true, type }]; canonicalisation and key errors propagate. *)
Definition verifyCompactFrame (frame payload publicKeyPem : jval) (allowedTypes : list string)
    : result (string + string) :=
  if negb (truthy frame) || negb (truthy (oprop frame "t")) || negb (truthy (oprop frame "i")) ||
     negb (truthy (oprop frame "s")) || negb (truthy payload) || negb (truthy publicKeyPem) then
    Ok (inl "missing_required_field")
  else
    match compactType frame with
    | None => Ok (inl "unsupported_type")
    | Some type =>
        if negb (bool_decide (type ∈ allowedTypes)) then Ok (inl "unsupported_type")
        else match buffer_from (oprop frame "s") with
             | Throw _ => Ok (inl "invalid_signature_encoding")
             | Ok signature =>
                 if bool_decide (String.length signature ≠ 64) then
                   Ok (inl "invalid_signature_encoding")
                 else
                   signing ← compactSigningValue type (oprop frame "i") payload;
                   text ← canonicalize signing;
                   ok ← crypto_verify text publicKeyPem signature;
                   Ok (if ok : bool then inr type else inl "invalid_signature")
             end
    end.

Lemma verifyCompactFrame_inv frame payload pk allowed type :
  verifyCompactFrame frame payload pk allowed = Ok (inr type) →
  ∃ code signature text,
    assoc type COMPACT_TYPE_CODES = Some code ∧ type ∈ allowed ∧
    buffer_from (oprop frame "s") = Ok signature ∧ String.length signature = 64 ∧
    canonicalize (JArr [JStr code; oprop frame "i"; payload]) = Ok text ∧
    crypto_verify text pk signature = Ok true.
Proof.
  unfold verifyCompactFrame. intros Hv.
  destruct (_ || negb (truthy pk)); [done|].
  destruct (compactType frame) as [type'|] eqn:Ht; [|done].
  destruct (negb (bool_decide (type' ∈ allowed))) eqn:Ha; [done|].
  destruct (buffer_from _) as [sig|] eqn:Hb; [|done].
  case_bool_decide as Hl; [done|].
  apply bind_Ok_inv in Hv as (signing & Hs & Hv). apply bind_Ok_inv in Hv as (text & Hc & Hv).
  apply bind_Ok_inv in Hv as ([] & Hk & [= ->]).
  unfold compactSigningValue in Hs.
  destruct (assoc type COMPACT_TYPE_CODES) as [code|] eqn:Hcode; [|done]. injection Hs as <-.
  bool_hyps. exists code, sig, text. split_and!; done.
Qed.

(** Signature domains are disjoint: the text a compact frame's signature
    verifies is never the text an envelope's signature verifies. *)
Theorem compact_envelope_disjoint frame payload pk allowed type kvs allowed' :
  json_int (oprop frame "i") = true → json_int payload = true →
  json_int (unsignedEnvelope kvs) = true →
  verifyCompactFrame frame payload pk allowed = Ok (inr type) →
  verifyEnvelope (JObj kvs) allowed' = Accepted →
  ∃ code text text' signature sig,
    canonicalize (JArr [JStr code; oprop frame "i"; payload]) = Ok text ∧
    buffer_from (oprop frame "s") = Ok signature ∧ crypto_verify text pk signature = Ok true ∧
    canonicalize (unsignedEnvelope kvs) = Ok text' ∧ oprop (JObj kvs) "signature" = JStr sig ∧
    crypto_verify text' (oprop (JObj kvs) "publicKey") (base64_decode sig) = Ok true ∧ text ≠ text'.
Proof.
  intros Ji Jp Ju (code & signature & text & _ & _ & Hb & _ & Hc & Hk)%verifyCompactFrame_inv
    (k & [= <-] & n & t & s & A)%verifyEnvelope_authentic.
  destruct A as (_&_&_&_&_&S&_&_&_&_&C&V). exists code, text, t, signature, s. split_and!; try done.
  intros ->. rewrite <- C in Hc.
  apply canonicalize_inj in Hc; [done| |done]. simpl. by rewrite Ji, Jp.
Qed.
End compact.

Definition frame_payload : jval := JObj [("capability", JStr "echo")].

Definition toy_frame : jval :=
  JObj [("t", JStr "N"); ("i", JStr "r1"); ("s", JStr (Toy.letters Toy.signature))].

Lemma compact_envelope_disjoint_witness :
  ∃ text text', crypto_verify (Host := Toy.host) text (JStr "pem") Toy.signature = Ok true ∧
    crypto_verify (Host := Toy.host) text' (JStr "pem") Toy.signature = Ok true ∧ text ≠ text'.
Proof.
  destruct (compact_envelope_disjoint (H := Toy.host) toy_frame frame_payload (JStr "pem") ["NEED"] "NEED" toy_envelope MVP_TYPES)
    as (code & text & text' & signature & sig & _ & _ & _ & _ & _ & _ & Hne); try (vm_compute; reflexivity).
  exists text, text'. split_and!; [reflexivity|reflexivity|exact Hne].
Defined.

(** Stage identifiers of a chain are pairwise distinct and fit the sixteen
    characters of a request identifier. *)
Theorem compactStageRequestId_inj chain i j si sj :
  compactStageRequestId (JStr chain) (JNum (JInt i)) = Ok si →
  compactStageRequestId (JStr chain) (JNum (JInt j)) = Ok sj →
  String.length si ≤ 16 ∧ (si = sj → i = j).
Proof.
  unfold compactStageRequestId. cbn [is_integer].
  destruct (negb (nonempty_str chain)); [done|].
  destruct (bool_decide (i < 0)%Z || _) eqn:Gi; [done|].
  destruct (bool_decide (j < 0)%Z || _) eqn:Gj; [done|]. bool_hyps.
  intros E1 E2. assert (Hok : ∀ a b : string, Ok a = Ok b → b = a) by congruence.
  apply Hok in E1 as ->, E2 as ->. split.
  - rewrite length_string_app. change (String.length (base36_digit i)) with 1.
    assert (Hl : ∀ n s, String.length (str_take n s) ≤ n).
    { intros n. induction n as [|n IH]; intros [|c s]; simpl; try lia. specialize (IH s). lia. }
    specialize (Hl 15 chain). lia.
  - intros Heq.
    assert (Hinj : ∀ p a b, p +:+ a = p +:+ b → a = b).
    { intros p a b. induction p as [|c p IH]; [done|]. rewrite !app_cons. naive_solver. }
    apply Hinj in Heq. unfold base36_digit in Heq. injection Heq as Heq.
    apply (f_equal N_of_ascii) in Heq.
    do 2 rewrite N_ascii_embedding in Heq by (repeat case_bool_decide; lia).
    do 2 case_bool_decide; lia.
Qed.

Lemma compactStageRequestId_inj_witness :
  String.length "chain3" ≤ 16 ∧ ("chain3" = "chaina" → 3 = 10)%Z.
Proof. apply (compactStageRequestId_inj "chain"); reflexivity. Defined.
End Compact.

(** ** Admission window of a NEED *)

Module NeedWindow.
Definition NEED_MAX_AGE_MS : Z := 300000.
Definition NEED_MAX_FUTURE_MS : Z := 30000.

Definition outside_window : jerror := fault 400 "need_outside_acceptance_window".

Definition assertNeedAdmissionWindow `{Host} (envelope now : jval) : result unit :=
  match is_safe_integer now, Date_parse (to_string (oprop envelope "createdAt")) with
  | Some now, Some createdAt =>
      throw_if (bool_decide (createdAt > now + NEED_MAX_FUTURE_MS)%Z ||
                bool_decide (now - createdAt > NEED_MAX_AGE_MS)%Z) outside_window
  | _, _ => Throw outside_window
  end.

(** A NEED is admitted exactly when its creation time parses and lies in
    the closed window from five minutes before to thirty seconds after a
    clock reading that is a safe integer; every other outcome is the one
    public error. *)
Theorem need_window_iff `{Host} envelope now :
  (assertNeedAdmissionWindow envelope now = Ok tt ↔
     ∃ n t, now = JNum (JInt n) ∧ (Z.abs n ≤ max_safe)%Z ∧
       Date_parse (to_string (oprop envelope "createdAt")) = Some t ∧
       (n - 300000 ≤ t ≤ n + 30000)%Z) ∧
  (assertNeedAdmissionWindow envelope now = Ok tt ∨
   assertNeedAdmissionWindow envelope now = Throw outside_window).
Proof.
  unfold assertNeedAdmissionWindow, throw_if.
  destruct (is_safe_integer now) as [n|] eqn:Hn.
  - assert (now = JNum (JInt n) ∧ (Z.abs n ≤ max_safe)%Z) as [-> Hb].
    { destruct now as [| | | |[]| | |]; try done. cbn [is_safe_integer] in Hn.
      case_bool_decide; [by simplify_eq|done]. }
    destruct (Date_parse _) as [t|] eqn:Ht.
    + unfold NEED_MAX_FUTURE_MS, NEED_MAX_AGE_MS.
      destruct (bool_decide_reflect (t > n + 30000)%Z),
               (bool_decide_reflect (n - t > 300000)%Z); cbn [orb];
        (split; [|by auto]); (split; [intros; try discriminate|]).
      1-3: intros (n' & t' & [= <-] & _ & [= <-] & ?); lia.
      * exists n, t. split_and!; [done..|lia|lia].
      * done.
    + split; [|by right]. split; [done|]. intros (? & ? & _ & _ & [=] & _).
  - split; [|by right]. split; [done|]. intros (n & t & -> & Hb & _).
    cbn [is_safe_integer] in Hn. by rewrite bool_decide_eq_true_2 in Hn.
Qed.
End NeedWindow.
