(* ===== verification/JsonParse.v ===== *)
(** * JSON.parse

    The parser of JSON text, on the strings of [JSValue]: the grammar of
    ECMA-404, a later member of a name replacing an earlier one, and own
    property order.  It inverts [stringify], and its recursion is bounded by
    the length of the text. *)
From S2P Require Import Prelude JSValue JsonPrint.
From Stdlib Require Import Decimal DecimalString DecimalPos DecimalZ.

Module JsonParse.

(** The value of a number text of more than fifteen digits or with an
    exponent: the nearest double, by its shortest decimal expansion. *)
Class NumberText := long_number : string → jnum.

Definition syntax_error : jerror := error "SyntaxError".

(** ** Tokens *)

Definition space (c : ascii) : bool :=
  let n := N_of_ascii c in bool_decide (n = 9 ∨ n = 10 ∨ n = 13 ∨ n = 32)%N.

Fixpoint skip (s : string) : string :=
  match s with
  | EmptyString => EmptyString
  | String c r => if space c then skip r else s
  end.

(** The text after a character and the blanks before it. *)
Definition expect (d : ascii) (s : string) : option string :=
  match skip s with
  | String c r => if decide (c = d) then Some r else None
  | EmptyString => None
  end.

Definition hex_value (c : ascii) : option N :=
  let n := N_of_ascii c in
  if bool_decide (48 ≤ n ∧ n ≤ 57)%N then Some (n - 48)%N
  else if bool_decide (97 ≤ n ∧ n ≤ 102)%N then Some (n - 87)%N
  else if bool_decide (65 ≤ n ∧ n ≤ 70)%N then Some (n - 55)%N
  else None.

(** The code unit of [\uXXXX]. *)
Definition hex4 (a b c d : ascii) : option N :=
  match hex_value a, hex_value b, hex_value c, hex_value d with
  | Some a, Some b, Some c, Some d => Some (((a * 16 + b) * 16 + c) * 16 + d)%N
  | _, _, _, _ => None
  end.

(** The other escapes. *)
Definition escaped (c : ascii) : option ascii :=
  let n := N_of_ascii c in
  if bool_decide (n = 34 ∨ n = 92 ∨ n = 47)%N then Some c
  else if bool_decide (n = 98)%N then Some (ascii_of_N 8)
  else if bool_decide (n = 102)%N then Some (ascii_of_N 12)
  else if bool_decide (n = 110)%N then Some (ascii_of_N 10)
  else if bool_decide (n = 114)%N then Some (ascii_of_N 13)
  else if bool_decide (n = 116)%N then Some (ascii_of_N 9)
  else None.

(** The characters up to the closing quote, and the text after it.  The escape
    of a code unit above 255 denotes a string outside the model and is refused
    like a syntax error. *)
Fixpoint read_chars (s : string) : result (string * string) :=
  match s with
  | EmptyString => Throw syntax_error
  | String c r =>
      if decide (c = dquote) then Ok ("", r)
      else if decide (c = backslash) then
        match r with
        | String e r =>
            if decide (e = "u"%char) then
              match r with
              | String a (String b (String h (String l r))) =>
                  match hex4 a b h l with
                  | Some n => if bool_decide (n < 256)%N
                              then '(t, r) ← read_chars r; Ok (String (ascii_of_N n) t, r)
                              else Throw syntax_error
                  | None => Throw syntax_error
                  end
              | _ => Throw syntax_error
              end
            else match escaped e with
                 | Some x => '(t, r) ← read_chars r; Ok (String x t, r)
                 | None => Throw syntax_error
                 end
        | EmptyString => Throw syntax_error
        end
      else if bool_decide (N_of_ascii c < 32)%N then Throw syntax_error
      else '(t, r) ← read_chars r; Ok (String c t, r)
  end.

(** *** Numbers *)

Definition number_char (c : ascii) : bool :=
  is_digit c || bool_decide (c = "-"%char ∨ c = "+"%char ∨ c = "."%char ∨ c = "e"%char ∨ c = "E"%char).

(** The longest prefix of characters of a class, and the rest. *)
Fixpoint span (p : ascii → bool) (s : string) : string * string :=
  match s with
  | EmptyString => ("", "")
  | String c r => if p c then let '(a, b) := span p r in (String c a, b) else ("", s)
  end.

Definition zero_digit : ascii := "0"%char.

(** [0 | [1-9][0-9]*] *)
Definition int_digits (s : string) : bool :=
  match s with
  | EmptyString => false
  | String c r => bool_decide (c ≠ zero_digit ∨ r = "")
  end.

(** [(\.[0-9]+)?] and the rest; the digits are [None] for no fraction *)
Definition read_fraction (s : string) : option (option string * string) :=
  match s with
  | String c r =>
      if decide (c = "."%char) then let '(ds, r) := span is_digit r in if nonempty_str ds then Some (Some ds, r) else None
      else Some (None, s)
  | EmptyString => Some (None, s)
  end.

(** [([eE][+-]?[0-9]+)?] to the end: whether there is an exponent *)
Definition read_exponent (s : string) : option bool :=
  match s with
  | EmptyString => Some false
  | String c r =>
      if bool_decide (c = "e"%char ∨ c = "E"%char) then
        let digits := match r with
                      | String d q => if bool_decide (d = "+"%char ∨ d = "-"%char) then q else r
                      | EmptyString => r
                      end in
        if nonempty_str digits && str_forall is_digit digits then Some true else None
      else None
  end.

(** Without the trailing zeros, as a number of digits and the number they make. *)
Fixpoint strip_zeros (k : nat) (m : Z) : nat * Z :=
  match k with
  | O => (O, m)
  | S k' => if bool_decide (m mod 10 = 0)%Z then strip_zeros k' (m / 10) else (k, m)
  end.

Definition decimal (negative : bool) (m : Z) (k : nat) : jnum :=
  let '(k, m) := strip_zeros k m in
  let m := if negative then (- m)%Z else m in
  match k with O => JInt m | S k' => JDec m (Pos.of_succ_nat k') end.

Section parse.
Context `{NumberText}.

(** The number of a text, if it is one. *)
Definition number (s : string) : option jnum :=
  let '(negative, body) := match s with
                           | String c r => if decide (c = "-"%char) then (true, r) else (false, s)
                           | EmptyString => (false, s)
                           end in
  let '(ds, r) := span is_digit body in
  if negb (int_digits ds) then None
  else
    '(frac, r) ← read_fraction r;
    exponent ← read_exponent r;
    let fs := default "" frac in
    let m := digits_value 0 (ds +:+ fs) in
    if exponent || bool_decide (max_safe < m)%Z || (bool_decide (frac ≠ None) && bool_decide (15 < String.length (ds +:+ fs)))
    then Some (long_number s)
    else Some (decimal negative m (String.length fs)).

(** ** Values *)

(** The object of members read in order. *)
Definition object_of (kvs : list (string * jval)) : jval :=
  JObj (property_order (foldl (λ o kv, set_key kv.1 kv.2 o) [] kvs)).

Definition literal (word : string) (v : jval) (s : string) : option (jval * string) :=
  if bool_decide (str_take (String.length word) s = word) then Some (v, str_drop (String.length word) s) else None.

(** After the opening bracket, with at least one element; after the opening
    brace, with at least one member. *)
Fixpoint parse_value (n : nat) (s : string) : result (jval * string) :=
  match n with
  | O => Throw syntax_error
  | S n =>
      match skip s with
      | EmptyString => Throw syntax_error
      | String c r =>
          if decide (c = dquote) then '(t, r) ← read_chars r; Ok (JStr t, r)
          else if decide (c = "["%char) then
            match expect "]" r with
            | Some r => Ok (JArr [], r)
            | None => '(l, r) ← parse_elements n r; Ok (JArr l, r)
            end
          else if decide (c = "{"%char) then
            match expect "}" r with
            | Some r => Ok (JObj [], r)
            | None => '(kvs, r) ← parse_members n r; Ok (object_of kvs, r)
            end
          else if number_char c then
            let '(t, r) := span number_char (String c r) in
            match number t with Some x => Ok (JNum x, r) | None => Throw syntax_error end
          else match literal "null" JNull (String c r), literal "true" (JBool true) (String c r),
                     literal "false" (JBool false) (String c r) with
               | Some x, _, _ | None, Some x, _ | None, None, Some x => Ok x
               | None, None, None => Throw syntax_error
               end
      end
  end
with parse_elements (n : nat) (s : string) : result (list jval * string) :=
  match n with
  | O => Throw syntax_error
  | S n =>
      '(v, r) ← parse_value n s;
      match expect "," r, expect "]" r with
      | Some r, _ => '(l, r) ← parse_elements n r; Ok (v :: l, r)
      | None, Some r => Ok ([v], r)
      | None, None => Throw syntax_error
      end
  end
with parse_members (n : nat) (s : string) : result (list (string * jval) * string) :=
  match n with
  | O => Throw syntax_error
  | S n =>
      match expect dquote s with
      | None => Throw syntax_error
      | Some r =>
          '(k, r) ← read_chars r;
          match expect ":" r with
          | None => Throw syntax_error
          | Some r =>
              '(v, r) ← parse_value n r;
              match expect "," r, expect "}" r with
              | Some r, _ => '(kvs, r) ← parse_members n r; Ok ((k, v) :: kvs, r)
              | None, Some r => Ok ([(k, v)], r)
              | None, None => Throw syntax_error
              end
          end
      end
  end.

Definition fuel_of (s : string) : nat := S (2 * String.length s).

Definition parse (s : string) : result jval :=
  '(v, r) ← parse_value (fuel_of s) s;
  if bool_decide (skip r = "") then Ok v else Throw syntax_error.

(** ** Consumption and fuel *)

Notation len := String.length.

Lemma skip_len s : len (skip s) ≤ len s.
Proof. induction s as [|c s IH]; cbn; [done|]. destruct (space c); cbn; lia. Qed.

Lemma skip_rest s c r : skip s = String c r → len r < len s.
Proof. intros E. pose proof (skip_len s) as Hl. rewrite E in Hl. cbn in Hl. lia. Qed.

Lemma expect_len d s r : expect d s = Some r → len r < len s.
Proof.
  unfold expect. destruct (skip s) as [|c q] eqn:Hs; [done|]. case_decide; [|done]. intros [= <-]. by eapply skip_rest.
Qed.

Lemma read_chars_len s t r : read_chars s = Ok (t, r) → len r < len s.
Proof.
  revert t r. induction s as [s IH] using (induction_ltof1 _ len). unfold ltof in IH. intros t r.
  destruct s as [|c s]; [done|]. cbn [read_chars String.length].
  destruct (decide (c = dquote)) as [Hc|Hc]; [intros [= _ <-]; lia|].
  assert (Hstep : ∀ q f, len q < S (len s) → ('(t, r) ← read_chars q; Ok (f t, r)) = Ok (t, r) → len r < S (len s)).
  { intros q f Hq ((u & v) & Hu & [= _ <-]%Ok_inj)%bind_Ok_inv. apply IH in Hu; cbn; lia. }
  destruct (decide (c = backslash)) as [Hb|Hb]; [|case_bool_decide; [done|]; apply Hstep; lia].
  destruct s as [|e s]; [done|]. destruct (decide (e = "u"%char)) as [He|He].
  - destruct s as [|a [|b [|h [|l s]]]]; try done. destruct (hex4 a b h l) as [n|]; [|done].
    case_bool_decide; [|done]. apply Hstep. cbn. lia.
  - destruct (escaped e) as [x|]; [|done]. apply Hstep. cbn. lia.
Qed.

Lemma span_len p s : len (span p s).2 ≤ len s.
Proof. induction s as [|c s IH]; cbn; [done|]. destruct (p c); [|done]. destruct (span p s). cbn in *. lia. Qed.

Lemma str_drop_len k s : len (str_drop k s) ≤ len s - k.
Proof. revert s. induction k as [|k IH]; intros [|c s]; cbn; try lia. apply IH. Qed.

Lemma str_take_len k s : len (str_take k s) ≤ len s.
Proof. revert s. induction k as [|k IH]; intros [|c s]; cbn; try lia. specialize (IH s). lia. Qed.

Lemma literal_len word v s x : literal word v s = Some x → word ≠ "" → len x.2 < len s.
Proof.
  unfold literal. case_bool_decide as Hw; [|done]. intros [= <-] Hne. cbn [snd].
  pose proof (str_take_len (len word) s) as Ht. rewrite Hw in Ht. pose proof (str_drop_len (len word) s).
  assert (len word ≠ 0) by (by destruct word). lia.
Qed.

(** The results of the recursive calls, as hypotheses. *)
Ltac parsed H := let x := fresh "x" in let r := fresh "r" in let E := fresh "E" in
  apply bind_Ok_inv in H as ([x r] & E & H).

Lemma consumes n :
  (∀ s v r, parse_value n s = Ok (v, r) → len r < len s) ∧
  (∀ s v r, parse_elements n s = Ok (v, r) → len r < len s) ∧
  (∀ s v r, parse_members n s = Ok (v, r) → len r < len s).
Proof.
  induction n as [|n (IHv & IHe & IHm)]; [done|].
  split_and!; intros s v r Hp; cbn [parse_value parse_elements parse_members] in Hp.
  - destruct (skip s) as [|c q] eqn:Hs; [done|]. pose proof (skip_rest _ _ _ Hs) as Hq.
    destruct (decide (c = dquote)); [parsed Hp; apply Ok_inj in Hp as [= _ <-]; apply read_chars_len in E; lia|].
    destruct (decide (c = "["%char)).
    { destruct (expect "]" q) as [q'|] eqn:Hx.
      - apply Ok_inj in Hp as [= _ <-]. apply expect_len in Hx. lia.
      - parsed Hp. apply Ok_inj in Hp as [= _ <-]. apply IHe in E. lia. }
    destruct (decide (c = "{"%char)).
    { destruct (expect "}" q) as [q'|] eqn:Hx.
      - apply Ok_inj in Hp as [= _ <-]. apply expect_len in Hx. lia.
      - parsed Hp. apply Ok_inj in Hp as [= _ <-]. apply IHm in E. lia. }
    destruct (number_char c) eqn:Hc.
    { cbn [span] in Hp. rewrite Hc in Hp. pose proof (span_len number_char q). destruct (span number_char q) as [t q'].
      cbn in *. destruct (number _); [|done]. injection Hp as _ <-. lia. }
    pose proof (skip_len s) as Hl. rewrite Hs in Hl.
    destruct (literal "null" _ _) as [x|] eqn:H1; [|destruct (literal "true" _ _) as [x|] eqn:H2; [|destruct (literal "false" _ _) as [x|] eqn:H3; [|done]]];
      apply Ok_inj in Hp as ->; match goal with H : literal _ _ _ = Some _ |- _ => apply literal_len in H; [cbn [snd] in H; lia|done] end.
  - parsed Hp. apply IHv in E. destruct (expect "," r0) as [q|] eqn:H1; [|destruct (expect "]" r0) as [q|] eqn:H2; [|done]].
    + parsed Hp. apply Ok_inj in Hp as [= _ <-]. apply IHe in E0. apply expect_len in H1. lia.
    + apply Ok_inj in Hp as [= _ <-]. apply expect_len in H2. lia.
  - destruct (expect dquote s) as [q|] eqn:H0; [|done]. apply expect_len in H0. parsed Hp. apply read_chars_len in E.
    destruct (expect ":" r0) as [q1|] eqn:H1; [|done]. apply expect_len in H1. parsed Hp. apply IHv in E0.
    destruct (expect "," r1) as [q2|] eqn:H2; [|destruct (expect "}" r1) as [q2|] eqn:H3; [|done]].
    + parsed Hp. apply Ok_inj in Hp as [= _ <-]. apply IHm in E1. apply expect_len in H2. lia.
    + apply Ok_inj in Hp as [= _ <-]. apply expect_len in H3. lia.
Qed.

(** The outcome does not depend on the fuel, once there is as much as the text
    can need. *)
Definition settled {A} (parser : nat → string → result A) (need : nat → nat) (k : nat) : Prop :=
  ∀ s n m, len s < k → need (len s) < n → need (len s) < m → parser n s = parser m s.

Definition twice (n : nat) : nat := 2 * n.
Definition twice_more (n : nat) : nat := S (2 * n).

Lemma settled_elements k : settled parse_value twice (S k) → settled parse_elements twice_more k → settled parse_elements twice_more (S k).
Proof.
  unfold twice, twice_more. intros Hv He s n m Hs Hn Hm. destruct n as [|n], m as [|m]; try lia. cbn [parse_elements].
  rewrite (Hv s n m) by lia. destruct (parse_value m s) as [[v r]|e] eqn:E; [|done].
  apply (proj1 (consumes m)) in E. unfold mbind, result_bind.
  destruct (expect "," r) as [q|] eqn:H1; [|done]. apply expect_len in H1. by rewrite (He q n m) by lia.
Qed.

Lemma settled_members k : settled parse_value twice k → settled parse_members twice k → settled parse_members twice (S k).
Proof.
  unfold twice, twice_more. intros Hv He s n m Hs Hn Hm. destruct n as [|n], m as [|m]; try lia. cbn [parse_members].
  destruct (expect dquote s) as [q|] eqn:H0; [|done]. apply expect_len in H0.
  destruct (read_chars q) as [[t r]|e] eqn:Hr; [|done]. apply read_chars_len in Hr. unfold mbind, result_bind.
  destruct (expect ":" r) as [q1|] eqn:H1; [|done]. apply expect_len in H1. rewrite (Hv q1 n m) by lia.
  destruct (parse_value m q1) as [[v r1]|e] eqn:E; [|done]. apply (proj1 (consumes m)) in E.
  destruct (expect "," r1) as [q2|] eqn:H2; [|done]. apply expect_len in H2. by rewrite (He q2 n m) by lia.
Qed.

Lemma settled_value k : settled parse_elements twice_more k → settled parse_members twice k → settled parse_value twice (S k).
Proof.
  unfold twice, twice_more. intros He Hm s n m Hs Hn Hn'. destruct n as [|n], m as [|m]; try lia. cbn [parse_value].
  destruct (skip s) as [|c q] eqn:Hq; [done|]. apply skip_rest in Hq. repeat case_decide; [done| | |done].
  - destruct (expect "]" q); [done|]. by rewrite (He q n m) by lia.
  - destruct (expect "}" q); [done|]. by rewrite (Hm q n m) by lia.
Qed.

Lemma all_settled k : settled parse_value twice k ∧ settled parse_elements twice_more k ∧ settled parse_members twice k.
Proof.
  induction k as [|k (IHv & IHe & IHm)]; [by split_and!; intros s n m ?; lia|].
  assert (settled parse_value twice (S k)) by (by apply settled_value).
  split_and!; [done|by apply settled_elements|by apply settled_members].
Qed.

(** ** Round trip *)

(** Values that JSON text carries unchanged: integers in the safe range, own
    members in property order under distinct names. *)
Fixpoint carried (v : jval) : bool :=
  match v with
  | JNull | JBool _ | JStr _ => true
  | JNum (JInt z) => bool_decide (Z.abs z ≤ max_safe)%Z
  | JArr l => forallb carried l
  | JObj kvs => forallb (λ kv, carried kv.2) kvs && bool_decide (NoDup (keys kvs)) &&
                bool_decide (keys (property_order kvs) = keys kvs)
  | _ => false
  end.

Lemma carried_json_int v : carried v = true → json_int v = true.
Proof.
  induction v as [| | |b|n|s|l IH|kvs IH] using jval_nested_ind; cbn; try done; [by destruct n|..].
  - rewrite !forallb_forall. rewrite Forall_forall in IH. intros Hl x Hx. apply IH; [by apply list_elem_of_In|by apply Hl].
  - intros Hk. bool_hyps. apply andb_true_intro. split; [|by apply bool_decide_eq_true].
    rewrite Forall_forall in IH. rewrite !forallb_forall in *. intros x Hx. apply IH; [by apply list_elem_of_In|by auto].
Qed.

(** *** Strings *)

Lemma read_quote_char c y : read_chars (quote_char c +:+ y) = '(t, r) ← read_chars y; Ok (String c t, r).
Proof. destruct c as [[] [] [] [] [] [] [] []]; reflexivity. Qed.

Lemma read_quoted s x : read_chars (quote_body s +:+ String dquote x) = Ok (s, x).
Proof.
  induction s as [|c s IH]; [done|]. cbn [quote_body]. rewrite string_app_assoc, read_quote_char, IH. done.
Qed.

(** *** Numbers *)

Lemma digits_of_uint d acc : digits_value (Zpos acc) (NilEmpty.string_of_uint d) = Zpos (Pos.of_uint_acc d acc).
Proof.
  revert acc. induction d; intros acc; [done|..]; cbn [NilEmpty.string_of_uint digits_value Pos.of_uint_acc];
    rewrite <- IHd; f_equal; cbn; lia.
Qed.

Lemma digits_of_numeral d : digits_value 0 (NilEmpty.string_of_uint d) = Z.of_N (Pos.of_uint d).
Proof.
  induction d; [done|exact IHd|..]; [exact (digits_of_uint d 1)|exact (digits_of_uint d 2)|exact (digits_of_uint d 3)
    |exact (digits_of_uint d 4)|exact (digits_of_uint d 5)|exact (digits_of_uint d 6)|exact (digits_of_uint d 7)
    |exact (digits_of_uint d 8)|exact (digits_of_uint d 9)].
Qed.

Lemma numeral_digits d : str_forall is_digit (NilEmpty.string_of_uint d) = true.
Proof. by induction d. Qed.

(** A positive number is printed without a leading zero. *)
Lemma positive_text p :
  ∃ c r, Z_to_string (Zpos p) = String c r ∧ Z_to_string (Zneg p) = String "-" (String c r) ∧
    str_forall is_digit (String c r) = true ∧ c ≠ zero_digit ∧ digits_value 0 (String c r) = Zpos p.
Proof.
  pose proof (DecimalPos.Unsigned.of_to p) as Hp. pose proof (DecimalPos.Unsigned.to_uint_nonnil p) as Hn.
  pose proof (DecimalPos.Unsigned.to_of (Pos.to_uint p)) as Hu. rewrite Hp in Hu. cbn in Hu.
  pose proof (DecimalPos.Unsigned.to_uint_nonzero p) as Hz.
  unfold Z_to_string. cbn [Z.to_int NilZero.string_of_int].
  assert (Hs : NilZero.string_of_uint (Pos.to_uint p) = NilEmpty.string_of_uint (Pos.to_uint p)) by (by destruct (Pos.to_uint p)).
  rewrite Hs. pose proof (digits_of_numeral (Pos.to_uint p)) as Hd. rewrite Hp in Hd.
  pose proof (numeral_digits (Pos.to_uint p)) as Ha.
  destruct (NilEmpty.string_of_uint (Pos.to_uint p)) as [|c r] eqn:E; [by destruct (Pos.to_uint p)|].
  exists c, r. split; [done|]. split; [done|]. split; [done|]. split; [|done]. intros ->.
  assert (∃ d, Pos.to_uint p = D0 d) as [d Ed] by (destruct (Pos.to_uint p); try discriminate E; eauto).
  rewrite Ed in Hu, Hz. unfold unorm in Hu. destruct (nzhead (D0 d)) as [|d'| | | | | | | | |] eqn:En; try congruence.
  by apply DecimalFacts.nzhead_nonzero in En.
Qed.

Lemma span_all p s x : str_forall p s = true → (∀ c r, x = String c r → p c = false) → span p (s +:+ x) = (s, x).
Proof.
  intros Hs Hx. induction s as [|c s IH]; cbn in *.
  - change ("" +:+ x) with x. destruct x as [|c r]; [done|]. cbn. by rewrite (Hx c r).
  - apply andb_prop in Hs as [Hc Hs]. change (String c s +:+ x) with (String c (s +:+ x)). cbn. by rewrite Hc, IH.
Qed.

Lemma span_digits s : str_forall is_digit s = true → span is_digit s = (s, "").
Proof. intros Hs. rewrite <- (string_app_nil_r s) at 1. by apply span_all. Qed.

Lemma decimal_Z negative m : decimal negative m 0 = JInt (if negative then - m else m).
Proof. done. Qed.

Lemma number_int z : (Z.abs z ≤ max_safe)%Z → number (Z_to_string z) = Some (JInt z).
Proof.
  intros Hz. destruct z as [|p|p]; [done|..]; destruct (positive_text p) as (c & r & E1 & E2 & Hd & Hc & Hv);
    [rewrite E1|rewrite E2]; unfold number.
  - assert (c ≠ "-"%char) by (intros ->; done). rewrite decide_False by done. rewrite span_digits by done.
    assert (Hi : int_digits (String c r) = true) by (apply bool_decide_eq_true; by left). rewrite Hi. cbn [negb].
    cbn [read_fraction read_exponent default]. unfold mbind, option_bind.
    rewrite string_app_nil_r, Hv. rewrite bool_decide_false by lia. by rewrite bool_decide_false by (by intros []).
  - rewrite decide_True by done. rewrite span_digits by done.
    assert (Hi : int_digits (String c r) = true) by (apply bool_decide_eq_true; by left). rewrite Hi. cbn [negb].
    cbn [read_fraction read_exponent default]. unfold mbind, option_bind.
    rewrite string_app_nil_r, Hv. rewrite bool_decide_false by lia. by rewrite bool_decide_false by (by intros []).
Qed.

(** *** Values *)

Lemma expect_here d x : space d = false → expect d (String d x) = Some x.
Proof. intros Hd. unfold expect. cbn [skip]. rewrite Hd. by rewrite decide_True. Qed.

Lemma expect_other d c x : space c = false → c ≠ d → expect d (String c x) = None.
Proof. intros Hc Hd. unfold expect. cbn [skip]. rewrite Hc. by rewrite decide_False. Qed.

Lemma out_first v : json_int v = true → ∃ c r, out v = String c r ∧ space c = false ∧ delim_char c = false.
Proof.
  intros Hv. destruct (out_head v Hv) as (c & r & Ho & Hk). exists c, r. split; [done|].
  assert (Hh : head_kind v ∈ [110; 116; 102; 34; 91; 123; 48]%N).
  { destruct v as [| | |[]|[]| | |]; try done; cbn; set_solver. }
  rewrite <- Hk in Hh. clear -Hh. destruct c as [[] [] [] [] [] [] [] []]; try (by split); exfalso; cbn in Hh; set_solver.
Qed.

Definition reads (v : jval) : Prop :=
  ∃ N, ∀ n x, N ≤ n → delimited x = true → parse_value n (out v +:+ x) = Ok (v, x).

Lemma reads_int z : (Z.abs z ≤ max_safe)%Z → reads (JNum (JInt z)).
Proof.
  intros Hz. exists 1. intros [|n] x Hn Hx; [lia|]. change (out (JNum (JInt z))) with (Z_to_string z).
  destruct (out_first (JNum (JInt z)) eq_refl) as (c & r & Ho & Hc & _).
  change (out (JNum (JInt z))) with (Z_to_string z) in Ho.
  pose proof (int_chars z) as Hi. pose proof (number_int z Hz) as Hnum.
  assert (Hsp : span number_char (Z_to_string z +:+ x) = (Z_to_string z, x)).
  { apply span_all.
    - revert Hi. generalize (Z_to_string z). induction s as [|d s IH]; [done|]. cbn. intros [Hd Hs]%andb_prop.
      rewrite IH by done. by destruct d as [[] [] [] [] [] [] [] []].
    - intros d q ->. cbn in Hx. by destruct d as [[] [] [] [] [] [] [] []]. }
  rewrite Ho in Hi, Hnum, Hsp |- *. rewrite app_cons in Hsp |- *. cbn [parse_value skip]. rewrite Hc.
  cbn [str_forall] in Hi. apply andb_prop in Hi as [Hi _].
  assert (Hk : c ≠ dquote ∧ c ≠ "["%char ∧ c ≠ "{"%char ∧ number_char c = true)
    by (clear -Hi; destruct c as [[] [] [] [] [] [] [] []]; done).
  destruct Hk as (? & ? & ? & Hcn). rewrite !decide_False by done. rewrite Hcn, Hsp. by rewrite Hnum.
Qed.

Lemma reads_str s : reads (JStr s).
Proof.
  exists 1. intros [|n] x Hn _; [lia|]. change (out (JStr s)) with (String dquote "" +:+ quote_body s +:+ String dquote "").
  text. cbn [parse_value skip]. change (space dquote) with false. cbv iota. rewrite decide_True by done.
  by rewrite read_quoted.
Qed.

Lemma delimited_rest {A} (p : A → string) close l x : delim_char close = true →
  delimited (match l with [] => String close x | _ => "," +:+ joined p close l x end) = true.
Proof. by destruct l. Qed.

Lemma reads_elements l : Forall reads l → l ≠ [] → ∃ N, ∀ n x, N ≤ n → parse_elements n (joined out "]" l x) = Ok (l, x).
Proof.
  induction 1 as [|v l [N Hv] Hl IH]; [done|]. intros _. destruct (decide (l = [])) as [->|Hne].
  - exists (S N). intros [|n] x Hn; [lia|]. cbn [parse_elements]. rewrite joined_cons, Hv by (done || lia). done.
  - destruct (IH Hne) as [M HM]. exists (S (N + M)). intros [|n] x Hn; [lia|]. cbn [parse_elements].
    rewrite joined_cons, Hv by (lia || by apply delimited_rest).
    destruct l as [|w l]; [done|]. text. cbn [mbind result_bind]. unfold mbind, result_bind.
    rewrite expect_here by done. by rewrite HM by lia.
Qed.

Lemma reads_members kvs : Forall (λ kv, reads kv.2) kvs → kvs ≠ [] →
  ∃ N, ∀ n x, N ≤ n → parse_members n (joined member_out "}" kvs x) = Ok (kvs, x).
Proof.
  induction 1 as [|[k v] kvs [N Hv] Hl IH]; [done|]. intros _. cbn [snd] in Hv.
  assert (Hm : ∀ n y, N ≤ n → delimited y = true → parse_members (S n) (member_out (k, v) +:+ y) =
    match expect "," y, expect "}" y with
    | Some r, _ => '(kvs, r) ← parse_members n r; Ok ((k, v) :: kvs, r)
    | None, Some r => Ok ([(k, v)], r)
    | None, None => Throw syntax_error
    end).
  { intros n y Hn Hy. unfold member_out, quote. cbn [fst snd parse_members]. text. rewrite expect_here by done.
    rewrite read_quoted. unfold mbind at 1, result_bind at 1. text. rewrite expect_here by done. by rewrite Hv. }
  destruct (decide (kvs = [])) as [->|Hne].
  - exists (S N). intros [|n] x Hn; [lia|]. rewrite joined_cons, Hm by (done || lia). done.
  - destruct (IH Hne) as [M HM]. exists (S (N + M)). intros [|n] x Hn; [lia|].
    rewrite joined_cons, Hm by (lia || by apply delimited_rest).
    destruct kvs as [|w kvs]; [done|]. text. rewrite expect_here by done. by rewrite HM by lia.
Qed.

Lemma set_new k w kvs : k ∉ keys kvs → set_key k w kvs = kvs ++ [(k, w)].
Proof.
  induction kvs as [|[j v] kvs IH]; [done|]. cbn [keys]. intros [Hk Hn]%not_elem_of_cons. cbn [set_key].
  rewrite decide_False by done. by rewrite IH.
Qed.

Lemma read_object kvs : NoDup (keys kvs) → keys (property_order kvs) = keys kvs → object_of kvs = JObj kvs.
Proof.
  intros Hnd Hk. unfold object_of.
  assert (Hf : ∀ acc, NoDup (keys (acc ++ kvs)) → foldl (λ o kv, set_key kv.1 kv.2 o) acc kvs = acc ++ kvs).
  { clear. induction kvs as [|[k v] kvs IH]; intros acc Hnd; [by rewrite app_nil_r|]. cbn [foldl fst snd].
    rewrite set_new.
    - rewrite IH; [by rewrite <- (assoc_L (++))|]. by rewrite <- (assoc_L (++)).
    - intros Hin. unfold keys in Hnd, Hin. rewrite fmap_app in Hnd. apply NoDup_app in Hnd as (_ & Hx & _).
      apply (Hx k Hin). by left. }
  rewrite Hf by done. cbn [app]. f_equal. symmetry. apply perm_same_keys; [by rewrite property_order_perm|done|done].
Qed.

Lemma first_not_bracket v x d : json_int v = true → delim_char d = true → expect d (out v +:+ x) = None.
Proof.
  intros Hv Hd. destruct (out_first v Hv) as (c & r & -> & Hs & Hc). text. apply expect_other; [done|].
  intros ->. congruence.
Qed.

Lemma carried_reads v : carried v = true → reads v.
Proof.
  induction v as [| | |b|n|s|l IH|kvs IH] using jval_nested_ind; intros Hc; try done.
  - by exists 1; intros [|n] x Hn _; [lia|].
  - exists 1; intros [|n] x Hn _; [lia|]. by destruct b.
  - destruct n as [z| | |]; try done. cbn in Hc. apply bool_decide_eq_true in Hc. by apply reads_int.
  - apply reads_str.
  - pose proof (carried_json_int _ Hc) as Hj. assert (Hr : Forall reads l).
    { cbn in Hc. rewrite forallb_forall in Hc. rewrite Forall_forall in IH |- *.
      intros v Hv. apply IH; [done|]. by apply Hc, list_elem_of_In. }
    destruct (decide (l = [])) as [->|Hne].
    + by exists 1; intros [|n] x Hn _; [lia|].
    + destruct (reads_elements l Hr Hne) as [N HN]. exists (S N). intros [|n] x Hn Hx; [lia|].
      rewrite out_arr by done. text. cbn [parse_value skip]. change (space "[") with false. cbv iota.
      rewrite decide_False, decide_True by done.
      assert (He : expect "]" (joined out "]" l x) = None); [|by rewrite He, HN by lia].
      destruct l as [|v l]; [done|]. cbn in Hj. apply andb_prop in Hj as [Hj _]. rewrite joined_cons. by apply first_not_bracket.
  - pose proof (carried_json_int _ Hc) as Hj. cbn in Hc. apply andb_prop in Hc as [[Hc Hnd]%andb_prop Hk].
    apply bool_decide_eq_true in Hnd, Hk. assert (Hr : Forall (λ kv, reads kv.2) kvs).
    { rewrite forallb_forall in Hc. rewrite Forall_forall in IH |- *.
      intros v Hv. apply IH; [done|]. by apply Hc, list_elem_of_In. }
    destruct (decide (kvs = [])) as [->|Hne].
    + by exists 1; intros [|n] x Hn _; [lia|].
    + destruct (reads_members kvs Hr Hne) as [N HN]. exists (S N). intros [|n] x Hn Hx; [lia|].
      rewrite out_obj by done. text. cbn [parse_value skip]. change (space "{") with false. cbv iota.
      rewrite !decide_False, decide_True by done.
      assert (He : expect "}" (joined member_out "}" kvs x) = None).
      { destruct kvs as [|[k v] kvs]; [done|]. rewrite joined_cons. unfold member_out, quote. text. by apply expect_other. }
      rewrite He, HN by lia. cbn. by rewrite read_object.
Qed.

(** JSON.parse inverts JSON.stringify, and its recursion is bounded by the
    text: a value of safe integers, text, arrays and objects in property order
    is read back from what is printed for it, and on any text the outcome is the
    one of every greater fuel, so no text is refused for want of it. *)
Lemma parse_stringify v :
  carried v = true →
  (∃ s, stringify v = Some s ∧ parse s = Ok v) ∧
  ∀ s n, fuel_of s ≤ n → parse_value n s = parse_value (fuel_of s) s.
Proof.
  intros Hc.
  assert (Hfuel : ∀ s n, fuel_of s ≤ n → parse_value n s = parse_value (fuel_of s) s).
  { intros s n Hn. unfold fuel_of in *. apply (proj1 (all_settled (S (len s)))); unfold twice; lia. }
  split; [|exact Hfuel]. exists (out v). split; [by apply json_int_stringify, carried_json_int|].
  destruct (carried_reads v Hc) as [N HN]. unfold parse.
  assert (Hv : parse_value (fuel_of (out v)) (out v) = Ok (v, "")).
  { rewrite <- (Hfuel _ (max N (fuel_of (out v)))) by lia.
    rewrite <- (string_app_nil_r (out v)) at 2. apply HN; [lia|done]. }
  by rewrite Hv.
Qed.

End parse.

(** A number of many digits is not looked at. *)
Definition toy_number : NumberText := λ _, JNaN.

Definition sample : jval :=
  JObj [("7", JArr [JNum (JInt (-12)); JNull; JBool true]); ("a b", JStr (String (ascii_of_N 10) "x"));
        ("o", JObj [("k", JArr [])])].

Lemma parse_stringify_sample :
  carried sample = true ∧ ∃ s, stringify sample = Some s ∧ parse (H := toy_number) s = Ok sample.
Proof.
  split; [vm_compute; reflexivity|]. apply (parse_stringify (H := toy_number) sample). vm_compute. reflexivity.
Defined.

Definition text_of (l : list N) : string := foldr (λ n s, String (ascii_of_N n) s) "" l.

(** [{"a":1,"a":[2.50]}] with blanks, and two texts that are refused. *)
Example parse_last_member :
  parse (H := toy_number) (text_of [32; 123; 34; 97; 34; 58; 49; 44; 10; 34; 97; 34; 58; 91; 50; 46; 53; 48; 93; 125; 32]%N) =
  Ok (JObj [("a", JArr [JNum (JDec 25 1)])]).
Proof. vm_compute. reflexivity. Qed.
Example parse_leading_zero : parse (H := toy_number) "01" = Throw syntax_error.
Proof. vm_compute. reflexivity. Qed.
Example parse_trailing_comma : parse (H := toy_number) "[1,]" = Throw syntax_error.
Proof. vm_compute. reflexivity. Qed.

End JsonParse.
