(* ===== verification/Negotiation.v ===== *)
(** * Version negotiation and public error classes

    [Negotiate] models core/protocol/negotiation.js: the protocol generation two
    peers agree on and the semantics they share.  [ErrorClass] models
    core/protocol/normalized-errors.js: the closed vocabulary of public error
    codes and the classification of an exception. *)
From S2P Require Import Prelude JSValue Host Protocol.

Module Negotiate.

(** [uniqueStrings(values)] *)
Definition trimmed (v : jval) : option string :=
  match v with
  | JStr s => if nonempty_str (trim s) then Some (trim s) else None
  | _ => None
  end.

Definition uniqueStrings (values : jval) : list string :=
  match values with JArr l => uniq (omap trimmed l) | _ => [] end.

(** The digits matched after [TRUYN/]: a non-zero digit, then any digits. *)
Definition generation_digits (protocol : string) : option string :=
  if bool_decide (str_take 6 protocol = "TRUYN/") then
    match str_drop 6 protocol with
    | String c s => if is_digit c && negb (bool_decide (c = "0"%char)) && str_forall is_digit s
                    then Some (String c s) else None
    | EmptyString => None
    end
  else None.

Definition protocolGeneration (protocol : string) : Z :=
  match generation_digits protocol with
  | Some ds =>
      let generation := digits_value 0 ds in
      if bool_decide (generation ≤ max_safe)%Z then generation else (-1)%Z
  | None => (-1)%Z
  end.

Record negotiation_args := NegotiationArgs {
  localProtocols : jval;
  remoteProtocols : jval;
  localSemantics : jval;
  remoteSemantics : jval;
  requiredSemantics : jval;
  localSemanticsByProtocol : jval;
  remoteSemanticsByProtocol : jval
}.

(** The same exchange seen by the other peer. *)
Definition swap (a : negotiation_args) : negotiation_args :=
  NegotiationArgs (remoteProtocols a) (localProtocols a) (remoteSemantics a) (localSemantics a)
    (requiredSemantics a) (remoteSemanticsByProtocol a) (localSemanticsByProtocol a).

Inductive outcome :=
| Agreed (protocol : string) (semantics : list string)
| NoOverlap
| InvalidAdvertisement
| MissingSemantics (protocol : string) (missing : list string).

Section negotiate.
Context `{Host}.

(** The comparator of [common.sort]: at most zero. *)
Definition preferred (left right : string) : bool :=
  let d := (protocolGeneration right - protocolGeneration left)%Z in
  if bool_decide (d = 0)%Z then bool_decide (localeCompare left right ≤ 0)%Z
  else bool_decide (d ≤ 0)%Z.

Definition commonProtocols (local remote : list string) : list string :=
  sort_by preferred
    (filter (λ p, (0 < protocolGeneration p)%Z ∧ p ∈ remote) local).

Definition validMap (map : jval) : bool :=
  match map with
  | JObj kvs =>
      forallb (λ kv : string * jval,
        bool_decide (0 < protocolGeneration kv.1)%Z &&
        match kv.2 with
        | JArr l => forallb (λ v, match v with
                                  | JHole => true
                                  | JStr s => nonempty_str (trim s)
                                  | _ => false
                                  end) l
        | _ => false
        end) kvs
  | _ => false
  end.

Definition is_undefined (v : jval) : bool := match v with JUndef => true | _ => false end.

Definition negotiateProtocol (a : negotiation_args) : outcome :=
  let local := uniqueStrings (localProtocols a) in
  let remote := uniqueStrings (remoteProtocols a) in
  match commonProtocols local remote with
  | [] => NoOverlap
  | selected :: _ =>
      let scoped := negb (is_undefined (localSemanticsByProtocol a)) ||
                    negb (is_undefined (remoteSemanticsByProtocol a)) in
      if scoped && (negb (validMap (localSemanticsByProtocol a)) ||
                    negb (validMap (remoteSemanticsByProtocol a)) ||
                    negb (has_own (localSemanticsByProtocol a) selected) ||
                    negb (has_own (remoteSemanticsByProtocol a) selected))
      then InvalidAdvertisement
      else
        let localSet := uniqueStrings
          (if scoped then oprop (localSemanticsByProtocol a) selected else localSemantics a) in
        let remoteSet := uniqueStrings
          (if scoped then oprop (remoteSemanticsByProtocol a) selected else remoteSemantics a) in
        let required := sort_strings (uniqueStrings (requiredSemantics a)) in
        match filter (λ s, s ∉ localSet ∨ s ∉ remoteSet) required with
        | [] => Agreed selected (sort_strings (filter (λ s, s ∈ remoteSet) localSet))
        | missing => MissingSemantics selected missing
        end
  end.

(** The exported function with its parameter defaults. *)
Definition negotiate (a : negotiation_args) : outcome :=
  negotiateProtocol
    (NegotiationArgs (with_default (localProtocols a) (JArr [JStr Envelope.PROTOCOL]))
       (with_default (remoteProtocols a) (JArr []))
       (with_default (localSemantics a) (JArr [])) (with_default (remoteSemantics a) (JArr []))
       (with_default (requiredSemantics a) (JArr []))
       (localSemanticsByProtocol a) (remoteSemanticsByProtocol a)).

End negotiate.

(** ** Generations are distinct numerals *)

Lemma digits_value_split acc s :
  str_forall is_digit s = true →
  ∃ v, (digits_value acc s = acc * 10 ^ Z.of_nat (String.length s) + v ∧
        0 ≤ v < 10 ^ Z.of_nat (String.length s))%Z.
Proof.
  revert acc. induction s as [|c s IH]; intros acc Hs; [exists 0%Z; simpl; lia|].
  cbn [str_forall] in Hs. apply andb_prop in Hs as [Hc Hs].
  destruct (IH (10 * acc + (Z.of_N (N_of_ascii c) - 48))%Z Hs) as (v & Hv & Hb).
  unfold is_digit in Hc. bool_hyps.
  cbn [digits_value String.length]. rewrite Nat2Z.inj_succ, Z.pow_succ_r by lia.
  exists ((Z.of_N (N_of_ascii c) - 48) * 10 ^ Z.of_nat (String.length s) + v)%Z. nia.
Qed.

Lemma digits_value_inj a b s t :
  str_forall is_digit s = true → str_forall is_digit t = true →
  String.length s = String.length t →
  digits_value a s = digits_value b t → a = b ∧ s = t.
Proof.
  revert a b t. induction s as [|c s IH]; intros a b [|d t] Hs Ht Hl Hv; try done.
  cbn [str_forall] in Hs, Ht. apply andb_prop in Hs as [Hc Hs], Ht as [Hd Ht].
  injection Hl as Hl. cbn [digits_value] in Hv.
  destruct (IH _ _ _ Hs Ht Hl Hv) as [Hab ->].
  unfold is_digit in Hc, Hd. bool_hyps.
  assert (Z.of_N (N_of_ascii c) = Z.of_N (N_of_ascii d)) as Hcd by lia.
  split; [lia|]. f_equal. apply N2Z.inj in Hcd.
  by rewrite <- (ascii_N_embedding c), Hcd, ascii_N_embedding.
Qed.

Lemma generation_digits_inv p ds :
  generation_digits p = Some ds →
  p = "TRUYN/" +:+ ds ∧ str_forall is_digit ds = true ∧ (0 < String.length ds)%nat ∧
  (10 ^ (Z.of_nat (String.length ds) - 1) ≤ digits_value 0 ds < 10 ^ Z.of_nat (String.length ds))%Z.
Proof.
  unfold generation_digits. case_bool_decide as Hp; [|done].
  destruct (str_drop 6 p) as [|c s] eqn:Hd; [done|].
  destruct (is_digit c && _ && _) eqn:G; [|done]. intros [= <-].
  apply andb_prop in G as [G Hs]. apply andb_prop in G as [Hc H0].
  assert (Hsplit : ∀ n q, q = str_take n q +:+ str_drop n q).
  { intros n. induction n as [|n IH]; intros [|x q]; try done.
    exact (f_equal (String x) (IH q)). }
  split; [by rewrite (Hsplit 6%nat p), Hp, Hd at 1|].
  split; [by cbn; rewrite Hc, Hs|]. split; [simpl; lia|].
  destruct (digits_value_split (Z.of_N (N_of_ascii c) - 48) s Hs) as (v & Hv & Hb).
  cbn [digits_value String.length].
  replace (10 * 0 + (Z.of_N (N_of_ascii c) - 48))%Z with (Z.of_N (N_of_ascii c) - 48)%Z by lia.
  rewrite Hv, Nat2Z.inj_succ, Z.pow_succ_r by lia.
  replace (Z.succ (Z.of_nat (String.length s)) - 1)%Z with (Z.of_nat (String.length s)) by lia.
  unfold is_digit in Hc. bool_hyps.
  assert (N_of_ascii c ≠ 48)%N.
  { intros Hn. apply H0. by rewrite <- (ascii_N_embedding c), Hn. }
  nia.
Qed.

Lemma generation_inj p q :
  (0 < protocolGeneration p)%Z → protocolGeneration p = protocolGeneration q → p = q.
Proof.
  unfold protocolGeneration. intros Hp Heq.
  destruct (generation_digits p) as [ds|] eqn:Hdp; [|lia].
  case_bool_decide; [|lia].
  destruct (generation_digits q) as [ds'|] eqn:Hdq; [|lia].
  revert Heq. case_bool_decide; [|lia]. intros Heq.
  apply generation_digits_inv in Hdp as (-> & Hs & Hl & Hb), Hdq as (-> & Hs' & Hl' & Hb').
  assert (String.length ds = String.length ds') as Hlen.
  { rewrite Heq in Hb.
    destruct (Z.lt_trichotomy (Z.of_nat (String.length ds)) (Z.of_nat (String.length ds')))
      as [Hlt|[He|Hlt]]; [|lia|].
    - assert (10 ^ Z.of_nat (String.length ds) ≤ 10 ^ (Z.of_nat (String.length ds') - 1))%Z
        by (apply Z.pow_le_mono_r; lia). lia.
    - assert (10 ^ Z.of_nat (String.length ds') ≤ 10 ^ (Z.of_nat (String.length ds) - 1))%Z
        by (apply Z.pow_le_mono_r; lia). lia. }
  by destruct (digits_value_inj 0 0 ds ds' Hs Hs' Hlen Heq) as [_ ->].
Qed.

(** ** The agreement *)

Section agreement.
Context `{Host}.

(** On generations the comparator is the descending order of the numbers. *)
Lemma preferred_le p q : preferred p q = true → (protocolGeneration q ≤ protocolGeneration p)%Z.
Proof. unfold preferred. repeat case_bool_decide; intros; try done; lia. Qed.

Lemma elem_of_commonProtocols p l r :
  p ∈ commonProtocols l r ↔ (0 < protocolGeneration p)%Z ∧ p ∈ l ∧ p ∈ r.
Proof. unfold commonProtocols. rewrite elem_of_sort_by, list_elem_of_filter. tauto. Qed.

Lemma NoDup_uniqueStrings v : NoDup (uniqueStrings v).
Proof. destruct v; simpl; auto using NoDup_nil_2 with truyn. Qed.

(** The comparator restricted to distinct generations sorts without ties. *)
Definition descending (p q : string) : bool :=
  bool_decide (protocolGeneration q ≤ protocolGeneration p)%Z.

Lemma insert_preferred x l :
  Forall (λ y, (0 < protocolGeneration y)%Z) (x :: l) → x ∉ l →
  sort_insert preferred x l = sort_insert descending x l.
Proof.
  induction l as [|y l IH]; intros Hf Hx; [done|].
  apply Forall_cons in Hf as [Hfx Hf]. apply Forall_cons in Hf as [Hfy Hf].
  apply not_elem_of_cons in Hx as [Hxy Hx]. cbn [sort_insert].
  assert (preferred x y = descending x y) as ->.
  { unfold preferred, descending.
    assert (protocolGeneration x ≠ protocolGeneration y) by eauto using generation_inj.
    rewrite (bool_decide_eq_false_2 (_ = 0)%Z) by lia.
    apply bool_decide_ext. lia. }
  rewrite IH; [done|by constructor|done].
Qed.

Lemma sort_preferred l :
  Forall (λ y, (0 < protocolGeneration y)%Z) l → NoDup l →
  sort_by preferred l = sort_by descending l.
Proof.
  induction l as [|x l IH]; intros Hf Hnd; [done|].
  apply NoDup_cons in Hnd as [Hx Hnd]. cbn [sort_by foldr].
  change (foldr (sort_insert preferred) [] l) with (sort_by preferred l).
  change (foldr (sort_insert descending) [] l) with (sort_by descending l).
  pose proof Hf as Hf'. apply Forall_cons in Hf as [Hfx Hf].
  rewrite IH by done. apply insert_preferred.
  - constructor; [done|]. by rewrite sort_by_perm.
  - by rewrite elem_of_sort_by.
Qed.

Lemma descending_total p q : descending p q = true ∨ descending q p = true.
Proof. unfold descending. rewrite !bool_decide_eq_true. lia. Qed.

Lemma descending_trans p q r :
  descending p q = true → descending q r = true → descending p r = true.
Proof. unfold descending. rewrite !bool_decide_eq_true. lia. Qed.

Lemma common_descending l r :
  NoDup l →
  commonProtocols l r = sort_by descending (filter (λ p, (0 < protocolGeneration p)%Z ∧ p ∈ r) l).
Proof.
  intros Hnd. apply sort_preferred; [|by apply NoDup_filter].
  apply Forall_forall. intros p Hp. by apply list_elem_of_filter in Hp as [[? _] _].
Qed.

Lemma common_sorted l r :
  NoDup l → StronglySorted (λ p q, descending p q = true) (commonProtocols l r).
Proof.
  intros. rewrite common_descending by done.
  apply sort_by_sorted; [apply descending_total|apply descending_trans].
Qed.

Lemma common_unique l r l' r' :
  NoDup l → NoDup l' → (∀ p, p ∈ l ∧ p ∈ r ↔ p ∈ l' ∧ p ∈ r') → commonProtocols l r = commonProtocols l' r'.
Proof.
  intros Hl Hl' Hlr. apply (sorted_perm_unique descending); [|by apply common_sorted..|].
  - intros p q Hp _ H1 H2. apply elem_of_commonProtocols in Hp as [Hp _].
    unfold descending in *. bool_hyps. apply generation_inj; [done|lia].
  - apply NoDup_Permutation.
    + unfold commonProtocols. rewrite NoDup_sort_by. by apply NoDup_filter.
    + unfold commonProtocols. rewrite NoDup_sort_by. by apply NoDup_filter.
    + intros p. rewrite !elem_of_commonProtocols. naive_solver.
Qed.

Lemma common_sym l r : NoDup l → NoDup r → commonProtocols l r = commonProtocols r l.
Proof. intros Hl Hr. apply common_unique; [done..|]. tauto. Qed.

(** The outcome of an exchange without scoped semantics depends on what is
    listed, not on how, and requiring less keeps an agreement. *)
Definition same_strings (v w : jval) : Prop := ∀ s, s ∈ uniqueStrings v ↔ s ∈ uniqueStrings w.

Lemma agreed_same_strings lp rp ls rs req lp' rp' ls' rs' req' p sems :
  same_strings lp lp' → same_strings rp rp' → same_strings ls ls' → same_strings rs rs' →
  (∀ s, s ∈ uniqueStrings req' → s ∈ uniqueStrings req) →
  negotiateProtocol (NegotiationArgs lp rp ls rs req JUndef JUndef) = Agreed p sems →
  negotiateProtocol (NegotiationArgs lp' rp' ls' rs' req' JUndef JUndef) = Agreed p sems.
Proof.
  intros Hlp Hrp Hls Hrs Hreq. unfold negotiateProtocol. cbn.
  rewrite <- (common_unique (uniqueStrings lp) (uniqueStrings rp) (uniqueStrings lp') (uniqueStrings rp')) by
    (auto using NoDup_uniqueStrings; intros q; by rewrite (Hlp q), (Hrp q)).
  destruct (commonProtocols _ _) as [|selected cs]; [done|].
  destruct (filter _ _) as [|m ms] eqn:Hm; [|done]. intros [= <- <-].
  destruct (filter (λ s, s ∉ uniqueStrings ls' ∨ s ∉ uniqueStrings rs') _) as [|m ms] eqn:Hm'.
  - f_equal. apply sort_strings_perm_eq, NoDup_Permutation; [apply NoDup_filter, NoDup_uniqueStrings..|].
    intros s. rewrite !list_elem_of_filter, (Hls s), (Hrs s). done.
  - assert (m ∈ []) as []%elem_of_nil. rewrite <- Hm. apply list_elem_of_filter.
    assert (m ∈ m :: ms) as Hin by left. rewrite <- Hm', list_elem_of_filter in Hin.
    unfold sort_strings in *. rewrite !elem_of_sort_by in *. rewrite (Hls m), (Hrs m). naive_solver.
Qed.

Lemma filter_or_sym (P Q : string → Prop) `{∀ x, Decision (P x), ∀ x, Decision (Q x)} (l : list string) :
  filter (λ x, P x ∨ Q x) l = filter (λ x, Q x ∨ P x) l.
Proof. apply list_filter_iff. tauto. Qed.

Lemma negotiate_swap a : negotiateProtocol (swap a) = negotiateProtocol a.
Proof.
  unfold negotiateProtocol, swap. cbn.
  rewrite common_sym by apply NoDup_uniqueStrings.
  destruct (commonProtocols _ _) as [|selected cs]; [done|].
  set (L := localSemanticsByProtocol a). set (R := remoteSemanticsByProtocol a).
  rewrite (orb_comm (negb (is_undefined R))).
  set (scoped := _ || _).
  replace (negb (validMap R) || negb (validMap L) || negb (has_own R selected) ||
           negb (has_own L selected)) with
    (negb (validMap L) || negb (validMap R) || negb (has_own L selected) ||
     negb (has_own R selected))
    by (destruct (validMap L), (validMap R), (has_own L selected), (has_own R selected); done).
  destruct (scoped && _); [done|].
  set (SL := uniqueStrings (if scoped then oprop L selected else _)).
  set (SR := uniqueStrings (if scoped then oprop R selected else _)).
  rewrite (filter_or_sym (λ s, s ∉ SR)).
  destruct (filter _ _); [|done]. f_equal. apply sort_strings_perm_eq.
  apply NoDup_Permutation; [apply NoDup_filter, NoDup_uniqueStrings..|].
  intros s. rewrite !list_elem_of_filter. tauto.
Qed.

(** The two peers of an exchange reach the same outcome: the same selected
    generation, the same shared semantics in the same order, or the same
    refusal. *)
Theorem negotiateProtocol_symmetric a : negotiateProtocol (swap a) = negotiateProtocol a.
Proof. apply negotiate_swap. Qed.

(** The semantics one side advertises for the selected generation. *)
Definition advertised (flat scopedMap : jval) (scoped : bool) (p : string) : list string :=
  uniqueStrings (if scoped then oprop scopedMap p else flat).

Definition is_scoped (a : negotiation_args) : bool :=
  negb (is_undefined (localSemanticsByProtocol a)) ||
  negb (is_undefined (remoteSemanticsByProtocol a)).

(** An agreement selects the highest generation both peers list, and its
    semantics are exactly those both advertise for it, without duplicates and
    with every required one among them. *)
Theorem negotiateProtocol_agreed a p sems :
  negotiateProtocol a = Agreed p sems →
  (0 < protocolGeneration p)%Z ∧
  p ∈ uniqueStrings (localProtocols a) ∧ p ∈ uniqueStrings (remoteProtocols a) ∧
  (∀ q, q ∈ uniqueStrings (localProtocols a) → q ∈ uniqueStrings (remoteProtocols a) →
     (protocolGeneration q ≤ protocolGeneration p)%Z) ∧
  NoDup sems ∧
  (∀ s, s ∈ sems ↔
     s ∈ advertised (localSemantics a) (localSemanticsByProtocol a) (is_scoped a) p ∧
     s ∈ advertised (remoteSemantics a) (remoteSemanticsByProtocol a) (is_scoped a) p) ∧
  (∀ s, s ∈ uniqueStrings (requiredSemantics a) → s ∈ sems).
Proof.
  unfold negotiateProtocol. fold (is_scoped a).
  destruct (commonProtocols _ _) as [|selected cs] eqn:Hc; [done|].
  destruct (is_scoped a && _); [done|].
  fold (advertised (localSemantics a) (localSemanticsByProtocol a) (is_scoped a) selected).
  fold (advertised (remoteSemantics a) (remoteSemanticsByProtocol a) (is_scoped a) selected).
  set (SL := advertised (localSemantics a) _ _ _). set (SR := advertised (remoteSemantics a) _ _ _).
  destruct (filter _ _) as [|m ms] eqn:Hm; [|done]. intros [= <- <-].
  assert (Hsel : selected ∈ commonProtocols (uniqueStrings (localProtocols a))
                              (uniqueStrings (remoteProtocols a))) by (rewrite Hc; left).
  apply elem_of_commonProtocols in Hsel as (Hpos & Hl & Hr). split_and!; try done.
  - intros q Hql Hqr. destruct (decide (0 < protocolGeneration q)%Z) as [Hq|]; [|lia].
    assert (q ∈ selected :: cs) as [->|Hin]%elem_of_cons
      by (rewrite <- Hc; by apply elem_of_commonProtocols); [done|].
    pose proof (common_sorted _ (uniqueStrings (remoteProtocols a))
                  (NoDup_uniqueStrings (localProtocols a))) as Hs.
    rewrite Hc in Hs. apply StronglySorted_inv in Hs as [_ Hs].
    rewrite Forall_forall in Hs. specialize (Hs q Hin). unfold descending in Hs. by bool_hyps.
  - unfold sort_strings. rewrite NoDup_sort_by. apply NoDup_filter, NoDup_uniqueStrings.
  - intros s. unfold sort_strings. rewrite elem_of_sort_by, list_elem_of_filter. tauto.
  - intros s Hs. unfold sort_strings. rewrite elem_of_sort_by, list_elem_of_filter.
    destruct (decide (s ∉ SL ∨ s ∉ SR)) as [Hn|Hn].
    + assert (s ∈ []) as []%elem_of_nil. rewrite <- Hm. apply list_elem_of_filter.
      split; [done|]. unfold sort_strings. by rewrite elem_of_sort_by.
    + split; apply dec_stable; tauto.
Qed.

End agreement.

Definition sample_args : negotiation_args :=
  NegotiationArgs (JArr [JStr "TRUYN/1"; JStr "TRUYN/3"; JStr "TRUYN/2"])
    (JArr [JStr "TRUYN/2"; JStr "TRUYN/1"; JStr "TRUYN/04"])
    (JArr [JStr "b"; JStr " a "; JStr "c"]) (JArr [JStr "a"; JStr "b"]) (JArr [JStr "b"])
    JUndef JUndef.

Lemma negotiateProtocol_agreed_witness :
  negotiateProtocol (H := Toy.host) sample_args = Agreed "TRUYN/2" ["a"; "b"] ∧
  "b" ∈ ["a"; "b"].
Proof.
  assert (Hok : negotiateProtocol (H := Toy.host) sample_args = Agreed "TRUYN/2" ["a"; "b"])
    by (vm_compute; reflexivity).
  split; [exact Hok|].
  destruct (negotiateProtocol_agreed (H := Toy.host) _ _ _ Hok) as (_ & _ & _ & _ & _ & _ & Hr).
  apply Hr. left.
Defined.

End Negotiate.

Module ErrorClass.

Definition TRUYN_ERROR_CODES : list string :=
  ["version_mismatch"; "unauthenticated"; "permission_denied"; "deadline_exceeded";
   "invalid_argument"; "unimplemented"; "cancelled"; "transport_error";
   "invalid_response"; "not_found"; "conflict"; "resource_exhausted"; "internal_error"].

Definition ALIASES : list (string * string) :=
  [("unauthorized", "unauthenticated"); ("authorization_denied", "permission_denied");
   ("provider_access_denied", "permission_denied"); ("invalid_request", "invalid_argument");
   ("validation_error", "invalid_argument"); ("invalid_capability", "invalid_argument");
   ("payload_too_large", "resource_exhausted"); ("request_too_large", "resource_exhausted");
   ("offer_capacity_reached", "resource_exhausted"); ("node_capacity_reached", "resource_exhausted");
   ("cancellation_backpressure", "resource_exhausted"); ("partial_backpressure", "resource_exhausted");
   ("result_wait_timeout", "deadline_exceeded"); ("no_matching_provider", "not_found");
   ("duplicate_request", "conflict"); ("unsupported_protocol", "version_mismatch");
   ("no_protocol_overlap", "version_mismatch"); ("required_semantic_unavailable", "version_mismatch")].

Definition RETRYABLE_SOURCE : list string :=
  ["offer_capacity_reached"; "node_capacity_reached"; "cancellation_backpressure";
   "partial_backpressure"; "result_wait_timeout"].

Record classification := Classification { code : string; retryable : bool }.

Definition status_code (status : jval) : string :=
  if eq_int status 401 then "unauthenticated"
  else if eq_int status 403 then "permission_denied"
  else if eq_int status 404 then "not_found"
  else if eq_int status 408 || eq_int status 504 then "deadline_exceeded"
  else if eq_int status 409 then "conflict"
  else if eq_int status 413 || eq_int status 429 then "resource_exhausted"
  else if eq_int status 501 then "unimplemented"
  else match status with
       | JNum n => if num_ge n 400 && num_lt n 500 then "invalid_argument" else "internal_error"
       | _ => "internal_error"
       end.

Definition classifyTruynError (sourceCode status clientKind : jval) : classification :=
  let raw := string_or_empty sourceCode in
  let code :=
    if eq_str clientKind "transport" then "transport_error"
    else if eq_str clientKind "invalid_response" then "invalid_response"
    else if eq_str clientKind "cancelled" then "cancelled"
    else if bool_decide (raw ∈ TRUYN_ERROR_CODES) then raw
    else match Compact.assoc raw ALIASES with
         | Some c => c
         | None => status_code status
         end in
  let retryable :=
    bool_decide (code = "transport_error") ||
    (bool_decide (code = "deadline_exceeded") &&
       (bool_decide (raw = "") || bool_decide (raw = "result_wait_timeout"))) ||
    bool_decide (raw ∈ RETRYABLE_SOURCE) in
  Classification code retryable.

Definition enumerated (m : string) : bool :=
  bool_decide (m ∈ TRUYN_ERROR_CODES) || bool_decide (is_Some (Compact.assoc m ALIASES)).

(** [a || b] on strings, [null] standing as the empty string *)
Definition first_nonempty (a b : string) : string := if nonempty_str a then a else b.

Definition source_code (error : jval) : string :=
  let bodyCode := oprop (oprop error "body") "error" in
  let body := match bodyCode with
              | JStr s => s
              | _ => string_or_empty (oprop bodyCode "code")
              end in
  let message := match oprop error "message" with
                 | JStr m => if enumerated m then m else ""
                 | _ => ""
                 end in
  first_nonempty body (first_nonempty (string_or_empty (oprop error "code")) message).

Definition classifyTruynException (error : jval) : classification :=
  let status := match is_integer (oprop error "status") with
                | Some _ => oprop error "status"
                | None => oprop error "httpStatus"
                end in
  classifyTruynError (JStr (source_code error)) status JUndef.

Lemma alias_code raw c : Compact.assoc raw ALIASES = Some c → c ∈ TRUYN_ERROR_CODES.
Proof.
  assert (Hall : Forall (λ kc, kc.2 ∈ TRUYN_ERROR_CODES) ALIASES) by (refine (bool_decide_eq_true_1 _ _); by vm_compute).
  induction Hall as [|[k c'] l Hc _ IH]; [done|]. cbn [Compact.assoc]. case_decide; [by intros [= <-]|done].
Qed.

Lemma status_code_stable status : status_code status ∈ TRUYN_ERROR_CODES.
Proof.
  unfold status_code.
  repeat match goal with |- context [if ?b then _ else _] => destruct b end;
    try (unfold TRUYN_ERROR_CODES; set_solver).
  destruct status as [| | | |n| | |]; try destruct (num_ge n 400 && num_lt n 500);
    unfold TRUYN_ERROR_CODES; set_solver.
Qed.

(** An exception whose text is replaced by other diagnostic text. *)
Definition with_message (m : string) (kvs : list (string * jval)) : jval :=
  JObj (set_key "message" (JStr m) kvs).

Lemma lookup_set_key k k' v kvs :
  lookup_key k (set_key k' v kvs) = if decide (k = k') then Some v else lookup_key k kvs.
Proof.
  induction kvs as [|[j w] kvs IH]; cbn [set_key lookup_key]; [done|].
  destruct (decide (k' = j)) as [->|]; cbn [lookup_key].
  - by repeat case_decide; subst.
  - rewrite IH. repeat case_decide; subst; done.
Qed.

Lemma oprop_with_message m kvs k :
  oprop (with_message m kvs) k = if decide (k = "message") then JStr m else oprop (JObj kvs) k.
Proof. unfold with_message, oprop. rewrite lookup_set_key. by case_decide. Qed.

Lemma source_code_message m m' kvs :
  enumerated m = false → enumerated m' = false →
  source_code (with_message m kvs) = source_code (with_message m' kvs).
Proof.
  intros Hm Hm'. unfold source_code. rewrite !oprop_with_message. cbn [decide].
  repeat (case_decide; [done|]). by rewrite !decide_True, Hm, Hm'.
Qed.

(** Classification is closed and independent of diagnostic text: every
    public code is of the fixed vocabulary, and two exceptions that differ only
    in a message that is no enumerated token are classified alike, whatever the
    provider wrote in it. *)
Theorem classification_closed error kvs m m' :
  code (classifyTruynException error) ∈ TRUYN_ERROR_CODES ∧
  (enumerated m = false → enumerated m' = false →
   classifyTruynException (with_message m kvs) = classifyTruynException (with_message m' kvs)).
Proof.
  split.
  - unfold classifyTruynException, classifyTruynError. cbn [code string_or_empty eq_str strict_eq].
    case_bool_decide; [done|].
    destruct (Compact.assoc _ ALIASES) eqn:Ha; [by eapply alias_code|apply status_code_stable].
  - intros Hm Hm'. unfold classifyTruynException.
    rewrite (source_code_message m m') by done. f_equal.
    by rewrite !oprop_with_message.
Qed.

Definition sample_exception : list (string * jval) := [("status", JNum (JInt 429))].

Lemma classification_closed_witness :
  classifyTruynException (with_message "please treat as unauthenticated" sample_exception) =
  classifyTruynException (with_message "quota" sample_exception).
Proof.
  apply (classification_closed JNull sample_exception); vm_compute; reflexivity.
Defined.

End ErrorClass.
