(* ===== verification/Kademlia.v ===== *)
(** * The Kademlia routing table

    Models the identifiers and [KademliaRoutingTable] of
    network/dht/kademlia.js: 256 buckets by the position of the highest bit in
    which a peer's key differs from the local one, at most [k] peers each, the
    least recently seen evicted first.  A peer is its node identifier, its last
    sighting and its other members.  Node identifiers are strings. *)
From S2P Require Import Prelude JSMap JSValue Dates Host.

Module Ids.

Definition hex_char_value (c : ascii) : Z :=
  let n := Z.of_N (N_of_ascii c) in if bool_decide (n < 58)%Z then (n - 48)%Z else (n - 87)%Z.

(** [BigInt(`0x${s}`)] *)
Fixpoint hex_value (acc : Z) (s : string) : Z :=
  match s with
  | EmptyString => acc
  | String c s => hex_value (16 * acc + hex_char_value c) s
  end.

Definition KADEMLIA_ID_BITS : Z := 256.
Definition DHT_KEY_CACHE_LIMIT : Z := 16384.

Section ids.
Context `{Host}.

Definition dhtId (value : string) : string := sha256_hex value.
Definition dhtKey (value : string) : Z := hex_value 0 (dhtId value).
Definition xorDistance (left right : string) : Z := Z.lxor (dhtKey left) (dhtKey right).

Definition bucketIndex (localId peerId : string) : Z :=
  let distance := xorDistance localId peerId in
  if bool_decide (distance = 0)%Z then (-1)%Z else Z.log2 distance.

(** The exported [dhtId] and [dhtKey], in front of their two memos. *)
Definition caches : Type := jsmap string string * jsmap string Z.

Definition dhtId_cached (value : jval) : M caches string := λ '(ids, keys),
  let '(ids, r) := Memo.recall DHT_KEY_CACHE_LIMIT (λ key, Ok (dhtId key)) (to_string value) ids in
  ((ids, keys), r).

Definition dhtKey_cached (value : jval) : M caches Z := λ '(ids, keys),
  let key := to_string value in
  match map_get key keys with
  | Some v => ((ids, keys), Ok v)
  | None =>
      match dhtId_cached (JStr key) (ids, keys) with
      | ((ids, keys), Ok id) =>
          let v := hex_value 0 id in
          ((ids, Memo.remember DHT_KEY_CACHE_LIMIT keys key v), Ok v)
      | (c, Throw e) => (c, Throw e)
      end
  end.

Definition caches_ok (c : caches) : Prop :=
  Memo.bounded DHT_KEY_CACHE_LIMIT (λ key, Ok (dhtId key)) c.1 ∧
  Memo.bounded DHT_KEY_CACHE_LIMIT (λ key, Ok (dhtKey key)) c.2.

Lemma dhtKey_cached_pure v c :
  caches_ok c → (dhtKey_cached v c).2 = Ok (dhtKey (to_string v)) ∧ caches_ok (dhtKey_cached v c).1.
Proof.
  destruct c as [ids keys]. intros [Hi Hk]. cbn [fst snd] in *. unfold dhtKey_cached.
  destruct (map_get (to_string v) keys) as [w|] eqn:Hg.
  { split; [|done]. cbn. destruct Hk as (_ & _ & Hc). by rewrite <- (Hc _ _ Hg). }
  unfold dhtId_cached. cbn [to_string].
  destruct (Memo.recall_transparent DHT_KEY_CACHE_LIMIT (λ key, Ok (dhtId key)) (to_string v) ids)
    as [Hr Hb]; [done..|].
  destruct (Memo.recall _ _ _ ids) as [ids' r]. cbn [fst snd] in *. subst r. cbn [fst snd].
  split; [done|]. split; [done|]. cbn [snd].
  destruct (Memo.recall_transparent DHT_KEY_CACHE_LIMIT (λ key, Ok (dhtKey key)) (to_string v) keys)
    as [_ Hb']; [done..|].
  unfold Memo.recall in Hb'. by rewrite Hg in Hb'.
Qed.

(** The two memos of the distance computation are invisible and bounded:
    whatever keys are asked for in whatever order, each answer is the key
    computed afresh, and neither memo exceeds 16384 entries. *)
Theorem dht_memo_transparent values :
  (run_all dhtKey_cached values ([], [])).2 = map (λ v, Ok (dhtKey (to_string v))) values ∧
  (map_size (run_all dhtKey_cached values ([], [])).1.1 ≤ 16384 ∧
   map_size (run_all dhtKey_cached values ([], [])).1.2 ≤ 16384)%Z.
Proof.
  destruct (run_all_pure caches_ok dhtKey_cached (λ v, Ok (dhtKey (to_string v))) values ([], []))
    as [Hr [(_ & H1 & _) (_ & H2 & _)]]; [|split; by apply Memo.bounded_nil|done].
  intros v c. apply dhtKey_cached_pure.
Qed.

(** ** The metric *)

Lemma hex_value_bound acc s :
  str_forall is_hex_digit s = true → (0 ≤ acc)%Z →
  (0 ≤ hex_value acc s < (acc + 1) * 16 ^ Z.of_nat (String.length s))%Z.
Proof.
  revert acc. induction s as [|c s IH]; intros acc Hs Ha.
  - cbn [hex_value String.length]. change (16 ^ Z.of_nat 0)%Z with 1%Z. lia.
  - cbn [str_forall] in Hs. apply andb_prop in Hs as [Hc Hs]. unfold is_hex_digit in Hc. bool_hyps.
    assert (Hv : (0 ≤ hex_char_value c < 16)%Z).
    { unfold hex_char_value. case_bool_decide; lia. }
    cbn [hex_value String.length]. rewrite Nat2Z.inj_succ, Z.pow_succ_r by lia.
    specialize (IH (16 * acc + hex_char_value c)%Z Hs). nia.
Qed.

Context {HS : HashShape _}.

Lemma dhtKey_bound v : (0 ≤ dhtKey v < 2 ^ 256)%Z.
Proof.
  pose proof (hex_value_bound 0 (sha256_hex v) (sha256_chars v)) as Hb.
  rewrite sha256_length in Hb. unfold dhtKey, dhtId.
  change (2 ^ 256)%Z with ((0 + 1) * 16 ^ Z.of_nat 64)%Z. apply Hb. lia.
Qed.

Lemma xorDistance_nonneg a b : (0 ≤ xorDistance a b)%Z.
Proof. apply Z.lxor_nonneg. pose proof (dhtKey_bound a). pose proof (dhtKey_bound b). lia. Qed.

Lemma xorDistance_bound a b : (xorDistance a b < 2 ^ 256)%Z.
Proof.
  destruct (decide (xorDistance a b = 0)%Z) as [->|Hn]; [done|].
  pose proof (xorDistance_nonneg a b). apply Z.log2_lt_pow2; [lia|].
  pose proof (dhtKey_bound a) as [Ha Ha']. pose proof (dhtKey_bound b) as [Hb Hb'].
  eapply Z.le_lt_trans; [by apply Z.log2_lxor|]. apply Z.max_lub_lt.
  - destruct (decide (dhtKey a = 0)%Z) as [->|]; [done|]. apply Z.log2_lt_pow2; lia.
  - destruct (decide (dhtKey b = 0)%Z) as [->|]; [done|]. apply Z.log2_lt_pow2; lia.
Qed.

Lemma bucketIndex_bound a b : (-1 ≤ bucketIndex a b < 256)%Z.
Proof.
  unfold bucketIndex. case_bool_decide as Hz; [lia|].
  pose proof (xorDistance_nonneg a b). pose proof (xorDistance_bound a b).
  pose proof (Z.log2_nonneg (xorDistance a b)).
  split; [lia|]. apply Z.log2_lt_pow2; [lia|done].
Qed.

(** A peer of bucket [i] agrees with the local key above bit [i]. *)
Lemma bucketIndex_prefix a b i j :
  bucketIndex a b = i → (i < j)%Z → (0 ≤ j)%Z → Z.testbit (dhtKey a) j = Z.testbit (dhtKey b) j.
Proof.
  unfold bucketIndex. intros Hi Hj H0.
  assert (Z.testbit (xorDistance a b) j = false) as Hb.
  { revert Hi. case_bool_decide as Hz; intros Hi.
    - rewrite Hz. apply Z.testbit_0_l.
    - apply Z.bits_above_log2; [apply xorDistance_nonneg|lia]. }
  unfold xorDistance in Hb. rewrite Z.lxor_spec in Hb. by apply xorb_eq.
Qed.
End ids.
End Ids.

Module Routing.
Import Ids.

Record peer := Peer {
  nodeId : string;
  lastSeenAt : string;
  details : list (string * jval)
}.

Record table := Table {
  localNodeId : string;
  k : Z;
  buckets : list (list peer);
  members : gset string
}.

(** [new KademliaRoutingTable({ localNodeId, k })] *)
Definition new_table (localNodeId : string) (k : jval) : result table :=
  if negb (nonempty_str localNodeId) then Throw (error "localNodeId is required")
  else match is_integer k with
       | Some k => if bool_decide (k < 1)%Z then Throw (error "k must be >= 1")
                   else Ok (Table localNodeId k (replicate (Z.to_nat KADEMLIA_ID_BITS) []) ∅)
       | None => Throw (error "k must be >= 1")
       end.

Definition has (id : string) (t : table) : bool := bool_decide (id ∈ members t).
Definition size (t : table) : Z := Z.of_nat (base.size (members t)).

(** [const i = bucket.findIndex(...); if (i >= 0) bucket.splice(i, 1)] *)
Fixpoint splice_first (id : string) (bucket : list peer) : list peer :=
  match bucket with
  | [] => []
  | p :: bucket => if decide (nodeId p = id) then bucket else p :: splice_first id bucket
  end.

Definition undefined_bucket : jerror := error "Cannot read properties of undefined".

Section routing.
Context `{Host}.

(** [{ ...peer, lastSeenAt: peer.lastSeenAt || new Date().toISOString() }] *)
Definition stamped (now : string) (p : peer) : peer :=
  Peer (nodeId p) (if nonempty_str (lastSeenAt p) then lastSeenAt p else now) (details p).

Definition upsert (now : string) (peer : option peer) : M table bool := λ t,
  match peer with
  | None => (t, Ok false)
  | Some peer =>
      if negb (nonempty_str (nodeId peer)) || bool_decide (nodeId peer = localNodeId t) then
        (t, Ok false)
      else
        let index := bucketIndex (localNodeId t) (nodeId peer) in
        if bool_decide (index < 0)%Z then (t, Ok false)
        else match buckets t !! Z.to_nat index with
             | None => (t, Throw undefined_bucket)
             | Some bucket =>
                 let bucket := splice_first (nodeId peer) bucket ++ [stamped now peer] in
                 let members := members t ∪ {[nodeId peer]} in
                 let '(bucket, members) :=
                   if bool_decide (k t < Z.of_nat (length bucket))%Z then
                     match bucket with
                     | evicted :: bucket => (bucket, members ∖ {[nodeId evicted]})
                     | [] => (bucket, members)
                     end
                   else (bucket, members) in
                 (Table (localNodeId t) (k t) (<[Z.to_nat index := bucket]> (buckets t)) members,
                  Ok true)
             end
  end.

Definition remove (id : string) : M table bool := λ t,
  let index := bucketIndex (localNodeId t) id in
  if bool_decide (index < 0)%Z then (t, Ok false)
  else match buckets t !! Z.to_nat index with
       | None => (t, Throw undefined_bucket)
       | Some bucket =>
           let kept := filter (λ item, nodeId item ≠ id) bucket in
           let removed := negb (bool_decide (length kept = length bucket)) in
           (Table (localNodeId t) (k t) (<[Z.to_nat index := kept]> (buckets t))
              (if removed then members t ∖ {[id]} else members t),
            Ok removed)
       end.

Definition snapshot (t : table) : list peer := mjoin (buckets t).

Definition restore (now : string) (peers : list (option peer)) : M table Z :=
  _ ← for_each (λ p, _ ← upsert now p; mret tt) peers;
  t ← get_state; mret (size t).

(** The comparator of [closest]: at most zero. *)
Definition nearer (targetKey : Z) (a b : peer) : bool :=
  let da := Z.lxor (dhtKey (nodeId a)) targetKey in
  let db := Z.lxor (dhtKey (nodeId b)) targetKey in
  if bool_decide (da < db)%Z then true
  else if bool_decide (db < da)%Z then false
  else bool_decide (localeCompare (nodeId a) (nodeId b) ≤ 0)%Z.

Definition closest (target : string) (count : Z) (t : table) : list peer :=
  let limit := Z.max 0 count in
  if bool_decide (limit = 0)%Z then []
  else
    let ranked := sort_by (nearer (dhtKey target)) (snapshot t) in
    if bool_decide (limit < Z.of_nat (length ranked))%Z then take (Z.to_nat limit) ranked
    else ranked.

Record routing_snapshot := RoutingSnapshot {
  s_localNodeId : string; s_k : Z; s_bucketCount : Z; s_routingSize : Z;
  s_validPeers : Z; s_populatedBuckets : Z; s_bucketOccupancy : list (nat * Z)
}.

Definition routingSnapshot (t : table) : routing_snapshot :=
  let bucketOccupancy := imap (λ index (bucket : list peer), (index, Z.of_nat (length bucket))) (buckets t) in
  let peers := snapshot t in
  let valid (p : peer) :=
    nonempty_str (nodeId p) && negb (bool_decide (nodeId p = localNodeId t)) &&
    match oprop (JObj (details p)) "endpoints" with
    | JArr l => negb (bool_decide (length l = 0%nat))
    | _ => false
    end in
  RoutingSnapshot (localNodeId t) (k t) KADEMLIA_ID_BITS (Z.of_nat (length peers))
    (Z.of_nat (length (List.filter valid peers)))
    (Z.of_nat (length (List.filter (λ b : nat * Z, bool_decide (0 < b.2)%Z) bucketOccupancy)))
    bucketOccupancy.

(** ** The routing invariant *)

Definition ids (bucket : list peer) : list string := nodeId <$> bucket.

Record bucket_ok (t : table) (i : nat) (bucket : list peer) : Prop := {
  bucket_distinct : NoDup (ids bucket);
  bucket_room : (Z.of_nat (length bucket) ≤ k t)%Z;
  bucket_place : ∀ p, p ∈ bucket →
    nodeId p ≠ "" ∧ lastSeenAt p ≠ "" ∧ bucketIndex (localNodeId t) (nodeId p) = Z.of_nat i
}.

Record wf (t : table) : Prop := {
  wf_count : length (buckets t) = 256;
  wf_k : (1 ≤ k t)%Z;
  wf_bucket : ∀ i bucket, buckets t !! i = Some bucket → bucket_ok t i bucket;
  wf_members : ∀ id, id ∈ members t ↔ id ∈ ids (snapshot t)
}.

Lemma splice_first_ids id bucket : NoDup (ids bucket) → splice_first id bucket = filter (λ p, nodeId p ≠ id) bucket.
Proof.
  induction bucket as [|p b IH]; [done|]. cbn [ids fmap list_fmap splice_first].
  intros [Hp Hb]%NoDup_cons. rewrite filter_cons. destruct (decide (nodeId p = id)) as [Hid|Hid].
  - rewrite decide_False by tauto. clear IH. symmetry.
    induction b as [|q b IH]; [done|]. cbn [fmap list_fmap] in *.
    apply not_elem_of_cons in Hp as [Hq Hp]. apply NoDup_cons in Hb as [_ Hb].
    rewrite filter_cons_True by congruence. f_equal. auto.
  - rewrite decide_True by done. f_equal. auto.
Qed.

Lemma elem_of_ids id bucket : id ∈ ids bucket ↔ ∃ p, p ∈ bucket ∧ nodeId p = id.
Proof. unfold ids. rewrite list_elem_of_fmap. naive_solver. Qed.

Lemma NoDup_ids_filter (P : peer → Prop) `{∀ p, Decision (P p)} bucket :
  NoDup (ids bucket) → NoDup (ids (filter P bucket)).
Proof.
  unfold ids. induction bucket as [|p b IH]; [done|]. cbn [fmap list_fmap].
  intros [Hp Hb]%NoDup_cons. rewrite filter_cons. case_decide; [|by apply IH].
  cbn [fmap list_fmap]. apply NoDup_cons. split; [|by apply IH].
  rewrite list_elem_of_fmap. intros (q & Hq & [_ Hin]%list_elem_of_filter).
  apply Hp. rewrite Hq. apply list_elem_of_fmap. eauto.
Qed.

(** What the table holds after one bucket is replaced. *)
Lemma elem_of_snapshot t p : p ∈ snapshot t ↔ ∃ i bucket, buckets t !! i = Some bucket ∧ p ∈ bucket.
Proof.
  unfold snapshot. rewrite list_elem_of_join. setoid_rewrite list_elem_of_lookup at 2.
  naive_solver.
Qed.

Lemma replace_wf t i bucket bucket' (ms : gset string) :
  wf t → buckets t !! i = Some bucket →
  bucket_ok t i bucket' →
  (∀ id, id ∈ ms ↔
     (bucketIndex (localNodeId t) id ≠ Z.of_nat i ∧ id ∈ members t) ∨ id ∈ ids bucket') →
  wf (Table (localNodeId t) (k t) (<[i := bucket']> (buckets t)) ms).
Proof.
  intros [Hc Hk Hb Hm] Hi Hok Hms.
  pose proof (lookup_lt_Some _ _ _ Hi) as Hlt.
  constructor; cbn [buckets k localNodeId members]; [by rewrite length_insert|done| |].
  - intros j b Hj. apply list_lookup_insert_Some in Hj as [(-> & -> & _)|[Hne Hj]].
    + by destruct Hok as [H1 H2 H3]; constructor.
    + by destruct (Hb _ _ Hj) as [H1 H2 H3]; constructor.
  - intros id. rewrite Hms, Hm, !elem_of_ids. setoid_rewrite elem_of_snapshot.
    cbn [buckets]. split.
    + intros [[Hidx (p & (j & b & Hj & Hp) & <-)]|(p & Hp & <-)].
      * exists p. split; [|done]. exists j, b. split; [|done].
        rewrite list_lookup_insert_ne; [done|]. intros <-.
        apply Hidx. by destruct (Hb _ _ Hj) as [_ _ Hpl]; apply Hpl.
      * exists p. split; [|done]. exists i, bucket'. by rewrite list_lookup_insert_eq.
    + intros (p & (j & b & Hj & Hp) & <-).
      apply list_lookup_insert_Some in Hj as [(-> & -> & _)|[Hne Hj]]; [right; eauto|].
      left. destruct (Hb _ _ Hj) as [_ _ Hpl]. split; [|eauto 8].
      destruct (Hpl p Hp) as (_ & _ & ->). lia.
Qed.

Lemma member_of_bucket t i bucket id :
  wf t → buckets t !! i = Some bucket →
  id ∈ ids bucket ↔ id ∈ members t ∧ bucketIndex (localNodeId t) id = Z.of_nat i.
Proof.
  intros [Hc Hk Hb Hm] Hi. rewrite Hm, !elem_of_ids. setoid_rewrite elem_of_snapshot.
  pose proof (Hb _ _ Hi) as [_ _ Hpl]. split.
  - intros (p & Hp & <-). split; [eauto 8|]. by apply Hpl.
  - intros [(p & (j & b & Hj & Hp) & <-) Hidx]. destruct (Hb _ _ Hj) as [_ _ Hpl'].
    destruct (Hpl' p Hp) as (_ & _ & Hj'). rewrite Hj' in Hidx.
    apply Nat2Z.inj in Hidx as ->. naive_solver.
Qed.

Context {HS : HashShape _}.

Lemma bucket_defined t id :
  wf t → (0 ≤ bucketIndex (localNodeId t) id)%Z →
  ∃ bucket, buckets t !! Z.to_nat (bucketIndex (localNodeId t) id) = Some bucket.
Proof.
  intros [Hc _ _ _] H0. apply lookup_lt_is_Some. rewrite Hc.
  pose proof (bucketIndex_bound (localNodeId t) id). lia.
Qed.

Lemma filter_out_ids id (bucket : list peer) p : p ∈ filter (λ p, nodeId p ≠ id) bucket ↔ p ∈ bucket ∧ nodeId p ≠ id.
Proof. rewrite list_elem_of_filter. tauto. Qed.

(** The bucket [upsert] builds before evicting. *)
Lemma refreshed_bucket t i bucket now p :
  bucket_ok t i bucket → now ≠ "" → nodeId p ≠ "" →
  bucketIndex (localNodeId t) (nodeId p) = Z.of_nat i →
  let fresh := filter (λ q, nodeId q ≠ nodeId p) bucket ++ [stamped now p] in
  NoDup (ids fresh) ∧
  (∀ q, q ∈ fresh →
     nodeId q ≠ "" ∧ lastSeenAt q ≠ "" ∧ bucketIndex (localNodeId t) (nodeId q) = Z.of_nat i) ∧
  (length fresh ≤ S (length bucket)).
Proof.
  intros [Hd Hr Hpl] Hnow Hp Hi fresh. subst fresh. split_and!.
  - unfold ids. rewrite fmap_app. apply NoDup_app. split_and!.
    + by apply NoDup_ids_filter.
    + cbn. intros id Hid [= ->]%list_elem_of_singleton.
      apply elem_of_ids in Hid as (q & Hq & Heq). by apply filter_out_ids in Hq as [_ ?].
    + apply NoDup_singleton.
  - intros q [Hq|Hq]%elem_of_app.
    + apply filter_out_ids in Hq as [Hq _]. by apply Hpl.
    + apply list_elem_of_singleton in Hq as ->. cbn. split_and!; try done.
      unfold nonempty_str. by case_bool_decide.
  - rewrite length_app. cbn [length]. pose proof (length_filter (λ q, nodeId q ≠ nodeId p) bucket). lia.
Qed.

Lemma elem_of_refreshed now p bucket id :
  id ∈ ids (filter (λ q, nodeId q ≠ nodeId p) bucket ++ [stamped now p]) ↔
  id ∈ ids bucket ∧ id ≠ nodeId p ∨ id = nodeId p.
Proof.
  unfold ids. rewrite fmap_app, elem_of_app. fold (ids (filter (λ q, nodeId q ≠ nodeId p) bucket)).
  fold (ids bucket). change (nodeId <$> [stamped now p]) with [nodeId p].
  rewrite list_elem_of_singleton, !elem_of_ids. setoid_rewrite filter_out_ids. naive_solver.
Qed.

(** Membership after the bucket is refreshed, without and with an eviction. *)
Lemma refreshed_members (M B R P I : Prop) :
  (P ∨ ¬ P) → (I ∨ ¬ I) → (P → I) → (R ↔ B ∧ ¬ P ∨ P) → (B ↔ M ∧ I) → (M ∨ P ↔ ¬ I ∧ M ∨ R).
Proof. tauto. Qed.

Lemma evicted_members (M B R P E I : Prop) :
  (P ∨ ¬ P) → (I ∨ ¬ I) → (P → I) → (E ∨ R ↔ B ∧ ¬ P ∨ P) → (B ↔ M ∧ I) → (E → I) → (E → ¬ R) →
  ((M ∨ P) ∧ ¬ E ↔ ¬ I ∧ M ∨ R).
Proof. tauto. Qed.

(** [upsert] on a peer of a bucket: what it stores, and whom it evicts. *)
Lemma upsert_spec now p t :
  wf t → now ≠ "" → nodeId p ≠ "" → nodeId p ≠ localNodeId t →
  (0 ≤ bucketIndex (localNodeId t) (nodeId p))%Z →
  ∃ bucket, buckets t !! Z.to_nat (bucketIndex (localNodeId t) (nodeId p)) = Some bucket ∧
    let kept := filter (λ q, nodeId q ≠ nodeId p) bucket in
    let full := bool_decide (k t < Z.of_nat (S (length kept)))%Z in
    let stored := if full then tail (kept ++ [stamped now p]) else kept ++ [stamped now p] in
    (upsert now (Some p) t).2 = Ok true ∧
    buckets (upsert now (Some p) t).1 =
      <[Z.to_nat (bucketIndex (localNodeId t) (nodeId p)) := stored]> (buckets t) ∧
    localNodeId (upsert now (Some p) t).1 = localNodeId t ∧ k (upsert now (Some p) t).1 = k t ∧
    wf (upsert now (Some p) t).1.
Proof.
  intros Hwf Hnow Hp Hl Hi. destruct (bucket_defined t (nodeId p) Hwf Hi) as [bucket Hb].
  exists bucket. split; [done|]. intros kept full stored.
  pose proof (wf_bucket _ Hwf _ _ Hb) as Hok.
  assert (Hidx : bucketIndex (localNodeId t) (nodeId p) =
                 Z.of_nat (Z.to_nat (bucketIndex (localNodeId t) (nodeId p)))) by lia.
  destruct (refreshed_bucket _ _ _ now p Hok Hnow Hp Hidx) as (Hnd & Hpl & Hlen).
  unfold upsert. unfold nonempty_str. rewrite !bool_decide_eq_false_2 by (done || lia).
  cbn [negb orb]. rewrite Hb, splice_first_ids by apply Hok. fold kept.
  rewrite (bool_decide_ext (k t < Z.of_nat (length (kept ++ [stamped now p])))%Z
             (k t < Z.of_nat (S (length kept)))%Z) by (rewrite length_app; cbn; f_equiv; lia).
  fold full in stored |- *. fold kept in Hnd, Hpl, Hlen.
  pose proof (elem_of_refreshed now p bucket) as Hids. fold kept in Hids.
  set (i := Z.to_nat (bucketIndex (localNodeId t) (nodeId p))) in *.
  pose proof (member_of_bucket t i bucket) as Hmem.
  destruct full eqn:Hfull; subst stored full; bool_hyps.
  - destruct (kept ++ [stamped now p]) as [|ev rest] eqn:Hk; [by destruct kept|].
    cbn [fst snd buckets localNodeId k tail]. split_and!; try done.
    cbn [ids fmap list_fmap] in Hnd. apply NoDup_cons in Hnd as [Hev Hnd].
    eapply replace_wf; [done|done| |].
    + constructor; [done| |intros; apply Hpl; by right].
      destruct Hok as [_ Hr _]. cbn [length] in Hlen. lia.
    + intros id. specialize (Hids id). specialize (Hmem id Hwf Hb).
      cbn [ids fmap list_fmap] in Hids. rewrite elem_of_cons in Hids.
      rewrite elem_of_difference, elem_of_union, !elem_of_singleton.
      eapply evicted_members; [| | |exact Hids|exact Hmem| |].
      * destruct (decide (id = nodeId p)); auto.
      * destruct (decide (bucketIndex (localNodeId t) id = Z.of_nat i)); auto.
      * by intros ->.
      * intros ->. apply Hpl. left.
      * by intros ->.
  - cbn [fst snd buckets localNodeId k]. split_and!; try done.
    eapply replace_wf; [done|done| |].
    + constructor; [done| |done]. rewrite length_app. cbn [length]. lia.
    + intros id. rewrite Hids. specialize (Hmem id Hwf Hb).
      rewrite elem_of_union, elem_of_singleton.
      eapply refreshed_members; [| | |done|exact Hmem].
      * destruct (decide (id = nodeId p)); auto.
      * destruct (decide (bucketIndex (localNodeId t) id = Z.of_nat i)); auto.
      * by intros ->.
Qed.

Lemma wf_local_not_member t : wf t → localNodeId t ∉ members t.
Proof.
  intros Hwf Hin. apply (wf_members _ Hwf) in Hin. apply elem_of_ids in Hin as (p & Hp & Heq).
  apply elem_of_snapshot in Hp as (i & b & Hi & Hp).
  destruct (wf_bucket _ Hwf _ _ Hi) as [_ _ Hpl]. destruct (Hpl p Hp) as (_ & _ & Hidx).
  rewrite Heq in Hidx. unfold bucketIndex, xorDistance in Hidx.
  rewrite Z.lxor_nilpotent in Hidx. rewrite bool_decide_eq_true_2 in Hidx by done. lia.
Qed.

Lemma upsert_wf now p t : wf t → now ≠ "" → is_ok (upsert now p t).2 = true ∧ wf (upsert now p t).1.
Proof.
  intros Hwf Hnow. destruct p as [p|]; [|done].
  destruct (decide (nodeId p = "" ∨ nodeId p = localNodeId t ∨
                    bucketIndex (localNodeId t) (nodeId p) < 0)%Z) as [Hno|Hyes].
  - assert (upsert now (Some p) t = (t, Ok false)) as ->; [|done].
    unfold upsert, nonempty_str. destruct Hno as [->|[Hl|Hlt]].
    + by rewrite bool_decide_eq_true_2.
    + rewrite (bool_decide_eq_true_2 (nodeId p = localNodeId t)) by done. by rewrite orb_true_r.
    + rewrite (bool_decide_eq_true_2 (_ < 0)%Z) by done. by destruct (_ || _).
  - destruct (upsert_spec now p t) as (b & _ & -> & _ & _ & _ & Hwf'); try done;
      [tauto|tauto|]. apply Z.nlt_ge. tauto.
Qed.

Lemma remove_wf id t : wf t → is_ok (remove id t).2 = true ∧ wf (remove id t).1.
Proof.
  intros Hwf. unfold remove. case_bool_decide as Hi; [done|].
  destruct (bucket_defined t id Hwf) as [bucket Hb]; [lia|]. rewrite Hb. split; [done|]. cbn [fst].
  set (i := Z.to_nat _) in *. pose proof (wf_bucket _ Hwf _ _ Hb) as Hok.
  assert (Hidx : bucketIndex (localNodeId t) id = Z.of_nat i) by lia.
  eapply replace_wf; [done|done| |].
  - destruct Hok as [Hd Hr Hpl]. constructor; [by apply NoDup_ids_filter| |].
    + pose proof (length_filter (λ q, nodeId q ≠ id) bucket). lia.
    + intros p [Hp _]%filter_out_ids. by apply Hpl.
  - intros id'. pose proof (member_of_bucket t i bucket id' Hwf Hb) as Hmem.
    assert (id' ∈ ids (filter (λ q, nodeId q ≠ id) bucket) ↔ id' ∈ ids bucket ∧ id' ≠ id) as ->.
    { rewrite !elem_of_ids. setoid_rewrite filter_out_ids. naive_solver. }
    assert (Hms : id' ∈ (if negb (bool_decide (length (filter (λ q, nodeId q ≠ id) bucket) =
                length bucket)) then members t ∖ {[id]} else members t) ↔ id' ∈ members t ∧ id' ≠ id).
    { case_bool_decide as Hlen; cbn [negb]; [|by rewrite elem_of_difference, elem_of_singleton].
      split; [|tauto]. intros Hin. split; [done|]. intros ->.
      assert (id ∈ ids bucket) as (p & Hp & Hid)%elem_of_ids by (apply Hmem; done).
      pose proof (length_filter_lt (λ q, nodeId q ≠ id) bucket p Hp ltac:(tauto)). lia. }
    rewrite Hms. destruct (decide (bucketIndex (localNodeId t) id' = Z.of_nat i)); naive_solver.
Qed.

(** Node identifiers are distinct across the whole table. *)
Lemma NoDup_ids_join (place : string → Z) (bs : list (list peer)) (n : nat) :
  (∀ i b, bs !! i = Some b → NoDup (ids b) ∧ ∀ p, p ∈ b → place (nodeId p) = Z.of_nat (n + i)) →
  NoDup (ids (mjoin bs)).
Proof.
  revert n. induction bs as [|b bs IH]; intros n Hbs; [constructor|].
  cbn [mjoin list_join]. change (NoDup (nodeId <$> (b ++ mjoin bs))). rewrite fmap_app.
  destruct (Hbs 0 b eq_refl) as [Hd Hp]. apply NoDup_app. split_and!; [done| |].
  - intros id (p & -> & Hin)%list_elem_of_fmap (q & Heq & Hq)%list_elem_of_fmap.
    apply list_elem_of_join in Hq as (c & Hq & [i Hi]%list_elem_of_lookup).
    destruct (Hbs (S i) c Hi) as [_ Hpc]. specialize (Hpc q Hq). specialize (Hp p Hin).
    rewrite Heq in Hp. lia.
  - apply (IH (S n)). intros i c Hi. destruct (Hbs (S i) c Hi) as [Hdc Hpc].
    split; [done|]. intros p Hin. rewrite Hpc by done. lia.
Qed.

Lemma snapshot_distinct t : wf t → NoDup (ids (snapshot t)).
Proof.
  intros Hwf. apply (NoDup_ids_join (bucketIndex (localNodeId t)) _ 0).
  intros i b Hi. destruct (wf_bucket _ Hwf _ _ Hi) as [Hd _ Hpl].
  split; [done|]. intros p Hp. by apply Hpl.
Qed.

Lemma size_snapshot t : wf t → size t = Z.of_nat (length (snapshot t)).
Proof.
  intros Hwf. unfold size. f_equal.
  assert (members t = list_to_set (ids (snapshot t))) as ->.
  { apply set_eq. intros id. by rewrite elem_of_list_to_set, (wf_members _ Hwf). }
  rewrite size_list_to_set by by apply snapshot_distinct. unfold ids. apply length_fmap.
Qed.

(** ** Sequences of operations *)

Inductive op :=
| Upsert (clock : Z) (p : option peer)
| Remove (id : string)
| Restore (clock : Z) (ps : list (option peer)).

Definition run_op (o : op) : M table unit :=
  match o with
  | Upsert clock p => _ ← upsert (toISOString clock) p; mret tt
  | Remove id => _ ← remove id; mret tt
  | Restore clock ps => _ ← restore (toISOString clock) ps; mret tt
  end.


Lemma M_bind_mret {A S B} (m : M S A) (f : A → B) s :
  is_ok ((x ← m; mret (f x)) s).2 = is_ok (m s).2 ∧ ((x ← m; mret (f x)) s).1 = (m s).1.
Proof. unfold mbind, M_bind. by destruct (m s) as [s' []]. Qed.

Lemma upserts_wf now ps t :
  wf t → now ≠ "" →
  (for_each (λ p, _ ← upsert now p; mret tt) ps t).2 = Ok tt ∧
  wf (for_each (λ p, _ ← upsert now p; mret tt) ps t).1.
Proof.
  intros Hwf Hnow. revert t Hwf. induction ps as [|p ps IH]; intros t Hwf; [done|].
  destruct (upsert_wf now p t Hwf Hnow) as [Hok Hwf'].
  destruct (upsert now p t) as [t' [b|e]] eqn:Hu; [|done].
  rewrite (for_each_step _ _ _ _ t') by by rewrite (M_bind_step _ _ _ _ _ Hu).
  apply (IH t' Hwf').
Qed.

Lemma run_op_wf o t : wf t → is_ok (run_op o t).2 = true ∧ wf (run_op o t).1.
Proof.
  intros Hwf. destruct o as [clock p|id|clock ps]; cbn [run_op].
  - destruct (M_bind_mret (upsert (toISOString clock) p) (λ _, tt) t) as [-> ->].
    apply upsert_wf; auto using toISOString_nonempty.
  - destruct (M_bind_mret (remove id) (λ _, tt) t) as [-> ->]. by apply remove_wf.
  - destruct (M_bind_mret (restore (toISOString clock) ps) (λ _, tt) t) as [-> ->].
    unfold restore. destruct (upserts_wf (toISOString clock) ps t Hwf (toISOString_nonempty _)) as [Hr Hw].
    destruct (for_each _ ps t) as [t' r] eqn:Hf. cbn [fst snd] in *. subst r.
    by rewrite (M_bind_step _ _ _ _ _ Hf).
Qed.

Definition empty_table (local : string) (k : Z) : table :=
  Table local k (replicate (Z.to_nat KADEMLIA_ID_BITS) []) ∅.

Lemma empty_table_wf local n : (1 ≤ n)%Z → wf (empty_table local n).
Proof.
  intros Hn. unfold empty_table. constructor; cbn [buckets k members]; [apply length_replicate|done| |].
  - intros i b [-> _]%lookup_replicate. constructor; [constructor|cbn; lia|by intros p ?%elem_of_nil].
  - intros id. split; [set_solver|]. intros (p & Hp & _)%elem_of_ids.
    apply elem_of_snapshot in Hp as (i & b & [-> _]%lookup_replicate & []%elem_of_nil).
Qed.

Lemma new_table_wf local kv t : new_table local kv = Ok t → wf t.
Proof.
  unfold new_table. destruct (negb _); [done|]. destruct (is_integer kv) as [n|]; [|done].
  case_bool_decide; [done|]. intros <-%Ok_inj. apply empty_table_wf. lia.
Qed.

Lemma run_all_wf ops t :
  wf t → Forall (λ r, is_ok r = true) (run_all run_op ops t).2 ∧ wf (run_all run_op ops t).1.
Proof.
  revert t. induction ops as [|o ops IH]; intros t Hwf; [done|]. cbn [run_all].
  destruct (run_op_wf o t Hwf) as [Ho Hw]. destruct (run_op o t) as [t1 r]. cbn [fst snd] in *.
  destruct (IH t1 Hw) as [Hrs Hw']. destruct (run_all run_op ops t1) as [t2 rs]. cbn [fst snd] in *.
  split; [by constructor|done].
Qed.

(** C13: a table built by the constructor and driven by any sequence of
    upserts, removals and restores of untrusted peers never throws and keeps
    its invariant: 256 buckets, each within its capacity and holding distinct
    peers of exactly its distance class, never the local node, with the member
    set equal to the peers stored and [size()] their number. *)
Theorem routing_invariant local kv t ops :
  new_table local kv = Ok t →
  let t' := (run_all run_op ops t).1 in
  Forall (λ r, is_ok r = true) (run_all run_op ops t).2 ∧
  wf t' ∧ localNodeId t' ∉ members t' ∧
  NoDup (ids (snapshot t')) ∧ size t' = Z.of_nat (length (snapshot t')).
Proof.
  intros Hwf%new_table_wf t'. destruct (run_all_wf ops t Hwf) as [Hok Hwf'].
  split_and!; auto using wf_local_not_member, snapshot_distinct, size_snapshot.
Qed.

(** ** Nearest peers *)

Context {HC : Collation _}.

Definition distance_to (target : string) (p : peer) : Z :=
  Z.lxor (dhtKey (nodeId p)) (dhtKey target).

Lemma nearer_distance target a b :
  nearer (dhtKey target) a b = true → (distance_to target a ≤ distance_to target b)%Z.
Proof. unfold nearer, distance_to. repeat case_bool_decide; intros; try done; lia. Qed.

Lemma nearer_total key a b : nearer key a b = true ∨ nearer key b a = true.
Proof.
  unfold nearer. destruct (collate_total (nodeId a) (nodeId b));
    repeat case_bool_decide; auto; lia.
Qed.

Lemma nearer_trans key a b c :
  nearer key a b = true → nearer key b c = true → nearer key a c = true.
Proof.
  unfold nearer. pose proof (collate_trans (nodeId a) (nodeId b) (nodeId c)).
  repeat case_bool_decide; intros; try done; try lia; naive_solver.
Qed.

Lemma closest_take target count t :
  closest target count t =
  take (Z.to_nat (Z.max 0 count)) (sort_by (nearer (dhtKey target)) (snapshot t)).
Proof.
  unfold closest. case_bool_decide as H0; [by rewrite H0|].
  case_bool_decide as Hlt; [done|]. symmetry. apply take_ge. lia.
Qed.

(** C18: [closest] answers with the nearest peers of the whole table: as many
    as were asked for and are known, distinct, in order of XOR distance to the
    target, and no peer left out is nearer than one returned. *)
Theorem closest_nearest target count t :
  wf t →
  let answer := closest target count t in
  Z.of_nat (length answer) = Z.min (Z.max 0 count) (size t) ∧
  NoDup (ids answer) ∧
  StronglySorted (λ p q, distance_to target p ≤ distance_to target q)%Z answer ∧
  (∀ p q, p ∈ answer → q ∈ snapshot t → q ∉ answer →
     distance_to target p ≤ distance_to target q)%Z.
Proof.
  intros Hwf answer. unfold answer. rewrite closest_take.
  set (n := Z.to_nat (Z.max 0 count)). set (ranked := sort_by _ _).
  assert (Hperm : ranked ≡ₚ snapshot t) by apply sort_by_perm. split_and!.
  - rewrite length_take, size_snapshot, Hperm by done. lia.
  - unfold ids. rewrite fmap_take. eapply sublist_NoDup; [|apply sublist_take].
    rewrite Hperm. by apply snapshot_distinct.
  - assert (StronglySorted (λ a b, nearer (dhtKey target) a b = true) ranked) as Hs
      by (apply sort_by_sorted; [apply nearer_total|apply nearer_trans]).
    rewrite <- (take_drop n ranked) in Hs. apply StronglySorted_app_1_l in Hs.
    eapply StronglySorted_weaken; [|exact Hs]. apply nearer_distance.
  - intros p q Hp Hq Hn. apply nearer_distance.
    apply (sort_by_take_le _ (nearer_total _) (nearer_trans _) (snapshot t) n); [done|].
    assert (q ∈ ranked) as Hin by by rewrite Hperm.
    rewrite <- (take_drop n ranked) in Hin. apply elem_of_app in Hin as [?|?]; [done|done].
Qed.

(** ** Snapshot and restore *)

Definition slice (t : table) (ps : list peer) (i : nat) : list peer :=
  filter (λ p, bucketIndex (localNodeId t) (nodeId p) = Z.of_nat i) ps.

Lemma slice_join (place : string → Z) (bs : list (list peer)) (n i : nat) b :
  (∀ j c, bs !! j = Some c → ∀ p, p ∈ c → place (nodeId p) = Z.of_nat (n + j)) →
  bs !! i = Some b →
  filter (λ p, place (nodeId p) = Z.of_nat (n + i)) (mjoin bs) = b.
Proof.
  assert (Hnone : ∀ (c : list peer) m, (∀ p, p ∈ c → place (nodeId p) ≠ m) →
            filter (λ p, place (nodeId p) = m) c = []).
  { intros c m. induction c as [|p c IH]; intros Hc; [done|].
    rewrite filter_cons_False by (apply Hc; left). apply IH. intros q Hq. apply Hc. by right. }
  assert (Hall : ∀ (c : list peer) m, (∀ p, p ∈ c → place (nodeId p) = m) →
            filter (λ p, place (nodeId p) = m) c = c).
  { intros c m. induction c as [|p c IH]; intros Hc; [done|].
    rewrite filter_cons_True by (apply Hc; left). f_equal. apply IH. intros q Hq. apply Hc. by right. }
  revert n i. induction bs as [|c bs IH]; intros n i Hbs Hi; [done|].
  change (mjoin (c :: bs)) with (c ++ mjoin bs). rewrite filter_app. destruct i as [|i].
  - injection Hi as ->. rewrite (Hall b) by apply (Hbs 0 b eq_refl).
    rewrite Hnone; [by rewrite app_nil_r|].
    intros p (d & Hp & [j Hj]%list_elem_of_lookup)%list_elem_of_join.
    rewrite (Hbs (S j) d Hj p Hp). lia.
  - rewrite Hnone by (intros p Hp; rewrite (Hbs 0 c eq_refl p Hp); lia). cbn [app].
    etrans; [|apply (IH (S n) i); [intros j d Hj p Hp; rewrite (Hbs (S j) d Hj p Hp); lia|done]].
    apply list_filter_iff. intros p. by rewrite Nat.add_succ_r.
Qed.

Lemma slice_snapshot t i b : wf t → buckets t !! i = Some b → slice t (snapshot t) i = b.
Proof.
  intros Hwf Hi. apply (slice_join (bucketIndex (localNodeId t)) (buckets t) 0 i b); [|done].
  intros j c Hj p Hp. destruct (wf_bucket _ Hwf _ _ Hj) as [_ _ Hpl]. by apply Hpl.
Qed.

Lemma snapshot_peer t p :
  wf t → p ∈ snapshot t →
  nodeId p ≠ "" ∧ lastSeenAt p ≠ "" ∧ nodeId p ≠ localNodeId t ∧
  (0 ≤ bucketIndex (localNodeId t) (nodeId p))%Z.
Proof.
  intros Hwf Hp. pose proof Hp as Hin. apply elem_of_snapshot in Hin as (i & b & Hi & Hb).
  destruct (wf_bucket _ Hwf _ _ Hi) as [_ _ Hpl]. destruct (Hpl p Hb) as (? & ? & Hidx).
  split_and!; [done..| |lia]. intros Heq. apply (wf_local_not_member t Hwf).
  apply (wf_members _ Hwf), elem_of_ids. eauto.
Qed.

(** One more peer of a snapshot goes to the end of its slice. *)
Lemma restore_step t now ps p rest u :
  wf t → now ≠ "" → snapshot t = ps ++ p :: rest →
  wf u → localNodeId u = localNodeId t → k u = k t →
  (∀ i, i < 256 → buckets u !! i = Some (slice t ps i)) →
  let u' := (upsert now (Some p) u).1 in
  (upsert now (Some p) u).2 = Ok true ∧
  wf u' ∧ localNodeId u' = localNodeId t ∧ k u' = k t ∧
  (∀ i, i < 256 → buckets u' !! i = Some (slice t (ps ++ [p]) i)).
Proof.
  intros Hwf Hnow Hsplit Hwu Hl Hk Hsl u'.
  destruct (snapshot_peer t p Hwf) as (Hp & Hseen & Hloc & Hidx); [rewrite Hsplit; set_solver|].
  destruct (upsert_spec now p u) as (b & Hb & Hok & Hbs & Hl' & Hk' & Hwf'); try done;
    [by rewrite Hl|by rewrite Hl|]. fold u' in Hbs, Hl', Hk', Hwf'.
  rewrite Hl in Hb, Hbs. rewrite Hk in Hbs.
  set (i0 := Z.to_nat (bucketIndex (localNodeId t) (nodeId p))) in *.
  assert (Hi0 : i0 < 256) by (pose proof (bucketIndex_bound (localNodeId t) (nodeId p)); lia).
  assert (b = slice t ps i0) as -> by (rewrite Hsl in Hb; congruence).
  split_and!; [done|done|by rewrite Hl'|by rewrite Hk'|]. intros i Hi. rewrite Hbs.
  assert (Hkeep : filter (λ q, nodeId q ≠ nodeId p) (slice t ps i0) = slice t ps i0).
  { pose proof (snapshot_distinct t Hwf) as Hd. rewrite Hsplit in Hd.
    unfold ids in Hd. rewrite fmap_app in Hd. apply NoDup_app in Hd as (_ & Hd & _).
    assert (Hno : ∀ q, q ∈ slice t ps i0 → nodeId q ≠ nodeId p).
    { intros q [_ Hq]%list_elem_of_filter Heq. apply (Hd (nodeId q)).
      - apply list_elem_of_fmap. eauto.
      - rewrite Heq. left. }
    revert Hno. generalize (slice t ps i0). intros l. induction l as [|q l IH]; intros Hno; [done|].
    rewrite filter_cons_True by (apply Hno; left). f_equal. apply IH. intros r Hr. apply Hno. by right. }
  assert (Hroom : (Z.of_nat (S (length (slice t ps i0))) ≤ k t)%Z).
  { destruct (lookup_lt_is_Some_2 (buckets t) i0) as [c Hc]; [by rewrite (wf_count _ Hwf)|].
    pose proof (bucket_room _ _ _ (wf_bucket _ Hwf _ _ Hc)) as Hr.
    rewrite <- (slice_snapshot t i0 c Hwf Hc), Hsplit in Hr. unfold slice in Hr at 1.
    rewrite filter_app, length_app, filter_cons_True in Hr by lia. cbn [length] in Hr.
    fold (slice t ps i0) in Hr. lia. }
  rewrite Hkeep, bool_decide_eq_false_2 by lia.
  assert (stamped now p = p) as ->.
  { unfold stamped, nonempty_str. rewrite bool_decide_eq_false_2 by done. by destruct p. }
  unfold slice at 2. rewrite filter_app. destruct (decide (i = i0)) as [->|Hne].
  - rewrite list_lookup_insert_eq by (rewrite (wf_count _ Hwu); lia).
    by rewrite filter_cons_True by lia.
  - rewrite list_lookup_insert_ne, filter_cons_False by lia. cbn. rewrite app_nil_r. by apply Hsl.
Qed.

Lemma restore_prefix t now rest ps u :
  wf t → now ≠ "" → snapshot t = ps ++ rest →
  wf u → localNodeId u = localNodeId t → k u = k t →
  (∀ i, i < 256 → buckets u !! i = Some (slice t ps i)) →
  for_each (λ p, _ ← upsert now p; mret tt) (Some <$> rest) u = (t, Ok tt).
Proof.
  intros Hwf Hnow. revert ps u. induction rest as [|p rest IH]; intros ps u Hsplit Hwu Hl Hk Hsl.
  - rewrite app_nil_r in Hsplit. subst ps. cbn. f_equal.
    assert (Hb : buckets u = buckets t).
    { apply list_eq. intros i. destruct (decide (i < 256)) as [Hi|Hi].
      - rewrite Hsl by done. destruct (lookup_lt_is_Some_2 (buckets t) i) as [c Hc];
          [by rewrite (wf_count _ Hwf)|]. by rewrite Hc, (slice_snapshot t i c).
      - rewrite !lookup_ge_None_2; [done|rewrite (wf_count _ Hwf); lia|rewrite (wf_count _ Hwu); lia]. }
    assert (Hm : members u = members t).
    { apply set_eq. intros id. rewrite (wf_members _ Hwu), (wf_members _ Hwf).
      unfold snapshot. by rewrite Hb. }
    destruct u, t. cbn in *. by subst.
  - destruct (restore_step t now ps p rest u) as (Hr & Hwu' & Hl' & Hk' & Hsl'); try done.
    cbn [fmap list_fmap]. destruct (upsert now (Some p) u) as [u' r] eqn:Hu. cbn [fst snd] in *.
    subst r. rewrite (for_each_step _ _ _ _ u') by by rewrite (M_bind_step _ _ _ _ _ Hu).
    apply (IH (ps ++ [p])); try done. by rewrite <- app_assoc.
Qed.

(** Restoring the snapshot of a table into a new table of the same node
    and capacity gives the table back: the same peers in the same buckets in
    the same least-recently-seen order. *)
Theorem restore_snapshot t clock :
  wf t →
  restore (toISOString clock) (Some <$> snapshot t) (empty_table (localNodeId t) (k t)) =
  (t, Ok (size t)).
Proof.
  intros Hwf. unfold restore. erewrite M_bind_step; [reflexivity|].
  apply (restore_prefix t _ _ []); auto using toISOString_nonempty.
  - apply empty_table_wf, wf_k, Hwf.
  - intros i Hi. by apply lookup_replicate_2.
Qed.

End routing.

(** ** Concrete tables *)

Definition toy_peer (id : string) : option peer := Some (Peer id "" [("endpoints", JArr [])]).

Definition toy_ops : list op :=
  [Upsert 0 (toy_peer "n1"); Upsert 1000 (toy_peer "n2"); Upsert 2000 (toy_peer "n3");
   Upsert 3000 (toy_peer "local"); Remove "n2"; Upsert 4000 None; Upsert 5000 (toy_peer "n4")].

Definition toy_table : table := (run_all (run_op (H := Toy.host)) toy_ops (empty_table "local" 2)).1.

Lemma toy_table_wf : wf (H := Toy.host) toy_table.
Proof.
  apply (run_all_wf (H := Toy.host) toy_ops (empty_table "local" 2)).
  apply empty_table_wf. lia.
Qed.

Lemma routing_invariant_witness : size toy_table = Z.of_nat (length (snapshot toy_table)).
Proof.
  apply (routing_invariant (H := Toy.host) "local" (JNum (JInt 2))
           (empty_table "local" 2) toy_ops).
  reflexivity.
Defined.

Lemma closest_nearest_witness :
  NoDup (ids (closest (H := Toy.host) "target" 2 toy_table)).
Proof.
  apply (closest_nearest (H := Toy.host)
           "target" 2 toy_table toy_table_wf).
Defined.

Lemma restore_snapshot_witness :
  (restore (H := Toy.host) (toISOString 9000) (Some <$> snapshot toy_table) (empty_table "local" 2)).1 =
  toy_table.
Proof.
  exact (f_equal fst (restore_snapshot (H := Toy.host) toy_table 9000 toy_table_wf)).
Defined.

Example toy_table_size : size toy_table = 2%Z.
Proof. vm_compute. reflexivity. Qed.

End Routing.
