(* ===== verification/DhtRecords.v ===== *)
(** * Signed DHT records and their store

    Models [createDhtRecord], [verifyDhtRecord] with its memo of verified
    signatures, and [KademliaRecordStore] of network/dht/kademlia.js.  Records
    are untrusted values; inside [verifyDhtRecord] a refusal and a caught
    exception have the same effect, so both are thrown and the [catch] turns
    them into the reason. *)
From S2P Require Import Prelude JSMap JSValue Dates Host Protocol Kademlia.
Import Canonical Keys Ids.

Module Records.

Definition KADEMLIA_PROTOCOL : string := "truyn-kademlia-v1".
Definition VERIFIED_DHT_SIGNATURE_LIMIT : Z := 8192.

(** The memo [verifiedDhtSignatures]. *)
Notation memo := (jsmap string bool).

Section records.
Context `{Host} `{Coercions}.

Definition assertIdentity (identity : jval) : result unit :=
  _ ← throw_if (negb (truthy (oprop identity "nodeId")) ||
                negb (truthy (oprop identity "publicKeyPem")) ||
                negb (truthy (oprop identity "privateKeyPem")))
        (error "DHT publisher identity is required");
  nodeId ← nodeIdFromPublicKey (oprop identity "publicKeyPem");
  throw_if (negb (eq_str (oprop identity "nodeId") nodeId))
    (error "DHT publisher identity mismatch").

Definition key_text (namespace key : jval) : string := to_string namespace +:+ ":" +:+ to_string key.

Definition value_digest (value : jval) : result string :=
  text ← canonicalize value; Ok ("sha256:" +:+ sha256_hex text).

Definition record_id (body : jval) : result string :=
  text ← canonicalize body; Ok ("truyn:dht:" +:+ sha256_hex text).

Definition record_body (namespace key value nodeId : jval) (digest : string) (sequence issuedAt : jval)
    (expiresAt : string) : list (string * jval) :=
  [("protocol", JStr KADEMLIA_PROTOCOL); ("namespace", namespace); ("key", key);
   ("keyHash", JStr (dhtId (key_text namespace key))); ("value", value);
   ("valueDigest", JStr digest); ("publisherNodeId", nodeId); ("sequence", sequence);
   ("issuedAt", issuedAt); ("expiresAt", JStr expiresAt)].

(** [now] is the clock behind the default [issuedAt]. *)
Definition createDhtRecord (identity namespace key value sequence ttlMs issuedAt : jval) (now : Z)
    : result (list (string * jval)) :=
  let sequence := with_default sequence (JNum (JInt 1)) in
  let ttlMs := with_default ttlMs (JNum (JInt 300000)) in
  let issuedAt := with_default issuedAt (JStr (toISOString now)) in
  _ ← assertIdentity identity;
  _ ← throw_if (negb (truthy namespace) || negb (truthy key)) (error "DHT namespace and key are required");
  _ ← throw_if (no_primitive namespace || no_primitive key) cannot_convert;
  _ ← match is_integer sequence with
      | Some n => throw_if (bool_decide (n < 1)%Z) (error "DHT sequence must be >= 1")
      | None => Throw (error "DHT sequence must be >= 1")
      end;
  ttl ← match is_integer ttlMs with
        | Some n => if bool_decide (n < 1)%Z then Throw (error "DHT ttlMs must be >= 1") else Ok n
        | None => Throw (error "DHT ttlMs must be >= 1")
        end;
  expiresAt ← date_toISOString ((λ t, t + ttl)%Z <$> Date_parse (to_string issuedAt));
  digest ← value_digest value;
  let body := record_body namespace key value (oprop identity "nodeId") digest sequence issuedAt expiresAt in
  recordId ← record_id (JObj body);
  let signed := ("recordId", JStr recordId) :: body in
  signature ← signValue (JObj signed) (string_or_empty (oprop identity "privateKeyPem"));
  Ok (signed ++ [("publicKey", oprop identity "publicKeyPem"); ("signature", JStr signature)]).

(** [const { publicKey, signature, ...signed } = record; const { recordId, ...body } = signed] *)
Definition members_of (v : jval) : list (string * jval) := match v with JObj kvs => kvs | _ => [] end.
Definition signed_of (record : jval) : jval :=
  JObj (remove_key "signature" (remove_key "publicKey" (members_of record))).
Definition body_of (record : jval) : jval :=
  JObj (remove_key "recordId" (members_of (signed_of record))).

Definition newline : string := String (ascii_of_N 10) "".

Definition signature_key (record : jval) : string :=
  to_string (oprop record "recordId") +:+ newline +:+ to_string (oprop record "publicKey") +:+
  newline +:+ to_string (oprop record "signature").

(** The checks before the signature. *)
Definition check_record (record : jval) : result unit :=
  _ ← throw_if (negb (truthy (oprop record "recordId")) ||
                negb (eq_str (oprop record "protocol") KADEMLIA_PROTOCOL) ||
                negb (truthy (oprop record "publicKey")) || negb (truthy (oprop record "signature")))
        (error "dht_record_missing");
  nodeId ← nodeIdFromPublicKey (oprop record "publicKey");
  _ ← throw_if (negb (eq_str (oprop record "publisherNodeId") nodeId))
        (error "dht_publisher_key_mismatch");
  _ ← throw_if (no_primitive (oprop record "namespace") || no_primitive (oprop record "key")) cannot_convert;
  _ ← throw_if (negb (eq_str (oprop record "keyHash")
                        (dhtId (key_text (oprop record "namespace") (oprop record "key")))))
        (error "dht_key_hash_mismatch");
  valueDigest ← value_digest (oprop record "value");
  _ ← throw_if (negb (eq_str (oprop record "valueDigest") valueDigest))
        (error "dht_value_digest_mismatch");
  expectedId ← record_id (body_of record);
  throw_if (negb (eq_str (oprop record "recordId") expectedId)) (error "dht_record_id_mismatch").

Definition check_signature (record : jval) : M memo unit := λ verified,
  let signatureKey := signature_key record in
  if map_has signatureKey verified then (verified, Ok tt)
  else match verifyValue (signed_of record) (oprop record "signature") (oprop record "publicKey") with
       | Throw e => (verified, Throw e)
       | Ok false => (verified, Throw (error "dht_record_signature"))
       | Ok true => (Memo.remember VERIFIED_DHT_SIGNATURE_LIMIT verified signatureKey true, Ok tt)
       end.

(** The checks after it. *)
Definition check_time (record : jval) (now : Z) (allowExpired : bool) : result unit :=
  match Date_parse (to_string (oprop record "issuedAt")),
        Date_parse (to_string (oprop record "expiresAt")) with
  | Some issued, Some expires =>
      if bool_decide (expires ≤ issued)%Z then Throw (error "dht_record_time")
      else throw_if (negb allowExpired && bool_decide (expires ≤ now)%Z) (error "dht_record_expired")
  | _, _ => Throw (error "dht_record_time")
  end.

Definition verify_body (now : Z) (allowExpired : bool) (record : jval) : M memo unit :=
  _ ← lift_result (check_record record);
  _ ← check_signature record;
  lift_result (check_time record now allowExpired).

Definition verifyDhtRecord (now : Z) (allowExpired : bool) (record : jval) (verified : memo)
    : memo * verdict :=
  let '(verified, r) := verify_body now allowExpired record verified in
  (verified, match r with Ok _ => Accepted | Throw e => Rejected (e_message e) end).

(** ** The store *)

(** The records, the module's memo, and how often [onChange] was called. *)
Record store := Store { verified : memo; records : jsmap string jval; changes : nat }.

Definition new_store : store := Store [] [] 0.

Definition record_key (record : jval) : string :=
  to_string (oprop record "namespace") +:+ ":" +:+ to_string (oprop record "key") +:+ ":" +:+
  to_string (oprop record "publisherNodeId").

Definition verify (now : Z) (allowExpired : bool) (record : jval) : M store verdict := λ s,
  let '(m, v) := verifyDhtRecord now allowExpired record (verified s) in (Store m (records s) (changes s), Ok v).

(** [existing && existing.sequence > record.sequence] *)
Definition older (existing : option jval) (record : jval) : result bool :=
  match existing with Some e => js_gt (oprop e "sequence") (oprop record "sequence") | None => Ok false end.

Definition put (now : Z) (allowExpired notify : bool) (record : jval) : M store verdict :=
  v ← verify now allowExpired record;
  match v with
  | Rejected reason => mret (Rejected reason)
  | Accepted =>
      s ← get_state;
      let key := record_key record in
      let existing := map_get key (records s) in
      is_older ← lift_result (older existing record);
      if (is_older : bool) then mret (Rejected "dht_older_sequence")
      else if match existing with
              | Some e => strict_eq (oprop e "sequence") (oprop record "sequence") &&
                          negb (strict_eq (oprop e "recordId") (oprop record "recordId"))
              | None => false
              end then mret (Rejected "dht_equivocation")
      else
        _ ← modify (λ s, Store (verified s) (map_set key record (records s)) (changes s + if notify then 1 else 0));
        mret Accepted
  end.

(** [[...values].filter((record) => verifyDhtRecord(record, { now }).ok)] *)
Fixpoint verified_only (now : Z) (l : list jval) (m : memo) : memo * list jval :=
  match l with
  | [] => (m, [])
  | r :: l =>
      let '(m, v) := verifyDhtRecord now false r m in
      let '(m, rs) := verified_only now l m in
      (m, if accepted v then r :: rs else rs)
  end.

Definition snapshot (now : Z) (s : store) : store * list jval :=
  let '(m, rs) := verified_only now (map_values (records s)) (verified s) in
  (Store m (records s) (changes s), rs).

(** [b.sequence - a.sequence || a.publisherNodeId.localeCompare(b.publisherNodeId)] at most zero *)
Definition fresher (a b : jval) : bool :=
  match js_minus_sign (oprop b "sequence") (oprop a "sequence") with
  | Some Lt => true
  | Some Gt => false
  | _ => bool_decide (localeCompare (to_string (oprop a "publisherNodeId"))
                        (to_string (oprop b "publisherNodeId")) ≤ 0)%Z
  end.

Definition get (namespace key : jval) (now : Z) : M store (list jval) := λ s,
  let matching := List.filter (λ r, strict_eq (oprop r "namespace") namespace &&
                                    strict_eq (oprop r "key") key) (map_values (records s)) in
  let '(m, rs) := verified_only now matching (verified s) in
  (Store m (records s) (changes s),
   if sort_throws (λ r, oprop r "sequence") rs then Throw cannot_convert else Ok (sort_by fresher rs)).

Fixpoint restore (now : Z) (allowExpired : bool) (l : list jval) : M store nat :=
  match l with
  | [] => mret 0
  | r :: l =>
      v ← put now allowExpired false r;
      n ← restore now allowExpired l;
      mret (if accepted v then S n else n)
  end.

(** The loop of [sweep] over the entries it started with. *)
Fixpoint sweep_entries (now : Z) (es : list (string * jval)) (s : store) : store * nat :=
  match es with
  | [] => (s, 0)
  | (key, r) :: es =>
      let '(m, v) := verifyDhtRecord now false r (verified s) in
      let s := Store m (if accepted v then records s else map_delete key (records s)) (changes s) in
      let '(s, n) := sweep_entries now es s in
      (s, if accepted v then n else S n)
  end.

Definition sweep (now : Z) (notify : bool) (s : store) : store * nat :=
  let '(s, removed) := sweep_entries now (records s) s in
  (Store (verified s) (records s)
     (changes s + if notify && negb (bool_decide (removed = 0)) then 1 else 0), removed).

(** ** What an accepted record guarantees *)

(** The record names its content and its publisher truthfully. *)
Definition well_named (r : jval) : Prop :=
  ∃ fp id text,
    nodeIdFromPublicKey (oprop r "publicKey") = Ok ("truyn:node:" +:+ fp) ∧
    (∃ der, fp = sha256_hex der) ∧
    oprop r "publisherNodeId" = JStr ("truyn:node:" +:+ fp) ∧
    canonicalize (body_of r) = Ok text ∧ id = sha256_hex text ∧
    oprop r "recordId" = JStr ("truyn:dht:" +:+ id).

Definition signed_by_publisher (r : jval) : Prop :=
  well_named r ∧
  verifyValue (signed_of r) (oprop r "signature") (oprop r "publicKey") = Ok true.

Lemma check_record_well_named r : check_record r = Ok tt → well_named r.
Proof.
  unfold check_record. intros Hr.
  apply bind_Ok_inv in Hr as ([] & _ & Hr). apply bind_Ok_inv in Hr as (nodeId & Hn & Hr).
  apply bind_Ok_inv in Hr as ([] & Hp & Hr). apply bind_Ok_inv in Hr as ([] & _ & Hr).
  apply bind_Ok_inv in Hr as ([] & _ & Hr). apply bind_Ok_inv in Hr as (vd & _ & Hr). apply bind_Ok_inv in Hr as ([] & _ & Hr).
  apply bind_Ok_inv in Hr as (id & Hid & Hr).
  rewrite throw_if_Ok, negb_false_iff in Hp, Hr. apply eq_str_true in Hp, Hr.
  pose proof Hn as Hfp. unfold nodeIdFromPublicKey, publicKeyFingerprint in Hfp.
  apply bind_Ok_inv in Hfp as (fp & Hfp & Heq%Ok_inj). subst nodeId.
  apply bind_Ok_inv in Hfp as ([kind der] & _ & Hder).
  case_bool_decide; [done|]. apply Ok_inj in Hder.
  unfold record_id in Hid. apply bind_Ok_inv in Hid as (text & Ht & Heq%Ok_inj). subst id.
  exists fp, (sha256_hex text), text. eauto 10.
Qed.

Definition memo_sound (seen : list jval) (m : memo) : Prop :=
  map_wf m ∧
  ∀ key, map_has key m = true →
    ∃ r, r ∈ seen ∧ signature_key r = key ∧ signed_by_publisher r.

Lemma memo_sound_weaken seen seen' m :
  (∀ r, r ∈ seen → r ∈ seen') → memo_sound seen m → memo_sound seen' m.
Proof. intros Hs [Hw Hm]. split; [done|]. intros key Hk. destruct (Hm key Hk) as (r & ? & ?). eauto. Qed.

Lemma remember_sound seen m r :
  memo_sound seen m → signed_by_publisher r →
  memo_sound (r :: seen) (Memo.remember VERIFIED_DHT_SIGNATURE_LIMIT m (signature_key r) true).
Proof.
  intros [Hw Hm] Hr. split; [by apply Memo.remember_wf|]. intros key. unfold Memo.remember.
  rewrite map_has_true, map_keys_set.
  set (m' := if bool_decide _ then _ else m).
  assert (Hsub : ∀ k, k ∈ map_keys m' → k ∈ map_keys m).
  { subst m'. case_bool_decide; [|done]. destruct m as [|e m]; [done|]. intros k Hk. by right. }
  intros Hin. assert (key ∈ map_keys m ∨ key = signature_key r) as [Hk| ->].
  { case_decide; [auto|]. apply elem_of_app in Hin as [?|?%list_elem_of_singleton]; auto. }
  - destruct (Hm key) as (r' & ? & ?); [by apply map_has_true|]. exists r'. split; [by right|done].
  - exists r. split; [left|done].
Qed.

Context {HS : HashShape _}.

(** Records with the same memo key have the same identifier, hence the same
    canonical content. *)
Lemma signature_key_content r r' (texts : string → Prop) :
  well_named r → well_named r' → signature_key r = signature_key r' →
  collision_free texts →
  (∀ t, canonicalize (body_of r) = Ok t → texts t) →
  (∀ t, canonicalize (body_of r') = Ok t → texts t) →
  canonicalize (body_of r') = canonicalize (body_of r).
Proof.
  intros (_ & id & t & _ & _ & _ & Ht & Hid & Hr) (_ & id' & t' & _ & _ & _ & Ht' & Hid' & Hr').
  unfold signature_key. rewrite Hr, Hr'. cbn [to_string]. intros Heq Hcf H1 H2.
  apply string_app_inj in Heq as [Heq _].
  - apply string_app_inj_l in Heq. rewrite Ht, Ht'. f_equal. symmetry. apply Hcf; [auto..|congruence].
  - rewrite !string_app_length. subst. by rewrite !sha256_length.
Qed.

Definition call : Type := Z * bool * jval.
Definition verify_call (c : call) : M memo unit := let '(now, allowExpired, r) := c in verify_body now allowExpired r.

Definition body_texts (calls : list call) (t : string) : Prop :=
  ∃ c, c ∈ calls ∧ canonicalize (body_of c.2) = Ok t.

(** One verification: accepted content was signed, the memo stays sound. *)
Lemma verify_step c seen m (texts : string → Prop) :
  collision_free texts →
  (∀ r t, r ∈ c.2 :: seen → canonicalize (body_of r) = Ok t → texts t) →
  memo_sound seen m →
  memo_sound (c.2 :: seen) (verify_call c m).1 ∧
  ((verify_call c m).2 = Ok tt →
   ∃ r, r ∈ c.2 :: seen ∧ signed_by_publisher r ∧
        canonicalize (body_of r) = canonicalize (body_of c.2)).
Proof.
  destruct c as [[now ae] r]. cbn [verify_call snd]. intros Hcf Ht Hm.
  assert (Hweak : memo_sound (r :: seen) m) by (eapply memo_sound_weaken; [|done]; by right).
  unfold verify_body, check_signature, lift_result, mbind, M_bind.
  destruct (check_record r) as [[]|e] eqn:Hc; [|done].
  pose proof (check_record_well_named r Hc) as Hn.
  destruct (map_has (signature_key r) m) eqn:Hk.
  - destruct Hm as [Hw Hm]. destruct (Hm _ Hk) as (r' & Hin & Heq & Hs).
    split; [done|]. intros _. exists r'. split; [by right|]. split; [done|].
    apply (signature_key_content r r' texts); try done; [by apply Hs| |].
    + intros t. apply Ht. left.
    + intros t. apply Ht. by right.
  - destruct (verifyValue _ _ _) as [[]|e] eqn:Hv; [|done..].
    assert (signed_by_publisher r) as Hs by done.
    split; [by apply remember_sound|]. intros _. exists r. split; [left|done].
Qed.

(** C37: the memo of verified signatures never vouches for content nobody
    signed.  Along any sequence of verifications, with memo hits and evictions,
    every accepted record has the canonical content of a record of the sequence
    whose Ed25519 signature was checked under the key its publisher identifier
    names, provided SHA-256 does not collide on the contents involved. *)
Theorem signature_memo_sound calls now allowExpired r i :
  collision_free (body_texts calls) →
  calls !! i = Some (now, allowExpired, r) →
  (run_all verify_call calls []).2 !! i = Some (Ok tt) →
  ∃ c, c ∈ calls ∧ signed_by_publisher c.2 ∧
       canonicalize (body_of c.2) = canonicalize (body_of r).
Proof.
  intros Hcf. assert (Hall : ∀ rest m seen i c,
    (∀ c, c ∈ rest → c ∈ calls) → (∀ r, r ∈ seen → ∃ c, c ∈ calls ∧ c.2 = r) →
    memo_sound seen m → rest !! i = Some c → (run_all verify_call rest m).2 !! i = Some (Ok tt) →
    ∃ c', c' ∈ calls ∧ signed_by_publisher c'.2 ∧
          canonicalize (body_of c'.2) = canonicalize (body_of c.2)).
  { induction rest as [|c0 rest IH]; intros m seen j c Hrest Hseen Hm Hj Hok; [done|].
    cbn [run_all] in Hok.
    assert (Hseen' : ∀ r, r ∈ c0.2 :: seen → ∃ c, c ∈ calls ∧ c.2 = r).
    { intros r0 [->|Hr]%elem_of_cons; [exists c0; split; [apply Hrest; left|done]|auto]. }
    destruct (verify_step c0 seen m (body_texts calls) Hcf) as [Hm' Hacc]; [|done|].
    { intros r0 t Hr Ht. destruct (Hseen' r0 Hr) as (c1 & Hc1 & <-). by exists c1. }
    destruct (verify_call c0 m) as [m' res] eqn:Hv. cbn [fst snd] in *.
    destruct (run_all verify_call rest m') as [m'' ress] eqn:Hr. cbn [fst snd] in *.
    destruct j as [|j].
    - injection Hj as ->. injection Hok as ->. destruct (Hacc eq_refl) as (r0 & Hr0 & Hs & Heq).
      destruct (Hseen' r0 Hr0) as (c1 & ? & <-). eauto.
    - apply (IH m' (c0.2 :: seen) j c); try done.
      + intros c1 Hc1. apply Hrest. by right.
      + by rewrite Hr. }
  intros Hi Hok. destruct (Hall calls [] [] i (now, allowExpired, r)) as (c & ?); try done; [| |eauto].
  - by intros r0 ?%elem_of_nil.
  - split; [apply map_wf_nil|]. intros key Hk%map_has_true. by apply elem_of_nil in Hk.
Qed.

(** ** The store *)

Lemma verifyDhtRecord_accepted now ae r m : (verifyDhtRecord now ae r m).2 = Accepted → well_named r.
Proof.
  unfold verifyDhtRecord, verify_body, lift_result, mbind, M_bind.
  destruct (check_record r) as [[]|e] eqn:Hc; [|done]. intros _. by apply check_record_well_named.
Qed.

(** Every stored record is well named and sits at its own key. *)
Record store_ok (s : store) : Prop := {
  store_keys : map_wf (records s);
  store_entries : ∀ k r, map_get k (records s) = Some r → record_key r = k ∧ well_named r
}.

Lemma put_cases now ae nt r s :
  ((put now ae nt r s).2 ≠ Ok Accepted ∧ records (put now ae nt r s).1 = records s) ∨
  ((put now ae nt r s).2 = Ok Accepted ∧ well_named r ∧
   records (put now ae nt r s).1 = map_set (record_key r) r (records s) ∧
   ∀ old, map_get (record_key r) (records s) = Some old →
     js_gt (oprop old "sequence") (oprop r "sequence") = Ok false ∧
     (strict_eq (oprop old "sequence") (oprop r "sequence") = true →
      strict_eq (oprop old "recordId") (oprop r "recordId") = true)).
Proof.
  unfold put, verify, mbind, M_bind, get_state, lift_result.
  destruct (verifyDhtRecord now ae r (verified s)) as [m v] eqn:Hv.
  destruct v as [|reason]; [|left; split; [by intros [=]|done]].
  assert (Hn : well_named r) by (apply (verifyDhtRecord_accepted now ae r (verified s)); by rewrite Hv).
  cbn [records].
  destruct (map_get (record_key r) (records s)) as [old|] eqn:Hold; [|by right]. unfold older.
  destruct (js_gt _ _) as [[]|e] eqn:Hgt; [left; split; [by intros [=]|done]| |left; split; [by intros [=]|done]].
  destruct (_ && negb _) eqn:Heq; [left; split; [by intros [=]|done]|].
  right. split_and!; try done. intros old' [= <-]. split; [done|].
  intros Hs. rewrite Hs in Heq. by destruct (strict_eq (oprop old "recordId") _).
Qed.

Lemma put_ok now ae nt r s : store_ok s → store_ok (put now ae nt r s).1.
Proof.
  intros [Hw He]. destruct (put_cases now ae nt r s) as [(_ & Hr)|(_ & Hn & Hr & _)].
  - constructor; by rewrite Hr.
  - constructor; rewrite Hr; [by apply map_wf_set|]. intros k r'. rewrite map_get_set.
    case_decide as Hk; [|apply He]. intros [= <-]. by subst.
Qed.

Lemma same_key_publisher r r' :
  well_named r → well_named r' → record_key r = record_key r' →
  oprop r "publisherNodeId" = oprop r' "publisherNodeId".
Proof.
  intros (fp & _ & _ & _ & [der ->] & Hp & _) (fp' & _ & _ & _ & [der' ->] & Hp' & _).
  unfold record_key. rewrite Hp, Hp'. cbn [to_string]. rewrite <- !string_app_assoc.
  intros Heq. apply string_app_inj_suffix in Heq as [_ Heq]; [by rewrite Heq|].
  by rewrite !sha256_length.
Qed.

Lemma js_gt_int a b :
  js_gt (JNum (JInt a)) (JNum (JInt b)) = Ok false → (a ≤ b)%Z.
Proof. cbn. destruct (Z.compare_spec b a); cbn; intros; try done; lia. Qed.

(** A [put] can only advance the store.  Whatever record arrives, no stored
    record disappears; a record that is replaced is replaced by one of the same
    publisher, whose integer sequence number is not smaller and, when equal,
    whose identifier is the same; and a refused record changes nothing. *)
Theorem put_advances now ae nt r s k old :
  store_ok s → map_get k (records s) = Some old →
  ∃ new, map_get k (records (put now ae nt r s).1) = Some new ∧
    (new = old ∨
     (new = r ∧ (put now ae nt r s).2 = Ok Accepted ∧
      oprop new "publisherNodeId" = oprop old "publisherNodeId" ∧
      ∀ a b, oprop old "sequence" = JNum (JInt a) → oprop new "sequence" = JNum (JInt b) →
        (a ≤ b)%Z ∧ (a = b → oprop new "recordId" = oprop old "recordId"))) ∧
    ((put now ae nt r s).2 ≠ Ok Accepted → records (put now ae nt r s).1 = records s).
Proof.
  intros [Hw He] Hk. destruct (He k old Hk) as [Hkey Hold].
  destruct (put_cases now ae nt r s) as [(Hv & Hr)|(Hv & Hn & Hr & Hseq)]; rewrite Hr.
  - exists old. split_and!; [done|by left|done].
  - rewrite map_get_set, Hv. destruct (decide (k = record_key r)) as [->|Hne];
      [|exists old; split_and!; [done|by left|done]].
    exists r. split; [done|]. split; [|by intros []]. right. destruct (Hseq old Hk) as [Hgt Heq].
    split_and!; try done; [symmetry; by apply same_key_publisher|].
    intros a b Ha Hb. rewrite Ha, Hb in *. apply js_gt_int in Hgt. split; [done|]. intros ->.
    destruct Hold as (_ & id & _ & _ & _ & _ & _ & _ & Hid), Hn as (_ & id' & _ & _ & _ & _ & _ & _ & Hid').
    rewrite Hid, Hid' in *. cbn [strict_eq] in Heq.
    assert (Hb' : bool_decide (JInt b = JInt b) = true) by by apply bool_decide_eq_true.
    apply Heq in Hb'. bool_hyps. by f_equal.
Qed.

(** Two names of one publisher share a slot when a colon moves between the
    namespace and the key. *)
Definition colon_record (namespace key : string) : jval :=
  JObj [("namespace", JStr namespace); ("key", JStr key); ("publisherNodeId", JStr "truyn:node:p")].

Lemma record_key_ambiguous :
  record_key (colon_record "a" "b:c") = record_key (colon_record "a:b" "c") ∧
  colon_record "a" "b:c" ≠ colon_record "a:b" "c".
Proof. split; [reflexivity|done]. Qed.

(** ** Publication *)

Lemma createDhtRecord_inv identity ns key value sq ttlMs issuedAt now kvs :
  createDhtRecord identity ns key value sq ttlMs issuedAt now = Ok kvs →
  ∃ ttl issued expiresAt digest id sig,
    let sequence := with_default sq (JNum (JInt 1)) in
    let issuedAt := with_default issuedAt (JStr (toISOString now)) in
    let body := record_body ns key value (oprop identity "nodeId") digest sequence issuedAt expiresAt in
    nodeIdFromPublicKey (oprop identity "publicKeyPem") = Ok (string_or_empty (oprop identity "nodeId")) ∧
    oprop identity "nodeId" = JStr (string_or_empty (oprop identity "nodeId")) ∧
    truthy (oprop identity "publicKeyPem") = true ∧
    no_primitive ns || no_primitive key = false ∧
    (1 ≤ ttl)%Z ∧ Date_parse (to_string issuedAt) = Some issued ∧
    expiresAt = toISOString (issued + ttl) ∧
    value_digest value = Ok digest ∧ record_id (JObj body) = Ok id ∧
    signValue (JObj (("recordId", JStr id) :: body)) (string_or_empty (oprop identity "privateKeyPem")) = Ok sig ∧
    with_default ttlMs (JNum (JInt 300000)) = JNum (JInt ttl) ∧
    kvs = (("recordId", JStr id) :: body) ++
          [("publicKey", oprop identity "publicKeyPem"); ("signature", JStr sig)].
Proof.
  unfold createDhtRecord. intros Hc.
  apply bind_Ok_inv in Hc as ([] & Hid & Hc). unfold assertIdentity in Hid.
  apply bind_Ok_inv in Hid as ([] & Ht & Hid). rewrite throw_if_Ok in Ht. bool_hyps.
  apply bind_Ok_inv in Hid as (nodeId & Hn & Hid). rewrite throw_if_Ok, negb_false_iff in Hid.
  apply eq_str_true in Hid.
  apply bind_Ok_inv in Hc as ([] & _ & Hc). apply bind_Ok_inv in Hc as ([] & Hnp%throw_if_Ok & Hc).
  apply bind_Ok_inv in Hc as ([] & _ & Hc). apply bind_Ok_inv in Hc as (ttl & Httl & Hc).
  destruct (with_default ttlMs _) as [| | | |[n| | |]| | |] eqn:Hwd; cbn [is_integer] in Httl; try done.
  case_bool_decide; [done|]. apply Ok_inj in Httl as ->.
  apply bind_Ok_inv in Hc as (expiresAt & He & Hc). unfold date_toISOString in He.
  destruct (Date_parse _) as [issued|] eqn:Hp; [|done]. cbn [fmap option_fmap option_map] in He.
  case_bool_decide; [|done]. apply Ok_inj in He.
  apply bind_Ok_inv in Hc as (digest & Hd & Hc). apply bind_Ok_inv in Hc as (id & Hi & Hc).
  apply bind_Ok_inv in Hc as (sig & Hs & Hc%Ok_inj).
  exists ttl, issued, expiresAt, digest, id, sig. cbv zeta. rewrite Hid. cbn [string_or_empty].
  rewrite Hid in Hi, Hs, Hc. split_and!; try done. lia.
Qed.

Lemma check_created ns key value nodeId digest sequence issuedAt expiresAt id pub sig :
  let body := record_body ns key value (JStr nodeId) digest sequence issuedAt expiresAt in
  let r := JObj ((("recordId", JStr id) :: body) ++ [("publicKey", JStr pub); ("signature", JStr sig)]) in
  id ≠ "" → pub ≠ "" → sig ≠ "" → no_primitive ns || no_primitive key = false →
  nodeIdFromPublicKey (JStr pub) = Ok nodeId → value_digest value = Ok digest →
  record_id (JObj body) = Ok id →
  check_record r = Ok tt ∧ signed_of r = JObj (("recordId", JStr id) :: body) ∧
  oprop r "signature" = JStr sig ∧ oprop r "publicKey" = JStr pub ∧
  oprop r "issuedAt" = issuedAt ∧ oprop r "expiresAt" = JStr expiresAt.
Proof.
  intros body r Hid Hpub Hsig Hnp Hn Hd Hi.
  assert (Hb : body_of r = JObj body) by reflexivity.
  assert (Hs : signed_of r = JObj (("recordId", JStr id) :: body)) by reflexivity.
  split; [|by auto]. unfold check_record. rewrite Hb.
  change (oprop r "recordId") with (JStr id). change (oprop r "protocol") with (JStr KADEMLIA_PROTOCOL).
  change (oprop r "publicKey") with (JStr pub). change (oprop r "signature") with (JStr sig).
  change (oprop r "namespace") with ns. change (oprop r "key") with key.
  change (oprop r "value") with value. change (oprop r "publisherNodeId") with (JStr nodeId).
  change (oprop r "keyHash") with (JStr (dhtId (key_text ns key))).
  change (oprop r "valueDigest") with (JStr digest).
  assert (Heq : ∀ x, eq_str (JStr x) x = true) by (intros x; unfold eq_str; cbn; by apply bool_decide_eq_true).
  cbn [truthy]. rewrite !(proj2 (nonempty_str_true _)) by done. rewrite Heq. cbn [negb orb throw_if].
  unfold mbind, result_bind. rewrite Hn, Heq. cbn [negb throw_if]. rewrite Hnp. cbn [throw_if].
  rewrite Heq. cbn [negb throw_if]. rewrite Hd, Heq. cbn [negb throw_if]. by rewrite Hi, Heq.
Qed.

(** A record built by [createDhtRecord] with a key pair is accepted by
    [verifyDhtRecord] until it expires, whatever the memo holds. *)
Theorem createDhtRecord_verifies pub priv (HK : KeyPair _ pub priv) (HL : Base64Laws _)
    identity ns key value sequence ttl issuedAt issued now kvs clock m :
  oprop identity "publicKeyPem" = JStr pub → oprop identity "privateKeyPem" = JStr priv →
  createDhtRecord identity ns key value sequence (JNum (JInt ttl)) issuedAt now = Ok kvs →
  Date_parse (to_string (with_default issuedAt (JStr (toISOString now)))) = Some issued →
  representable (issued + ttl) → (clock < issued + ttl)%Z →
  (verifyDhtRecord clock false (JObj kvs) m).2 = Accepted.
Proof.
  intros Hpub Hpriv Hc Hp Hrep Hclock.
  apply createDhtRecord_inv in Hc as (ttl' & issued' & expiresAt & digest & id & sig & Hn & Hnid &
    Htr & Hnp & Hpos & Hp' & -> & Hd & Hi & Hs & [= <-] & ->).
  rewrite Hp' in Hp. injection Hp as ->. rewrite Hpub in *. rewrite Hpriv in Hs. cbn [string_or_empty] in Hs.
  set (nodeId := string_or_empty (oprop identity "nodeId")) in *. rewrite Hnid in *.
  assert (id ≠ "" ∧ sig ≠ "") as [Hid Hsig].
  { split; intros ->.
    - unfold record_id in Hi. apply bind_Ok_inv in Hi as (t & _ & Hi%Ok_inj). done.
    - unfold signValue in Hs. apply bind_Ok_inv in Hs as (t & _ & Hs).
      apply bind_Ok_inv in Hs as (b & Hb & Hs%Ok_inj).
      destruct (keypair_signs (pub := pub) (priv := priv) t) as (b' & Hb' & Hl & _).
      rewrite Hb in Hb'. apply Ok_inj in Hb' as <-.
      by apply (base64_nonblank b Hl); rewrite Hs. }
  assert (Hpub' : pub ≠ "") by (intros ->; done).
  destruct (check_created ns key value nodeId digest (with_default sequence (JNum (JInt 1)))
    (with_default issuedAt (JStr (toISOString now))) (toISOString (issued + ttl)) id pub sig)
    as (Hcheck & Hsigned & Hsg & Hpk & His & Hex); try done.
  set (r := JObj (_ ++ _)) in *. unfold verifyDhtRecord, verify_body, lift_result, mbind, M_bind.
  rewrite Hcheck. unfold check_signature. rewrite Hsigned, Hsg, Hpk.
  rewrite (verifyValue_signValue pub priv _ sig HK HL Hs).
  assert (check_time r clock false = Ok tt) as Htime.
  { unfold check_time. rewrite His, Hex, Hp'. cbn [to_string]. rewrite Date_parse_toISOString by done.
    rewrite bool_decide_eq_false_2 by lia. by rewrite bool_decide_eq_false_2 by lia. }
  destruct (map_has _ m); by rewrite Htime.
Qed.

End records.

(** ** A concrete publisher *)

#[local] Existing Instance toy_coercions.

Definition toy_identity : jval :=
  JObj [("nodeId", JStr (match nodeIdFromPublicKey (H := Toy.host) (JStr "pem") with Ok s => s | Throw _ => "" end));
        ("publicKeyPem", JStr "pem"); ("privateKeyPem", JStr "priv")].

Definition toy_record (n : Z) : list (string * jval) :=
  match createDhtRecord (H := Toy.host) toy_identity (JStr "ns") (JStr "k") (JObj [("v", JNum (JInt n))])
          (JNum (JInt n)) (JNum (JInt 1000)) (JStr "2026-10-13T12:30:00.000Z") 0 with
  | Ok kvs => kvs
  | Throw _ => []
  end.

Definition toy_clock : Z := 1791894600500.

Lemma createDhtRecord_verifies_witness :
  (verifyDhtRecord (H := Toy.host) toy_clock false (JObj (toy_record 1)) []).2 = Accepted.
Proof.
  apply (createDhtRecord_verifies (H := Toy.host) "pem" "priv" _ _ toy_identity (JStr "ns") (JStr "k")
           (JObj [("v", JNum (JInt 1))]) (JNum (JInt 1)) 1000 (JStr "2026-10-13T12:30:00.000Z")
           1791894600000 0).
  - reflexivity.
  - reflexivity.
  - vm_compute. reflexivity.
  - vm_compute. reflexivity.
  - exists 2026%Z, 10%Z, 13%Z. split; [vm_compute; reflexivity|lia].
  - unfold toy_clock. lia.
Defined.

Definition toy_calls : list call :=
  [(toy_clock, false, JObj (toy_record 1)); (toy_clock, false, JObj (toy_record 1))].

Lemma signature_memo_sound_witness :
  ∃ c, c ∈ toy_calls ∧ signed_by_publisher (H := Toy.host) c.2 ∧
       canonicalize (body_of c.2) = canonicalize (body_of (JObj (toy_record 1))).
Proof.
  apply (signature_memo_sound (H := Toy.host) toy_calls toy_clock false (JObj (toy_record 1)) 1).
  - intros a b (c & [->|[->| []%elem_of_nil]%elem_of_cons]%elem_of_cons & Ha)
      (c' & [->|[->| []%elem_of_nil]%elem_of_cons]%elem_of_cons & Hb) _; congruence.
  - reflexivity.
  - vm_compute. reflexivity.
Defined.

Definition toy_store : store :=
  (put (H := Toy.host) toy_clock false true (JObj (toy_record 1)) new_store).1.

Lemma toy_store_ok : store_ok (H := Toy.host) toy_store.
Proof.
  apply put_ok. constructor; [apply map_wf_nil|]. by intros k r [=].
Qed.

Lemma put_advances_witness :
  ∃ new, map_get (record_key (JObj (toy_record 1)))
      (records (put (H := Toy.host) toy_clock false true (JObj (toy_record 2)) toy_store).1) = Some new ∧
    (new = JObj (toy_record 1) ∨ new = JObj (toy_record 2)).
Proof.
  destruct (put_advances (H := Toy.host) toy_clock false true (JObj (toy_record 2)) toy_store
              (record_key (JObj (toy_record 1))) (JObj (toy_record 1)) toy_store_ok)
    as (new & Hn & [->|[-> _]] & _).
  - vm_compute. reflexivity.
  - eexists. split; [exact Hn|by left].
  - eexists. split; [exact Hn|by right].
Defined.

Example toy_replay_rejected :
  (restore (H := Toy.host) toy_clock false (JObj <$> [toy_record 1; toy_record 2; toy_record 1]) new_store).2 = Ok 2.
Proof. vm_compute. reflexivity. Qed.

Example toy_expiry_swept :
  (sweep (H := Toy.host) (toy_clock + 1000) true toy_store).2 = 1.
Proof. vm_compute. reflexivity. Qed.

End Records.
