(* ===== verification/Admission.v ===== *)
(** * Admission control

    [Queue] models network/admission/bounded-queue.js as a transition system
    whose steps are the stretches of [run] between two awaits: the
    interleavings of the steps are the interleavings the event loop allows.
    [Replay] models network/admission/need-replay.js, with the lifecycle ledger
    behind an interface.  [Faults] models network/faults/controller.js. *)
From S2P Require Import Prelude JSMap JSValue Host Protocol Negotiation.

(** ** The bounded admission queue *)

Module Queue.

(** A call of [run] is named by a number.  [woken] holds the calls whose promise
    was resolved and which have not resumed yet. *)
Record queue := MkQueue {
  maxInFlight : Z;
  maxQueued : Z;
  inFlight : Z;
  waiting : list nat;
  admitted : Z;
  rejected : Z;
  completed : Z;
  failed : Z;
  running : list nat;
  woken : list nat
}.

(** [new BoundedAdmissionQueue({ maxInFlight, maxQueued })] *)
Definition new_queue (maxInFlight maxQueued : jval) : result queue :=
  let maxInFlight := with_default maxInFlight (JNum (JInt 64)) in
  let maxQueued := with_default maxQueued (JNum (JInt 256)) in
  match is_integer maxInFlight with
  | Some m =>
      if bool_decide (m < 1)%Z then Throw (error "maxInFlight must be a positive integer")
      else match is_integer maxQueued with
           | Some n =>
               if bool_decide (n < 0)%Z then Throw (error "maxQueued must be a non-negative integer")
               else Ok (MkQueue m n 0 [] 0 0 0 0 [] [])
           | None => Throw (error "maxQueued must be a non-negative integer")
           end
  | None => Throw (error "maxInFlight must be a positive integer")
  end.

(** [snapshot()]: the counters in the order of the source. *)
Definition snapshot (q : queue) : list (string * Z) :=
  [("maxInFlight", maxInFlight q); ("maxQueued", maxQueued q); ("inFlight", inFlight q);
   ("queued", Z.of_nat (length (waiting q))); ("admitted", admitted q); ("rejected", rejected q);
   ("completed", completed q); ("failed", failed q)].

Definition admit_counted (q : queue) : queue :=
  MkQueue (maxInFlight q) (maxQueued q) (inFlight q) (waiting q) (admitted q + 1) (rejected q)
    (completed q) (failed q) (running q) (woken q).

(** [this.inFlight += 1], then the task starts. *)
Definition begin_task (c : nat) (q : queue) : queue :=
  MkQueue (maxInFlight q) (maxQueued q) (inFlight q + 1) (waiting q) (admitted q) (rejected q)
    (completed q) (failed q) (c :: running q) (woken q).

Inductive entry_outcome := Started | Queued | Refused.

(** [run] up to its first await. *)
Definition enter (c : nat) (q : queue) : queue * entry_outcome :=
  if bool_decide (maxInFlight q ≤ inFlight q)%Z then
    if bool_decide (maxQueued q ≤ Z.of_nat (length (waiting q)))%Z then
      (MkQueue (maxInFlight q) (maxQueued q) (inFlight q) (waiting q) (admitted q) (rejected q + 1)
         (completed q) (failed q) (running q) (woken q), Refused)
    else
      (MkQueue (maxInFlight q) (maxQueued q) (inFlight q) (waiting q ++ [c]) (admitted q + 1)
         (rejected q) (completed q) (failed q) (running q) (woken q), Queued)
  else (begin_task c (admit_counted q), Started).

(** The continuation of the await on the queue promise. *)
Definition resume (c : nat) (q : queue) : queue :=
  begin_task c
    (MkQueue (maxInFlight q) (maxQueued q) (inFlight q) (waiting q) (admitted q) (rejected q)
       (completed q) (failed q) (running q) (filter (λ x, x ≠ c) (woken q))).

(** The continuation of [await task()], success or failure, and [finally]. *)
Definition finish (c : nat) (ok : bool) (q : queue) : queue :=
  let completed := (completed q + if ok then 1 else 0)%Z in
  let failed := (failed q + if ok then 0 else 1)%Z in
  let running := filter (λ x, x ≠ c) (running q) in
  match waiting q with
  | [] => MkQueue (maxInFlight q) (maxQueued q) (inFlight q - 1) [] (admitted q) (rejected q)
            completed failed running (woken q)
  | next :: rest =>
      MkQueue (maxInFlight q) (maxQueued q) (inFlight q - 1) rest (admitted q) (rejected q)
        completed failed running (woken q ++ [next])
  end.

Inductive label := Enter (c : nat) | Resume (c : nat) | Finish (c : nat) (ok : bool).

(** Calls are fresh; only a woken call resumes, only a running one finishes. *)
Definition calls (q : queue) : list nat := waiting q ++ woken q ++ running q.

Inductive step (q : queue) : label → queue → Prop :=
| step_enter c : c ∉ calls q → step q (Enter c) (enter c q).1
| step_resume c : c ∈ woken q → step q (Resume c) (resume c q)
| step_finish c ok : c ∈ running q → step q (Finish c ok) (finish c ok q).

(** The counters account for every admitted call, the waiting line respects
    its bound, and waiting calls are never stranded: enough calls are running
    or about to run to wake them. *)
Record queue_ok (q : queue) : Prop := {
  ok_calls : NoDup (calls q);
  ok_inFlight : inFlight q = Z.of_nat (length (running q));
  ok_waiting : (Z.of_nat (length (waiting q)) ≤ maxQueued q)%Z;
  ok_balance : (admitted q = completed q + failed q + Z.of_nat (length (calls q)))%Z;
  ok_progress : waiting q ≠ [] →
    (maxInFlight q ≤ inFlight q + Z.of_nat (length (woken q)))%Z;
  ok_max : (1 ≤ maxInFlight q)%Z
}.

Lemma length_calls q : length (calls q) = length (waiting q) + length (woken q) + length (running q).
Proof. unfold calls. rewrite !length_app. lia. Qed.

Lemma length_remove (c : nat) l :
  NoDup l → c ∈ l → S (length (filter (λ x, x ≠ c) l)) = length l.
Proof.
  induction l as [|x l IH]; [by intros _ ?%elem_of_nil|]. intros [Hx Hl]%NoDup_cons Hc.
  rewrite filter_cons. destruct (decide (x = c)) as [->|Hne].
  - rewrite decide_False by tauto. cbn [length]. f_equal. clear IH Hc Hl.
    induction l as [|y l IH]; [done|]. apply not_elem_of_cons in Hx as [Hy Hx].
    rewrite filter_cons_True by congruence. cbn [length]. f_equal. auto.
  - rewrite decide_True by done. cbn [length]. f_equal. apply IH; [done|].
    by apply elem_of_cons in Hc as [->|?].
Qed.

Ltac queue_simpl :=
  unfold resume, begin_task, admit_counted, calls;
  cbn [maxInFlight maxQueued inFlight waiting admitted rejected completed failed running woken fst];
  rewrite ?length_app; cbn [length].

(** Membership in appended and filtered lists. *)
Ltac elems :=
  intros; rewrite ?elem_of_app, ?list_elem_of_filter, ?elem_of_cons, ?elem_of_nil in *; naive_solver.

Lemma step_ok q l q' : queue_ok q → step q l q' → queue_ok q'.
Proof.
  intros [Hnd Hin Hw Hb Hp Hm] Hstep. unfold calls in Hnd. unfold calls in Hb. rewrite !length_app in Hb.
  apply NoDup_app in Hnd as (Hnw & Hdw & Hnd). apply NoDup_app in Hnd as (Hnk & Hdk & Hnr).
  setoid_rewrite elem_of_app in Hdw.
  inversion Hstep as [c Hc|c Hc|c ok Hc]; subst l q'; clear Hstep.
  - unfold calls in Hc. rewrite !elem_of_app in Hc.
    unfold enter. case_bool_decide as Hfull; [case_bool_decide as Hq|]; constructor; queue_simpl; try done; try lia.
    + apply NoDup_app. split_and!; [done|elems|]. apply NoDup_app. auto.
    + apply NoDup_app. split_and!; [|elems|apply NoDup_app; auto].
      apply NoDup_app. split_and!; [done|elems|apply NoDup_singleton].
    + apply NoDup_app. split_and!; [done|elems|]. apply NoDup_app.
      split_and!; [done|elems|]. apply NoDup_cons. split; [elems|done].
    + intros ?. specialize (Hp H). lia.
  - pose proof (length_remove c (woken q) Hnk Hc) as Hlen.
    constructor; queue_simpl; try done; try lia.
    + apply NoDup_app. split_and!; [done|elems|]. apply NoDup_app.
      split_and!; [by apply NoDup_filter|elems|]. apply NoDup_cons. split; [elems|done].
    + intros Hne. specialize (Hp Hne). lia.
  - pose proof (length_remove c (running q) Hnr Hc) as Hlen.
    unfold finish. destruct (waiting q) as [|next rest] eqn:Hwait.
    + cbn [length] in *. constructor; queue_simpl; try done; try (destruct ok; lia).
      all: cbn [app]; apply NoDup_app; split_and!; [done|elems|by apply NoDup_filter].
    + apply NoDup_cons in Hnw as [Hnext Hrest]. setoid_rewrite elem_of_cons in Hdw.
      assert (NoDup (rest ++ (woken q ++ [next]) ++ filter (λ x, x ≠ c) (running q))) as Hnd'.
      { apply NoDup_app. split_and!; [done|elems|]. apply NoDup_app.
        split_and!; [|elems|by apply NoDup_filter].
        apply NoDup_app. split_and!; [done|elems|apply NoDup_singleton]. }
      assert (Hp' := Hp ltac:(done)).
      cbn [length] in *. constructor; queue_simpl; try done; destruct ok; lia.
Qed.

Lemma new_queue_ok m n q : new_queue m n = Ok q → queue_ok q.
Proof.
  unfold new_queue. destruct (is_integer (with_default m _)) as [a|]; [|done].
  case_bool_decide; [done|]. destruct (is_integer (with_default n _)) as [b|]; [|done].
  case_bool_decide; [done|]. intros [= <-]. constructor; cbn; try done; try lia; constructor.
Qed.

(** C38: whatever the interleaving of entering, resuming and finishing calls,
    every admitted call is completed, failed, running, woken or waiting exactly
    once, the waiting line keeps its bound, a call is refused only when the
    line is full, and no waiting call is stranded: while one waits, at least
    [maxInFlight] calls are running or about to run. *)
Theorem queue_invariant m n q0 ls q :
  new_queue m n = Ok q0 → steps step q0 ls q →
  queue_ok q ∧
  (∀ c, (enter c q).2 = Refused →
     maxInFlight q ≤ inFlight q ∧ maxQueued q ≤ Z.of_nat (length (waiting q)))%Z ∧
  (running q = [] → woken q = [] → waiting q = []).
Proof.
  intros H0 Hs.
  assert (Hok : queue_ok q).
  { eapply (steps_invariant step queue_ok); [by apply step_ok|by eapply new_queue_ok|done]. }
  split_and!; [done| |].
  - intros c. unfold enter. repeat case_bool_decide; done.
  - intros Hr Hw. destruct Hok as [_ Hin _ _ Hp Hm]. destruct (waiting q); [done|].
    assert (Hp' := Hp ltac:(done)). rewrite Hr, Hw in *. cbn in *. lia.
Qed.

(** Steps of an event loop that resumes the woken calls before new calls
    enter. *)
Definition drains_first (q : queue) (l : label) (q' : queue) : Prop :=
  step q l q' ∧ match l with Enter _ => woken q = [] | _ => True end.

Definition in_bound (q : queue) : Prop :=
  queue_ok q ∧ (inFlight q + Z.of_nat (length (woken q)) ≤ maxInFlight q)%Z.

Lemma drains_first_bound q l q' : in_bound q → drains_first q l q' → in_bound q'.
Proof.
  intros [Hok Hb] [Hstep Hl]. split; [by eapply step_ok|].
  pose proof Hok as [Hnd _ _ _ _ _]. unfold calls in Hnd.
  apply NoDup_app in Hnd as (_ & _ & Hnd). apply NoDup_app in Hnd as (Hnk & _ & _).
  inversion Hstep as [c Hc|c Hc|c ok Hc]; subst l q'; clear Hstep.
  - unfold enter. repeat case_bool_decide; cbn; try done. rewrite Hl in *. cbn in *. lia.
  - pose proof (length_remove c (woken q) Hnk Hc). cbn. lia.
  - unfold finish. destruct (waiting q); cbn; rewrite ?length_app; cbn; lia.
Qed.

(** When woken calls resume before new calls enter, the number of tasks in
    flight never exceeds [maxInFlight]. *)
Theorem queue_bound m n q0 ls q :
  new_queue m n = Ok q0 → steps drains_first q0 ls q → (inFlight q ≤ maxInFlight q)%Z.
Proof.
  intros H0 Hs. assert (in_bound q) as [_ Hb]; [|lia].
  eapply (steps_invariant drains_first in_bound); [by apply drains_first_bound| |done].
  split; [by eapply new_queue_ok|].
  unfold new_queue in H0. destruct (is_integer (with_default m _)) as [a|]; [|done].
  case_bool_decide; [done|]. destruct (is_integer (with_default n _)) as [b|]; [|done].
  case_bool_decide; [done|]. injection H0 as <-. cbn. lia.
Qed.

(** A queue of one slot: a call that enters between the end of a task and the
    resumption of the call it woke takes the slot as well. *)
Definition one_slot : queue := MkQueue 1 1 0 [] 0 0 0 0 [] [].

Lemma steps_two_running :
  steps step one_slot [Enter 1; Enter 2; Finish 1 true; Enter 3; Resume 2]
    (MkQueue 1 1 2 [] 3 0 1 0 [2; 3] []).
Proof.
  do 5 (eapply steps_cons; [constructor; apply (bool_decide_unpack _); vm_compute; reflexivity|]).
  apply steps_nil.
Qed.

(** The bound is not enforced by the queue itself: with [maxInFlight = 1]
    a reachable interleaving runs two tasks at once. *)
Theorem queue_over_admission :
  ∃ q0 ls q, new_queue (JNum (JInt 1)) (JNum (JInt 1)) = Ok q0 ∧ steps step q0 ls q ∧
    (maxInFlight q < inFlight q)%Z.
Proof.
  exists one_slot. do 2 eexists. split; [reflexivity|]. split; [apply steps_two_running|].
  reflexivity.
Qed.

Lemma queue_invariant_witness :
  queue_ok (MkQueue 1 1 2 [] 3 0 1 0 [2; 3] []).
Proof.
  apply (queue_invariant (JNum (JInt 1)) (JNum (JInt 1)) one_slot _ _ eq_refl steps_two_running).
Defined.

Lemma queue_bound_witness : (inFlight (enter 1 one_slot).1 ≤ maxInFlight one_slot)%Z.
Proof.
  apply (queue_bound (JNum (JInt 1)) (JNum (JInt 1)) one_slot [Enter 1] (enter 1 one_slot).1 eq_refl).
  eapply steps_cons; [|apply steps_nil].
  split; [apply step_enter; by intros ?%elem_of_nil|reflexivity].
Defined.

End Queue.

(** ** Replay protection of NEED messages *)

(** What the guard asks of the lifecycle ledger. *)
Record reservation := Reservation {
  r_id : jval; r_requester : jval; r_provider : string; r_fingerprint : string;
  r_capability : string; r_mode : string; r_scope : jval; r_policyDigest : string
}.

Class NeedLedger (L : Type) := {
  getNeed : jval → M L bool;
  reserveNeed : reservation → M L unit
}.

(** A reserved identifier is known from then on and is not reserved again. *)
Class NeedLedgerLaws (L : Type) `{NeedLedger L} := {
  known : L → string → Prop;
  getNeed_keeps id l s : known l s → known (getNeed id l).1 s;
  reserveNeed_keeps r l s : known l s → known (reserveNeed r l).1 s;
  reserveNeed_fresh r l s : r_id r = JStr s → (reserveNeed r l).2 = Ok tt →
    ¬ known l s ∧ known (reserveNeed r l).1 s
}.

Module Replay.
Import Canonical Keys NeedWindow.

Record guard (L : Type) := Guard { seen : list jval; ledger : L }.
Arguments Guard {L}. Arguments seen {L}. Arguments ledger {L}.

Section replay.
Context `{Host} `{NeedLedger L}.
Context (provider : string) (maxSeenNeedIds : Z) (durable : bool).

(** [createNeedReplayGuard]: the configuration checks of the two numbers. *)
Definition check_config (provider maxSeenNeedIds : jval) : result (string * Z) :=
  match provider with
  | JStr p =>
      if negb (nonempty_str p) then Throw (error "need replay provider is required")
      else match is_safe_integer (with_default maxSeenNeedIds (JNum (JInt 262144))) with
           | Some n => if bool_decide (n < 1)%Z
                       then Throw (error "maxSeenNeedIds must be a positive safe integer")
                       else Ok (p, n)
           | None => Throw (error "maxSeenNeedIds must be a positive safe integer")
           end
  | _ => Throw (error "need replay provider is required")
  end.

Definition hex_digest (value : jval) : result string :=
  text ← canonicalize value; Ok (sha256_hex text).

Definition has_seen (id : jval) (g : guard L) : bool := existsb (λ x, strict_eq x id) (seen g).

(** [envelope.payload?.capability?.name || envelope.payload?.capability] *)
Definition capability_of (envelope : jval) : jval :=
  let capability := oprop (oprop envelope "payload") "capability" in
  js_or (oprop capability "name") capability.

Definition on_ledger {A} (m : M L A) : M (guard L) A := λ g,
  let '(l, r) := m (ledger g) in (Guard (seen g) l, r).

Definition remember_id (id : jval) : M (guard L) unit := λ g,
  if bool_decide (maxSeenNeedIds ≤ Z.of_nat (length (seen g)))%Z then
    (g, Throw (fault 503 "need_idempotency_capacity_reached"))
  else (Guard (seen g ++ [id]) (ledger g), Ok tt).

Definition reserve (envelope : jval) (capability : string) : M (guard L) unit :=
  fingerprint ← lift_result (hex_digest envelope);
  policyDigest ← lift_result
    (hex_digest (js_coalesce (oprop (oprop envelope "payload") "policy") (JObj [])));
  on_ledger (reserveNeed
    (Reservation (oprop envelope "id") (oprop envelope "from") provider fingerprint capability
       "quic" (oprop envelope "from") policyDigest)).

Definition admit_need (now : Z) (envelope : jval) : M (guard L) unit :=
  if negb (eq_str (oprop envelope "type") "NEED") then mret tt
  else
    _ ← guard_throw (negb (nullish (oprop envelope "to")) && negb (eq_str (oprop envelope "to") provider))
          (fault 403 "need_recipient_mismatch");
    match capability_of envelope with
    | JStr capability =>
        _ ← guard_throw (negb (nonempty_str (trim capability))) (fault 400 "invalid_capability");
        duplicate ← (if durable then on_ledger (getNeed (oprop envelope "id"))
                     else λ g, (g, Ok (has_seen (oprop envelope "id") g)));
        _ ← guard_throw duplicate (fault 409 "duplicate_request");
        _ ← lift_result (assertNeedAdmissionWindow envelope (JNum (JInt now)));
        if durable then reserve envelope capability else remember_id (oprop envelope "id")
    | _ => throw (fault 400 "invalid_capability")
    end.

(** A NEED with this identifier. *)
Definition is_need (s : string) (envelope : jval) : Prop :=
  oprop envelope "type" = JStr "NEED" ∧ oprop envelope "id" = JStr s.

Definition call : Type := Z * jval.
Definition admit_call (c : call) : M (guard L) unit := admit_need c.1 c.2.

Lemma guard_throw_bind {S A} b e (f : unit → M S A) (s : S) :
  (x ← guard_throw b e; f x) s = if b then (s, Throw e) else f tt s.
Proof. by destruct b. Qed.

Lemma lift_bind {S A B} (r : result A) (f : A → M S B) (s : S) :
  (x ← lift_result r; f x) s = match r with Ok a => f a s | Throw e => (s, Throw e) end.
Proof. by destruct r. Qed.

End replay.

(** Calls that mark an identifier for good and refuse a marked one succeed at
    most once for it. *)
Section once.
Context {S C : Type} (f : C → M S unit) (marked : S → string → Prop) (about : string → C → Prop).
Context (Hkeep : ∀ c s id, marked s id → marked (f c s).1 id).
Context (Hmark : ∀ c s id, about id c → (f c s).2 = Ok tt → ¬ marked s id ∧ marked (f c s).1 id).

Lemma marked_refuses calls s id i c :
  marked s id → calls !! i = Some c → about id c → (run_all f calls s).2 !! i ≠ Some (Ok tt).
Proof.
  revert s i. induction calls as [|c0 calls IH]; intros s i Hm Hi Ha; [done|]. cbn [run_all].
  pose proof (Hkeep c0 s id Hm) as Hm'. pose proof (Hmark c0 s id) as Hf.
  destruct (f c0 s) as [s' r]. specialize (IH s'). cbn [fst snd] in *.
  destruct (run_all f calls s') as [s'' rs]. cbn [fst snd] in *. destruct i as [|i]; [|by apply IH].
  injection Hi as ->. intros [= ->]. by destruct (Hf Ha eq_refl).
Qed.

Lemma run_all_once calls s id i j ci cj :
  calls !! i = Some ci → calls !! j = Some cj → about id ci → about id cj →
  (run_all f calls s).2 !! i = Some (Ok tt) → (run_all f calls s).2 !! j = Some (Ok tt) → i = j.
Proof.
  revert s i j. induction calls as [|c calls IH]; intros s i j; [done|].
  cbn [run_all]. pose proof (Hmark c s id) as Hf.
  destruct (f c s) as [s' r]. pose proof (marked_refuses calls s' id) as Hlater.
  specialize (IH s'). destruct (run_all f calls s') as [s'' rs]. cbn [fst snd] in *.
  destruct i as [|i], j as [|j]; cbn; intros Hi Hj Hai Haj Hoi Hoj; [done| | |].
  - simplify_eq. exfalso. eapply (Hlater j cj); [apply Hf|..]; done.
  - simplify_eq. exfalso. eapply (Hlater i ci); [apply Hf|..]; done.
  - f_equal. by apply (IH i j).
Qed.
End once.

Section memory.
Context `{Host} `{NeedLedger L}.
Context (provider : string) (maxSeenNeedIds : Z).
Let admit_mem := admit_call (L := L) provider maxSeenNeedIds false.

Ltac refused := left; split; [reflexivity|intros ? _; cbn; congruence].

Lemma admit_memory_cases c (g : guard L) :
  (admit_mem c g).1 = g ∧
    (∀ s, is_need s c.2 → (admit_mem c g).2 ≠ Ok tt) ∨
  (admit_mem c g).1 = g ∧ (∀ s, ¬ is_need s c.2) ∨
  (seen (admit_mem c g).1 = seen g ++ [oprop c.2 "id"] ∧
   has_seen (oprop c.2 "id") g = false ∧ (Z.of_nat (length (seen g)) < maxSeenNeedIds)%Z).
Proof.
  destruct c as [now e]. unfold admit_mem, admit_call, admit_need. cbn [fst snd].
  destruct (eq_str (oprop e "type") "NEED") eqn:Ht; cbn [negb].
  2:{ right. left. split; [done|]. intros s [Hty _]. rewrite Hty in Ht. done. }
  rewrite guard_throw_bind. destruct (_ && negb (eq_str _ _)); [refused|].
  destruct (capability_of e) as [| | | | |cap| |]; try (refused).
  rewrite guard_throw_bind. destruct (negb _); [refused|].
  erewrite M_bind_step by reflexivity. rewrite guard_throw_bind.
  destruct (has_seen (oprop e "id") g) eqn:Hs; [refused|].
  rewrite lift_bind. destruct (assertNeedAdmissionWindow _ _) as [[]|]; [|refused].
  unfold remember_id. case_bool_decide; [refused|]. right. right. split_and!; [done|done|lia].
Qed.

Definition has_string (s : string) (g : guard L) : Prop := JStr s ∈ seen g.

Lemma has_seen_string s g : has_seen (JStr s) g = true ↔ has_string s g.
Proof.
  unfold has_seen, has_string. rewrite existsb_exists. setoid_rewrite <- list_elem_of_In. split.
  - intros (x & Hx & Heq). destruct x as [| | | |[]|t| |]; cbn in Heq; try done.
    bool_hyps. by subst.
  - intros Hx. exists (JStr s). split; [done|]. cbn. by apply bool_decide_eq_true.
Qed.

Lemma admit_memory_marks c (g : guard L) s :
  is_need s c.2 → (admit_mem c g).2 = Ok tt → ¬ has_string s g ∧ has_string s (admit_mem c g).1.
Proof.
  intros [Hty Hid] Hok. destruct (admit_memory_cases c g) as [[_ Hno]|[[_ Hno]|(Hseen & Hfresh & _)]].
  - by destruct (Hno s).
  - by destruct (Hno s).
  - rewrite Hid in *. split; [by intros Hs%has_seen_string; rewrite Hs in Hfresh|].
    unfold has_string. rewrite Hseen. apply elem_of_app. right. left.
Qed.

Lemma admit_memory_grows c (g : guard L) :
  seen g `prefix_of` seen (admit_mem c g).1 ∧
  (Z.of_nat (length (seen (admit_mem c g).1)) ≤
     Z.max maxSeenNeedIds (Z.of_nat (length (seen g))))%Z.
Proof.
  destruct (admit_memory_cases c g) as [[-> _]|[[-> _]|(-> & _ & Hlt)]]; [split; [done|lia]..|].
  split; [by eexists|]. rewrite length_app. cbn [length]. lia.
Qed.

(** In one process, no two admitted NEEDs carry the same identifier,
    whatever else is sent, refused or outside its window in between; the guard
    forgets no identifier and never remembers more than its capacity. *)
Theorem replay_admits_once calls (g : guard L) :
  let run := run_all (admit_call provider maxSeenNeedIds false) calls g in
  seen g `prefix_of` seen run.1 ∧
  (Z.of_nat (length (seen run.1)) ≤ Z.max maxSeenNeedIds (Z.of_nat (length (seen g))))%Z ∧
  ∀ i j ci cj s,
    calls !! i = Some ci → calls !! j = Some cj → is_need s ci.2 → is_need s cj.2 →
    run.2 !! i = Some (Ok tt) → run.2 !! j = Some (Ok tt) → i = j.
Proof.
  fold admit_mem. cbv zeta. split; [|split].
  3:{ intros i j ci cj s. apply (run_all_once admit_mem (λ g s, has_string s g) (λ s c, is_need s c.2)).
      - intros c g' id Hs. destruct (admit_memory_grows c g') as [[l Hl] _].
        unfold has_string in *. rewrite Hl. apply elem_of_app. by left.
      - intros c g' id. apply admit_memory_marks. }
  all: revert g; induction calls as [|c calls IH]; intros g; [done || (cbn; lia)|]; cbn [run_all];
    destruct (admit_memory_grows c g) as [Hp Hl]; destruct (admit_mem c g) as [g' r];
    specialize (IH g'); destruct (run_all admit_mem calls g') as [g'' rs]; cbn [fst snd] in *.
  - by etrans.
  - lia.
Qed.
End memory.

Section shared_ledger.
Context `{Host} `{NeedLedgerLaws L}.
Context (provider : string) (maxSeenNeedIds : Z).
Let admit_durable := admit_call (L := L) provider maxSeenNeedIds true.

Ltac no_effect := split; [cbn; tauto|by intros _ [=]].

Lemma admit_durable_step c (g : guard L) s :
  (known (ledger g) s → known (ledger (admit_durable c g).1) s) ∧
  (is_need s c.2 → (admit_durable c g).2 = Ok tt →
   ¬ known (ledger g) s ∧ known (ledger (admit_durable c g).1) s).
Proof.
  destruct c as [now e]. unfold admit_durable, admit_call, admit_need. cbn [fst snd].
  destruct (eq_str (oprop e "type") "NEED") eqn:Ht; cbn [negb].
  2:{ split; [done|]. intros [Hty _]. rewrite Hty in Ht. done. }
  rewrite guard_throw_bind. destruct (_ && negb (eq_str _ _)); [no_effect|].
  destruct (capability_of e) as [| | | | |cap| |]; try no_effect.
  rewrite guard_throw_bind. destruct (negb _); [no_effect|].
  pose proof (getNeed_keeps (oprop e "id") (ledger g) s) as Hget.
  destruct (getNeed (oprop e "id") (ledger g)) as [l1 r1] eqn:Hg. cbn [fst] in Hget.
  assert (Hon : on_ledger (getNeed (oprop e "id")) g = (Guard (seen g) l1, r1))
    by (unfold on_ledger; by rewrite Hg).
  destruct r1 as [dup|err].
  2:{ rewrite (M_bind_throw _ _ _ _ _ Hon). split; [exact Hget|by intros _ [=]]. }
  rewrite (M_bind_step _ _ _ _ _ Hon).
  rewrite guard_throw_bind. destruct dup; [no_effect|].
  rewrite lift_bind. destruct (assertNeedAdmissionWindow _ _) as [[]|]; [|no_effect].
  unfold reserve. rewrite lift_bind. destruct (hex_digest e) as [fp|]; [|no_effect].
  rewrite lift_bind. destruct (hex_digest _) as [pd|]; [|no_effect].
  unfold on_ledger. cbn [fst snd ledger seen] in *.
  set (rv := Reservation _ _ _ _ _ _ _ _).
  pose proof (reserveNeed_keeps rv l1 s) as Hkeep.
  pose proof (reserveNeed_fresh rv l1 s) as Hfresh.
  destruct (reserveNeed rv l1) as [l2 r]. cbn [fst snd ledger] in *.
  split; [auto|]. intros [_ Hid] ->. destruct (Hfresh Hid eq_refl). auto.
Qed.

(** With a durable ledger that keeps its interface's laws, no two admitted
    NEEDs carry the same identifier, and one the ledger already knew is never
    admitted. *)
Theorem replay_ledger_once calls (g : guard L) i j ci cj s :
  let outcomes := (run_all (admit_call provider maxSeenNeedIds true) calls g).2 in
  calls !! i = Some ci → is_need s ci.2 → outcomes !! i = Some (Ok tt) →
  ¬ known (ledger g) s ∧
  (calls !! j = Some cj → is_need s cj.2 → outcomes !! j = Some (Ok tt) → i = j).
Proof.
  fold admit_durable. cbv zeta. intros Hi Hni Hoi.
  assert (Hkeep : ∀ c (g : guard L) id, known (ledger g) id → known (ledger (admit_durable c g).1) id)
    by (intros c g' id; by destruct (admit_durable_step c g' id)).
  assert (Hmark : ∀ c (g : guard L) id, is_need id c.2 → (admit_durable c g).2 = Ok tt →
            ¬ known (ledger g) id ∧ known (ledger (admit_durable c g).1) id)
    by (intros c g' id; by destruct (admit_durable_step c g' id)).
  split.
  - intros Hk. by apply (marked_refuses admit_durable (λ g s, known (ledger g) s) (λ s c, is_need s c.2)
                           Hkeep Hmark calls g s i ci Hk Hi Hni).
  - intros Hj Hnj Hoj. by apply (run_all_once admit_durable (λ g s, known (ledger g) s)
                                   (λ s c, is_need s c.2) Hkeep Hmark calls g s i j ci cj).
Qed.
End shared_ledger.

(** ** A concrete guard *)

Definition toy_need (id : string) : jval :=
  JObj [("type", JStr "NEED"); ("id", JStr id); ("from", JStr "a");
        ("createdAt", JStr "2026-10-13T12:30:00.000Z");
        ("payload", JObj [("capability", JStr "echo")])].

#[local] Instance no_ledger : NeedLedger unit :=
  {| getNeed _ := mret false; reserveNeed _ := mret tt |}.

Definition toy_calls : list call :=
  [(1791894600000, toy_need "x"); (1791894600001, toy_need "x"); (1791894600002, toy_need "y")]%Z.

Lemma replay_admits_once_witness :
  (Z.of_nat (length (seen (run_all (admit_call (H := Toy.host) "p" 5 false) toy_calls (Guard [] tt)).1))
     ≤ 5)%Z ∧ (0 = 0 → 0 = 0)%nat.
Proof.
  destruct (replay_admits_once (H := Toy.host) "p" 5 toy_calls (Guard [] tt)) as (_ & Hl & Hu).
  split; [exact Hl|]. intros _.
  apply (Hu 0 0 (1791894600000%Z, toy_need "x") (1791894600000%Z, toy_need "x") "x"%string);
    try reflexivity; try (split; reflexivity); vm_compute; reflexivity.
Defined.

(** A ledger that is the list of reserved identifiers. *)
Definition list_reserve (r : reservation) : M (list string) unit := λ l,
  match r_id r with
  | JStr s => if bool_decide (s ∈ l) then (l, Throw (error "exists")) else (s :: l, Ok tt)
  | _ => (l, Throw (error "bad id"))
  end.

#[local] Instance list_ledger : NeedLedger (list string) :=
  {| getNeed id l := (l, Ok (existsb (λ s, strict_eq (JStr s) id) l)); reserveNeed := list_reserve |}.

#[local] Instance list_ledger_laws : NeedLedgerLaws (list string).
Proof.
  refine {| known l s := s ∈ l |}.
  - done.
  - intros r l s Hs. cbn. unfold list_reserve. destruct (r_id r); try done.
    case_bool_decide; [done|]. by right.
  - intros r l s Hid. cbn. unfold list_reserve. rewrite Hid. case_bool_decide; [done|].
    intros _. split; [done|]. left.
Defined.

Lemma replay_ledger_once_witness : ¬ known (@nil string) "x" ∧ (0 = 0 → 0 = 0)%nat.
Proof.
  assert (Ho : (run_all (admit_call (H := Toy.host) "p" 5 true) toy_calls (Guard [] [])).2 !! 0 = Some (Ok tt))
    by (vm_compute; reflexivity).
  destruct (replay_ledger_once (H := Toy.host) "p" 5 toy_calls (Guard [] []) 0 0
              (1791894600000%Z, toy_need "x") (1791894600000%Z, toy_need "x") "x"%string
              eq_refl (conj eq_refl eq_refl) Ho) as [Hk Hu].
  split; [exact Hk|]. intros _. exact (Hu eq_refl (conj eq_refl eq_refl) Ho).
Defined.

Example replay_toy :
  (run_all (admit_call (H := Toy.host) "p" 5 false) toy_calls (Guard [] tt)).2 =
  [Ok tt; Throw (fault 409 "duplicate_request"); Ok tt].
Proof. vm_compute. reflexivity. Qed.

End Replay.

(** ** Injected network faults *)

Module Faults.

Inductive relay_mode := Up | Down | Degraded.

Record controller := Controller {
  partitionedPeers : list string;
  relayMode : relay_mode;
  relayDelayMs : Z
}.

Definition new_controller : controller := Controller [] Up 0.

Definition snapshot (c : controller) : list string * relay_mode * Z :=
  (sort_strings (partitionedPeers c), relayMode c, relayDelayMs c).

Definition normalizeNodeIds (value : jval) : list string :=
  match value with
  | JArr l => uniq (omap Negotiate.trimmed l)
  | _ => uniq (omap Negotiate.trimmed [value])
  end.

Definition set_add (x : string) (l : list string) : list string :=
  if bool_decide (x ∈ l) then l else l ++ [x].

Definition partition (nodeIds : jval) : M controller unit := λ c,
  let normalized := normalizeNodeIds nodeIds in
  if bool_decide (length normalized = 0) then (c, Throw (error "at least one peer nodeId is required"))
  else (Controller (fold_left (λ l x, set_add x l) normalized (partitionedPeers c)) (relayMode c)
          (relayDelayMs c), Ok tt).

Definition heal (nodeIds : jval) : M controller unit := λ c,
  let peers := if nullish nodeIds then []
               else filter (λ x, x ∉ normalizeNodeIds nodeIds) (partitionedPeers c) in
  (Controller peers (relayMode c) (relayDelayMs c), Ok tt).

Definition isPartitioned (nodeId : string) (c : controller) : bool :=
  bool_decide (nodeId ∈ partitionedPeers c).

Definition assertPeer (nodeId operation : string) (c : controller) : result bool :=
  if negb (isPartitioned nodeId c) then Ok true
  else Throw (error_code "TRUYN_NETWORK_PARTITION"
                ("TRUYN_NETWORK_PARTITION:" +:+ nodeId +:+ ":" +:+ operation)).

Definition read_mode (v : jval) : option relay_mode :=
  match v with
  | JStr s => if bool_decide (s = "up") then Some Up
              else if bool_decide (s = "down") then Some Down
              else if bool_decide (s = "degraded") then Some Degraded else None
  | _ => None
  end.

Definition setRelay (mode delayMs : jval) : M controller unit := λ c,
  match read_mode (with_default mode (JStr "up")) with
  | None => (c, Throw (error "relay mode must be up, down or degraded"))
  | Some mode =>
      match is_integer (with_default delayMs (JNum (JInt 0))) with
      | Some d =>
          if bool_decide (d < 0)%Z || bool_decide (d > 120000)%Z then
            (c, Throw (error "relay delayMs must be between 0 and 120000"))
          else (Controller (partitionedPeers c) mode
                  (match mode with Degraded => d | _ => 0%Z end), Ok tt)
      | None => (c, Throw (error "relay delayMs must be between 0 and 120000"))
      end
  end.

(** [beforeRelay]: the delay slept before the relay is used. *)
Definition beforeRelay (c : controller) : result Z :=
  match relayMode c with
  | Down => Throw (error_code "TRUYN_RELAY_UNAVAILABLE" "TRUYN_RELAY_UNAVAILABLE")
  | Degraded => Ok (if bool_decide (0 < relayDelayMs c)%Z then relayDelayMs c else 0%Z)
  | Up => Ok 0%Z
  end.

Lemma elem_of_set_adds ids l x : x ∈ fold_left (λ l x, set_add x l) ids l ↔ x ∈ l ∨ x ∈ ids.
Proof.
  revert l. induction ids as [|y ids IH]; intros l; cbn; [set_solver|].
  rewrite IH. unfold set_add. case_bool_decide; set_solver.
Qed.

Inductive command :=
| Partition (ids : jval) | Heal (ids : jval) | SetRelay (mode delayMs : jval).

Definition run_command (k : command) : M controller unit :=
  match k with
  | Partition ids => partition ids
  | Heal ids => heal ids
  | SetRelay mode delayMs => setRelay mode delayMs
  end.

(** Whether the last command that names the peer is a partition. *)
Fixpoint cut_off (x : string) (cut : bool) (ks : list command) : bool :=
  match ks with
  | [] => cut
  | Partition ids :: ks => cut_off x (cut || bool_decide (x ∈ normalizeNodeIds ids)) ks
  | Heal ids :: ks =>
      cut_off x (cut && negb (nullish ids) && bool_decide (x ∉ normalizeNodeIds ids)) ks
  | SetRelay _ _ :: ks => cut_off x cut ks
  end.

Lemma run_command_peers k c x :
  isPartitioned x (run_command k c).1 = cut_off x (isPartitioned x c) [k].
Proof.
  destruct k as [ids|ids|mode d]; cbn [run_command cut_off]; unfold isPartitioned.
  - unfold partition. destruct (bool_decide_reflect (length (normalizeNodeIds ids) = 0)) as [Hl|Hl];
      cbn [fst partitionedPeers].
    + apply length_zero_iff_nil in Hl. rewrite Hl. rewrite (bool_decide_eq_false_2 (x ∈ [])); [by rewrite orb_false_r|].
      apply not_elem_of_nil.
    + rewrite <- bool_decide_or. apply bool_decide_ext. apply elem_of_set_adds.
  - unfold heal. cbn [fst partitionedPeers]. destruct (nullish ids); cbn [negb].
    + rewrite bool_decide_eq_false_2 by apply not_elem_of_nil. by destruct (bool_decide _).
    + rewrite andb_true_r, <- bool_decide_and. apply bool_decide_ext.
      rewrite list_elem_of_filter. tauto.
  - unfold setRelay. destruct (read_mode _); [|done]. destruct (is_integer _); [|done].
    by destruct (_ || _).
Qed.

(** After any sequence of fault commands, valid or refused, traffic to a
    peer is refused exactly when the last command that concerns it is a
    partition, and the relay delay is one the bounds allow. *)
Theorem faults_follow_commands ks x operation :
  let c := (run_all run_command ks new_controller).1 in
  (is_ok (assertPeer x operation c) = negb (cut_off x false ks)) ∧ (0 ≤ relayDelayMs c ≤ 120000)%Z.
Proof.
  assert (Hall : ∀ c, (0 ≤ relayDelayMs c ≤ 120000)%Z →
    isPartitioned x (run_all run_command ks c).1 = cut_off x (isPartitioned x c) ks ∧
    (0 ≤ relayDelayMs (run_all run_command ks c).1 ≤ 120000)%Z).
  { induction ks as [|k ks IH]; intros c Hc; [done|]. cbn [run_all].
    pose proof (run_command_peers k c x) as Hk.
    assert (Hd : (0 ≤ relayDelayMs (run_command k c).1 ≤ 120000)%Z).
    { destruct k as [ids|ids|mode d]; cbn [run_command]; unfold partition, setRelay.
      - by case_bool_decide.
      - done.
      - destruct (read_mode _) as [m|]; [|done]. destruct (is_integer _) as [d'|]; [|done].
        destruct (_ || _) eqn:Hb; [done|]. bool_hyps. destruct m; cbn; lia. }
    destruct (run_command k c) as [c' r]. cbn [fst] in *.
    destruct (IH c' Hd) as [Hi Hd']. destruct (run_all run_command ks c') as [c'' rs].
    cbn [fst] in *. split; [|done]. rewrite Hi, Hk. by destruct k. }
  destruct (Hall new_controller) as [Hi Hd]; [done|]. split; [|done].
  unfold assertPeer. rewrite Hi. cbn [isPartitioned new_controller partitionedPeers].
  by destruct (cut_off x _ ks).
Qed.

End Faults.
