(* ===== verification/Inbox.v ===== *)
(** * The durable inbox of accepted work

    Models network/admission/durable-inbox.js: work is written to disk before
    it is handled and its outcome after, so that a restart can recover what was
    accepted.  A file write is one step that succeeds or fails as the file
    system decides ([fs]); a failed write leaves the promise chain
    [writeQueue] rejected, which every later write inherits.  The entry a call
    accepted itself is a clone, the entry it found pending is the stored
    object: the difference is kept ([shared]).  [run] here is one call to its
    end; what two overlapping calls do is shown on its phases ([classify]). *)
From S2P Require Import Prelude JSMap JSValue Host.

Module Inbox.

Inductive status := Pending | Completed | Failed.
#[export] Instance status_eq_dec : EqDecision status.
Proof. solve_decision. Defined.

Record context := Context { peerNodeId : option string; transport : option string }.
Record stored_error := StoredError { se_code : option string; se_message : string }.

Record entry := Entry {
  e_id : string;
  e_status : status;
  e_envelope : jval;
  e_context : context;
  e_attempts : Z;
  e_acceptedAt : string;
  e_updatedAt : string;
  e_result : jval;
  e_error : option stored_error
}.

Record inbox := MkInbox {
  maxCompleted : nat;
  entries : jsmap string entry;
  inFlight : list string;
  writeQueue_rejected : bool;
  disk : list entry;
  fs : list bool
}.

Definition with_entries (es : jsmap string entry) (s : inbox) : inbox :=
  MkInbox (maxCompleted s) es (inFlight s) (writeQueue_rejected s) (disk s) (fs s).
Definition with_inFlight (l : list string) (s : inbox) : inbox :=
  MkInbox (maxCompleted s) (entries s) l (writeQueue_rejected s) (disk s) (fs s).

Definition typeof_string (v : jval) : option string := match v with JStr s => Some s | _ => None end.

Definition safeContext (c : jval) : context :=
  Context (typeof_string (oprop c "peerNodeId")) (typeof_string (oprop c "transport")).

Definition serializedError (e : jerror) : stored_error := StoredError (e_code e) (e_message e).

Definition restoredError (v : option stored_error) : jerror :=
  match v with
  | Some (StoredError code message) =>
      JError (if nonempty_str message then message else "durable_work_failed")
        (match code with Some c => if nonempty_str c then Some c else None | None => None end) None None
  | None => error "durable_work_failed"
  end.

Definition write_failed : jerror := error "EIO".
Definition entry_missing : jerror := error "durable inbox entry missing".

(** [#persist] *)
Definition persist : M inbox unit := λ s,
  if writeQueue_rejected s then (s, Throw write_failed)
  else match fs s with
       | false :: fs => (MkInbox (maxCompleted s) (entries s) (inFlight s) true (disk s) fs, Throw write_failed)
       | _ => (MkInbox (maxCompleted s) (entries s) (inFlight s) false (map_values (entries s)) (tail (fs s)), Ok tt)
       end.

(** [load] of a new inbox object on the same file *)
Definition load_entry (es : result (jsmap string entry)) (e : entry) : result (jsmap string entry) :=
  es ← es;
  if negb (nonempty_str (e_id e)) || negb (truthy (e_envelope e)) then Throw (error "invalid_durable_inbox_entry")
  else Ok (map_set (e_id e) e es).

Definition load (maxCompleted : nat) (file : list entry) (fs : list bool) : result inbox :=
  es ← fold_left load_entry file (Ok []);
  Ok (MkInbox maxCompleted es [] false file fs).

Record counts := Counts { total : Z; n_pending : Z; n_completed : Z; n_failed : Z; n_inFlight : Z }.

Definition count_status (st : status) (s : inbox) : Z :=
  Z.of_nat (length (filter (λ e, e_status e = st) (map_values (entries s)))).

Definition snapshot (s : inbox) : counts :=
  Counts (map_size (entries s)) (count_status Pending s) (count_status Completed s)
    (count_status Failed s) (Z.of_nat (length (inFlight s))).

Section inbox.
Context `{Host}.

Definition by_acceptedAt (a b : entry) : bool := bool_decide (localeCompare (e_acceptedAt a) (e_acceptedAt b) ≤ 0)%Z.
Definition by_updatedAt (a b : entry) : bool := bool_decide (localeCompare (e_updatedAt a) (e_updatedAt b) ≤ 0)%Z.

Definition pending (s : inbox) : list entry :=
  sort_by by_acceptedAt (filter (λ e, e_status e = Pending) (map_values (entries s))).

(** [#trimCompleted] *)
Definition completed_entries (es : jsmap string entry) : list entry :=
  filter (λ e, e_status e = Completed) (map_values es).

Definition trimCompleted (s : inbox) : inbox :=
  let completed := sort_by by_updatedAt (completed_entries (entries s)) in
  let excess := take (length completed - maxCompleted s) completed in
  with_entries (fold_left (λ es e, map_delete (e_id e) es) excess (entries s)) s.

Definition accept (now : string) (envelope context : jval) : M inbox entry :=
  match oprop envelope "id" with
  | JStr id =>
      if negb (nonempty_str id) then throw (error "durable inbox envelope id is required")
      else
        s ← get_state;
        match map_get id (entries s) with
        | Some existing => mret existing
        | None =>
            let entry := Entry id Pending envelope (safeContext context) 0 now now JNull None in
            _ ← modify (λ s, with_entries (map_set id entry (entries s)) s);
            _ ← persist;
            mret entry
        end
  | _ => throw (error "durable inbox envelope id is required")
  end.

Definition complete (now id : string) (result : jval) : M inbox unit :=
  s ← get_state;
  match map_get id (entries s) with
  | None => throw entry_missing
  | Some e =>
      let e := Entry (e_id e) Completed (e_envelope e) (e_context e) (e_attempts e) (e_acceptedAt e) now result None in
      _ ← modify (λ s, trimCompleted (with_entries (map_set id e (entries s)) s));
      persist
  end.

Definition fail (now id : string) (err : jerror) : M inbox unit :=
  s ← get_state;
  match map_get id (entries s) with
  | None => throw entry_missing
  | Some e =>
      let e := Entry (e_id e) Failed (e_envelope e) (e_context e) (e_attempts e) (e_acceptedAt e) now JNull
                 (Some (serializedError err)) in
      _ ← modify (λ s, with_entries (map_set id e (entries s)) s);
      persist
  end.

(** What [run] decides from the stored entry and the executions in flight. *)
Inductive decision :=
| Replay (result : jval) | Refuse (e : jerror) | Join | Execute (recovered : entry) | AcceptFirst.

Definition classify (id : string) (s : inbox) : decision :=
  match map_get id (entries s) with
  | Some e =>
      match e_status e with
      | Completed => Replay (e_result e)
      | Failed => Refuse (restoredError (e_error e))
      | Pending => if bool_decide (id ∈ inFlight s) then Join else Execute e
      end
  | None => if bool_decide (id ∈ inFlight s) then Join else AcceptFirst
  end.

(** The start of the execution: a found entry is updated in place, an accepted
    one only in the call's clone. *)
Definition mark_attempt (shared : bool) (now id : string) (s : inbox) : inbox :=
  match shared, map_get id (entries s) with
  | true, Some e =>
      with_entries (map_set id
        (Entry (e_id e) (e_status e) (e_envelope e) (e_context e) (e_attempts e + 1) (e_acceptedAt e) now
           (e_result e) (e_error e)) (entries s)) s
  | _, _ => s
  end.

Definition handler_type : Type := jval → context → bool → result jval.

Definition settle (handler : handler_type) (now id : string) (envelope : jval) (c : context) (recovered : bool)
    : M inbox jval :=
  catch_with
    (r ← lift_result (handler envelope c recovered); _ ← complete now id r; mret r)
    (λ err, _ ← fail now id err; throw err).

Definition execute (handler : handler_type) (shared recovered : bool) (now : string) (e : entry) : M inbox jval :=
  let id := e_id e in
  _ ← modify (mark_attempt shared now id);
  _ ← modify (λ s, with_inFlight (id :: inFlight s) s);
  _ ← persist;
  finally (settle handler now id (e_envelope e) (e_context e) recovered)
    (λ s, with_inFlight (filter (λ x, x ≠ id) (inFlight s)) s).

(** [run], one call to its end.  A joined execution is one whose start could
    not be written: no other is in flight between calls. *)
Definition run (handler : handler_type) (now : string) (envelope context : jval) : M inbox jval :=
  match oprop envelope "id" with
  | JStr id =>
      s ← get_state;
      match classify id s with
      | Replay r => mret r
      | Refuse e => throw e
      | Join => throw write_failed
      | Execute e => execute handler true true now e
      | AcceptFirst => e ← accept now envelope context; execute handler false false now e
      end
  | _ => throw (error "durable inbox envelope id is required")
  end.

Definition opt_string (o : option string) : jval := match o with Some s => JStr s | None => JNull end.
Definition context_value (c : context) : jval :=
  JObj [("peerNodeId", opt_string (peerNodeId c)); ("transport", opt_string (transport c))].

Definition recover (handler : handler_type) (now : string) : M inbox (list (string * result jval)) := λ s,
  let one (e : entry) : M inbox (string * result jval) := λ s,
    let '(s', r) := run handler now (e_envelope e) (context_value (e_context e)) s in (s', Ok (e_id e, r)) in
  let '(s', rs) := run_all one (pending s) s in
  (s', result_map id rs).

(** ** Well-formed inboxes *)

Definition entries_ok (es : jsmap string entry) : Prop :=
  map_wf es ∧ ∀ k e, map_get k es = Some e → e_id e = k ∧ k ≠ "" ∧ truthy (e_envelope e) = true.

Definition disk_ok (l : list entry) : Prop :=
  NoDup (e_id <$> l) ∧ ∀ e, e ∈ l → e_id e ≠ "" ∧ truthy (e_envelope e) = true.

Lemma map_get_in k e (es : jsmap string entry) : map_wf es → (k, e) ∈ es ↔ map_get k es = Some e.
Proof. split; [by apply map_elem_get|apply map_get_elem]. Qed.

Lemma elem_of_values e (es : jsmap string entry) :
  entries_ok es → e ∈ map_values es ↔ map_get (e_id e) es = Some e.
Proof.
  intros [Hwf He]. unfold map_values. rewrite list_elem_of_fmap. split.
  - intros ([k e'] & -> & Hin). cbn. apply map_get_in in Hin; [|done].
    destruct (He k e' Hin) as [-> _]. done.
  - intros Hg. exists (e_id e, e). split; [done|]. by apply map_get_in.
Qed.

Lemma values_ids (es : jsmap string entry) : entries_ok es → e_id <$> map_values es = map_keys es.
Proof.
  intros [Hwf He]. unfold map_values, map_keys. rewrite <- list_fmap_compose.
  apply Forall_fmap_ext, Forall_forall. intros [k e] Hin. cbn.
  by apply (He k e), map_get_in.
Qed.

Lemma values_disk_ok es : entries_ok es → disk_ok (map_values es).
Proof.
  intros Hok. split; [by rewrite values_ids; [apply Hok|]|].
  intros e Hg%elem_of_values; [|done]. by apply (proj2 Hok) in Hg as (_ & ? & ?).
Qed.

Lemma load_entries acc l :
  NoDup (map_keys acc ++ (e_id <$> l)) →
  (∀ e, e ∈ l → e_id e ≠ "" ∧ truthy (e_envelope e) = true) →
  fold_left load_entry l (Ok acc) = Ok (acc ++ ((λ e, (e_id e, e)) <$> l)).
Proof.
  revert acc. induction l as [|e l IH]; intros acc Hnd Hl; [by rewrite app_nil_r|]. cbn [fold_left].
  destruct (Hl e) as [Hid Henv]; [left|]. unfold load_entry at 2. cbn [mbind result_bind].
  rewrite (proj2 (nonempty_str_true _) Hid), Henv. cbn [negb orb].
  apply NoDup_app in Hnd as (Ha & Hd & Hb). cbn [fmap list_fmap] in *.
  assert (Hnew : e_id e ∉ map_keys acc) by (intros Hin; apply (Hd _ Hin); left).
  assert (map_set (e_id e) e acc = acc ++ [(e_id e, e)]) as ->.
  { clear -Hnew. induction acc as [|[k w] acc IHa]; [done|]. cbn [map_keys fmap list_fmap fst] in Hnew.
    apply not_elem_of_cons in Hnew as [Hk Hn]. cbn [map_set app]. rewrite decide_False by done.
    f_equal. by apply IHa. }
  rewrite IH.
  - by rewrite <- app_assoc.
  - unfold map_keys. rewrite fmap_app, <- app_assoc. cbn. apply NoDup_app. auto.
  - intros e' He'. apply Hl. by right.
Qed.

Lemma load_ok m l f :
  disk_ok l → load m l f = Ok (MkInbox m ((λ e, (e_id e, e)) <$> l) [] false l f).
Proof. intros [Hnd Hl]. unfold load. by rewrite load_entries. Qed.

Lemma loaded_entries_ok l : disk_ok l → entries_ok ((λ e, (e_id e, e)) <$> l).
Proof.
  intros [Hnd Hl]. assert (Hwf : map_wf ((λ e, (e_id e, e)) <$> l)).
  { unfold map_wf, map_keys. by rewrite <- list_fmap_compose. }
  split; [done|]. intros k e Hg%map_get_elem. apply list_elem_of_fmap in Hg as (e' & [= -> ->] & Hin).
  by destruct (Hl _ Hin).
Qed.

(** Writing the entries and loading the file gives the entries back. *)
Lemma load_values m es f :
  entries_ok es → load m (map_values es) f = Ok (MkInbox m es [] false (map_values es) f).
Proof.
  intros Hok. rewrite load_ok by by apply values_disk_ok. do 2 f_equal.
  destruct Hok as [Hwf He]. unfold map_values. rewrite <- list_fmap_compose.
  transitivity (id <$> es); [|apply list_fmap_id]. apply Forall_fmap_ext, Forall_forall.
  intros [k e] Hin. cbn. apply map_get_in in Hin; [|done]. by destruct (He _ _ Hin) as [-> _].
Qed.

Lemma entries_ok_set k e es :
  entries_ok es → e_id e = k → k ≠ "" → truthy (e_envelope e) = true → entries_ok (map_set k e es).
Proof.
  intros [Hwf He] Hk Hne Ht. split; [by apply map_wf_set|]. intros k' e'. rewrite map_get_set.
  case_decide as Hkk; [intros [= <-]; by subst|apply He].
Qed.

Lemma entries_ok_delete k es : entries_ok es → entries_ok (map_delete k es).
Proof.
  intros [Hwf He]. split; [by apply map_wf_delete|]. intros k' e'. rewrite map_get_delete.
  case_decide; [done|apply He].
Qed.

(** ** Accepted work is kept *)

(** The file holds the work [id], unfinished or failed, and so do the entries
    as long as writes go through. *)
Definition unfinished (id : string) (es : jsmap string entry) : Prop :=
  ∃ e, map_get id es = Some e ∧ e_status e ≠ Completed.

Record kept (id : string) (s : inbox) : Prop := {
  kept_entries : entries_ok (entries s);
  kept_disk : disk_ok (disk s);
  kept_file : ∃ e, e ∈ disk s ∧ e_id e = id ∧ e_status e ≠ Completed;
  kept_memory : writeQueue_rejected s = false → unfinished id (entries s)
}.

Lemma kept_with_entries id es s :
  kept id s → entries_ok es → (unfinished id (entries s) → unfinished id es) →
  kept id (with_entries es s).
Proof. intros [H1 H2 H3 H4] Hok Hu. constructor; cbn; auto. Qed.

Lemma kept_persist id s : kept id s → kept id (persist s).1.
Proof.
  intros Hk. pose proof Hk as [H1 H2 H3 H4]. unfold persist.
  destruct (writeQueue_rejected s) eqn:Hr; [done|].
  assert (Hok : kept id (MkInbox (maxCompleted s) (entries s) (inFlight s) false
                           (map_values (entries s)) (tail (fs s)))).
  { constructor; cbn; [done|by apply values_disk_ok| |auto]. destruct (H4 eq_refl) as (e & He & Hs).
    exists e. pose proof (proj2 H1 _ _ He) as [Hid _]. split; [|done].
    apply elem_of_values; [done|]. by rewrite Hid. }
  destruct (fs s) as [|[] fs]; [done..|]. by constructor.
Qed.

Lemma unfinished_set id k e es :
  (k = id → e_status e ≠ Completed) → unfinished id es → unfinished id (map_set k e es).
Proof.
  intros Hk (e0 & He & Hs). unfold unfinished. setoid_rewrite map_get_set.
  destruct (decide (id = k)) as [->|]; eauto.
Qed.

Lemma trim_keeps id (l : list entry) es :
  entries_ok es → (∀ e, e ∈ l → e_id e ≠ id) → unfinished id es →
  entries_ok (fold_left (λ es e, map_delete (e_id e) es) l es) ∧
  unfinished id (fold_left (λ es e, map_delete (e_id e) es) l es).
Proof.
  revert es. induction l as [|e l IH]; intros es Hok Hl Hu; [done|]. cbn [fold_left]. apply IH.
  - by apply entries_ok_delete.
  - intros e' He'. apply Hl. by right.
  - destruct Hu as (e0 & He0 & Hs). exists e0. rewrite map_get_delete. split; [|done].
    rewrite decide_False; [done|]. intros ->. apply (Hl e); [left|done].
Qed.

Lemma trim_entries_ok (l : list entry) es :
  entries_ok es → entries_ok (fold_left (λ es e, map_delete (e_id e) es) l es).
Proof. revert es. induction l as [|e l IH]; intros es Hok; [done|]. cbn. apply IH. by apply entries_ok_delete. Qed.

Lemma kept_trim id s : kept id s → kept id (trimCompleted s).
Proof.
  intros Hk. pose proof Hk as [H1 _ _ _]. unfold trimCompleted.
  apply kept_with_entries; [done|by apply trim_entries_ok|]. intros Hu.
  apply trim_keeps; try done. intros e He Hid.
  apply elem_of_take_list in He. rewrite elem_of_sort_by in He. apply list_elem_of_filter in He as [Hs He].
  apply elem_of_values in He; [|done]. rewrite Hid in He.
  destruct Hu as (e0 & He0 & Hs0). congruence.
Qed.

Lemma kept_accept id now env c s : kept id s → kept id (accept now env c s).1.
Proof.
  intros Hk. unfold accept. destruct (oprop env "id") as [| | | | |j| |] eqn:Hj; try done.
  destruct (nonempty_str j) eqn:Hne; [|done]. cbn [negb]. apply nonempty_str_true in Hne.
  erewrite M_bind_step by reflexivity. destruct (map_get j (entries s)) eqn:Hg; [done|].
  erewrite M_bind_step by reflexivity.
  set (s1 := with_entries _ s).
  assert (kept id s1) as Hk1.
  { apply kept_with_entries; [done| |by apply unfinished_set].
    apply entries_ok_set; try done; [apply Hk|]. by destruct env. }
  pose proof (kept_persist id s1 Hk1) as Hp. destruct (persist s1) as [s2 [[]|e]] eqn:Hps.
  - by rewrite (M_bind_step _ _ _ _ _ Hps).
  - by rewrite (M_bind_throw _ _ _ _ _ Hps).
Qed.

Lemma kept_update id j e s :
  kept id s → e_id e = j → j ≠ "" → truthy (e_envelope e) = true → (j = id → e_status e ≠ Completed) →
  kept id (with_entries (map_set j e (entries s)) s).
Proof.
  intros Hk Hj Hne Ht Hs. apply kept_with_entries; [done| |by apply unfinished_set].
  apply entries_ok_set; try done. apply Hk.
Qed.

Lemma kept_complete id now j r s : j ≠ id → kept id s → kept id (complete now j r s).1.
Proof.
  intros Hne Hk. unfold complete. erewrite M_bind_step by reflexivity.
  destruct (map_get j (entries s)) as [e|] eqn:Hg; [|done].
  destruct (proj2 (kept_entries _ _ Hk) _ _ Hg) as (Hid & Hj & Ht).
  erewrite M_bind_step by reflexivity. apply kept_persist, kept_trim, kept_update; done.
Qed.

Lemma kept_fail id now j err s : kept id s → kept id (fail now j err s).1.
Proof.
  intros Hk. unfold fail. erewrite M_bind_step by reflexivity.
  destruct (map_get j (entries s)) as [e|] eqn:Hg; [|done].
  destruct (proj2 (kept_entries _ _ Hk) _ _ Hg) as (Hid & Hj & Ht).
  erewrite M_bind_step by reflexivity. apply kept_persist, kept_update; done.
Qed.

Lemma kept_throwing id {A B} (m : M inbox A) (f : A → M inbox B) s :
  kept id (m s).1 → (∀ a s', kept id s' → kept id (f a s').1) → kept id ((x ← m; f x) s).1.
Proof.
  intros Hm Hf. destruct (m s) as [s' [a|e]] eqn:Hms.
  - rewrite (M_bind_step _ _ _ _ _ Hms). by apply Hf.
  - by rewrite (M_bind_throw _ _ _ _ _ Hms).
Qed.

Lemma kept_settle id handler now j env c rec s :
  (j = id → ∀ env c rec, is_ok (handler env c rec) = false) →
  kept id s → kept id (settle handler now j env c rec s).1.
Proof.
  intros Hh Hk. unfold settle, catch_with.
  assert (Hinner : kept id ((r ← lift_result (handler env c rec); _ ← complete now j r; mret r) s).1).
  { destruct (handler env c rec) as [r|e] eqn:Hr; [|done].
    erewrite M_bind_step by reflexivity. apply kept_throwing; [|done].
    apply kept_complete; [|done]. intros ->. specialize (Hh eq_refl env c rec). by rewrite Hr in Hh. }
  destruct ((r ← lift_result _; _) s) as [s' [r|err]]; [done|]. cbn [fst] in *.
  apply kept_throwing; [by apply kept_fail|done].
Qed.

Lemma kept_execute id handler shared rec now e s :
  e_id e ≠ "" → (e_id e = id → ∀ env c rec, is_ok (handler env c rec) = false) →
  kept id s → kept id (execute handler shared rec now e s).1.
Proof.
  intros Hne Hh Hk. unfold execute. erewrite M_bind_step by reflexivity.
  erewrite M_bind_step by reflexivity. set (s1 := with_inFlight _ _).
  assert (kept id s1) as Hk1.
  { enough (kept id (mark_attempt shared now (e_id e) s)) as [H1 H2 H3 H4] by (by constructor).
    unfold mark_attempt. destruct shared; [|done].
    destruct (map_get (e_id e) (entries s)) as [e0|] eqn:Hg; [|done].
    destruct (proj2 (kept_entries _ _ Hk) _ _ Hg) as (Hid & Hj & Ht).
    destruct (decide (e_id e = id)) as [Heq|Hneq].
    - apply kept_with_entries; [done|apply entries_ok_set; try done; apply Hk|].
      intros (e1 & He1 & Hs1). apply unfinished_set; [|by exists e1]. intros _. cbn. congruence.
    - by apply kept_update. }
  apply kept_throwing; [by apply kept_persist|]. intros _ s2 Hk2. unfold finally.
  pose proof (kept_settle id handler now (e_id e) (e_envelope e) (e_context e) rec s2 Hh Hk2) as Hs.
  destruct (settle _ _ _ _ _ _ s2) as [s3 r]. cbn [fst] in *. destruct Hs. by constructor.
Qed.

(** Calls and restarts. *)
Inductive op :=
| Run (handler : handler_type) (now : string) (envelope context : jval)
| Restart (maxCompleted : nat) (fs : list bool).

Definition run_op (o : op) (s : inbox) : inbox :=
  match o with
  | Run handler now envelope context => (run handler now envelope context s).1
  | Restart m fs => match load m (disk s) fs with Ok s' => s' | Throw _ => s end
  end.

(** A handler of this call may succeed on the work [id]. *)
Definition may_finish (id : string) (o : op) : Prop :=
  match o with
  | Run handler _ envelope _ =>
      oprop envelope "id" = JStr id ∧ ∃ env c rec, is_ok (handler env c rec) = true
  | Restart _ _ => False
  end.

Lemma accept_id now env c s s' e :
  accept now env c s = (s', Ok e) → entries_ok (entries s) →
  oprop env "id" = JStr (e_id e) ∧ e_id e ≠ "".
Proof.
  unfold accept. destruct (oprop env "id") as [| | | | |j| |]; try done.
  destruct (nonempty_str j) eqn:Hne; [|done]. cbn [negb]. apply nonempty_str_true in Hne.
  erewrite M_bind_step by reflexivity. destruct (map_get j (entries s)) as [e0|] eqn:Hg.
  - intros [= <- <-] Hok. by destruct (proj2 Hok _ _ Hg) as [-> _].
  - erewrite M_bind_step by reflexivity. intros Hp _.
    apply M_bind_Ok_inv in Hp as (s1 & [] & _ & [= <- <-]). done.
Qed.

Lemma kept_run_op id o s : ¬ may_finish id o → kept id s → kept id (run_op o s).
Proof.
  intros Hno Hk. destruct o as [handler now env c|m f]; cbn [run_op].
  - unfold run. destruct (oprop env "id") as [| | | | |j| |] eqn:Hj; try done.
    erewrite M_bind_step by reflexivity.
    assert (Hh : j = id → ∀ env c rec, is_ok (handler env c rec) = false).
    { intros -> env' c' rec'. destruct (is_ok _) eqn:Ho; [|done]. destruct Hno. cbn. eauto 6. }
    unfold classify. destruct (map_get j (entries s)) as [e|] eqn:Hg.
    + destruct (proj2 (kept_entries _ _ Hk) _ _ Hg) as (Hid & Hne & _).
      destruct (e_status e); [|done..]. case_bool_decide; [done|].
      apply kept_execute; [by rewrite Hid|by rewrite Hid|done].
    + case_bool_decide; [done|]. destruct (accept now env c s) as [s1 [e|err]] eqn:Ha.
      * rewrite (M_bind_step _ _ _ _ _ Ha). pose proof (kept_accept id now env c s Hk) as Hk1.
        destruct (accept_id _ _ _ _ _ _ Ha (kept_entries _ _ Hk)) as [Hj' Hne].
        rewrite Ha in Hk1. rewrite Hj in Hj'. injection Hj' as ->. by apply kept_execute.
      * rewrite (M_bind_throw _ _ _ _ _ Ha). pose proof (kept_accept id now env c s Hk) as Hk1.
        by rewrite Ha in Hk1.
  - destruct Hk as [H1 H2 H3 H4]. rewrite load_ok by done.
    constructor; cbn; [by apply loaded_entries_ok|done|done|]. intros _.
    destruct H3 as (e & He & Hid & Hs). exists e. split; [|done].
    pose proof (loaded_entries_ok _ H2) as Hok. rewrite <- Hid. apply elem_of_values; [done|].
    unfold map_values. rewrite <- list_fmap_compose. cbn. rewrite list_elem_of_fmap. by exists e.
Qed.

(** A new piece of work that was acknowledged is in the file. *)
Lemma accept_kept now env c s s0 e :
  entries_ok (entries s) → disk_ok (disk s) →
  map_get (e_id e) (entries s) = None → accept now env c s = (s0, Ok e) → kept (e_id e) s0.
Proof.
  intros Hok Hd Hnew Ha. destruct (accept_id _ _ _ _ _ _ Ha Hok) as [Hid Hne].
  unfold accept in Ha. rewrite Hid in Ha. rewrite (proj2 (nonempty_str_true _) Hne) in Ha. cbn [negb] in Ha.
  erewrite M_bind_step in Ha by reflexivity. rewrite Hnew in Ha.
  erewrite M_bind_step in Ha by reflexivity.
  set (e1 := Entry (e_id e) _ _ _ _ _ _ _ _) in Ha. set (s1 := with_entries _ s) in Ha.
  apply M_bind_Ok_inv in Ha as (s2 & [] & Hp & [= <- _]).
  assert (Hok1 : entries_ok (entries s1)).
  { apply entries_ok_set; try done. by destruct env. }
  unfold persist in Hp. destruct (writeQueue_rejected s1); [done|].
  assert (∃ f, s2 = MkInbox (maxCompleted s1) (entries s1) (inFlight s1) false (map_values (entries s1)) f)
    as [f ->] by (destruct (fs s1) as [|[] l]; try done; injection Hp as <-; by eexists).
  assert (Hg : map_get (e_id e) (entries s1) = Some e1) by (cbn; by rewrite map_get_set, decide_True).
  constructor; cbn [entries disk writeQueue_rejected]; [done|by apply values_disk_ok| |].
  - exists e1. split; [|done]. by apply elem_of_values.
  - intros _. by exists e1.
Qed.

(** C32: accepted work survives.  Once a new piece of work is acknowledged by a
    well-formed inbox, it stays in the file and out of the completed state
    through any sequence of calls, failing writes and restarts until a handler
    succeeds on it, and every restart finds it again unfinished. *)
Theorem accepted_work_survives now env c s s0 e ops :
  entries_ok (entries s) → disk_ok (disk s) → map_get (e_id e) (entries s) = None →
  accept now env c s = (s0, Ok e) → Forall (λ o, ¬ may_finish (e_id e) o) ops →
  let s' := fold_left (λ s o, run_op o s) ops s0 in
  (∃ e', e' ∈ disk s' ∧ e_id e' = e_id e ∧ e_status e' ≠ Completed) ∧
  ∀ m f, ∃ s'', load m (disk s') f = Ok s'' ∧ unfinished (e_id e) (entries s'').
Proof.
  intros Hok Hd Hnew Ha Hops. pose proof (accept_kept _ _ _ _ _ _ Hok Hd Hnew Ha) as Hk.
  assert (kept (e_id e) (fold_left (λ s o, run_op o s) ops s0)) as Hk'.
  { clear Ha. revert s0 Hk. induction Hops as [|o ops Ho Hops IH]; intros s0 Hk; [done|]. cbn.
    apply IH. by apply kept_run_op. }
  cbv zeta. split; [apply Hk'|]. intros m f.
  exists (run_op (Restart m f) (fold_left (λ s o, run_op o s) ops s0)). cbn [run_op].
  rewrite load_ok by apply Hk'. split; [done|].
  assert (kept (e_id e) (run_op (Restart m f) (fold_left (λ s o, run_op o s) ops s0))) as Hr
    by (apply kept_run_op; [by intros []|done]).
  cbn [run_op] in Hr. rewrite load_ok in Hr by apply Hk'. by apply Hr.
Qed.

(** ** Results are replayed *)

Lemma trim_get k (l : list entry) (es : jsmap string entry) :
  map_get k (fold_left (λ es e, map_delete (e_id e) es) l es) = None ∨
  map_get k (fold_left (λ es e, map_delete (e_id e) es) l es) = map_get k es.
Proof.
  revert es. induction l as [|e l IH]; intros es; [by right|]. cbn [fold_left].
  destruct (IH (map_delete (e_id e) es)) as [Hn|Hn]; [by left|]. rewrite Hn, map_get_delete.
  case_decide; auto.
Qed.

Lemma persist_Ok s s' :
  persist s = (s', Ok tt) →
  entries s' = entries s ∧ writeQueue_rejected s' = false ∧ disk s' = map_values (entries s').
Proof.
  unfold persist. destruct (writeQueue_rejected s); [done|].
  destruct (fs s) as [|[] l]; try done; by intros [= <-].
Qed.

Lemma mark_attempt_ok shared now id s : entries_ok (entries s) → entries_ok (entries (mark_attempt shared now id s)).
Proof.
  intros Hok. unfold mark_attempt. destruct shared; [|done].
  destruct (map_get id (entries s)) as [e|] eqn:Hg; [|done].
  destruct (proj2 Hok _ _ Hg) as (? & ? & ?). by apply entries_ok_set.
Qed.

(** The recorded outcome of an execution that returned. *)
Definition recorded (id : string) (r : jval) (s : inbox) : Prop :=
  entries_ok (entries s) ∧
  (writeQueue_rejected s = false → disk s = map_values (entries s)) ∧
  (map_get id (entries s) = None ∨
   ∃ e, map_get id (entries s) = Some e ∧ e_status e = Completed ∧ e_result e = r).

Lemma complete_recorded now id r s s' :
  entries_ok (entries s) → complete now id r s = (s', Ok tt) → recorded id r s'.
Proof.
  intros Hok. unfold complete. erewrite M_bind_step by reflexivity.
  destruct (map_get id (entries s)) as [e|] eqn:Hg; [|done].
  erewrite M_bind_step by reflexivity. intros (Hes & _ & Hd)%persist_Ok.
  destruct (proj2 Hok _ _ Hg) as (Hid & Hne & Ht).
  set (e' := Entry _ Completed _ _ _ _ _ _ _) in *.
  assert (Hok' : entries_ok (map_set id e' (entries s))) by by apply entries_ok_set.
  unfold recorded. rewrite Hes. unfold trimCompleted. cbn [with_entries entries].
  split; [by apply trim_entries_ok|]. split.
  - intros _. by rewrite Hd, Hes.
  - edestruct trim_get as [->| ->]; [by left|]. right. exists e'. by rewrite map_get_set, decide_True.
Qed.

Lemma execute_recorded handler shared rec now e s s' r :
  entries_ok (entries s) → execute handler shared rec now e s = (s', Ok r) → recorded (e_id e) r s'.
Proof.
  intros Hok. unfold execute. erewrite M_bind_step by reflexivity. erewrite M_bind_step by reflexivity.
  intros (s1 & [] & (Hes & _ & _)%persist_Ok & Hf)%M_bind_Ok_inv. unfold finally in Hf.
  destruct (settle _ _ _ _ _ _ s1) as [s2 r2] eqn:Hs. injection Hf as <- ->.
  unfold settle, catch_with in Hs.
  destruct ((r ← lift_result _; _) s1) as [s3 [r3|err]] eqn:Hin.
  - injection Hs as -> ->. apply M_bind_Ok_inv in Hin as (s4 & r4 & Hl & Hin).
    injection Hl as -> Hh. apply M_bind_Ok_inv in Hin as (s5 & [] & Hc & [= -> ->]).
    apply complete_recorded in Hc; [done|]. rewrite Hes. cbn. by apply mark_attempt_ok.
  - exfalso. unfold mbind, M_bind in Hs. by destruct (fail now _ err s3) as [s4 []].
Qed.

Lemma run_recorded handler now env c id s s' r :
  oprop env "id" = JStr id → entries_ok (entries s) →
  (writeQueue_rejected s = false → disk s = map_values (entries s)) →
  run handler now env c s = (s', Ok r) → recorded id r s'.
Proof.
  intros Hid Hok Hsync. unfold run. rewrite Hid. erewrite M_bind_step by reflexivity.
  unfold classify. destruct (map_get id (entries s)) as [e|] eqn:Hg.
  - destruct (proj2 Hok _ _ Hg) as (He & _ & _). destruct (e_status e) eqn:Hst.
    + case_bool_decide; [done|]. intros Hx. rewrite <- He. by eapply execute_recorded.
    + intros [= <- <-]. split; [done|]. split; [done|]. right. by exists e.
    + done.
  - case_bool_decide; [done|]. intros (s1 & e & Ha & Hx)%M_bind_Ok_inv.
    destruct (accept_id _ _ _ _ _ _ Ha Hok) as [Hj Hne]. rewrite Hid in Hj. injection Hj as ->.
    apply execute_recorded in Hx; [done|].
    unfold accept in Ha. rewrite Hid in Ha. rewrite (proj2 (nonempty_str_true _) Hne) in Ha. cbn [negb] in Ha.
    erewrite M_bind_step in Ha by reflexivity. rewrite Hg in Ha. erewrite M_bind_step in Ha by reflexivity.
    apply M_bind_Ok_inv in Ha as (s2 & [] & (Hes & _ & _)%persist_Ok & [= <- _]).
    rewrite Hes. apply entries_ok_set; try done. by destruct env.
Qed.

(** A finished piece of work is not done again.  When [run] returned a
    result and the work is still recorded, every later call with the same
    identifier returns that result and changes nothing, whatever its handler
    would do; so does every call after a restart from the file, when writes
    went through. *)
Theorem result_replayed handler handler' now now' env env' c c' id s s' r m f :
  oprop env "id" = JStr id → oprop env' "id" = JStr id → entries_ok (entries s) →
  (writeQueue_rejected s = false → disk s = map_values (entries s)) →
  run handler now env c s = (s', Ok r) → is_Some (map_get id (entries s')) →
  run handler' now' env' c' s' = (s', Ok r) ∧
  (writeQueue_rejected s' = false →
   ∃ s'', load m (disk s') f = Ok s'' ∧ run handler' now' env' c' s'' = (s'', Ok r)).
Proof.
  intros Hid Hid' Hok Hsync Hr [e He].
  destruct (run_recorded _ _ _ _ _ _ _ _ Hid Hok Hsync Hr) as (Hok' & Hd & [Hn|(e' & He' & Hc & <-)]); [congruence|].
  assert (Hrun : ∀ s, entries s = entries s' → run handler' now' env' c' s = (s, Ok (e_result e'))).
  { intros s0 Hs0. unfold run. rewrite Hid'. erewrite M_bind_step by reflexivity.
    unfold classify. by rewrite Hs0, He', Hc. }
  split; [by apply Hrun|]. intros Hw. rewrite (Hd Hw), load_values by done.
  eexists. split; [done|]. by apply Hrun.
Qed.

(** ** What goes wrong *)

(** One failed write is never recovered from.  After it, no call writes the
    file again, and every call that would accept or execute work fails, for as
    long as the process lives. *)
Theorem write_failure_is_permanent handler now env c id s :
  writeQueue_rejected s = true → oprop env "id" = JStr id →
  let '(s', r) := run handler now env c s in
  writeQueue_rejected s' = true ∧ disk s' = disk s ∧
  (match classify id s with Replay _ => True | _ => is_ok r = false end).
Proof.
  intros Hw Hid. unfold run. rewrite Hid. erewrite M_bind_step by reflexivity.
  assert (Hp : ∀ s0, writeQueue_rejected s0 = true → persist s0 = (s0, Throw write_failed))
    by (intros s0 H0; unfold persist; by rewrite H0).
  assert (Hx : ∀ b b' e s0, writeQueue_rejected s0 = true →
    ∃ s1, execute handler b b' now e s0 = (s1, Throw write_failed) ∧
      writeQueue_rejected s1 = true ∧ disk s1 = disk s0).
  { intros b b' e s0 H0. unfold execute. erewrite M_bind_step by reflexivity.
    erewrite M_bind_step by reflexivity. set (s1 := with_inFlight _ _).
    assert (writeQueue_rejected s1 = true ∧ disk s1 = disk s0) as [H1 Hd1].
    { subst s1. cbn. unfold mark_attempt. destruct b; [|done]. by destruct (map_get _ _). }
    exists s1. split; [|done]. exact (M_bind_throw _ _ _ _ _ (Hp s1 H1)). }
  destruct (classify id s) as [r|e| |e|] eqn:Hc; [done..| |].
  - by destruct (Hx true true e s Hw) as (s1 & -> & ? & ?).
  - assert (Ha : ∃ s1 err, accept now env c s = (s1, Throw err) ∧
      writeQueue_rejected s1 = true ∧ disk s1 = disk s).
    { unfold accept. rewrite Hid. destruct (nonempty_str id); [|by eauto]. cbn [negb].
      erewrite M_bind_step by reflexivity. unfold classify in Hc.
      destruct (map_get id (entries s)) as [e|] eqn:Hg.
      { exfalso. destruct (e_status e); try done. by case_bool_decide. }
      erewrite M_bind_step by reflexivity. set (s1 := with_entries _ s).
      exists s1, write_failed. split; [|done].
      exact (M_bind_throw _ _ _ _ _ (Hp s1 Hw)). }
    destruct Ha as (s1 & err & Ha & ? & ?). by rewrite (M_bind_throw _ _ _ _ _ Ha).
Qed.

(** Two calls that overlap can both execute the same work: once the first
    call has recorded a new piece of work, and until its execution starts, a
    second call with the same identifier is told to execute it too. *)
Theorem overlapping_calls_execute now env c id s :
  oprop env "id" = JStr id → id ≠ "" → map_get id (entries s) = None → id ∉ inFlight s →
  classify id s = AcceptFirst ∧
  ∃ e, classify id (accept now env c s).1 = Execute e ∧ e_id e = id.
Proof.
  intros Hid Hne Hnew Hfl. unfold classify. rewrite Hnew, bool_decide_eq_false_2 by done.
  split; [done|]. unfold accept. rewrite Hid, (proj2 (nonempty_str_true _) Hne). cbn [negb].
  erewrite M_bind_step by reflexivity. rewrite Hnew. erewrite M_bind_step by reflexivity.
  set (e1 := Entry id _ _ _ _ _ _ _ _). set (s1 := with_entries _ s).
  assert (He : map_get id (entries s1) = Some e1) by (cbn; by rewrite map_get_set, decide_True).
  exists e1. assert (Hp : entries (persist s1).1 = entries s1 ∧ inFlight (persist s1).1 = inFlight s).
  { unfold persist. destruct (writeQueue_rejected s1); [done|]. by destruct (fs s1) as [|[] ?]. }
  destruct Hp as [Hpe Hpf].
  assert (Hfst : ((_ ← persist; mret e1) s1).1 = (persist s1).1).
  { destruct (persist s1) as [s2 [[]|err]] eqn:Hp.
    - by rewrite (M_bind_step _ _ _ _ _ Hp).
    - by rewrite (M_bind_throw _ _ _ _ _ Hp). }
  rewrite Hfst, Hpe, He, Hpf. cbn. by rewrite bool_decide_eq_false_2.
Qed.

End inbox.

(** ** A concrete inbox *)

Definition toy_envelope : jval := JObj [("id", JStr "w1"); ("n", JNum (JInt 1))].
Definition toy_inbox : inbox := MkInbox 2 [] [] false [] [].
Definition succeeds : handler_type := λ env _ _, Ok (oprop env "n").
Definition crashes : handler_type := λ _ _ _, Throw (error "boom").

Lemma accepted_work_survives_witness :
  ∃ e', e' ∈ disk (fold_left (λ s o, run_op (H := Toy.host) o s)
                      [Run crashes "t2" toy_envelope JNull; Restart 2 [true]]
                      (accept "t1" toy_envelope JNull toy_inbox).1) ∧
        e_id e' = "w1" ∧ e_status e' ≠ Completed.
Proof.
  apply (accepted_work_survives (H := Toy.host) "t1" toy_envelope JNull toy_inbox
           (accept "t1" toy_envelope JNull toy_inbox).1
           (Entry "w1" Pending toy_envelope (Context None None) 0 "t1" "t1" JNull None)
           [Run crashes "t2" toy_envelope JNull; Restart 2 [true]]).
  - split; [constructor|by intros k e [=]].
  - split; [constructor|by intros e ?%elem_of_nil].
  - reflexivity.
  - reflexivity.
  - repeat constructor; cbn; [|by intros []]. by intros (_ & _ & _ & _ & [=]).
Defined.

Lemma result_replayed_witness :
  (run (H := Toy.host) crashes "t3" toy_envelope JNull
     (run (H := Toy.host) succeeds "t2" toy_envelope JNull toy_inbox).1).2 = Ok (JNum (JInt 1)).
Proof.
  destruct (result_replayed (H := Toy.host) succeeds crashes "t2" "t3" toy_envelope toy_envelope JNull JNull
    "w1" toy_inbox (run (H := Toy.host) succeeds "t2" toy_envelope JNull toy_inbox).1 (JNum (JInt 1)) 2 [])
    as [-> _]; try reflexivity.
  - split; [constructor|by intros k e [=]].
  - vm_compute. by eexists.
Defined.

Definition failed_inbox : inbox := (persist (MkInbox 2 [] [] false [] [false])).1.

Lemma write_failure_is_permanent_witness :
  is_ok (run (H := Toy.host) succeeds "t2" toy_envelope JNull failed_inbox).2 = false.
Proof.
  pose proof (write_failure_is_permanent (H := Toy.host) succeeds "t2" toy_envelope JNull "w1" failed_inbox
                eq_refl eq_refl) as Hw.
  destruct (run _ _ _ _ failed_inbox) as [s' r]. destruct Hw as (_ & _ & Hr). exact Hr.
Defined.

Lemma overlapping_calls_execute_witness :
  ∃ e, classify "w1" (accept "t1" toy_envelope JNull toy_inbox).1 = Execute e ∧ e_id e = "w1".
Proof.
  apply (overlapping_calls_execute "t1" toy_envelope JNull "w1" toy_inbox);
    [reflexivity|done|reflexivity|by intros ?%elem_of_nil].
Defined.

End Inbox.
