(* ===== verification/Transparency.v ===== *)
(** * The transparency log

    Models core/trust/transparency-log.js: an append-only, hash-chained log of
    signed entries per source owner, its head and revocation state, and the
    ingestion of entries from other replicas.  The log file is the list of the
    values written to it, one per line; a line is written whole or not at all
    ([fs] says which). *)
From S2P Require Import Prelude JSMap JSValue JsonPrint Dates Host Protocol.
Import Canonical Keys.

Module Log.

Definition TRANSPARENCY_LOG_VERSION : Z := 2.
Definition TRANSPARENCY_ENTRY_PROTOCOL : string := "truyn-transparency-entry-v2".
Definition TRANSPARENCY_EVENT_TYPES : list string := ["ROOT"; "DELEGATE"; "LIFECYCLE"; "REVOKE"; "ROTATE"].
Definition ZERO_HASH : string := "sha256:" +:+ zeros 64.

Definition unsigned_members (entry : jval) : list (string * jval) :=
  match entry with
  | JObj kvs => remove_key "entryHash" (remove_key "publicKey" (remove_key "signature" kvs))
  | _ => []
  end.
Definition unsignedEntry (entry : jval) : jval := JObj (unsigned_members entry).

Record log := MkLog {
  sourceOwnerId : string;
  logId : string;
  entries : list jval;
  file : list jval;
  fs : list bool
}.

Definition sequence_or_zero (e : option jval) : jval :=
  match e with Some e => js_or (oprop e "sequence") (JNum (JInt 0)) | None => JNum (JInt 0) end.
Definition hash_or_zero (e : option jval) : jval :=
  match e with Some e => js_or (oprop e "entryHash") (JStr ZERO_HASH) | None => JStr ZERO_HASH end.

(** [(previous?.sequence || 0) + 1] on the integers the log holds *)
Definition successor (v : jval) : jval :=
  match v with JNum (JInt n) => JNum (JInt (n + 1)) | _ => JNum JNaN end.

Definition fork_detected : jerror := error_code "transparency_fork_detected" "transparency_fork_detected".
Definition chain_mismatch : jerror := error "transparency_log_gap_or_chain_mismatch".

Section log.
Context `{Host} `{Coercions}.

Definition transparencyLogId (owner : jval) : result string :=
  match owner with
  | JStr s =>
      if negb (nonempty_str (trim s)) then Throw (error "sourceOwnerId is required")
      else d ← digest (JObj [("sourceOwnerId", JStr (trim s))]);
           Ok ("truyn:transparency:" +:+ str_drop 7 d)
  | _ => Throw (error "sourceOwnerId is required")
  end.

(** The checks of [verifyTransparencyEntry]; a refusal is thrown with its
    reason, as a caught exception is. *)
Definition check_entry (expectedLogId expectedSourceOwnerId : string) (entry : jval) : result unit :=
  _ ← throw_if (existsb (λ k, negb (truthy (oprop entry k)))
                  ["protocol"; "logId"; "sourceOwnerId"; "sequence"; "eventType"; "signerNodeId";
                   "publicKey"; "signature"; "entryHash"])
        (error "transparency_entry_missing_field");
  _ ← throw_if (negb (eq_str (oprop entry "protocol") TRANSPARENCY_ENTRY_PROTOCOL) ||
                negb (eq_int (oprop entry "version") TRANSPARENCY_LOG_VERSION))
        (error "transparency_entry_protocol_mismatch");
  _ ← throw_if (negb (Envelope.includes TRANSPARENCY_EVENT_TYPES (oprop entry "eventType")))
        (error "transparency_entry_event_type_invalid");
  _ ← throw_if (nonempty_str expectedLogId && negb (eq_str (oprop entry "logId") expectedLogId))
        (error "transparency_entry_log_mismatch");
  _ ← throw_if (nonempty_str expectedSourceOwnerId &&
                negb (eq_str (oprop entry "sourceOwnerId") expectedSourceOwnerId))
        (error "transparency_entry_owner_mismatch");
  nodeId ← nodeIdFromPublicKey (oprop entry "publicKey");
  _ ← throw_if (negb (eq_str (oprop entry "signerNodeId") nodeId))
        (error "transparency_entry_signer_key_mismatch");
  hash ← digest (unsignedEntry entry);
  _ ← throw_if (negb (eq_str (oprop entry "entryHash") hash)) (error "transparency_entry_hash_mismatch");
  ok ← verifyValue (unsignedEntry entry) (oprop entry "signature") (oprop entry "publicKey");
  throw_if (negb ok) (error "transparency_entry_signature_invalid").

Definition verifyTransparencyEntry (expectedLogId expectedSourceOwnerId : string) (entry : jval) : verdict :=
  match check_entry expectedLogId expectedSourceOwnerId entry with
  | Ok _ => Accepted
  | Throw e => Rejected (e_message e)
  end.

(** ** Head and revocation state *)

Definition is_revoke (e : jval) : bool := eq_str (oprop e "eventType") "REVOKE".

Definition isRevoked (targetId : string) (l : log) : bool :=
  existsb (λ e, is_revoke e && eq_str (oprop e "targetId") targetId) (entries l).

Definition revocation_of (e : jval) : jval :=
  JObj [("targetId", oprop e "targetId"); ("entryHash", oprop e "entryHash"); ("sequence", oprop e "sequence")].

Definition revocation_leb (a b : jval) : bool :=
  let c := localeCompare (to_string (oprop a "targetId")) (to_string (oprop b "targetId")) in
  if bool_decide (c = 0)%Z then
    match js_minus_sign (oprop a "sequence") (oprop b "sequence") with Some Gt => false | _ => true end
  else bool_decide (c < 0)%Z.

(** The comparator reads [a.targetId.localeCompare], which throws on a target
    that is not a string as soon as two revocations are compared. *)
Definition revocations (es : list jval) : result (list jval) :=
  let rs := map revocation_of (List.filter is_revoke es) in
  if bool_decide (length rs ≤ 1) then Ok rs
  else if forallb (λ r, is_string (oprop r "targetId")) rs then Ok (sort_by revocation_leb rs)
  else Throw (error "localeCompare is not a function").

Definition stateDigest (l : log) : result string :=
  rs ← revocations (entries l);
  digest (JObj [("logId", JStr (logId l)); ("sequence", sequence_or_zero (last (entries l)));
                ("revocations", JArr rs)]).

Record log_head := LogHead {
  h_logId : string; h_sourceOwnerId : string; h_sequence : jval; h_headHash : jval;
  h_revocationStateDigest : string
}.

Definition head (l : log) : result log_head :=
  d ← stateDigest l;
  Ok (LogHead (logId l) (sourceOwnerId l) (sequence_or_zero (last (entries l)))
        (hash_or_zero (last (entries l))) d).

Record target_state := TargetState {
  t_targetId : string; t_revoked : bool; t_entryHash : jval; t_sequence : jval
}.

Definition target_status (rs : list jval) (targetId : string) : target_state :=
  match last (List.filter (λ r, eq_str (oprop r "targetId") targetId) rs) with
  | Some m => TargetState targetId true (js_or (oprop m "entryHash") JNull) (js_or (oprop m "sequence") JNull)
  | None => TargetState targetId false JNull JNull
  end.

(** [revocationState(targets)]: head part and the states of the targets. *)
Definition revocationState (targets : list string) (l : log) : result (log_head * list target_state) :=
  h ← head l;
  rs ← revocations (entries l);
  Ok (h, map (target_status rs) (sort_strings (uniq targets))).

Definition list_entries (fromSequence : Z) (l : log) : list jval :=
  List.filter (λ e, match oprop e "sequence" with JNum n => num_ge n fromSequence | _ => false end) (entries l).

(** ** Ingestion *)

Definition persist (entry : jval) : M log unit := λ l,
  match fs l with
  | false :: fs => (MkLog (sourceOwnerId l) (logId l) (entries l) (file l) fs, Throw (error "EIO"))
  | _ => (MkLog (sourceOwnerId l) (logId l) (entries l) (file l ++ [entry]) (tail (fs l)), Ok tt)
  end.

Definition push (entry : jval) (l : log) : log :=
  MkLog (sourceOwnerId l) (logId l) (entries l ++ [entry]) (file l) (fs l).

Definition ingest_one (persisted : bool) (entry : jval) : M log unit :=
  l ← get_state;
  _ ← lift_result
    (match verifyTransparencyEntry (logId l) (sourceOwnerId l) entry with
     | Accepted => Ok tt
     | Rejected reason => Throw (error reason)
     end);
  match position_before (oprop entry "sequence") ≫= λ i, entries l !! i with
  | Some existing =>
      guard_throw (negb (strict_eq (oprop existing "entryHash") (oprop entry "entryHash"))) fork_detected
  | None =>
      let previous := last (entries l) in
      _ ← guard_throw (negb (strict_eq (oprop entry "sequence") (successor (sequence_or_zero previous))) ||
                       negb (strict_eq (oprop entry "previousHash") (hash_or_zero previous)))
            chain_mismatch;
      _ ← modify (push entry);
      if persisted then persist entry else mret tt
  end.

Definition ingest (batch : list jval) (persisted : bool) : M log log_head :=
  _ ← for_each (ingest_one persisted) batch;
  l ← get_state;
  lift_result (head l).

(** [new DurableTransparencyLog(...)] and [open()] on a file *)
Definition open_log (owner : string) (lines : list jval) (f : list bool) : result (log * result log_head) :=
  _ ← throw_if (negb (nonempty_str owner)) (error "transparency log sourceOwnerId is required");
  id ← transparencyLogId (JStr owner);
  Ok (ingest lines false (MkLog owner id [] lines f)).

Definition append (identity eventType targetId payload : jval) (createdAt : string) : M log jval :=
  let targetId := with_default targetId JNull in
  let payload := with_default payload JNull in
  l ← get_state;
  _ ← guard_throw (negb (truthy (oprop identity "nodeId")) || negb (truthy (oprop identity "publicKeyPem")) ||
                   negb (truthy (oprop identity "privateKeyPem")))
        (error "transparency entry signer identity is invalid");
  nodeId ← lift_result (nodeIdFromPublicKey (oprop identity "publicKeyPem"));
  _ ← guard_throw (negb (eq_str (oprop identity "nodeId") nodeId))
        (error "transparency entry signer identity is invalid");
  _ ← guard_throw (negb (Envelope.includes TRANSPARENCY_EVENT_TYPES eventType))
        (error "transparency event type is invalid");
  _ ← guard_throw (eq_str eventType "REVOKE" && negb (is_string targetId && truthy targetId))
        (error "revocation targetId is required");
  payloadDigest ← lift_result (if nullish payload then Ok JNull else JStr <$> digest payload);
  stamp ← lift_result (date_toISOString (Date_parse createdAt));
  let previous := last (entries l) in
  let unsigned :=
    [("protocol", JStr TRANSPARENCY_ENTRY_PROTOCOL); ("version", JNum (JInt TRANSPARENCY_LOG_VERSION));
     ("logId", JStr (logId l)); ("sourceOwnerId", JStr (sourceOwnerId l));
     ("sequence", successor (sequence_or_zero previous)); ("previousHash", hash_or_zero previous);
     ("eventType", eventType); ("targetId", targetId); ("payloadDigest", payloadDigest);
     ("payload", payload); ("signerNodeId", oprop identity "nodeId"); ("createdAt", JStr stamp)] in
  entryHash ← lift_result (digest (JObj unsigned));
  signature ← lift_result (signValue (JObj unsigned) (string_or_empty (oprop identity "privateKeyPem")));
  let entry := JObj (unsigned ++ [("entryHash", JStr entryHash); ("publicKey", oprop identity "publicKeyPem");
                                  ("signature", JStr signature)]) in
  _ ← ingest [entry] true;
  mret entry.

(** ** The chain *)

(** What a verified entry guarantees. *)
Lemma check_entry_inv id owner e :
  check_entry id owner e = Ok tt →
  ∃ h, oprop e "entryHash" = JStr h ∧ digest (unsignedEntry e) = Ok h ∧ h ≠ "" ∧
       verifyValue (unsignedEntry e) (oprop e "signature") (oprop e "publicKey") = Ok true.
Proof.
  unfold check_entry. intros Hc.
  apply bind_Ok_inv in Hc as ([] & _ & Hc). apply bind_Ok_inv in Hc as ([] & _ & Hc).
  apply bind_Ok_inv in Hc as ([] & _ & Hc). apply bind_Ok_inv in Hc as ([] & _ & Hc).
  apply bind_Ok_inv in Hc as ([] & _ & Hc). apply bind_Ok_inv in Hc as (nodeId & _ & Hc).
  apply bind_Ok_inv in Hc as ([] & _ & Hc). apply bind_Ok_inv in Hc as (h & Hh & Hc).
  apply bind_Ok_inv in Hc as ([] & He & Hc). apply bind_Ok_inv in Hc as (ok & Hv & Hc).
  rewrite throw_if_Ok, negb_false_iff in He, Hc. subst ok. apply eq_str_true in He.
  exists h. split_and!; try done. intros ->. unfold digest in Hh.
  by apply bind_Ok_inv in Hh as (t & _ & Hh%Ok_inj).
Qed.

Definition previous (es : list jval) (i : nat) : option jval :=
  match i with O => None | S i => es !! i end.

(** Every entry is verified, numbered by its position and linked to its
    predecessor by hash. *)
Definition chain (id owner : string) (es : list jval) : Prop :=
  ∀ i e, es !! i = Some e →
    check_entry id owner e = Ok tt ∧
    oprop e "sequence" = JNum (JInt (Z.of_nat i + 1)) ∧
    oprop e "previousHash" = hash_or_zero (previous es i).

Definition log_ok (l : log) : Prop := chain (logId l) (sourceOwnerId l) (entries l).

Lemma strict_eq_num v z : strict_eq v (JNum (JInt z)) = true → v = JNum (JInt z).
Proof. destruct v as [| | | |[]| | |]; cbn; try done. intros. bool_hyps. congruence. Qed.

Lemma previous_last es : previous es (length es) = last es.
Proof. destruct es as [|e es] using rev_ind; [done|]. rewrite length_app, last_snoc, Nat.add_comm. cbn. by rewrite lookup_app_r, Nat.sub_diag. Qed.

Lemma previous_app es es' i : i ≤ length es → previous (es ++ es') i = previous es i.
Proof. destruct i as [|i]; cbn; [done|]. intros. by apply lookup_app_l. Qed.

Lemma last_sequence id owner es :
  chain id owner es → sequence_or_zero (last es) = JNum (JInt (Z.of_nat (length es))).
Proof.
  intros Hc. destruct es as [|e es _] using rev_ind; [done|].
  destruct (Hc (length es) e) as (_ & Hs & _); [by rewrite lookup_app_r, Nat.sub_diag|].
  rewrite last_snoc, length_app. cbn [sequence_or_zero length]. unfold js_or. rewrite Hs. cbn [truthy].
  rewrite bool_decide_eq_false_2 by lia. cbn. do 2 f_equal. lia.
Qed.

Lemma hash_or_zero_string id owner es e :
  chain id owner es → e ∈ es → ∃ h, hash_or_zero (Some e) = JStr h ∧ oprop e "entryHash" = JStr h.
Proof.
  intros Hc [i Hi]%list_elem_of_lookup. destruct (Hc i e Hi) as (Hv & _).
  destruct (check_entry_inv _ _ _ Hv) as (h & Hh & _ & Hne & _).
  exists h. split; [|done]. cbn. unfold js_or. rewrite Hh. cbn. by rewrite (proj2 (nonempty_str_true _) Hne).
Qed.

Lemma last_hash_string id owner es : chain id owner es → ∃ h, hash_or_zero (last es) = JStr h.
Proof.
  intros Hc. destruct (last es) as [e|] eqn:Hl; [|by eexists].
  destruct (hash_or_zero_string _ _ _ e Hc) as (h & Hh & _); [|by exists h].
  by apply last_Some_elem_of.
Qed.

(** An entry is refused, or already there, or the next one. *)
Lemma ingest_one_cases p e l :
  log_ok l →
  let out := ingest_one p e l in
  logId out.1 = logId l ∧ sourceOwnerId out.1 = sourceOwnerId l ∧
  ((entries out.1 = entries l ∧ file out.1 = file l ∧ fs out.1 = fs l) ∨
   (entries out.1 = entries l ++ [e] ∧ log_ok out.1 ∧
    (position_before (oprop e "sequence") ≫= λ i, entries l !! i) = None)).
Proof.
  intros Hok. cbv zeta. unfold ingest_one. erewrite M_bind_step by reflexivity.
  unfold verifyTransparencyEntry. destruct (check_entry (logId l) (sourceOwnerId l) e) as [[]|err] eqn:Hc;
    [|by split_and!; [..|left]]. erewrite M_bind_step by reflexivity.
  destruct (position_before _ ≫= _) as [ex|] eqn:Hpos; [by split_and!; [..|left]|].
  destruct (negb (strict_eq (oprop e "sequence") _) || _) eqn:Hg; [by split_and!; [..|left]|].
  erewrite M_bind_step by reflexivity. bool_hyps. rename H1 into Hs, H2 into Hp.
  rewrite (last_sequence _ _ _ Hok) in Hs. apply strict_eq_num in Hs.
  destruct (last_hash_string _ _ _ Hok) as [h Hh]. rewrite Hh in Hp. apply eq_str_true in Hp.
  erewrite M_bind_step by reflexivity.
  assert (Hok' : chain (logId l) (sourceOwnerId l) (entries l ++ [e])).
  { intros i e' Hi. destruct (decide (i < length (entries l))) as [Hlt|Hge].
    - rewrite lookup_app_l in Hi by done. rewrite previous_app by lia. by apply Hok.
    - rewrite lookup_app_r in Hi by lia. destruct (i - length (entries l)) as [|j] eqn:Hij; [|done].
      injection Hi as <-. assert (i = length (entries l)) as -> by lia.
      rewrite previous_app, previous_last by lia. split_and!; [done|done|congruence]. }
  assert (Hfin : ∀ out, logId out = logId l → sourceOwnerId out = sourceOwnerId l →
            entries out = entries l ++ [e] →
            logId out = logId l ∧ sourceOwnerId out = sourceOwnerId l ∧
            ((entries out = entries l ∧ file out = file l ∧ fs out = fs l) ∨
             (entries out = entries l ++ [e] ∧ log_ok out ∧ @None jval = None))).
  { intros out H1 H2 H3. split_and!; [done..|]. right. split_and!; try done.
    unfold log_ok. by rewrite H1, H2, H3. }
  destruct p; [|by apply Hfin]. unfold persist. cbn [fs push].
  destruct (fs l) as [|[] f]; by apply Hfin.
Qed.

Lemma ingest_all_ok p batch l :
  log_ok l →
  let out := (for_each (ingest_one p) batch l).1 in
  log_ok out ∧ logId out = logId l ∧ sourceOwnerId out = sourceOwnerId l ∧
  entries l `prefix_of` entries out.
Proof.
  revert l. induction batch as [|e batch IH]; intros l Hok; [done|].
  destruct (ingest_one_cases p e l Hok) as (Hid & Ho & Hcases).
  assert (log_ok (ingest_one p e l).1 ∧ entries l `prefix_of` entries (ingest_one p e l).1) as [Hok' Hp].
  { destruct Hcases as [(He & _ & _)|(He & Hok' & _)].
    - unfold log_ok. by rewrite Hid, Ho, He.
    - split; [done|]. rewrite He. by eexists. }
  destruct (ingest_one p e l) as [l1 [[]|err]] eqn:Hi.
  - rewrite (for_each_step _ _ _ _ _ Hi). cbn [fst] in *.
    destruct (IH l1 Hok') as (Ha & Hb & Hc & Hd). split_and!; [done|congruence..|by etrans].
  - cbn [for_each]. by rewrite (M_bind_throw _ _ _ _ _ Hi).
Qed.

Lemma ingest_fst batch p l : (ingest batch p l).1 = (for_each (ingest_one p) batch l).1.
Proof.
  unfold ingest. destruct (for_each _ batch l) as [l' [[]|e]] eqn:Hf.
  - by rewrite (M_bind_step _ _ _ _ _ Hf).
  - by rewrite (M_bind_throw _ _ _ _ _ Hf).
Qed.

(** C29: the log is append-only and hash-chained.  Whatever batch is ingested
    and wherever it is refused, the old entries remain a prefix of the new
    ones, and every entry is verified, numbered by its position and linked to
    its predecessor's hash. *)
Theorem ingest_append_only batch p l :
  log_ok l →
  entries l `prefix_of` entries (ingest batch p l).1 ∧ log_ok (ingest batch p l).1.
Proof. intros Hok. rewrite ingest_fst. by destruct (ingest_all_ok p batch l Hok) as (? & _ & _ & ?). Qed.

(** ** Agreement *)

Lemma lookup_remove_key k j (kvs : list (string * jval)) :
  k ≠ j → lookup_key k (remove_key j kvs) = lookup_key k kvs.
Proof.
  intros Hk. unfold remove_key. induction kvs as [|[n v] kvs IH]; [done|].
  rewrite filter_cons. cbn [fst]. destruct (decide (n ≠ j)); cbn [lookup_key]; rewrite IH; [done|].
  rewrite decide_False; [done|]. intros ->. by apply n0.
Qed.

Lemma oprop_unsigned e k :
  k ≠ "entryHash" → k ≠ "publicKey" → k ≠ "signature" → oprop (unsignedEntry e) k = oprop e k.
Proof.
  intros. destruct e; try done. cbn [oprop unsignedEntry unsigned_members].
  by rewrite !lookup_remove_key.
Qed.

Lemma same_json_oprop v w k x :
  same_json v w → oprop v k = x → x ≠ JUndef →
  match x with JArr _ | JObj _ => False | _ => True end → oprop w k = x.
Proof.
  destruct v as [| | | | | |l|a]; try (intros _ <- Hn; by destruct Hn).
  destruct w as [| | | | | |l'|kvs]; try (by intros []).
  intros (_ & Hm)%same_json_obj. cbn [oprop]. intros Hx Hu Ha.
    destruct (lookup_key k a) as [y|] eqn:Hk; cbn in Hx; [|done]. subst y.
    assert (Hin : (k, x) ∈ a).
    { clear -Hk. induction a as [|[n v] a IH]; [done|]. cbn in Hk.
      case_decide; [injection Hk as ->; subst; left|right; auto]. }
    destruct (Hm (k, x) Hin) as (y & Hy & Hs). cbn in Hy, Hs. rewrite Hy. cbn.
    by destruct x, y; try done; cbn in Hs; congruence.
Qed.

Definition unsigned_texts (es : list jval) (t : string) : Prop :=
  ∃ e, e ∈ es ∧ canonicalize (unsignedEntry e) = Ok t.

Definition plain (es : list jval) : Prop := ∀ e, e ∈ es → json_int (unsignedEntry e) = true.

(** Entries with the same hash are the same entry up to signature bytes. *)
Lemma same_hash_same_entry id owner id' owner' es es' a b h :
  chain id owner es → chain id' owner' es' → a ∈ es → b ∈ es' → plain (es ++ es') →
  collision_free (unsigned_texts (es ++ es')) →
  oprop a "entryHash" = JStr h → oprop b "entryHash" = JStr h →
  same_json (unsignedEntry a) (unsignedEntry b).
Proof.
  intros Hc Hc' Ha Hb Hpl Hcf Hha Hhb.
  pose proof Ha as [i Hi]%list_elem_of_lookup. pose proof Hb as [j Hj]%list_elem_of_lookup.
  destruct (check_entry_inv _ _ _ (proj1 (Hc i a Hi))) as (h1 & Hh1 & Hd1 & _).
  destruct (check_entry_inv _ _ _ (proj1 (Hc' j b Hj))) as (h2 & Hh2 & Hd2 & _).
  assert (h1 = h2) as <- by congruence. unfold digest in Hd1, Hd2.
  apply bind_Ok_inv in Hd1 as (t1 & Ht1 & Hd1%Ok_inj). apply bind_Ok_inv in Hd2 as (t2 & Ht2 & Hd2%Ok_inj).
  assert (t1 = t2) as <-.
  { apply Hcf; [exists a; set_solver|exists b; set_solver|].
    rewrite <- Hd2 in Hd1. by apply string_app_inj_l in Hd1. }
  apply canonicalize_inj; [apply Hpl; set_solver..|congruence].
Qed.

(** A head hash commits to the whole history.  If two verified logs hold
    entries with the same hash, those entries have the same position and the
    logs carry the same entries, up to signature bytes, at every earlier
    position, provided SHA-256 does not collide on their contents. *)
Theorem equal_hash_equal_history id owner id' owner' es es' n m a b h :
  chain id owner es → chain id' owner' es' → plain (es ++ es') →
  collision_free (unsigned_texts (es ++ es')) →
  es !! n = Some a → es' !! m = Some b →
  oprop a "entryHash" = JStr h → oprop b "entryHash" = JStr h →
  n = m ∧ ∀ i, i ≤ n → ∃ x y, es !! i = Some x ∧ es' !! i = Some y ∧
    same_json (unsignedEntry x) (unsignedEntry y).
Proof.
  intros Hc Hc' Hpl Hcf. revert m a b h. induction n as [|n IH]; intros m a b h Ha Hb Hha Hhb.
  all: assert (Hs : same_json (unsignedEntry a) (unsignedEntry b))
    by (eapply (same_hash_same_entry id owner id' owner' es es' a b h); eauto using list_elem_of_lookup_2).
  all: destruct (Hc _ _ Ha) as (_ & Hsa & Hpa), (Hc' _ _ Hb) as (_ & Hsb & Hpb).
  all: assert (Hsb' : oprop (unsignedEntry b) "sequence" = oprop a "sequence")
    by (apply (same_json_oprop (unsignedEntry a)); [done|by rewrite oprop_unsigned|by rewrite Hsa..]).
  all: rewrite oprop_unsigned, Hsa, Hsb in Hsb' by done; injection Hsb' as Hnm.
  - assert (m = 0) as -> by lia. split; [done|]. intros i Hi. assert (i = 0) as -> by lia. eauto.
  - destruct m as [|m]; [lia|]. cbn [previous] in Hpa, Hpb.
    destruct (lookup_lt_is_Some_2 es n) as [a' Ha']; [apply lookup_lt_Some in Ha; lia|].
    destruct (lookup_lt_is_Some_2 es' m) as [b' Hb']; [apply lookup_lt_Some in Hb; lia|].
    rewrite Ha' in Hpa. rewrite Hb' in Hpb.
    destruct (hash_or_zero_string _ _ _ a' Hc) as (ha & Hza & Hea); [by eapply list_elem_of_lookup_2|].
    destruct (hash_or_zero_string _ _ _ b' Hc') as (hb & Hzb & Heb); [by eapply list_elem_of_lookup_2|].
    assert (Hpb' : oprop (unsignedEntry b) "previousHash" = oprop a "previousHash")
      by (apply (same_json_oprop (unsignedEntry a)); [done|by rewrite oprop_unsigned|by rewrite Hpa, Hza..]).
    rewrite oprop_unsigned, Hpa, Hpb, Hza, Hzb in Hpb' by done. injection Hpb' as ->.
    destruct (IH m a' b' ha Ha' Hb' Hea Heb) as [-> Hall]. split; [done|].
    intros i Hi. destruct (decide (i = S m)) as [->|]; [eauto|]. apply Hall. lia.
Qed.

(** ** Replication *)

Lemma strict_eq_str s : strict_eq (JStr s) (JStr s) = true.
Proof. cbn. by apply bool_decide_eq_true. Qed.

Lemma strict_eq_int z : strict_eq (JNum (JInt z)) (JNum (JInt z)) = true.
Proof. cbn. by apply bool_decide_eq_true. Qed.

Lemma position_of_sequence (i : nat) : position_before (JNum (JInt (Z.of_nat i + 1))) = Some i.
Proof. cbn. rewrite bool_decide_eq_true_2 by lia. f_equal. lia. Qed.

(** The entry at position [i] of a chain, offered to a log of the same owner
    that holds the first [j] entries. *)
Lemma ingest_chain_entry p es j e l :
  chain (logId l) (sourceOwnerId l) es → entries l = take j es → j ≤ length es →
  ∀ i, es !! i = Some e → i ≤ j →
  ingest_one p e l = (if decide (i < j) then mret tt else _ ← modify (push e); if p then persist e else mret tt) l.
Proof.
  intros Hc Hl Hj i Hi Hij. destruct (Hc i e Hi) as (Hv & Hs & Hp).
  assert (Hpre : chain (logId l) (sourceOwnerId l) (take j es)).
  { intros k e' Hk. apply lookup_take_Some in Hk as [Hk Hkj]. destruct (Hc k e' Hk) as (? & ? & Hp').
    split_and!; [done..|]. rewrite Hp'. destruct k as [|k]; cbn; [done|]. by rewrite lookup_take_lt by lia. }
  unfold ingest_one. erewrite M_bind_step by reflexivity.
  unfold verifyTransparencyEntry. rewrite Hv. erewrite M_bind_step by reflexivity.
  rewrite Hs, position_of_sequence. cbn [mbind option_bind]. rewrite Hl.
  case_decide as Hlt.
  - rewrite lookup_take_lt, Hi by done.
    destruct (check_entry_inv _ _ _ Hv) as (h & Hh & _). rewrite Hh, strict_eq_str. done.
  - assert (i = j) as -> by lia. rewrite lookup_take_ge by lia.
    rewrite (last_sequence _ _ _ Hpre), length_take, Nat.min_l by done.
    cbn [successor]. rewrite strict_eq_int, Hp.
    assert (hash_or_zero (previous es j) = hash_or_zero (last (take j es))) as ->.
    { rewrite <- previous_last, length_take, Nat.min_l by done. f_equal.
      destruct j as [|j]; cbn; [done|]. by rewrite lookup_take_lt by lia. }
    destruct (last_hash_string _ _ _ Hpre) as [h ->]. rewrite strict_eq_str.
    by erewrite M_bind_step by reflexivity.
Qed.

(** The writes of a persisted batch succeed. *)
Definition writes_ok (p : bool) (l : log) : Prop := p = false ∨ Forall (λ b, b = true) (fs l).

Lemma entry_stored p e l :
  writes_ok p l →
  ∃ l', (_ ← modify (push e); if p then persist e else mret tt) l = (l', Ok tt) ∧ logId l' = logId l ∧
    sourceOwnerId l' = sourceOwnerId l ∧ entries l' = entries l ++ [e] ∧ writes_ok p l'.
Proof.
  intros Hw. erewrite M_bind_step by reflexivity. destruct p; [|by eexists; split_and!; [..|left] ].
  destruct Hw as [|Hw]; [done|]. unfold persist. cbn [push fs]. destruct (fs l) as [|[] f].
  - eexists. split_and!; try done. by right.
  - apply Forall_cons in Hw as [_ Hw]. eexists. split_and!; try done. by right.
  - by apply Forall_cons in Hw as [? _].
Qed.

Lemma ingest_suffix p es n j l :
  chain (logId l) (sourceOwnerId l) es → entries l = take j es → n ≤ j ≤ length es → writes_ok p l →
  let out := for_each (ingest_one p) (drop n es) l in
  out.2 = Ok tt ∧ entries out.1 = es ∧ logId out.1 = logId l ∧ sourceOwnerId out.1 = sourceOwnerId l.
Proof.
  assert (Hind : ∀ k n j l, k = length es - n →
    chain (logId l) (sourceOwnerId l) es → entries l = take j es → n ≤ j ≤ length es → writes_ok p l →
    let out := for_each (ingest_one p) (drop n es) l in
    out.2 = Ok tt ∧ entries out.1 = es ∧ logId out.1 = logId l ∧ sourceOwnerId out.1 = sourceOwnerId l).
  2:{ by apply (Hind (length es - n)). }
  induction k as [|k IH]; clear n j l; intros n j l Hk Hc Hl Hn Hw.
  - rewrite drop_ge by lia. cbn. split_and!; try done. rewrite Hl. apply take_ge. lia.
  - destruct (lookup_lt_is_Some_2 es n) as [e He]; [lia|].
    rewrite (drop_S _ _ _ He).
    pose proof (ingest_chain_entry p es j e l Hc Hl ltac:(lia) n He ltac:(lia)) as Hi.
    case_decide as Hlt.
    + rewrite (for_each_step _ _ _ _ l Hi). apply (IH (S n) j); [lia|done..|lia|done].
    + assert (n = j) as -> by lia. destruct (entry_stored p e l Hw) as (l' & Hs & Hid & Ho & He' & Hw').
      rewrite Hs in Hi. rewrite (for_each_step _ _ _ _ l' Hi). rewrite <- Hid, <- Ho.
      apply (IH (S j) (S j)); [lia|by rewrite Hid, Ho| |lia|done]. rewrite He', Hl. by rewrite (take_S_r _ _ e).
Qed.

(** Replicas converge.  A replica that holds any prefix of a log, given
    the log's entries from any point it already has, ends with exactly the
    log's entries; entries it holds are skipped. *)
Theorem replica_catches_up l r n :
  log_ok l → logId r = logId l → sourceOwnerId r = sourceOwnerId l →
  entries r `prefix_of` entries l → n ≤ length (entries r) →
  entries (ingest (drop n (entries l)) false r).1 = entries l.
Proof.
  intros Hok Hid Ho [suffix Hp] Hn. rewrite ingest_fst.
  apply (ingest_suffix false (entries l) n (length (entries r)) r).
  - by rewrite Hid, Ho.
  - by rewrite Hp, take_app_length.
  - rewrite Hp, length_app. lia.
  - by left.
Qed.

(** C39: forks are detected, not merged.  A verified entry for a position the
    log already holds is refused with the fork error exactly when its hash
    differs from the one held, and changes nothing either way. *)
Theorem fork_detected_iff p l e i held :
  verifyTransparencyEntry (logId l) (sourceOwnerId l) e = Accepted →
  oprop e "sequence" = JNum (JInt (Z.of_nat i + 1)) → entries l !! i = Some held →
  (ingest_one p e l).1 = l ∧
  ((ingest_one p e l).2 = Throw fork_detected ↔ strict_eq (oprop held "entryHash") (oprop e "entryHash") = false).
Proof.
  intros Hv Hs Hi. unfold ingest_one. erewrite M_bind_step by reflexivity. rewrite Hv.
  erewrite M_bind_step by reflexivity. rewrite Hs, position_of_sequence. cbn [mbind option_bind].
  rewrite Hi. split; [done|]. cbn. by destruct (strict_eq _ _).
Qed.

(** ** What goes wrong *)

(** An entry is added in memory before it is written.  When a write fails
    and the next append succeeds, the file misses an entry in its middle and
    can never be opened again. *)
Theorem failed_write_corrupts_log l e1 e2 rest :
  log_ok l → file l = entries l → fs l = false :: rest → (∀ b, b ∈ rest → b = true) →
  chain (logId l) (sourceOwnerId l) (entries l ++ [e1; e2]) →
  let l1 := (ingest_one true e1 l).1 in
  let l2 := (ingest_one true e2 l1).1 in
  (ingest_one true e1 l).2 = Throw (error "EIO") ∧ (ingest_one true e2 l1).2 = Ok tt ∧
  file l2 = entries l ++ [e2] ∧
  (ingest (file l2) false (MkLog (sourceOwnerId l) (logId l) [] (file l2) [])).2 = Throw chain_mismatch.
Proof.
  intros Hok Hf Hfs Hrest Hc. set (es := entries l ++ [e1; e2]) in *. set (n := length (entries l)).
  assert (Hlen : length es = n + 2) by (unfold es; by rewrite length_app).
  assert (He1 : es !! n = Some e1) by (unfold es; by rewrite lookup_app_r, Nat.sub_diag by lia).
  assert (He2 : es !! S n = Some e2).
  { unfold es. rewrite lookup_app_r by (unfold n; lia). by replace (S n - length (entries l)) with 1 by (unfold n; lia). }
  assert (Ht : entries l = take n es) by (unfold es, n; by rewrite take_app_length).
  pose proof (ingest_chain_entry true es n e1 l Hc Ht ltac:(lia) n He1 ltac:(lia)) as Hi1.
  rewrite decide_False in Hi1 by lia. erewrite M_bind_step in Hi1 by reflexivity.
  unfold persist in Hi1. cbn [fs push] in Hi1. rewrite Hfs in Hi1. rewrite Hi1. cbv zeta. cbn [fst snd].
  set (l1 := MkLog _ _ _ _ _).
  assert (Ht1 : entries l1 = take (S n) es) by (rewrite (take_S_r _ _ e1 He1), <- Ht; done).
  pose proof (ingest_chain_entry true es (S n) e2 l1 Hc Ht1 ltac:(lia) (S n) He2 ltac:(lia)) as Hi2.
  rewrite decide_False in Hi2 by lia. erewrite M_bind_step in Hi2 by reflexivity.
  assert (Hp : ∃ l2, ingest_one true e2 l1 = (l2, Ok tt) ∧ file l2 = entries l ++ [e2]).
  { rewrite Hi2. unfold persist. cbn [fs push l1]. destruct rest as [|b rest].
    - eexists. split; [done|]. cbn. by rewrite Hf.
    - rewrite (Hrest b) by left. eexists. split; [done|]. cbn. by rewrite Hf. }
  destruct Hp as (l2 & -> & Hfile). cbn [fst snd]. split_and!; try done. rewrite Hfile.
  set (r := MkLog _ _ [] _ _). unfold ingest.
  enough (Hthrow : ∃ s, for_each (ingest_one false) (entries l ++ [e2]) r = (s, Throw chain_mismatch))
    by (destruct Hthrow as [s Hs]; by rewrite (M_bind_throw _ _ _ _ _ Hs)).
  destruct (ingest_suffix false (entries l) 0 0 r) as (Hall & Hent & _); [exact Hok|done|lia|by left|].
  rewrite drop_0 in Hall, Hent. destruct (ingest_all_ok false (entries l) r) as (_ & Hid & Ho & _);
    [by intros [|i] e|].
  destruct (for_each _ (entries l) r) as [r1 res] eqn:Hr. cbn [fst snd] in *. subst res.
  exists r1. rewrite (for_each_app _ _ _ _ _ Hr). cbn [for_each]. apply M_bind_throw.
  destruct (Hc _ _ He2) as (Hv & Hs & _). unfold ingest_one. erewrite M_bind_step by reflexivity.
  unfold verifyTransparencyEntry. rewrite Hid, Ho. cbn [r logId sourceOwnerId]. rewrite Hv.
  erewrite M_bind_step by reflexivity. rewrite Hs, position_of_sequence. cbn [mbind option_bind].
  rewrite Hent, lookup_ge_None_2 by (unfold n; lia).
  rewrite (last_sequence (logId l) (sourceOwnerId l)) by exact Hok. cbn [successor].
  assert (strict_eq (JNum (JInt (Z.of_nat (S n) + 1))) (JNum (JInt (Z.of_nat (length (entries l)) + 1))) = false) as ->.
  { cbn. apply bool_decide_eq_false. intros [= Heq]. unfold n in Heq. lia. }
  done.
Qed.

Lemma revocations_all es rs e :
  revocations es = Ok rs → e ∈ es → is_revoke e = true → revocation_of e ∈ rs.
Proof.
  unfold revocations. intros Hrs He Hr.
  assert (Hin : revocation_of e ∈ map revocation_of (List.filter is_revoke es)).
  { apply list_elem_of_fmap. exists e. split; [done|]. apply list_elem_of_In, List.filter_In.
    split; [by apply list_elem_of_In|done]. }
  case_bool_decide; [by apply Ok_inj in Hrs as <-|].
  destruct (forallb _ _); [|done]. apply Ok_inj in Hrs as <-. by apply elem_of_sort_by.
Qed.

(** A revocation without a target is accepted and stays.  Once an entry of
    type REVOKE whose [targetId] is missing is in the log, the head can never
    be computed again, whatever is ingested later. *)
Theorem targetless_revocation_sticks batch p l e :
  log_ok l → e ∈ entries l → is_revoke e = true → oprop e "targetId" = JUndef →
  is_ok (head (ingest batch p l).1) = false.
Proof.
  intros Hok He Hr Ht. rewrite ingest_fst.
  destruct (ingest_all_ok p batch l Hok) as (_ & _ & _ & [suffix Hp]).
  set (l' := (for_each _ batch l).1) in *.
  destruct (head l') as [h|] eqn:Hh; [|done]. exfalso. unfold head in Hh.
  apply bind_Ok_inv in Hh as (d & Hd & _). unfold stateDigest in Hd.
  apply bind_Ok_inv in Hd as (rs & Hrs & Hd). unfold digest in Hd.
  apply bind_Ok_inv in Hd as (t & Hc & _). unfold canonicalize in Hc.
  apply bind_Ok_inv in Hc as ([] & Hc & _).
  assert (Harr : assertCanonicalJsonValue (JArr rs) = Ok tt)
    by (apply (canonical_members _ Hc ("revocations", JArr rs)); set_solver).
  assert (Hrev : assertCanonicalJsonValue (revocation_of e) = Ok tt).
  { apply (canonical_elements _ Harr). apply (revocations_all (entries l')); [done| |done].
    rewrite Hp. apply elem_of_app. by left. }
  assert (Hno := canonical_members _ Hrev ("targetId", oprop e "targetId") ltac:(left)).
  cbn [snd] in Hno. by rewrite Ht in Hno.
Qed.

End log.

(** ** A concrete log *)

#[local] Existing Instance toy_coercions.

Definition toy_signer : jval :=
  JObj [("nodeId", JStr (match nodeIdFromPublicKey (H := Toy.host) (JStr "pem") with Ok s => s | Throw _ => "" end));
        ("publicKeyPem", JStr "pem"); ("privateKeyPem", JStr "priv")].

Definition toy_empty (f : list bool) : log :=
  match transparencyLogId (H := Toy.host) (JStr "owner") with
  | Ok id => MkLog "owner" id [] [] f
  | Throw _ => MkLog "owner" "" [] [] f
  end.

Definition toy_entry (l : log) (type target : jval) : jval :=
  match append (H := Toy.host) toy_signer type target JNull "2026-10-13T12:30:00.000Z" l with
  | (_, Ok e) => e
  | _ => JNull
  end.

Definition toy_e1 : jval := Eval vm_compute in toy_entry (toy_empty []) (JStr "ROOT") JNull.
Definition toy_e2 : jval := Eval vm_compute in
  toy_entry (ingest (H := Toy.host) [toy_e1] false (toy_empty [])).1 (JStr "REVOKE") (JStr "t1").
Definition toy_e3 : jval := Eval vm_compute in
  toy_entry (ingest (H := Toy.host) [toy_e1; toy_e2] false (toy_empty [])).1 (JStr "LIFECYCLE") (JStr "t2").

Definition toy_log (f : list bool) (es : list jval) : log :=
  MkLog (sourceOwnerId (toy_empty [])) (logId (toy_empty [])) es es f.

Lemma toy_ingested : entries (ingest (H := Toy.host) [toy_e1; toy_e2; toy_e3] false (toy_empty [])).1 = [toy_e1; toy_e2; toy_e3].
Proof. vm_compute. reflexivity. Qed.

Lemma toy_chain : chain (H := Toy.host) (logId (toy_empty [])) "owner" [toy_e1; toy_e2; toy_e3].
Proof.
  pose proof (ingest_all_ok (H := Toy.host) false [toy_e1; toy_e2; toy_e3] (toy_empty [])) as Hall.
  destruct Hall as (Hok & Hid & Ho & _); [by intros [|i] e|].
  unfold log_ok in Hok. rewrite Hid, Ho in Hok.
  rewrite <- (ingest_fst (H := Toy.host)), toy_ingested in Hok. exact Hok.
Qed.

Lemma chain_prefix id owner es n :
  chain (H := Toy.host) id owner es → chain (H := Toy.host) id owner (take n es).
Proof.
  intros Hc i e Hi. apply lookup_take_Some in Hi as [Hi Hn]. destruct (Hc i e Hi) as (? & ? & Hp).
  split_and!; [done..|]. rewrite Hp. destruct i as [|i]; cbn; [done|]. by rewrite lookup_take_lt by lia.
Qed.

Lemma ingest_append_only_witness :
  log_ok (H := Toy.host) (ingest (H := Toy.host) [toy_e2; toy_e1; JNull] true (toy_log [true] [toy_e1])).1.
Proof. apply ingest_append_only. apply (chain_prefix _ _ _ 1 toy_chain). Defined.

Lemma replica_catches_up_witness :
  entries (ingest (H := Toy.host) [toy_e1; toy_e2; toy_e3] false (toy_log [] [toy_e1])).1 = [toy_e1; toy_e2; toy_e3].
Proof.
  apply (replica_catches_up (H := Toy.host) (toy_log [] [toy_e1; toy_e2; toy_e3]) (toy_log [] [toy_e1]) 0).
  - exact toy_chain.
  - reflexivity.
  - reflexivity.
  - by eexists.
  - cbn. lia.
Defined.

Definition toy_fork : jval := Eval vm_compute in
  toy_entry (toy_log [] [toy_e1]) (JStr "REVOKE") (JStr "other").

Lemma fork_detected_iff_witness :
  (ingest_one (H := Toy.host) true toy_fork (toy_log [] [toy_e1; toy_e2])).2 = Throw fork_detected.
Proof.
  apply (fork_detected_iff (H := Toy.host) true (toy_log [] [toy_e1; toy_e2]) toy_fork 1 toy_e2);
    vm_compute; reflexivity.
Defined.

Lemma failed_write_corrupts_log_witness :
  file (ingest_one (H := Toy.host) true toy_e3
          (ingest_one (H := Toy.host) true toy_e2 (toy_log [false; true] [toy_e1])).1).1 = [toy_e1; toy_e3].
Proof.
  apply (failed_write_corrupts_log (H := Toy.host) (toy_log [false; true] [toy_e1]) toy_e2 toy_e3 [true]).
  - apply (chain_prefix _ _ _ 1 toy_chain).
  - reflexivity.
  - reflexivity.
  - by intros b ->%list_elem_of_singleton.
  - exact toy_chain.
Defined.

Definition text_of (e : jval) : string :=
  match canonicalize (unsignedEntry e) with Ok t => t | Throw _ => "" end.
Definition toy_texts : list string := map text_of [toy_e1; toy_e2; toy_e3].

Lemma toy_texts_collision_free :
  collision_free (H := Toy.host) (unsigned_texts ([toy_e1; toy_e2; toy_e3] ++ [toy_e1; toy_e2])).
Proof.
  apply (distinct_digests_collision_free (H := Toy.host) _ toy_texts); [vm_compute; reflexivity|].
  intros t (e & He & Ht). assert (t = text_of e) as -> by (unfold text_of; by rewrite Ht).
  apply list_elem_of_fmap. exists e. split; [done|].
  apply elem_of_app in He as [He|He]; [exact He|]. apply (elem_of_take_list 2). exact He.
Qed.

Lemma equal_hash_equal_history_witness : 1 = 1 ∧ ∀ i, i ≤ 1 → ∃ x y,
  [toy_e1; toy_e2; toy_e3] !! i = Some x ∧ [toy_e1; toy_e2] !! i = Some y ∧
  same_json (unsignedEntry x) (unsignedEntry y).
Proof.
  apply (equal_hash_equal_history (H := Toy.host) (logId (toy_empty [])) "owner" (logId (toy_empty [])) "owner"
           [toy_e1; toy_e2; toy_e3] [toy_e1; toy_e2] 1 1 toy_e2 toy_e2
           (string_or_empty (oprop toy_e2 "entryHash"))).
  - exact toy_chain.
  - exact (chain_prefix _ _ _ 2 toy_chain).
  - intros e He. repeat (apply elem_of_cons in He as [->|He]; [vm_compute; reflexivity|]).
    by apply elem_of_nil in He.
  - exact toy_texts_collision_free.
  - reflexivity.
  - reflexivity.
  - vm_compute; reflexivity.
  - vm_compute; reflexivity.
Defined.

(** An entry that revokes nothing: [toy_e2] without its target, signed
    again. *)
Definition toy_targetless_unsigned : jval := JObj (remove_key "targetId" (unsigned_members toy_e2)).

Definition toy_targetless : jval := Eval vm_compute in
  match digest (H := Toy.host) toy_targetless_unsigned,
        signValue (H := Toy.host) toy_targetless_unsigned "priv" with
  | Ok h, Ok s => JObj (remove_key "targetId" (unsigned_members toy_e2) ++
                        [("entryHash", JStr h); ("publicKey", JStr "pem"); ("signature", JStr s)])
  | _, _ => JNull
  end.

Definition toy_poisoned : log := (ingest (H := Toy.host) [toy_targetless] false (toy_log [] [toy_e1])).1.

Example targetless_accepted : entries toy_poisoned = [toy_e1; toy_targetless].
Proof. vm_compute. reflexivity. Qed.

Lemma targetless_revocation_sticks_witness :
  is_ok (head (H := Toy.host) (ingest (H := Toy.host) [toy_e3] false toy_poisoned).1) = false.
Proof.
  apply (targetless_revocation_sticks (H := Toy.host) [toy_e3] false toy_poisoned toy_targetless).
  - unfold toy_poisoned. rewrite (ingest_fst (H := Toy.host)).
    apply (ingest_all_ok (H := Toy.host) false [toy_targetless] (toy_log [] [toy_e1])).
    apply (chain_prefix _ _ _ 1 toy_chain).
  - replace (entries toy_poisoned) with [toy_e1; toy_targetless] by (symmetry; exact targetless_accepted).
    right. left.
  - vm_compute. reflexivity.
  - vm_compute. reflexivity.
Defined.

End Log.
