(* ===== verification/Ledger.v ===== *)
(** * The durable lifecycle ledger

    Models network/relay/durable-lifecycle-ledger.js: the SQLite tables of
    needs, offers, provider effects and the delivery outbox, and every
    operation of the ledger object.  A table is the list of its rows in rowid
    order, keyed by its primary key.  A transaction runs on the tables and
    keeps its writes only if it returns and commits; [faults] says which
    transactions cannot begin or cannot commit.  The text of a stored event is
    represented by the event value. *)
From S2P Require Import Prelude JSMap JSValue JsonPrint Host Admission.

Module Sqlite.

Inductive need_status := Matched | NCompleted | NCancelled | NFailed.
#[export] Instance need_status_eq_dec : EqDecision need_status.
Proof. solve_decision. Defined.

Inductive kind := KNeed | KPartial | KResult | KRevoke.
#[export] Instance kind_eq_dec : EqDecision kind.
Proof. solve_decision. Defined.

Inductive effect_status := EStarted | ECompleted | EFailed | EUnknown.
#[export] Instance effect_status_eq_dec : EqDecision effect_status.
Proof. solve_decision. Defined.

Record need := Need {
  requester : string; provider : string; fingerprint : string; capability : string; mode : string;
  status : need_status; created_at : string; terminal_at : option string;
  partial_sequence : Z; partial_digest : option string
}.

Record event := Event {
  request_id : string; recipient : string; ekind : kind; event_json : jval;
  event_created : string; acknowledged_at : option string
}.

Record offer := Offer { owner : string; offer_fingerprint : string; revoked : bool }.

Record effect := Effect {
  eff_provider : string; eff_requester : string; eff_fingerprint : string;
  eff_status : effect_status; eff_created : string; finished_at : option string
}.

Record db := Db {
  needs : jsmap string need;
  outbox : jsmap string event;
  offers : jsmap string offer;
  effects : jsmap string effect
}.

Definition empty_db : db := Db [] [] [] [].

Definition set_needs (x : jsmap string need) (d : db) : db := Db x (outbox d) (offers d) (effects d).
Definition set_outbox (x : jsmap string event) (d : db) : db := Db (needs d) x (offers d) (effects d).
Definition set_offers (x : jsmap string offer) (d : db) : db := Db (needs d) (outbox d) x (effects d).
Definition set_effects (x : jsmap string effect) (d : db) : db := Db (needs d) (outbox d) (offers d) x.

(** How a transaction fares in SQLite: it cannot begin, it cannot commit, or
    neither. *)
Inductive tx_fault := BeginFails | CommitFails | NoFault.

Record ledger := Ledger { tables : db; faults : list tx_fault }.

Definition unavailable : jerror := fault 503 "lifecycle_ledger_unavailable".
Definition next_fault (s : ledger) : tx_fault := hd NoFault (faults s).

(** [transaction(operation)] *)
Definition transaction {A} (operation : M db A) : M ledger A := λ s,
  let rest := tail (faults s) in
  match next_fault s with
  | BeginFails => (Ledger (tables s) rest, Throw unavailable)
  | f =>
      match operation (tables s) with
      | (d, Ok a) =>
          match f with
          | CommitFails => (Ledger (tables s) rest, Throw unavailable)
          | _ => (Ledger d rest, Ok a)
          end
      | (_, Throw e) =>
          (Ledger (tables s) rest,
           Throw (match e_httpStatus e with Some _ => e | None => unavailable end))
      end
  end.

(** A statement that violates a constraint throws. *)
Definition constraint_failed : jerror := error "SQLITE_CONSTRAINT".

Definition insert_need (id : string) (n : need) : M db unit := λ d,
  if map_has id (needs d) then (d, Throw constraint_failed)
  else (set_needs (map_set id n (needs d)) d, Ok tt).

Definition kind_text (k : kind) : string :=
  match k with KNeed => "NEED" | KPartial => "PARTIAL" | KResult => "RESULT" | KRevoke => "REVOKE" end.

Definition event_id (k : kind) (requestId : string) (ev : jval) : string :=
  match k with
  | KPartial => "partial:" +:+ requestId +:+ ":" +:+ to_string (oprop ev "sequence")
  | _ => to_lower (kind_text k) +:+ ":" +:+ requestId
  end.

Definition insert_outbox (id : string) (e : event) : M db unit := λ d,
  if map_has id (outbox d) || negb (map_has (request_id e) (needs d)) then (d, Throw constraint_failed)
  else (set_outbox (map_set id e (outbox d)) d, Ok tt).

Definition nonempty_strings (l : list string) : bool := forallb nonempty_str l.

Section operations.
Context (maxRecords : Z).

Definition persistOutbox (now requestId expectedRecipient : string) (expectedKind : kind) (delivery : jval)
    : M db unit :=
  if nullish delivery then mret tt
  else
    let ev := oprop delivery "event" in
    _ ← guard_throw
          (negb (eq_str (oprop delivery "recipient") expectedRecipient) ||
           negb (eq_str (oprop delivery "kind") (kind_text expectedKind)) || negb (truthy ev) ||
           negb (strict_eq (oprop ev "kind") (oprop delivery "kind")))
          (fault 400 "invalid_lifecycle_delivery");
    _ ← guard_throw (bool_decide (1024 * 1024 < Z.of_nat (String.length (out ev)))%Z)
          (fault 413 "lifecycle_delivery_too_large");
    d ← get_state;
    _ ← guard_throw (bool_decide (maxRecords * 8 ≤ map_size (outbox d))%Z)
          (fault 503 "lifecycle_outbox_capacity_reached");
    insert_outbox (event_id expectedKind requestId ev)
      (Event requestId expectedRecipient expectedKind ev now None).

(** ** Needs *)

Definition getNeed (id : string) (s : ledger) : option need := map_get id (needs (tables s)).
Definition getOffer (id : string) (s : ledger) : option offer := map_get id (offers (tables s)).
Definition getEffect (id : string) (s : ledger) : option effect := map_get id (effects (tables s)).

Definition reserveNeed (now id requester provider fingerprint capability mode : string) (delivery : jval)
    : M ledger unit :=
  if negb (nonempty_strings [id; requester; provider; fingerprint; capability; mode]) then
    throw (fault 400 "invalid_lifecycle_reservation")
  else transaction (
    d ← get_state;
    _ ← guard_throw (map_has id (needs d)) (fault 409 "duplicate_request");
    _ ← guard_throw (bool_decide (maxRecords ≤ map_size (needs d))%Z)
          (fault 503 "need_idempotency_capacity_reached");
    _ ← insert_need id (Need requester provider fingerprint capability mode Matched now None 0 None);
    persistOutbox now id provider KNeed delivery).

Definition closed_reason (st : need_status) : string :=
  match st with
  | NCancelled => "request_cancelled"
  | NFailed => "request_failed"
  | _ => "request_already_completed"
  end.

Inductive change := Changed | Unchanged.

(** [if (x && row.field !== x)] *)
Definition mismatch (x : option string) (field : string) : bool :=
  match x with Some s => nonempty_str s && negb (bool_decide (field = s)) | None => false end.

Definition target_status (to : string) : option need_status :=
  if bool_decide (to = "cancelled") then Some NCancelled
  else if bool_decide (to = "completed") then Some NCompleted
  else if bool_decide (to = "failed") then Some NFailed
  else None.

Definition transitionNeed (now id : string) (by_requester by_provider : option string) (to : string)
    (delivery : jval) : M ledger change :=
  match target_status to with
  | None => throw (fault 400 "invalid_lifecycle_transition")
  | Some st => transaction (
      d ← get_state;
      match map_get id (needs d) with
      | None => throw (fault 404 "request_not_found")
      | Some row =>
          _ ← guard_throw (mismatch by_requester (requester row)) (fault 403 "not_request_owner");
          _ ← guard_throw (mismatch by_provider (provider row)) (fault 403 "provider_mismatch");
          if negb (bool_decide (status row = Matched)) then
            if bool_decide (st = NCancelled) && bool_decide (status row = NCancelled) then mret Unchanged
            else throw (fault 409 (closed_reason (status row)))
          else
            _ ← put_state (set_needs (map_set id
                  (Need (requester row) (provider row) (fingerprint row) (capability row) (mode row) st
                     (created_at row) (Some now) (partial_sequence row) (partial_digest row)) (needs d)) d);
            _ ← (match st with
                 | NCompleted => persistOutbox now id (requester row) KResult delivery
                 | NCancelled => persistOutbox now id (provider row) KRevoke delivery
                 | _ => guard_throw (negb (nullish delivery)) (fault 400 "invalid_lifecycle_delivery")
                 end);
            mret Changed
      end)
  end.

Inductive partial_outcome := Idempotent | AcceptedAfter (previousDigest : option string).

Definition set_partial (sequence : Z) (digest : option string) (n : need) : need :=
  Need (requester n) (provider n) (fingerprint n) (capability n) (mode n) (status n) (created_at n)
    (terminal_at n) sequence digest.

Definition acceptPartial (now id by_provider : string) (sequence : jval) (digest : option string)
    (delivery : jval) : M ledger partial_outcome :=
  match is_safe_integer sequence with
  | None => throw (fault 400 "invalid_partial_sequence")
  | Some n =>
      if bool_decide (n < 0)%Z then throw (fault 400 "invalid_partial_sequence")
      else transaction (
        d ← get_state;
        match map_get id (needs d) with
        | None => throw (fault 404 "request_not_found")
        | Some row =>
            _ ← guard_throw (negb (bool_decide (provider row = by_provider))) (fault 403 "provider_mismatch");
            _ ← guard_throw (negb (bool_decide (status row = Matched)))
                  (fault 409 (closed_reason (status row)));
            if bool_decide (n = partial_sequence row - 1)%Z && bool_decide (digest = partial_digest row) then
              mret Idempotent
            else
              _ ← guard_throw (negb (bool_decide (n = partial_sequence row)))
                    (fault 409 "partial_sequence_mismatch");
              _ ← put_state (set_needs (map_set id (set_partial (n + 1) digest row) (needs d)) d);
              _ ← (if nullish delivery then mret tt
                   else
                     _ ← guard_throw
                           (negb (eq_int (oprop (oprop delivery "event") "sequence") n) ||
                            negb (eq_str (oprop (oprop delivery "event") "requestId") id))
                           (fault 400 "invalid_partial_delivery");
                     persistOutbox now id (requester row) KPartial delivery);
              mret (AcceptedAfter (partial_digest row))
        end)
  end.

Definition rollbackPartial (id : string) (sequence : Z) (digest previousDigest : option string)
    : M ledger bool :=
  transaction (
    d ← get_state;
    if map_has ("partial:" +:+ id +:+ ":" +:+ Z_to_string sequence) (outbox d) then mret false
    else match map_get id (needs d) with
         | Some row =>
             if bool_decide (status row = Matched) && bool_decide (partial_sequence row = sequence + 1)%Z &&
                bool_decide (is_Some digest) && bool_decide (partial_digest row = digest) then
               _ ← put_state (set_needs (map_set id (set_partial sequence previousDigest row) (needs d)) d);
               mret true
             else mret false
         | None => mret false
         end).

(** ** Deliveries *)

Definition deliverable (recipient_id : string) (d : db) (e : event) : bool :=
  bool_decide (recipient e = recipient_id) && bool_decide (acknowledged_at e = None) &&
  match map_get (request_id e) (needs d) with
  | Some n => negb (bool_decide (ekind e = KNeed)) || bool_decide (status n = Matched)
  | None => false
  end.

Definition pendingDeliveries (recipient_id : string) (limit : jval) (s : ledger)
    : result (list (string * event)) :=
  match is_safe_integer (with_default limit (JNum (JInt 32))) with
  | Some n =>
      if negb (nonempty_str recipient_id) || bool_decide (n < 1)%Z || bool_decide (n > 100)%Z then
        Throw (fault 400 "invalid_delivery_query")
      else Ok (take (Z.to_nat n)
                 (List.filter (λ e, deliverable recipient_id (tables s) e.2) (outbox (tables s))))
  | None => Throw (fault 400 "invalid_delivery_query")
  end.

Inductive ack := AckFresh | AckAgain.

Definition acknowledgeDelivery (now eventId recipient_id : string) : M ledger ack :=
  if negb (nonempty_strings [eventId; recipient_id]) then throw (fault 400 "invalid_delivery_ack")
  else transaction (
    d ← get_state;
    match map_get eventId (outbox d) with
    | None => throw (fault 404 "delivery_not_found")
    | Some row =>
        _ ← guard_throw (negb (bool_decide (recipient row = recipient_id))) (fault 404 "delivery_not_found");
        match acknowledged_at row with
        | Some _ => mret AckAgain
        | None =>
            _ ← put_state (set_outbox (map_set eventId
                  (Event (request_id row) (recipient row) (ekind row) (event_json row) (event_created row)
                     (Some now)) (outbox d)) d);
            mret AckFresh
        end
    end).

(** ** Offers *)

Definition reserveOffer (id owner fingerprint : string) : M ledger unit :=
  if negb (nonempty_strings [id; owner; fingerprint]) then throw (fault 400 "invalid_offer_reservation")
  else transaction (
    d ← get_state;
    _ ← guard_throw (map_has id (offers d)) (fault 409 "duplicate_offer");
    _ ← guard_throw (bool_decide (maxRecords ≤ map_size (offers d))%Z)
          (fault 503 "offer_idempotency_capacity_reached");
    put_state (set_offers (map_set id (Offer owner fingerprint false) (offers d)) d)).

Definition revokeOffer (id by_owner : string) : M ledger unit :=
  transaction (
    d ← get_state;
    match map_get id (offers d) with
    | None => throw (fault 404 "target_not_found")
    | Some row =>
        _ ← guard_throw (negb (bool_decide (owner row = by_owner))) (fault 403 "not_target_owner");
        put_state (set_offers (map_set id (Offer (owner row) (offer_fingerprint row) true) (offers d)) d)
    end).

(** ** Provider effects *)

Definition beginEffect (now id provider requester fingerprint : string) : M ledger bool :=
  if negb (nonempty_strings [id; provider; requester; fingerprint]) then
    throw (fault 400 "invalid_effect_intent")
  else transaction (
    d ← get_state;
    match map_get id (effects d) with
    | Some existing =>
        _ ← guard_throw
              (negb (bool_decide (eff_provider existing = provider)) ||
               negb (bool_decide (eff_requester existing = requester)) ||
               negb (bool_decide (eff_fingerprint existing = fingerprint)))
              (fault 409 "effect_identity_conflict");
        mret false
    | None =>
        _ ← guard_throw (bool_decide (maxRecords ≤ map_size (effects d))%Z)
              (fault 503 "effect_idempotency_capacity_reached");
        _ ← put_state (set_effects (map_set id
              (Effect provider requester fingerprint EStarted now None) (effects d)) d);
        mret true
    end).

Definition outcome_status (outcome : string) : option effect_status :=
  if bool_decide (outcome = "completed") then Some ECompleted
  else if bool_decide (outcome = "failed") then Some EFailed
  else if bool_decide (outcome = "unknown") then Some EUnknown
  else None.

Definition finishEffect (now id by_provider outcome : string) : M ledger change :=
  match outcome_status outcome with
  | None => throw (fault 400 "invalid_effect_outcome")
  | Some st => transaction (
      d ← get_state;
      match map_get id (effects d) with
      | None => throw (fault 403 "provider_mismatch")
      | Some row =>
          _ ← guard_throw (negb (bool_decide (eff_provider row = by_provider))) (fault 403 "provider_mismatch");
          if negb (bool_decide (eff_status row = EStarted)) then mret Unchanged
          else
            _ ← put_state (set_effects (map_set id
                  (Effect (eff_provider row) (eff_requester row) (eff_fingerprint row) st (eff_created row)
                     (Some now)) (effects d)) d);
            mret Changed
      end)
  end.
End operations.

(** ** The abstract lifecycle

    What a committed transaction may do to the tables. *)
Section specification.
Context (maxRecords : Z).

(** ** The operations as a family *)

Inductive op :=
| ReserveNeed (now id requester provider fingerprint capability mode : string) (delivery : jval)
| TransitionNeed (now id : string) (by_requester by_provider : option string) (to : string) (delivery : jval)
| AcceptPartial (now id by_provider : string) (sequence : jval) (digest : option string) (delivery : jval)
| RollbackPartial (id : string) (sequence : Z) (digest previousDigest : option string)
| AcknowledgeDelivery (now eventId recipient : string)
| ReserveOffer (id owner fingerprint : string)
| RevokeOffer (id owner : string)
| BeginEffect (now id provider requester fingerprint : string)
| FinishEffect (now id provider outcome : string).

Definition ignore {S A} (m : M S A) : M S unit := _ ← m; mret tt.

Definition run_op (o : op) : M ledger unit :=
  match o with
  | ReserveNeed now id r p f c m d => reserveNeed maxRecords now id r p f c m d
  | TransitionNeed now id r p to d => ignore (transitionNeed maxRecords now id r p to d)
  | AcceptPartial now id p s dg d => ignore (acceptPartial maxRecords now id p s dg d)
  | RollbackPartial id s dg pd => ignore (rollbackPartial id s dg pd)
  | AcknowledgeDelivery now e r => ignore (acknowledgeDelivery now e r)
  | ReserveOffer id o f => reserveOffer maxRecords id o f
  | RevokeOffer id o => revokeOffer id o
  | BeginEffect now id p r f => ignore (beginEffect maxRecords now id p r f)
  | FinishEffect now id p o => ignore (finishEffect now id p o)
  end.

(** Nothing is posted without a delivery; otherwise its event is filed for the
    request under a fresh identifier and within the outbox capacity. *)
Definition posted (now : string) (k : kind) (rid rcpt : string) (delivery : jval) (d d' : db) : Prop :=
  nullish delivery = true ∧ d' = d ∨
  nullish delivery = false ∧
  let ev := oprop delivery "event" in
  map_has (event_id k rid ev) (outbox d) = false ∧ map_has rid (needs d) = true ∧
  (map_size (outbox d) < maxRecords * 8)%Z ∧
  d' = set_outbox (map_set (event_id k rid ev) (Event rid rcpt k ev now None) (outbox d)) d.

Definition closed_by (st : need_status) (now : string) (n : need) : need :=
  Need (requester n) (provider n) (fingerprint n) (capability n) (mode n) st (created_at n) (Some now)
    (partial_sequence n) (partial_digest n).

Definition open_need (id : string) (n : need) (d : db) : Prop :=
  map_get id (needs d) = Some n ∧ status n = Matched.

(** Who may close a need: a party that names itself must be the need's. *)
Definition may_close (by_requester by_provider : option string) (n : need) : Prop :=
  mismatch by_requester (requester n) = false ∧ mismatch by_provider (provider n) = false.

(** The transition an operation commits. *)
Inductive commits (d : db) : op → db → Prop :=
| c_reserve now id r p f c m dl d' :
    map_get id (needs d) = None → (map_size (needs d) < maxRecords)%Z →
    posted now KNeed id p dl
      (set_needs (map_set id (Need r p f c m Matched now None 0 None) (needs d)) d) d' →
    commits d (ReserveNeed now id r p f c m dl) d'
| c_complete now id n rq pv dl d' :
    open_need id n d → may_close rq pv n →
    posted now KResult id (requester n) dl
      (set_needs (map_set id (closed_by NCompleted now n) (needs d)) d) d' →
    commits d (TransitionNeed now id rq pv "completed" dl) d'
| c_cancel now id n rq pv dl d' :
    open_need id n d → may_close rq pv n →
    posted now KRevoke id (provider n) dl
      (set_needs (map_set id (closed_by NCancelled now n) (needs d)) d) d' →
    commits d (TransitionNeed now id rq pv "cancelled" dl) d'
| c_fail now id n rq pv dl :
    open_need id n d → may_close rq pv n → nullish dl = true →
    commits d (TransitionNeed now id rq pv "failed" dl)
      (set_needs (map_set id (closed_by NFailed now n) (needs d)) d)
| c_partial now id n sq digest dl d' :
    open_need id n d → is_safe_integer sq = Some (partial_sequence n) → (0 ≤ partial_sequence n)%Z →
    (nullish dl = false → oprop (oprop dl "event") "sequence" = JNum (JInt (partial_sequence n))) →
    posted now KPartial id (requester n) dl
      (set_needs (map_set id (set_partial (partial_sequence n + 1) digest n) (needs d)) d) d' →
    commits d (AcceptPartial now id (provider n) sq digest dl) d'
| c_rollback id n previous :
    open_need id n d → is_Some (partial_digest n) →
    map_has ("partial:" +:+ id +:+ ":" +:+ Z_to_string (partial_sequence n - 1)) (outbox d) = false →
    commits d (RollbackPartial id (partial_sequence n - 1) (partial_digest n) previous)
      (set_needs (map_set id (set_partial (partial_sequence n - 1) previous n) (needs d)) d)
| c_acknowledge now eid e :
    map_get eid (outbox d) = Some e → acknowledged_at e = None →
    commits d (AcknowledgeDelivery now eid (recipient e))
      (set_outbox (map_set eid
         (Event (request_id e) (recipient e) (ekind e) (event_json e) (event_created e) (Some now)) (outbox d)) d)
| c_offer id o f :
    map_get id (offers d) = None → (map_size (offers d) < maxRecords)%Z →
    commits d (ReserveOffer id o f) (set_offers (map_set id (Offer o f false) (offers d)) d)
| c_revoke id o :
    map_get id (offers d) = Some o →
    commits d (RevokeOffer id (owner o))
      (set_offers (map_set id (Offer (owner o) (offer_fingerprint o) true) (offers d)) d)
| c_begin now id p r f :
    map_get id (effects d) = None → (map_size (effects d) < maxRecords)%Z →
    commits d (BeginEffect now id p r f)
      (set_effects (map_set id (Effect p r f EStarted now None) (effects d)) d)
| c_finish now id e outcome st :
    map_get id (effects d) = Some e → eff_status e = EStarted → outcome_status outcome = Some st →
    commits d (FinishEffect now id (eff_provider e) outcome)
      (set_effects (map_set id
         (Effect (eff_provider e) (eff_requester e) (eff_fingerprint e) st (eff_created e) (Some now))
         (effects d)) d).

(** The repetitions an operation answers without writing. *)
Inductive idle (d : db) : op → Prop :=
| i_cancelled now id n rq pv dl :
    map_get id (needs d) = Some n → status n = NCancelled → may_close rq pv n →
    idle d (TransitionNeed now id rq pv "cancelled" dl)
| i_partial now id n sq dl :
    open_need id n d → is_safe_integer sq = Some (partial_sequence n - 1)%Z →
    idle d (AcceptPartial now id (provider n) sq (partial_digest n) dl)
| i_rollback id sq digest previous :
    map_has ("partial:" +:+ id +:+ ":" +:+ Z_to_string sq) (outbox d) = true ∨
    (∀ n, open_need id n d → partial_sequence n = (sq + 1)%Z → digest = partial_digest n → digest = None) →
    idle d (RollbackPartial id sq digest previous)
| i_acknowledged now eid e :
    map_get eid (outbox d) = Some e → is_Some (acknowledged_at e) →
    idle d (AcknowledgeDelivery now eid (recipient e))
| i_begun now id e :
    map_get id (effects d) = Some e →
    idle d (BeginEffect now id (eff_provider e) (eff_requester e) (eff_fingerprint e))
| i_finished now id e outcome :
    map_get id (effects d) = Some e → eff_status e ≠ EStarted →
    idle d (FinishEffect now id (eff_provider e) outcome).

(** ** Refinement *)

Definition refines {A} (o : op) (s s' : ledger) (r : result A) : Prop :=
  match r with
  | Throw _ => tables s' = tables s
  | Ok _ => commits (tables s) o (tables s') ∨ tables s' = tables s ∧ idle (tables s) o
  end.

Lemma transaction_refines {A} o (body : M db A) s :
  (∀ d' a, body (tables s) = (d', Ok a) → commits (tables s) o d' ∨ d' = tables s ∧ idle (tables s) o) →
  refines o s (transaction body s).1 (transaction body s).2.
Proof.
  intros Hb. unfold refines, transaction. destruct (next_fault s); [done| |];
    destruct (body (tables s)) as [d' [a|e]]; try done. exact (Hb d' a eq_refl).
Qed.

Lemma ignore_refines {A} o (m : M ledger A) s :
  refines o s (m s).1 (m s).2 → refines o s (ignore m s).1 (ignore m s).2.
Proof.
  unfold ignore. destruct (m s) as [s' [a|e]] eqn:Hm.
  - by rewrite (M_bind_step _ _ _ _ _ Hm).
  - by rewrite (M_bind_throw _ _ _ _ _ Hm).
Qed.

Lemma guard_Ok {S A} b e (f : unit → M S A) (s s' : S) a :
  (x ← guard_throw b e; f x) s = (s', Ok a) → b = false ∧ f tt s = (s', Ok a).
Proof. by destruct b. Qed.

Lemma get_Ok {S A} (f : S → M S A) (s s' : S) a :
  (x ← get_state; f x) s = (s', Ok a) → f s s = (s', Ok a).
Proof. done. Qed.

Lemma put_Ok {S A} x (f : unit → M S A) (s s' : S) a :
  (y ← put_state x; f y) s = (s', Ok a) → f tt x = (s', Ok a).
Proof. done. Qed.

Lemma persistOutbox_posted now rid rcpt k delivery d d' :
  persistOutbox maxRecords now rid rcpt k delivery d = (d', Ok tt) →
  posted now k rid rcpt delivery d d'.
Proof.
  unfold persistOutbox, posted. destruct (nullish delivery); [intros [= <-]; by left|]. cbv zeta.
  intros [_ Hp]%guard_Ok. apply guard_Ok in Hp as [_ Hp]. apply get_Ok in Hp.
  apply guard_Ok in Hp as [Hcap Hp]. bool_hyps. unfold insert_outbox in Hp.
  destruct (_ || negb _) eqn:Hk; [done|]. injection Hp as <-. bool_hyps. right.
  split_and!; try done. lia.
Qed.

Lemma reserveNeed_refines now id r p f c m delivery s :
  let out := reserveNeed maxRecords now id r p f c m delivery s in
  refines (ReserveNeed now id r p f c m delivery) s out.1 out.2.
Proof.
  cbv zeta. unfold reserveNeed. destruct (negb _); [done|]. apply transaction_refines.
  intros d' [] Hb. left. apply get_Ok in Hb. apply guard_Ok in Hb as [Hnew Hb].
  apply guard_Ok in Hb as [Hcap Hb]. apply map_has_false, map_get_None in Hnew. bool_hyps.
  apply M_bind_Ok_inv in Hb as (d1 & [] & Hi & Hp). unfold insert_need in Hi.
  destruct (map_has _ _); [done|]. injection Hi as <-.
  apply persistOutbox_posted in Hp. apply c_reserve; [done|lia|done].
Qed.

Lemma transitionNeed_refines now id r p to delivery s :
  let out := transitionNeed maxRecords now id r p to delivery s in
  refines (TransitionNeed now id r p to delivery) s out.1 out.2.
Proof.
  cbv zeta. unfold transitionNeed. destruct (target_status to) as [st|] eqn:Hto; [|done].
  apply transaction_refines. intros d' ch Hb. apply get_Ok in Hb.
  destruct (map_get id _) as [n|] eqn:Hg; [|done].
  apply guard_Ok in Hb as [Hr Hb]. apply guard_Ok in Hb as [Hpv Hb].
  unfold target_status in Hto. destruct (negb (bool_decide (status n = Matched))) eqn:Hst.
  { destruct (_ && _) eqn:Hc; [|done]. injection Hb as <- _. right. split; [done|]. bool_hyps.
    repeat case_bool_decide; simplify_eq. by eapply i_cancelled. }
  bool_hyps. left. apply put_Ok in Hb. apply M_bind_Ok_inv in Hb as (d1 & [] & Hp & [= <- _]).
  repeat case_bool_decide; simplify_eq.
  - apply persistOutbox_posted in Hp. by eapply c_cancel.
  - apply persistOutbox_posted in Hp. by eapply c_complete.
  - destruct (nullish delivery) eqn:Hd; [|done]. injection Hp as <-. by eapply c_fail.
Qed.

Lemma acceptPartial_refines now id p sq dg delivery s :
  let out := acceptPartial maxRecords now id p sq dg delivery s in
  refines (AcceptPartial now id p sq dg delivery) s out.1 out.2.
Proof.
  cbv zeta. unfold acceptPartial. destruct (is_safe_integer sq) as [n|] eqn:Hsafe; [|done].
  case_bool_decide; [done|]. apply transaction_refines. intros d' out Hb. apply get_Ok in Hb.
  destruct (map_get id _) as [row|] eqn:Hg; [|done].
  apply guard_Ok in Hb as [Hpv Hb]. apply guard_Ok in Hb as [Hst Hb]. bool_hyps. subst p.
  destruct (_ && _) eqn:Hi.
  { injection Hb as <- _. right. split; [done|]. bool_hyps. subst. by apply i_partial. }
  apply guard_Ok in Hb as [Hn Hb]. bool_hyps. subst n. left. apply put_Ok in Hb.
  apply M_bind_Ok_inv in Hb as (d1 & [] & Hp & [= <- _]).
  destruct (nullish delivery) eqn:Hd.
  { injection Hp as <-. eapply c_partial; [done|done|lia|by rewrite Hd|by left]. }
  apply guard_Ok in Hp as [Hsq Hp]. apply persistOutbox_posted in Hp.
  eapply c_partial; [done|done|lia| |done]. intros _. apply eq_int_true.
  by apply orb_false_iff in Hsq as [Hsq%negb_false_iff _].
Qed.

Lemma rollbackPartial_refines id sq dg pd s :
  let out := rollbackPartial id sq dg pd s in refines (RollbackPartial id sq dg pd) s out.1 out.2.
Proof.
  cbv zeta. apply transaction_refines. intros d' b Hb. apply get_Ok in Hb.
  destruct (map_has _ _) eqn:Ho; [injection Hb as <- _; right; split; [done|]; apply i_rollback; by left|].
  destruct (map_get id _) as [row|] eqn:Hg.
  2:{ injection Hb as <- _. right. split; [done|]. apply i_rollback. right. intros n [Hn _]. congruence. }
  destruct (_ && _) eqn:Hc.
  - bool_hyps. left. apply put_Ok in Hb. injection Hb as <- _.
    assert (sq = partial_sequence row - 1)%Z as -> by lia. subst dg. by eapply c_rollback.
  - injection Hb as <- _. right. split; [done|]. apply i_rollback. right. intros n [Hn Hs] Hsq ->.
    rewrite Hg in Hn. injection Hn as ->. destruct (partial_digest n) as [dg|]; [|done].
    rewrite !bool_decide_true in Hc; done.
Qed.

Lemma acknowledgeDelivery_refines now eid r s :
  let out := acknowledgeDelivery now eid r s in refines (AcknowledgeDelivery now eid r) s out.1 out.2.
Proof.
  cbv zeta. unfold acknowledgeDelivery. destruct (negb _); [done|]. apply transaction_refines.
  intros d' a Hb. apply get_Ok in Hb. destruct (map_get _ _) as [e|] eqn:Hg; [|done].
  apply guard_Ok in Hb as [Hr Hb]. bool_hyps. subst r. destruct (acknowledged_at e) eqn:Ha.
  - injection Hb as <- _. right. split; [done|]. apply i_acknowledged; [done|]. by rewrite Ha.
  - left. apply put_Ok in Hb. injection Hb as <- _. by apply c_acknowledge.
Qed.

Lemma beginEffect_refines now id p r f s :
  let out := beginEffect maxRecords now id p r f s in refines (BeginEffect now id p r f) s out.1 out.2.
Proof.
  cbv zeta. unfold beginEffect. destruct (negb _); [done|]. apply transaction_refines.
  intros d' a Hb. apply get_Ok in Hb. destruct (map_get _ _) as [e|] eqn:Hg.
  - apply guard_Ok in Hb as [Hid Hb]. injection Hb as <- _. right. split; [done|]. bool_hyps.
    subst. by apply i_begun.
  - apply guard_Ok in Hb as [Hcap Hb]. apply put_Ok in Hb. injection Hb as <- _. bool_hyps. left.
    apply c_begin; [done|lia].
Qed.

Lemma finishEffect_refines now id p o s :
  let out := finishEffect now id p o s in refines (FinishEffect now id p o) s out.1 out.2.
Proof.
  cbv zeta. unfold finishEffect. destruct (outcome_status o) as [st|] eqn:Ho; [|done].
  apply transaction_refines. intros d' a Hb. apply get_Ok in Hb.
  destruct (map_get _ _) as [e|] eqn:Hg; [|done]. apply guard_Ok in Hb as [Hp Hb]. bool_hyps. subst p.
  destruct (negb (bool_decide (eff_status e = EStarted))) eqn:Hs; bool_hyps.
  - injection Hb as <- _. right. split; [done|]. by apply i_finished.
  - left. apply put_Ok in Hb. injection Hb as <- _. by apply c_finish.
Qed.

Lemma offers_refine o s :
  match o with ReserveOffer _ _ _ | RevokeOffer _ _ => True | _ => False end →
  refines o s (run_op o s).1 (run_op o s).2.
Proof.
  destruct o; try done; intros _; cbn [run_op].
  - unfold reserveOffer. destruct (negb _); [done|]. apply transaction_refines.
    intros d' [] Hb. apply get_Ok in Hb. apply guard_Ok in Hb as [Hnew Hb]. apply guard_Ok in Hb as [Hcap Hb].
    apply map_has_false, map_get_None in Hnew. bool_hyps. left. injection Hb as <-. apply c_offer; [done|lia].
  - apply transaction_refines. intros d' [] Hb. apply get_Ok in Hb.
    destruct (map_get _ _) as [e|] eqn:Hg; [|done]. apply guard_Ok in Hb as [Ho Hb]. injection Hb as <-.
    bool_hyps. subst. left. by apply c_revoke.
Qed.

Lemma run_op_refines o s : refines o s (run_op o s).1 (run_op o s).2.
Proof.
  destruct o; try (by apply offers_refine); cbn [run_op]; try apply ignore_refines.
  - apply reserveNeed_refines.
  - apply transitionNeed_refines.
  - apply acceptPartial_refines.
  - apply rollbackPartial_refines.
  - apply acknowledgeDelivery_refines.
  - apply beginEffect_refines.
  - apply finishEffect_refines.
Qed.

(** Whatever the outcome, the tables stay or one transition is committed. *)
Lemma run_op_tables o s : tables (run_op o s).1 = tables s ∨ commits (tables s) o (tables (run_op o s).1).
Proof. pose proof (run_op_refines o s) as H. unfold refines in H. destruct (run_op o s).2; tauto. Qed.

(** ** What every committed table satisfies *)

Definition agrees (e : event) (n : need) : Prop :=
  match ekind e with
  | KNeed => recipient e = provider n
  | KPartial => recipient e = requester n ∧
      ∃ z, oprop (event_json e) "sequence" = JNum (JInt z) ∧ (z < partial_sequence n)%Z
  | KResult => recipient e = requester n ∧ status n = NCompleted
  | KRevoke => recipient e = provider n ∧ status n = NCancelled
  end.

(** The tables are keyed and within capacity, a need is closed exactly when it
    has a terminal time, and every event in the outbox is filed under the
    identifier of its kind and agrees with the request it reports on. *)
Record db_ok (d : db) : Prop := {
  ok_keys : map_wf (needs d) ∧ map_wf (outbox d) ∧ map_wf (offers d) ∧ map_wf (effects d);
  ok_sizes : (map_size (needs d) ≤ maxRecords ∧ map_size (offers d) ≤ maxRecords ∧
              map_size (effects d) ≤ maxRecords ∧ map_size (outbox d) ≤ maxRecords * 8)%Z;
  ok_terminal : ∀ id n, map_get id (needs d) = Some n → (status n = Matched ↔ terminal_at n = None);
  ok_events : ∀ eid e, map_get eid (outbox d) = Some e →
    eid = event_id (ekind e) (request_id e) (event_json e) ∧
    ∃ n, map_get (request_id e) (needs d) = Some n ∧ agrees e n
}.

(** ** How the tables may evolve *)

Definition persists {V} (R : V → V → Prop) (m m' : jsmap string V) : Prop :=
  ∀ k v, map_get k m = Some v → ∃ v', map_get k m' = Some v' ∧ R v v'.

Definition need_later (n n' : need) : Prop :=
  requester n' = requester n ∧ provider n' = provider n ∧ fingerprint n' = fingerprint n ∧
  capability n' = capability n ∧ mode n' = mode n ∧ created_at n' = created_at n ∧
  (status n ≠ Matched → n' = n).

Definition event_later (e e' : event) : Prop :=
  e' = e ∨ acknowledged_at e = None ∧ ∃ now,
    e' = Event (request_id e) (recipient e) (ekind e) (event_json e) (event_created e) (Some now).

Definition offer_later (o o' : offer) : Prop :=
  owner o' = owner o ∧ offer_fingerprint o' = offer_fingerprint o ∧ (revoked o = true → revoked o' = true).

Definition effect_later (e e' : effect) : Prop :=
  eff_provider e' = eff_provider e ∧ eff_requester e' = eff_requester e ∧
  eff_fingerprint e' = eff_fingerprint e ∧ eff_created e' = eff_created e ∧
  (eff_status e ≠ EStarted → e' = e).

(** No row is ever deleted, identities are immutable and closed rows are
    final. *)
Definition later (d d' : db) : Prop :=
  persists need_later (needs d) (needs d') ∧ persists event_later (outbox d) (outbox d') ∧
  persists offer_later (offers d) (offers d') ∧ persists effect_later (effects d) (effects d').

#[local] Instance need_later_refl : PreOrder need_later.
Proof.
  split; [done|]. intros n1 n2 n3 (?&?&?&?&?&?&Hx) (?&?&?&?&?&?&Hy). split_and!; try congruence.
  intros Hclosed. specialize (Hx Hclosed). subst. by apply Hy.
Qed.

#[local] Instance event_later_pre : PreOrder event_later.
Proof.
  split; [by left|]. intros e1 e2 e3 [->|(Ha & now & ->)] [->|(Hb & now' & ->)];
    [by left|right; eauto|right; eauto|done].
Qed.

#[local] Instance offer_later_pre : PreOrder offer_later.
Proof. split; [done|]. intros o1 o2 o3 (?&?&?) (?&?&?). split_and!; try congruence. auto. Qed.

#[local] Instance effect_later_pre : PreOrder effect_later.
Proof.
  split; [done|]. intros e1 e2 e3 (?&?&?&?&Hx) (?&?&?&?&Hy). split_and!; try congruence.
  intros Hclosed. specialize (Hx Hclosed). subst. by apply Hy.
Qed.

#[local] Instance persists_pre {V} (R : V → V → Prop) : PreOrder R → PreOrder (persists R).
Proof.
  intros HR. split; [intros m k v Hk; by exists v|]. intros m1 m2 m3 H1 H2 k v Hk.
  destruct (H1 _ _ Hk) as (v' & Hk' & ?). destruct (H2 _ _ Hk') as (v'' & Hk'' & ?).
  exists v''. split; [done|]. by etrans.
Qed.

#[local] Instance later_pre : PreOrder later.
Proof.
  split; [done|]. intros d1 d2 d3 (?&?&?&?) (?&?&?&?). split_and!; (etransitivity; eassumption).
Qed.

Lemma persists_insert {V} (R : V → V → Prop) `{!PreOrder R} k v (m : jsmap string V) :
  map_get k m = None → persists R m (map_set k v m).
Proof.
  intros Hk j w Hj. exists w. split; [|done]. rewrite map_get_set. case_decide; [congruence|done].
Qed.

Lemma persists_update {V} (R : V → V → Prop) `{!PreOrder R} k v v' (m : jsmap string V) :
  map_get k m = Some v → R v v' → persists R m (map_set k v' m).
Proof.
  intros Hk Hr j w Hj. rewrite map_get_set. case_decide as Hjk; [|by exists w].
  exists v'. split; [done|]. subst. congruence.
Qed.

Lemma posted_later now k rid rcpt dl d d' : posted now k rid rcpt dl d d' → later d d'.
Proof.
  intros [[_ ->]|(_ & Hf & _ & _ & ->)]; [done|]. split_and!; try done.
  apply (persists_insert _ _ _ (outbox d)). by apply map_get_None, map_has_false.
Qed.

Lemma update_need_later id n n' d :
  map_get id (needs d) = Some n → need_later n n' → later d (set_needs (map_set id n' (needs d)) d).
Proof. intros Hg Hl. split_and!; try done. by apply (persists_update _ _ n). Qed.

Lemma commits_later d o d' : commits d o d' → later d d'.
Proof.
  destruct 1 as [now id r p f c m dl d' Hn _ Hp|now id n rq pv dl d' [Hn Hs] _ Hp|now id n rq pv dl d' [Hn Hs] _ Hp
    |now id n rq pv dl [Hn Hs] _ _|now id n sq dg dl d' [Hn Hs] _ _ _ Hp|id n pd [Hn Hs] _ _|now eid e He Ha
    |id o f Ho _|id o Ho|now id p r f He _|now id e oc st He Hs _].
  1: etrans; [|eapply posted_later, Hp]; split_and!; try done; by apply (persists_insert _ id _ (needs d)).
  1-5: try (etrans; [|eapply posted_later, Hp]); apply (update_need_later _ n); by try split_and!.
  - split_and!; try done. apply (persists_update _ _ e); [done|]. right. eauto.
  - split_and!; try done. by apply (persists_insert _ id _ (offers d)).
  - split_and!; try done. by apply (persists_update _ _ o).
  - split_and!; try done. by apply (persists_insert _ id _ (effects d)).
  - split_and!; try done. apply (persists_update _ _ e); [done|]. by split_and!.
Qed.

Lemma map_get_Some_key {V} k (v : V) (m : jsmap string V) : map_get k m = Some v → k ∈ map_keys m.
Proof. intros H. apply map_get_is_Some. by exists v. Qed.

Lemma map_size_update {V} k (v v' : V) (m : jsmap string V) :
  map_get k m = Some v → map_size (map_set k v' m) = map_size m.
Proof. intros H%map_get_Some_key. rewrite map_size_set. by case_decide. Qed.

Lemma map_size_insert_le {V} k (v : V) (m : jsmap string V) :
  (map_size (map_set k v m) ≤ map_size m + 1)%Z.
Proof. rewrite map_size_set. case_decide; lia. Qed.

Lemma posted_ok now k rid rcpt dl d d' :
  db_ok d → posted now k rid rcpt dl d d' →
  (∀ n, nullish dl = false → map_get rid (needs d) = Some n →
        agrees (Event rid rcpt k (oprop dl "event") now None) n) →
  db_ok d'.
Proof.
  intros [(?&?&?&?) (?&?&?&?) Ht He] [[_ ->]|(Hd & Hf & Hn & Hc & ->)] Hagree; [by split|].
  split; cbn.
  - auto using map_wf_set.
  - pose proof (map_size_insert_le (event_id k rid (oprop dl "event"))
      (Event rid rcpt k (oprop dl "event") now None) (outbox d)). lia.
  - done.
  - intros eid e. rewrite map_get_set. case_decide; [|apply He]. intros [= <-]. split; [done|].
    apply map_has_true, map_get_is_Some in Hn as [n Hn]. exists n. auto.
Qed.

Lemma update_need_ok id n n' d :
  db_ok d → map_get id (needs d) = Some n → (status n' = Matched ↔ terminal_at n' = None) →
  (∀ eid e, map_get eid (outbox d) = Some e → request_id e = id → agrees e n → agrees e n') →
  db_ok (set_needs (map_set id n' (needs d)) d).
Proof.
  intros [(?&?&?&?) (?&?&?&?) Ht He] Hn Hterm Hag. split; cbn.
  - auto using map_wf_set.
  - rewrite (map_size_update _ n) by done. lia.
  - intros j m. rewrite map_get_set. case_decide; [by intros [= <-]|apply Ht].
  - intros eid e Heid. destruct (He eid e Heid) as [-> (m & Hm & Ham)]. split; [done|].
    rewrite map_get_set. case_decide as Hd; [|by exists m]. exists n'. split; [done|]. subst.
    rewrite Hn in Hm. injection Hm as ->. eauto.
Qed.

Lemma insert_need_ok id n d :
  db_ok d → map_get id (needs d) = None → (map_size (needs d) < maxRecords)%Z →
  status n = Matched → terminal_at n = None → db_ok (set_needs (map_set id n (needs d)) d).
Proof.
  intros [(?&?&?&?) (?&?&?&?) Ht He] Hn Hc Hs Hterm. split; cbn.
  - auto using map_wf_set.
  - pose proof (map_size_insert_le id n (needs d)). lia.
  - intros j m. rewrite map_get_set. case_decide; [by intros [= <-]|apply Ht].
  - intros eid e Heid. destruct (He eid e Heid) as [-> (m & Hm & Ham)]. split; [done|]. exists m.
    split; [|done]. rewrite map_get_set. case_decide; [congruence|done].
Qed.

(** Closing a need keeps every event that could have been filed while it was
    open. *)
Lemma close_ok id n st now d :
  db_ok d → map_get id (needs d) = Some n → status n = Matched → st ≠ Matched →
  db_ok (set_needs (map_set id (closed_by st now n) (needs d)) d).
Proof.
  intros Hok Hn Hs Hst. eapply update_need_ok; [done|exact Hn|by split|].
  intros eid e _ _. unfold agrees. destruct (ekind e); cbn; try done; intros []; congruence.
Qed.

Lemma partial_ok id n digest d :
  db_ok d → map_get id (needs d) = Some n → status n = Matched →
  db_ok (set_needs (map_set id (set_partial (partial_sequence n + 1) digest n) (needs d)) d).
Proof.
  intros Hok Hn Hs. eapply update_need_ok; [done|exact Hn|by apply (ok_terminal _ Hok id n)|].
  intros eid e _ _. unfold agrees. destruct (ekind e); cbn; try done.
  intros [? (z & ? & ?)]. split; [done|]. exists z. split; [done|lia].
Qed.

(** A rollback takes back only a sequence whose event was not posted. *)
Lemma rollback_ok id n digest d :
  db_ok d → map_get id (needs d) = Some n → status n = Matched →
  map_has ("partial:" +:+ id +:+ ":" +:+ Z_to_string (partial_sequence n - 1)) (outbox d) = false →
  db_ok (set_needs (map_set id (set_partial (partial_sequence n - 1) digest n) (needs d)) d).
Proof.
  intros Hok Hn Hs Ho. eapply update_need_ok; [done|exact Hn|by apply (ok_terminal _ Hok id n)|].
  intros eid e Heid <-. unfold agrees. destruct (ok_events _ Hok _ _ Heid) as [-> _].
  destruct (ekind e) eqn:Hk; cbn; try done. intros [? (z & Hz & Hlt)]. split; [done|]. exists z.
  split; [done|]. assert (z ≠ partial_sequence n - 1)%Z; [|lia]. intros ->.
  apply map_has_false in Ho. apply Ho. apply map_get_Some_key in Heid. cbn in Heid.
  by rewrite Hz in Heid.
Qed.

Lemma commits_ok d o d' : db_ok d → commits d o d' → db_ok d'.
Proof.
  intros Hok. pose proof Hok as [(?&?&?&?) (?&?&?&?) Ht He].
  destruct 1 as [now id r p f c m dl d' Hn ? Hp|now id n rq pv dl d' [Hn Hs] _ Hp|now id n rq pv dl d' [Hn Hs] _ Hp
    |now id n rq pv dl [Hn Hs] _ _|now id n sq dg dl d' [Hn Hs] _ _ Hsq Hp|id n pd [Hn Hs] _ Ho|now eid e Heid Ha
    |id o f Ho ?|id o Ho|now id p r f Heid ?|now id e oc st Heid Hs _].
  - refine (posted_ok _ _ _ _ _ _ _ _ Hp _); [by apply insert_need_ok|]. intros m' _. cbn.
    rewrite map_get_set. case_decide; [|done]. by intros [= <-].
  - refine (posted_ok _ _ _ _ _ _ _ _ Hp _); [by eapply close_ok|]. intros m _. cbn.
    rewrite map_get_set. case_decide; [|done]. by intros [= <-].
  - refine (posted_ok _ _ _ _ _ _ _ _ Hp _); [by eapply close_ok|]. intros m _. cbn.
    rewrite map_get_set. case_decide; [|done]. by intros [= <-].
  - by eapply close_ok.
  - refine (posted_ok _ _ _ _ _ _ _ _ Hp _); [by apply partial_ok|]. intros m Hd. cbn.
    rewrite map_get_set. case_decide; [|done]. intros [= <-]. split; [done|].
    exists (partial_sequence n). split; [by apply Hsq|]. cbn. lia.
  - by apply rollback_ok.
  - split; cbn; [auto using map_wf_set|rewrite (map_size_update _ e) by done; lia|done|].
    intros j e'. rewrite map_get_set. case_decide as Hd; [|apply He]. intros [= <-]. subst. exact (He _ e Heid).
  - split; cbn; [auto using map_wf_set| |done|done].
    pose proof (map_size_insert_le id (Offer o f false) (offers d)). lia.
  - split; cbn; [auto using map_wf_set|rewrite (map_size_update _ o) by done; lia|done|done].
  - split; cbn; [auto using map_wf_set| |done|done].
    pose proof (map_size_insert_le id (Effect p r f EStarted now None) (effects d)). lia.
  - split; cbn; [auto using map_wf_set|rewrite (map_size_update _ e) by done; lia|done|done].
Qed.

Lemma run_ops_step o s :
  (db_ok (tables s) → db_ok (tables (run_op o s).1)) ∧ later (tables s) (tables (run_op o s).1).
Proof.
  destruct (run_op_tables o s) as [->|Hc]; [done|].
  split; [by eauto using commits_ok|by eapply commits_later].
Qed.

Lemma run_ops_later ops s : later (tables s) (tables (run_all run_op ops s).1).
Proof.
  revert s. induction ops as [|o ops IH]; intros s; [done|]. cbn [run_all].
  destruct (run_ops_step o s) as [_ Hl]. destruct (run_op o s) as [s1 r]. specialize (IH s1).
  destruct (run_all run_op ops s1) as [s2 rs]. cbn [fst] in *. etransitivity; eassumption.
Qed.

Lemma run_ops_ok ops s : db_ok (tables s) → db_ok (tables (run_all run_op ops s).1).
Proof.
  revert s. induction ops as [|o ops IH]; intros s Hs; [done|]. cbn [run_all].
  destruct (run_ops_step o s) as [Hl _]. destruct (run_op o s) as [s1 r]. specialize (IH s1).
  destruct (run_all run_op ops s1) as [s2 rs]. cbn [fst] in *. auto.
Qed.

(** C3: every operation of the ledger, with any arguments and whatever happens
    to its SQLite transaction, implements the abstract lifecycle: when it
    returns it has committed the one transition its arguments call for, or it
    repeats one and writes nothing; when it throws the tables are as they
    were. *)
Theorem operations_refine o s :
  let r := run_op o s in
  match r.2 with
  | Throw _ => tables r.1 = tables s
  | Ok _ => commits (tables s) o (tables r.1) ∨ tables r.1 = tables s ∧ idle (tables s) o
  end.
Proof. apply run_op_refines. Qed.

(** C11: along any sequence of operations, failing transactions included, the
    tables stay within their capacities and every event in the outbox stays
    filed under its own identifier, addressed to the right party and in
    agreement with the request: a RESULT only for a completed need, a REVOKE
    only for a cancelled one, a PARTIAL only below the need's next sequence.
    No row is ever lost, no identity changes, and a closed need, an
    acknowledged event, a revoked offer and a finished effect are final. *)
Theorem ledger_invariant ops s :
  db_ok (tables s) →
  db_ok (tables (run_all run_op ops s).1) ∧ later (tables s) (tables (run_all run_op ops s).1).
Proof. intros Hs. split; [by apply run_ops_ok|apply run_ops_later]. Qed.

(** ** Delivery *)

Lemma elem_of_page {A} (x : A) n l : x ∈ l → x ∈ take n l ∨ length (take n l) = n.
Proof.
  intros Hx. destruct (decide (length l ≤ n)); [left; by rewrite take_ge|right].
  rewrite length_take. lia.
Qed.

Definition acknowledges (eid : string) (o : op) : Prop :=
  match o with AcknowledgeDelivery _ eid' _ => eid' = eid | _ => False end.

Lemma posted_keeps_event now k rid rcpt dl d d' eid e :
  posted now k rid rcpt dl d d' → map_get eid (outbox d) = Some e → map_get eid (outbox d') = Some e.
Proof.
  intros [[_ ->]|(_ & Hf & _ & _ & ->)] He; [done|]. cbn. rewrite map_get_set.
  case_decide; [|done]. subst. apply map_has_false, map_get_None in Hf. congruence.
Qed.

Lemma commits_keep_event d o d' eid e :
  commits d o d' → ¬ acknowledges eid o → map_get eid (outbox d) = Some e → map_get eid (outbox d') = Some e.
Proof.
  destruct 1; intros Hna He; try done; try (eapply posted_keeps_event; [eassumption|done]).
  cbn in *. rewrite map_get_set. case_decide; [|done]. congruence.
Qed.

Lemma run_ops_keep_event ops s eid e :
  Forall (λ o, ¬ acknowledges eid o) ops → map_get eid (outbox (tables s)) = Some e →
  map_get eid (outbox (tables (run_all run_op ops s).1)) = Some e.
Proof.
  intros Hops. revert s. induction Hops as [|o ops Ho Hops IH]; intros s He; [done|]. cbn [run_all].
  assert (Hs : map_get eid (outbox (tables (run_op o s).1)) = Some e).
  { destruct (run_op_tables o s) as [->|Hc]; [done|]. by eapply commits_keep_event. }
  destruct (run_op o s) as [s1 r]. specialize (IH s1). destruct (run_all run_op ops s1). auto.
Qed.

Lemma pendingDeliveries_page eid e limit page s :
  map_get eid (outbox (tables s)) = Some e → deliverable (recipient e) (tables s) e = true →
  pendingDeliveries (recipient e) limit s = Ok page →
  (eid, e) ∈ page ∨ is_safe_integer (with_default limit (JNum (JInt 32))) = Some (Z.of_nat (length page)).
Proof.
  intros He Hd. unfold pendingDeliveries. destruct (is_safe_integer _) as [n|]; [|done].
  destruct (_ || _) eqn:Hc; [done|]. intros Hp%Ok_inj. bool_hyps.
  destruct (elem_of_page (eid, e) (Z.to_nat n)
              (List.filter (λ e', deliverable (recipient e) (tables s) e'.2) (outbox (tables s)))) as [Hin|Hl].
  - apply list_elem_of_In, filter_In. split; [|done]. apply list_elem_of_In. by apply map_get_elem.
  - left. by rewrite Hp in Hin.
  - right. rewrite Hp in Hl. rewrite Hl. f_equal. lia.
Qed.

Lemma complete_commits now id rq pv dl s s1 ch :
  transitionNeed maxRecords now id rq pv "completed" dl s = (s1, Ok ch) →
  ∃ n, open_need id n (tables s) ∧ may_close rq pv n ∧
       posted now KResult id (requester n) dl
         (set_needs (map_set id (closed_by NCompleted now n) (needs (tables s))) (tables s)) (tables s1).
Proof.
  intros Ht. pose proof (transitionNeed_refines now id rq pv "completed" dl s) as Hr.
  rewrite Ht in Hr. destruct Hr as [Hr|[_ Hr]]; inversion Hr; simplify_eq; eauto.
Qed.

(** C33: when a completion that carries a RESULT returns, the result stays in
    the requester's pending deliveries through any sequence of operations and
    transaction failures until it is acknowledged: every page asked for holds
    it or is full of other pending events; and the need stays completed. *)
Theorem result_delivered now id rq pv dl s s1 ch ops :
  transitionNeed maxRecords now id rq pv "completed" dl s = (s1, Ok ch) → nullish dl = false →
  Forall (λ o, ¬ acknowledges ("result:" +:+ id) o) ops →
  let s2 := (run_all run_op ops s1).1 in
  ∃ n e, getNeed id s = Some n ∧ getNeed id s2 = Some (closed_by NCompleted now n) ∧
    recipient e = requester n ∧ event_json e = oprop dl "event" ∧
    ∀ limit page, pendingDeliveries (requester n) limit s2 = Ok page →
      ("result:" +:+ id, e) ∈ page ∨
      is_safe_integer (with_default limit (JNum (JInt 32))) = Some (Z.of_nat (length page)).
Proof.
  intros Ht Hd Hops. cbv zeta. apply complete_commits in Ht as (n & [Hn Hs] & _ & Hp).
  destruct Hp as [[Hd' _]|(_ & _ & _ & _ & Hs1)]; [congruence|].
  set (e := Event id (requester n) KResult (oprop dl "event") now None) in *.
  assert (He : map_get ("result:" +:+ id) (outbox (tables s1)) = Some e)
    by (rewrite Hs1; cbn; rewrite map_get_set; by case_decide).
  apply (run_ops_keep_event ops s1) in He; [|done].
  assert (Hn1 : map_get id (needs (tables s1)) = Some (closed_by NCompleted now n))
    by (rewrite Hs1; cbn; rewrite map_get_set; by case_decide).
  destruct (run_ops_later ops s1) as [Hl _]. destruct (Hl _ _ Hn1) as (n2 & Hn2 & (_ & _ & _ & _ & _ & _ & Heq)).
  rewrite Heq in Hn2 by done. exists n, e. split_and!; [done..|].
  intros limit page. apply (pendingDeliveries_page _ e); [done|]. unfold deliverable. cbn.
  rewrite Hn2, bool_decide_true by done. done.
Qed.

(** ** Provider effects *)

Lemma beginEffect_known now id p r f e s :
  map_get id (effects (tables s)) = Some e →
  (beginEffect maxRecords now id p r f s).2 ≠ Ok true ∧
  ((beginEffect maxRecords now id p r f s).2 = Ok false →
   eff_provider e = p ∧ eff_requester e = r ∧ eff_fingerprint e = f).
Proof.
  intros He. unfold beginEffect. destruct (negb _); [done|]. unfold transaction.
  unfold mbind, M_bind. cbn [get_state]. rewrite He. destruct (_ || _) eqn:Hc; cbn;
    destruct (next_fault s); cbn; try done. split; [done|]. intros _. by bool_hyps.
Qed.

Lemma beginEffect_acquired now id p r f s s1 :
  beginEffect maxRecords now id p r f s = (s1, Ok true) →
  map_get id (effects (tables s1)) = Some (Effect p r f EStarted now None).
Proof.
  intros Hb. pose proof (beginEffect_refines now id p r f s) as Hr. rewrite Hb in Hr.
  destruct Hr as [Hr|[_ Hr]]; inversion Hr; simplify_eq.
  - cbn. rewrite map_get_set. by case_decide.
  - exfalso. eapply beginEffect_known; [eassumption|]. by rewrite Hb.
Qed.

(** An effect is acquired at most once: after [beginEffect] has granted it,
    no later call grants it again, whatever ran or failed in between, and one
    that is answered without an error names the same provider, requester and
    fingerprint. *)
Theorem effect_acquired_once now id p r f s s1 ops now' p' r' f' :
  beginEffect maxRecords now id p r f s = (s1, Ok true) →
  let again := (beginEffect maxRecords now' id p' r' f' (run_all run_op ops s1).1).2 in
  again ≠ Ok true ∧ (again = Ok false → p' = p ∧ r' = r ∧ f' = f).
Proof.
  intros Hb%beginEffect_acquired. destruct (run_ops_later ops s1) as (_ & _ & _ & Hl).
  destruct (Hl _ _ Hb) as (e & He & Hp & Hr & Hf & _). cbn in *.
  destruct (beginEffect_known now' id p' r' f' e _ He) as [H1 H2]. split; [done|].
  intros Hag. destruct (H2 Hag) as (<- & <- & <-). auto.
Qed.

End specification.

(** ** The ledger behind the NEED replay guard

    An identifier that is not a string is answered as unknown; [reserveNeed]
    refuses it. *)
#[export] Instance sqlite_need_ledger (maxRecords : Z) (now : string) : NeedLedger ledger := {|
  Admission.getNeed id s :=
    (s, Ok (match id with JStr i => bool_decide (is_Some (getNeed i s)) | _ => false end));
  Admission.reserveNeed r :=
    match r_id r, r_requester r with
    | JStr i, JStr rq => reserveNeed maxRecords now i rq (r_provider r) (r_fingerprint r)
                           (r_capability r) (r_mode r) JNull
    | _, _ => throw (fault 400 "invalid_lifecycle_reservation")
    end
|}.

Lemma reserveNeed_known maxRecords now id rq p f c m dl s :
  (reserveNeed maxRecords now id rq p f c m dl s).2 = Ok tt →
  map_get id (needs (tables s)) = None ∧
  is_Some (map_get id (needs (tables (reserveNeed maxRecords now id rq p f c m dl s).1))).
Proof.
  intros Hok. pose proof (reserveNeed_refines maxRecords now id rq p f c m dl s) as Hr.
  cbv zeta in Hr. rewrite Hok in Hr. destruct Hr as [Hr|[_ Hr]]; inversion Hr; simplify_eq.
  split; [done|].
  match goal with Hp : posted _ _ _ _ _ _ _ _ |- _ => destruct (posted_later _ _ _ _ _ _ _ _ Hp) as [Hl _] end.
  cbn in Hl. edestruct Hl as (n' & -> & _); [|done]. rewrite map_get_set. by case_decide.
Qed.

#[export] Instance sqlite_need_ledger_laws maxRecords now :
  NeedLedgerLaws ledger (H := sqlite_need_ledger maxRecords now).
Proof.
  refine {| known (s : ledger) id := is_Some (map_get id (needs (tables s))) |}.
  - done.
  - intros r s id [n Hn]. cbn. destruct (r_id r) as [| | | | |i| |]; try done.
    destruct (r_requester r) as [| | | | |rq| |]; try done.
    pose proof (run_op_tables maxRecords
      (ReserveNeed now i rq (r_provider r) (r_fingerprint r) (r_capability r) (r_mode r) JNull) s) as Hr.
    cbn [run_op] in Hr. destruct Hr as [->|Hc]; [done|]. apply commits_later in Hc as [Hl _].
    destruct (Hl _ _ Hn) as (n' & -> & _). done.
  - intros r s id Hid. cbn. rewrite Hid. destruct (r_requester r) as [| | | | |rq| |]; try done.
    intros [Hn Hs]%reserveNeed_known. rewrite Hn. split; [by intros []|done].
Qed.

(** ** A concrete ledger *)

Definition toy_delivery (to knd : string) : jval :=
  JObj [("recipient", JStr to); ("kind", JStr knd); ("event", JObj [("kind", JStr knd)])].

Definition toy_start : ledger := Ledger empty_db [].

Definition toy_matched : ledger :=
  (reserveNeed 4 "t0" "n1" "alice" "bob" "f" "echo" "quic" (toy_delivery "bob" "NEED") toy_start).1.

Definition toy_completed : ledger :=
  (transitionNeed 4 "t1" "n1" None (Some "bob") "completed" (toy_delivery "alice" "RESULT") toy_matched).1.

Definition toy_ops : list op :=
  [TransitionNeed "t2" "n1" (Some "alice") None "cancelled" JNull; AcknowledgeDelivery "t2" "need:n1" "bob";
   BeginEffect "t2" "x" "bob" "alice" "f"].

Example cancel_after_completion :
  (transitionNeed 4 "t2" "n1" (Some "alice") None "cancelled" JNull toy_completed).2 =
  Throw (fault 409 "request_already_completed").
Proof. vm_compute. reflexivity. Qed.

Lemma empty_db_ok : db_ok 4 empty_db.
Proof. split; cbn; try done. repeat split; constructor. Qed.

Lemma ledger_invariant_witness : db_ok 4 empty_db ∧ db_ok 4 (tables (run_all (run_op 4) toy_ops toy_start).1).
Proof. split; [exact empty_db_ok|]. exact (proj1 (ledger_invariant 4 toy_ops toy_start empty_db_ok)). Defined.

Lemma result_delivered_witness :
  ∃ n e, getNeed "n1" toy_matched = Some n ∧ recipient e = requester n.
Proof.
  assert (Ht : transitionNeed 4 "t1" "n1" None (Some "bob") "completed" (toy_delivery "alice" "RESULT") toy_matched
               = (toy_completed, Ok Changed)) by (vm_compute; reflexivity).
  assert (Hops : Forall (λ o, ¬ acknowledges ("result:" +:+ "n1") o) toy_ops)
    by (unfold toy_ops; do 3 (constructor; [vm_compute; first [tauto|discriminate]|]); constructor).
  destruct (result_delivered 4 "t1" "n1" None (Some "bob") (toy_delivery "alice" "RESULT") toy_matched toy_completed
              Changed toy_ops Ht eq_refl Hops) as (n & e & Hn & _ & Hr & _).
  exists n, e. split; [exact Hn|exact Hr].
Defined.

Lemma effect_acquired_once_witness :
  (beginEffect 4 "t4" "x" "eve" "alice" "f"
     (run_all (run_op 4) toy_ops (beginEffect 4 "t3" "x" "bob" "alice" "f" toy_start).1).1).2 ≠ Ok true.
Proof.
  assert (Hb : beginEffect 4 "t3" "x" "bob" "alice" "f" toy_start =
               ((beginEffect 4 "t3" "x" "bob" "alice" "f" toy_start).1, Ok true)) by (vm_compute; reflexivity).
  exact (proj1 (effect_acquired_once 4 "t3" "x" "bob" "alice" "f" toy_start _ toy_ops "t4" "eve" "alice" "f" Hb)).
Defined.

End Sqlite.
