(* ===== verification/Claims.v ===== *)
(** * Claims and attestations

    Models core/claims/index.js: the content-addressed claim, the attestation
    that reviews it, their construction with a key pair and their
    verification.  A refusal inside a verifier's [try] block is thrown with its
    reason, as an exception it catches is; [createdAt] defaults to the current
    time, which is an argument. *)
From S2P Require Import Prelude JSValue Host Text Protocol.

Module Claims.
Import Text Canonical Keys Envelope.

Definition CLAIM_VERSION : Z := 1.
Definition CLAIM_PROTOCOL : string := "truyn-claim-v1".
Definition ATTEST_PROTOCOL : string := "truyn-attest-v1".
Definition ATTEST_VERDICTS : list string := ["support"; "contradict"; "uncertain"].

(** [v && typeof v === 'object'] *)
Definition object_or (v d : jval) : jval := if truthy v && is_typeof_object v then v else d.

(** [typeof v === 'string' && v.trim() ? v.trim() : null] *)
Definition trimmed_or_null (v : jval) : jval :=
  match v with JStr s => if nonempty_str (trim s) then JStr (trim s) else JNull | _ => JNull end.

Section claims.
Context `{Host}.

Definition requiredIdentity (identity : jval) (label : string) : result string :=
  _ ← throw_if (negb (truthy (oprop identity "nodeId")) || negb (truthy (oprop identity "publicKeyPem")) ||
                negb (truthy (oprop identity "privateKeyPem")))
        (error (label +:+ " identity is required"));
  nodeId ← nodeIdFromPublicKey (oprop identity "publicKeyPem");
  _ ← throw_if (negb (eq_str (oprop identity "nodeId") nodeId)) (error (label +:+ " identity key mismatch"));
  Ok nodeId.

Definition evidence_item (item : jval) : result jval :=
  _ ← throw_if (negb (truthy item) || negb (is_typeof_object item)) (error "invalid attestation evidence");
  kind ← normalizeText (js_or (oprop item "kind") (JStr "source")) "evidence kind" 80;
  sourceId ← normalizeText (oprop item "sourceId") "evidence sourceId" 512;
  Ok (JObj [("kind", JStr kind); ("sourceId", JStr sourceId);
            ("contentDigest", trimmed_or_null (oprop item "contentDigest"));
            ("parentSourceIds", string_list (normalizeStringList (oprop item "parentSourceIds") 32))]).

Definition normalizeEvidence (evidence : jval) : result jval :=
  match evidence with
  | JArr l =>
      if bool_decide (64 < length l) then Throw (error "attestation evidence exceeds limit")
      else items ← result_map evidence_item l; Ok (JArr items)
  | _ => Ok (JArr [])
  end.

Definition normalizeLineage (lineage : jval) : result jval :=
  let lineage := with_default lineage (JObj []) in
  originIds ← get lineage "originIds";
  Ok (JObj [("originIds", string_list (normalizeStringList originIds 64));
            ("publisherIds", string_list (normalizeStringList (oprop lineage "publisherIds") 64));
            ("generatorIds", string_list (normalizeStringList (oprop lineage "generatorIds") 64));
            ("parentAttestationIds",
              string_list (normalizeStringList (oprop lineage "parentAttestationIds") 64))]).

(** ** Claims *)

Definition claimContentId (args : jval) : result (string * jval) :=
  domain ← normalizeText (oprop args "domain") "claim domain" 256;
  statement ← normalizeText (oprop args "statement") "claim statement" 16384;
  subject ← (if nullish (oprop args "subject") then Ok JNull
             else JStr <$> normalizeText (oprop args "subject") "claim subject" 2048);
  let body := JObj
    [("protocol", JStr CLAIM_PROTOCOL); ("version", JNum (JInt CLAIM_VERSION));
     ("domain", JStr (to_lower domain)); ("statement", JStr statement); ("subject", subject);
     ("basis", object_or (oprop args "basis") JNull);
     ("qualifiers", object_or (oprop args "qualifiers") (JObj []))] in
  d ← digest body;
  Ok ("truyn:claim:" +:+ str_drop 7 d, body).

Definition signed_claim (claimId body issuedBy createdAt : jval) : list (string * jval) :=
  [("claimId", claimId); ("body", body); ("issuedBy", issuedBy); ("createdAt", createdAt)].

Definition createClaim (now : string) (args : jval) : result (list (string * jval)) :=
  let identity := oprop args "identity" in
  _ ← requiredIdentity identity "claim issuer";
  '(claimId, body) ← claimContentId args;
  let signed := signed_claim (JStr claimId) body (oprop identity "nodeId")
                  (with_default (oprop args "createdAt") (JStr now)) in
  signature ← signValue (JObj signed) (string_or_empty (oprop identity "privateKeyPem"));
  Ok (signed ++ [("publicKey", oprop identity "publicKeyPem"); ("signature", JStr signature)]).

Definition missing (v : jval) (fields : list string) : bool :=
  existsb (λ k, negb (truthy (oprop v k))) fields.

Definition check_claim (claim : jval) : result unit :=
  _ ← throw_if (missing claim ["claimId"; "body"; "issuedBy"; "createdAt"; "publicKey"; "signature"])
        (error "claim_missing_required_field");
  nodeId ← nodeIdFromPublicKey (oprop claim "publicKey");
  _ ← throw_if (negb (eq_str (oprop claim "issuedBy") nodeId)) (error "claim_issuer_key_mismatch");
  '(claimId, body) ← claimContentId (oprop claim "body");
  _ ← throw_if (negb (eq_str (oprop claim "claimId") claimId)) (error "claim_content_id_mismatch");
  expected ← canonicalize body;
  actual ← canonicalize (oprop claim "body");
  _ ← throw_if (negb (bool_decide (expected = actual))) (error "claim_content_id_mismatch");
  ok ← verifyValue (JObj (signed_claim (oprop claim "claimId") (oprop claim "body")
                            (oprop claim "issuedBy") (oprop claim "createdAt")))
         (oprop claim "signature") (oprop claim "publicKey");
  throw_if (negb ok) (error "claim_signature_invalid").

Definition to_verdict (r : result unit) : verdict :=
  match r with Ok _ => Accepted | Throw e => Rejected (e_message e) end.

Definition verifyClaim (claim : jval) : verdict := to_verdict (check_claim claim).

Definition createClaimFromRetrievedContext (now : string) (args : jval) : result (list (string * jval)) :=
  let provenance := oprop (oprop args "retrievalResult") "provenance" in
  _ ← throw_if (negb (truthy (oprop provenance "verified")) || negb (is_string (oprop provenance "rootCid")) ||
                negb (is_string (oprop provenance "queryHash")))
        (error "verified retrieval provenance is required");
  let selected := elements_of (oprop provenance "selected") in
  _ ← throw_if (bool_decide (selected = [])) (error "verified retrieval selection is required");
  provenanceDigest ← digest provenance;
  commitments ← result_map (λ entry,
    contentCommitment ← get entry "contentCommitment";
    Ok (JObj [("contentCommitment", contentCommitment);
              ("holderReceiptDigest", oprop entry "holderReceiptDigest")])) selected;
  createClaim now (JObj
    [("identity", oprop args "identity"); ("domain", oprop args "domain");
     ("statement", oprop args "statement"); ("subject", with_default (oprop args "subject") JNull);
     ("basis", JObj [("kind", JStr "distributed-context"); ("rootCid", oprop provenance "rootCid");
                     ("queryHash", oprop provenance "queryHash");
                     ("provenanceDigest", JStr provenanceDigest);
                     ("evidenceCommitments", JArr commitments)]);
     ("qualifiers", with_default (oprop args "qualifiers") (JObj []))]).

Definition claimDigest (claim : jval) : result string :=
  digest (JObj [("claimId", oprop claim "claimId"); ("body", oprop claim "body")]).

(** ** Attestations *)

(** The body both sides compute: [createAttestation] from its arguments,
    [verifyAttestation] from the body it received. *)
Definition attestation_body (claimId verdict domain method evidence lineage rationale : jval)
    : list (string * jval) :=
  [("protocol", JStr ATTEST_PROTOCOL); ("version", JNum (JInt CLAIM_VERSION)); ("claimId", claimId);
   ("verdict", verdict); ("domain", domain); ("method", method); ("evidence", evidence);
   ("lineage", lineage); ("rationaleDigest", rationale)].

Definition attestation_id (body : list (string * jval)) (attester : jval) : result string :=
  d ← digest (JObj (set_key "attesterNodeId" attester body));
  Ok ("truyn:attest:" +:+ str_drop 7 d).

Definition signed_attestation (attestationId body attester createdAt : jval) : list (string * jval) :=
  [("attestationId", attestationId); ("body", body); ("attesterNodeId", attester); ("createdAt", createdAt)].

Definition createAttestation (now : string) (args : jval) : result (list (string * jval)) :=
  let identity := oprop args "identity" in
  let claim := oprop args "claim" in
  let verdict := oprop args "verdict" in
  _ ← requiredIdentity identity "attester";
  _ ← match verifyClaim claim with
      | Accepted => Ok tt
      | Rejected reason => Throw (error ("cannot attest invalid claim: " +:+ reason))
      end;
  _ ← throw_if (negb (includes ATTEST_VERDICTS verdict))
        (error "attestation verdict must be support, contradict or uncertain");
  method ← normalizeText (with_default (oprop args "method") (JStr "independent-review"))
             "attestation method" 256;
  evidence ← normalizeEvidence (with_default (oprop args "evidence") (JArr []));
  lineage ← normalizeLineage (oprop args "lineage");
  let body := attestation_body (oprop claim "claimId") verdict (oprop (oprop claim "body") "domain")
                (JStr method) evidence lineage (trimmed_or_null (oprop args "rationaleDigest")) in
  attestationId ← attestation_id body (oprop identity "nodeId");
  let signed := signed_attestation (JStr attestationId) (JObj body) (oprop identity "nodeId")
                  (with_default (oprop args "createdAt") (JStr now)) in
  signature ← signValue (JObj signed) (string_or_empty (oprop identity "privateKeyPem"));
  Ok (signed ++ [("publicKey", oprop identity "publicKeyPem"); ("signature", JStr signature)]).

Definition normalized_body (body : jval) : result (list (string * jval)) :=
  domain ← normalizeText (oprop body "domain") "claim domain" 256;
  method ← normalizeText (oprop body "method") "attestation method" 256;
  evidence ← normalizeEvidence (oprop body "evidence");
  lineage ← normalizeLineage (oprop body "lineage");
  Ok (attestation_body (oprop body "claimId") (oprop body "verdict") (JStr (to_lower domain)) (JStr method)
        evidence lineage (trimmed_or_null (oprop body "rationaleDigest"))).

Definition check_attestation (expectedClaimId attestation : jval) : result unit :=
  _ ← throw_if (missing attestation
                  ["attestationId"; "body"; "attesterNodeId"; "createdAt"; "publicKey"; "signature"])
        (error "attestation_missing_required_field");
  let body := oprop attestation "body" in
  _ ← throw_if (truthy expectedClaimId && negb (strict_eq (oprop body "claimId") expectedClaimId))
        (error "attestation_claim_mismatch");
  _ ← throw_if (negb (includes ATTEST_VERDICTS (oprop body "verdict"))) (error "attestation_verdict_invalid");
  nodeId ← nodeIdFromPublicKey (oprop attestation "publicKey");
  _ ← throw_if (negb (eq_str (oprop attestation "attesterNodeId") nodeId))
        (error "attestation_attester_key_mismatch");
  expected ← normalized_body body;
  text ← canonicalize (JObj expected);
  actual ← canonicalize body;
  _ ← throw_if (negb (bool_decide (text = actual))) (error "attestation_body_not_canonical");
  expectedId ← attestation_id expected (oprop attestation "attesterNodeId");
  _ ← throw_if (negb (eq_str (oprop attestation "attestationId") expectedId))
        (error "attestation_content_id_mismatch");
  ok ← verifyValue (JObj (signed_attestation (oprop attestation "attestationId") body
                            (oprop attestation "attesterNodeId") (oprop attestation "createdAt")))
         (oprop attestation "signature") (oprop attestation "publicKey");
  throw_if (negb ok) (error "attestation_signature_invalid").

Definition verifyAttestation (expectedClaimId attestation : jval) : verdict :=
  to_verdict (check_attestation expectedClaimId attestation).

(** ** Normalisation is idempotent *)

Definition ascii_value (v : jval) : bool :=
  match v with JStr s => str_forall is_ascii s | _ => true end.

Lemma normalizeText_value `{!NfkcLaws _} v label max t :
  ascii_value v = true → normalizeText v label max = Ok t → tidy max t.
Proof. destruct v; try done. apply normalizeText_tidy. Qed.

Lemma object_or_idem v d : object_or (object_or v d) d = object_or v d.
Proof. unfold object_or. destruct (truthy v && is_typeof_object v) eqn:Hv; [by rewrite Hv|by destruct (truthy d && is_typeof_object d)]. Qed.

Lemma trimmed_or_null_idem v : trimmed_or_null (trimmed_or_null v) = trimmed_or_null v.
Proof.
  destruct v as [| | | | |s| |]; try done. cbn. destruct (nonempty_str (trim s)) eqn:Hs; [|done].
  cbn. by rewrite trim_idem, Hs.
Qed.

Lemma claimContentId_body `{!NfkcLaws _} args claimId body :
  ascii_value (oprop args "domain") = true → ascii_value (oprop args "statement") = true →
  ascii_value (oprop args "subject") = true →
  claimContentId args = Ok (claimId, body) → claimContentId body = Ok (claimId, body).
Proof.
  intros Hd Hs Hsub. unfold claimContentId.
  intros (domain & Ed & Hc)%bind_Ok_inv. apply bind_Ok_inv in Hc as (statement & Es & Hc).
  apply bind_Ok_inv in Hc as (subject & Esub & Hc). apply bind_Ok_inv in Hc as (d & Edig & Hc%Ok_inj).
  injection Hc as <- <-.
  apply (normalizeText_value _ _ _ _ Hd) in Ed. apply (normalizeText_value _ _ _ _ Hs) in Es.
  set (b := JObj _) in *.
  change (oprop b "domain") with (JStr (to_lower domain)). change (oprop b "statement") with (JStr statement).
  change (oprop b "subject") with subject.
  change (oprop b "basis") with (object_or (oprop args "basis") JNull).
  change (oprop b "qualifiers") with (object_or (oprop args "qualifiers") (JObj [])).
  rewrite (normalizeText_fixed _ _ _ (tidy_lower _ _ Ed)), (normalizeText_fixed _ _ _ Es).
  assert ((if nullish subject then Ok JNull else JStr <$> normalizeText subject "claim subject" 2048)
          = Ok subject) as Hsubject.
  { destruct (nullish (oprop args "subject")); [by apply Ok_inj in Esub as <-|].
    destruct (normalizeText _ _ _) as [t|] eqn:Et; [|done]. apply Ok_inj in Esub as <-.
    apply (normalizeText_value _ _ _ _ Hsub) in Et. cbn [nullish]. by rewrite (normalizeText_fixed _ _ _ Et). }
  unfold mbind, result_bind. rewrite Hsubject, to_lower_idem, !object_or_idem.
  fold b. by rewrite Edig.
Qed.

(** ** Signatures *)

Lemma requiredIdentity_inv identity label nodeId :
  requiredIdentity identity label = Ok nodeId →
  truthy (oprop identity "publicKeyPem") = true ∧ oprop identity "nodeId" = JStr nodeId ∧
  truthy (JStr nodeId) = true ∧ nodeIdFromPublicKey (oprop identity "publicKeyPem") = Ok nodeId.
Proof.
  unfold requiredIdentity. intros ([] & Ht & Hi)%bind_Ok_inv. rewrite throw_if_Ok in Ht. bool_hyps.
  apply bind_Ok_inv in Hi as (n & Hn & Hi). apply bind_Ok_inv in Hi as ([] & He & ->%Ok_inj).
  rewrite throw_if_Ok, negb_false_iff in He. apply eq_str_true in He.
  split_and!; [done|done|by rewrite <- He|done].
Qed.

Lemma digest_canonical v d : digest v = Ok d → ∃ t, canonicalize v = Ok t.
Proof. unfold digest. intros (t & Ht & _)%bind_Ok_inv. eauto. Qed.

(** The identity of the arguments is a key pair, and the texts are ASCII. *)
Definition signs (args : jval) (pub priv : string) : Prop :=
  oprop (oprop args "identity") "publicKeyPem" = JStr pub ∧
  oprop (oprop args "identity") "privateKeyPem" = JStr priv.

Definition ascii_claim (args : jval) : bool :=
  ascii_value (oprop args "domain") && ascii_value (oprop args "statement") &&
  ascii_value (oprop args "subject").

Definition dated (now : string) (args : jval) : bool :=
  truthy (with_default (oprop args "createdAt") (JStr now)).

(** A claim built from an identity's own key pair, whose texts are ASCII,
    passes verification, and its domain is normalised. *)
Lemma createClaim_verifies `{!NfkcLaws _} (HL : Base64Laws _) pub priv (HK : KeyPair _ pub priv) now args c :
  signs args pub priv → ascii_claim args = true → dated now args = true →
  createClaim now args = Ok c →
  verifyClaim (JObj c) = Accepted ∧
  ∃ domain claimId, tidy 256 domain ∧ oprop (JObj c) "claimId" = JStr claimId ∧
    oprop (oprop (JObj c) "body") "domain" = JStr (to_lower domain).
Proof.
  intros [Hpub Hpriv] Ha Hat. unfold ascii_claim in Ha. apply andb_prop in Ha as [[Hd Hs]%andb_prop Hsub].
  unfold dated in Hat. unfold createClaim.
  intros (nodeId & Hid & Hc)%bind_Ok_inv. apply bind_Ok_inv in Hc as ([claimId body] & Hcid & Hc).
  apply bind_Ok_inv in Hc as (sig & Hsig & Hc%Ok_inj). subst c.
  apply requiredIdentity_inv in Hid as (Htp & Hnode & Htn & Hn). rewrite Hpriv in Hsig. cbn [string_or_empty] in Hsig.
  pose proof (signValue_nonempty pub priv HK HL _ _ Hsig) as Hne.
  assert (Hbody : ∃ d t domain, claimId = "truyn:claim:" +:+ str_drop 7 d ∧ truthy body = true ∧
            canonicalize body = Ok t ∧ tidy 256 domain ∧ oprop body "domain" = JStr (to_lower domain)).
  { unfold claimContentId in Hcid. apply bind_Ok_inv in Hcid as (domain & Hdom & Hcid).
    apply bind_Ok_inv in Hcid as (? & _ & Hcid). apply bind_Ok_inv in Hcid as (? & _ & Hcid).
    apply bind_Ok_inv in Hcid as (d & Hdig & Hcid%Ok_inj). injection Hcid as <- <-.
    destruct (digest_canonical _ _ Hdig) as [t Ht]. apply (normalizeText_value _ _ _ _ Hd) in Hdom.
    exists d, t, domain. by split_and!. }
  destruct Hbody as (d & t & domain & Hcl & Htb & Htext & Htidy & Hdomain).
  apply claimContentId_body in Hcid; [|done..]. split; [|exists domain, claimId; by split_and!].
  set (at' := with_default _ _) in *. rewrite Hpub, Hnode in *.
  unfold verifyClaim, check_claim. set (claim := JObj (_ ++ _)).
  change (oprop claim "publicKey") with (JStr pub). change (oprop claim "issuedBy") with (JStr nodeId).
  change (oprop claim "body") with body. change (oprop claim "claimId") with (JStr claimId).
  change (oprop claim "createdAt") with at'. change (oprop claim "signature") with (JStr sig).
  assert (missing claim ["claimId"; "body"; "issuedBy"; "createdAt"; "publicKey"; "signature"] = false) as ->.
  { cbn [missing existsb]. unfold missing. cbn [existsb].
    change (oprop claim "publicKey") with (JStr pub). change (oprop claim "issuedBy") with (JStr nodeId).
    change (oprop claim "body") with body. change (oprop claim "claimId") with (JStr claimId).
    change (oprop claim "createdAt") with at'. change (oprop claim "signature") with (JStr sig).
    rewrite Htp, Htn, Hat, Htb. subst claimId. cbn [truthy].
    by rewrite (proj2 (nonempty_str_true sig) Hne). }
  unfold mbind, result_bind. cbn [throw_if]. rewrite Hn. unfold eq_str. cbn [strict_eq].
  rewrite bool_decide_true by done. cbn [negb throw_if]. rewrite Hcid, bool_decide_true by done.
  cbn [negb throw_if]. rewrite Htext, bool_decide_true by done. cbn [negb throw_if].
  fold (signed_claim (JStr claimId) body (JStr nodeId) at') in *.
  by rewrite (verifyValue_signValue pub priv _ sig HK HL Hsig).
Qed.

(** ** Attestation bodies *)

Definition ascii_evidence (v : jval) : bool :=
  match v with
  | JArr l => forallb (λ i, ascii_value (oprop i "kind") && ascii_value (oprop i "sourceId")) l
  | _ => true
  end.

Lemma string_list_idem v max :
  string_list (normalizeStringList (string_list (normalizeStringList v max)) max) =
  string_list (normalizeStringList v max).
Proof. by rewrite normalizeStringList_idem. Qed.

Lemma evidence_item_idem `{!NfkcLaws _} item v :
  ascii_value (oprop item "kind") = true → ascii_value (oprop item "sourceId") = true →
  evidence_item item = Ok v → evidence_item v = Ok v.
Proof.
  intros Hk Hs. unfold evidence_item at 1. intros ([] & _ & Hv)%bind_Ok_inv.
  apply bind_Ok_inv in Hv as (kind & Ek & Hv). apply bind_Ok_inv in Hv as (sourceId & Es & Hv%Ok_inj).
  assert (Hk' : ascii_value (js_or (oprop item "kind") (JStr "source")) = true)
    by (unfold js_or; by destruct (truthy _)).
  apply (normalizeText_value _ _ _ _ Hk') in Ek. apply (normalizeText_value _ _ _ _ Hs) in Es.
  subst v. unfold evidence_item. set (v := JObj _).
  change (oprop v "kind") with (JStr kind). change (oprop v "sourceId") with (JStr sourceId).
  change (oprop v "contentDigest") with (trimmed_or_null (oprop item "contentDigest")).
  change (oprop v "parentSourceIds") with (string_list (normalizeStringList (oprop item "parentSourceIds") 32)).
  assert (js_or (JStr kind) (JStr "source") = JStr kind) as ->.
  { unfold js_or. cbn [truthy]. destruct Ek as (_ & _ & Hn & _). apply nonempty_str_true in Hn. by rewrite Hn. }
  rewrite (normalizeText_fixed _ _ _ Ek), (normalizeText_fixed _ _ _ Es).
  unfold mbind, result_bind. cbn [throw_if truthy is_typeof_object negb orb].
  by rewrite trimmed_or_null_idem, string_list_idem.
Qed.

Lemma normalizeEvidence_idem `{!NfkcLaws _} v w :
  ascii_evidence v = true → normalizeEvidence v = Ok w → normalizeEvidence w = Ok w.
Proof.
  intros Ha. destruct v as [| | | | | |l|]; cbn [normalizeEvidence]; try by intros <-%Ok_inj.
  case_bool_decide as Hlen; [done|]. intros (items & Hi & <-%Ok_inj)%bind_Ok_inv. cbn [normalizeEvidence].
  assert (Hitems : length items = length l ∧ result_map evidence_item items = Ok items).
  { clear Hlen. cbn [ascii_evidence] in Ha. revert items Hi Ha. induction l as [|x l IH]; intros items Hi Ha.
    - apply Ok_inj in Hi as <-. done.
    - cbn [result_map] in Hi. apply bind_Ok_inv in Hi as (y & Hy & Hi). apply bind_Ok_inv in Hi as (ys & Hys & <-%Ok_inj).
      cbn [forallb] in Ha. apply andb_prop in Ha as [[Hk Hs]%andb_prop Ha].
      destruct (IH ys Hys Ha) as [Hl Hr]. split; [cbn; congruence|]. cbn [result_map].
      rewrite (evidence_item_idem x y Hk Hs Hy). unfold mbind, result_bind. by rewrite Hr. }
  destruct Hitems as [Hl Hr]. rewrite bool_decide_false by lia. unfold mbind, result_bind. by rewrite Hr.
Qed.

Lemma normalizeLineage_idem v w : normalizeLineage v = Ok w → normalizeLineage w = Ok w.
Proof.
  unfold normalizeLineage at 1. intros (o & _ & <-%Ok_inj)%bind_Ok_inv. unfold normalizeLineage.
  set (w := JObj _). cbn [with_default]. unfold mbind, result_bind, get. cbn [nullish].
  set (l := with_default v _) in *.
  change (with_default w (JObj [])) with w. change (nullish w) with false.
  change (oprop w "originIds") with (string_list (normalizeStringList o 64)).
  change (oprop w "publisherIds") with (string_list (normalizeStringList (oprop l "publisherIds") 64)).
  change (oprop w "generatorIds") with (string_list (normalizeStringList (oprop l "generatorIds") 64)).
  change (oprop w "parentAttestationIds") with
    (string_list (normalizeStringList (oprop l "parentAttestationIds") 64)).
  by rewrite !string_list_idem.
Qed.

Lemma normalized_body_fixed `{!NfkcLaws _} claimId verdict domain method evidence lineage rationale v w r :
  tidy 256 domain → tidy 256 method →
  ascii_evidence v = true → normalizeEvidence v = Ok evidence → normalizeLineage w = Ok lineage →
  rationale = trimmed_or_null r →
  let body := attestation_body claimId verdict (JStr (to_lower domain)) (JStr method) evidence lineage rationale in
  normalized_body (JObj body) = Ok body.
Proof.
  intros Hd Hm Ha He Hl ->. cbv zeta. unfold normalized_body. set (b := JObj _).
  change (oprop b "domain") with (JStr (to_lower domain)). change (oprop b "method") with (JStr method).
  change (oprop b "evidence") with evidence. change (oprop b "lineage") with lineage.
  change (oprop b "claimId") with claimId. change (oprop b "verdict") with verdict.
  change (oprop b "rationaleDigest") with (trimmed_or_null r).
  rewrite (normalizeText_fixed _ _ _ (tidy_lower _ _ Hd)), (normalizeText_fixed _ _ _ Hm).
  rewrite (normalizeEvidence_idem _ _ Ha He), (normalizeLineage_idem _ _ Hl).
  unfold mbind, result_bind. by rewrite to_lower_idem, trimmed_or_null_idem.
Qed.

Definition ascii_attestation (args : jval) : bool :=
  ascii_value (oprop args "method") && ascii_evidence (oprop args "evidence").

(** What the constructors sign, the verifiers accept.  A claim built by
    [createClaim] and an attestation built over it by [createAttestation], each
    with its author's key pair and with ASCII texts, both verify, and the
    attestation verifies against the claim's identifier. *)
Theorem attested_claim_verifies (HN : NfkcLaws _) (HL : Base64Laws _) pub priv pub2 priv2
    (HK : KeyPair _ pub priv) (HK2 : KeyPair _ pub2 priv2) now now2 cargs aargs c a :
  signs cargs pub priv → ascii_claim cargs = true → dated now cargs = true →
  signs aargs pub2 priv2 → ascii_attestation aargs = true → dated now2 aargs = true →
  createClaim now cargs = Ok c → oprop aargs "claim" = JObj c → createAttestation now2 aargs = Ok a →
  verifyClaim (JObj c) = Accepted ∧ verifyAttestation (oprop (JObj c) "claimId") (JObj a) = Accepted.
Proof.
  intros Hsc Hac Hdc [Hpub Hpriv] Haa Hda Hc Hclaim.
  destruct (createClaim_verifies HL pub priv HK now cargs c Hsc Hac Hdc Hc) as [Hv (domain & claimId & Htidy & Hcid & Hdomain)].
  intros Hat. split; [exact Hv|]. unfold createAttestation in Hat. rewrite Hclaim, Hv, Hdomain, Hcid in Hat.
  apply bind_Ok_inv in Hat as (nodeId & Hid & Hat). apply bind_Ok_inv in Hat as ([] & _ & Hat).
  apply bind_Ok_inv in Hat as ([] & Hver & Hat). apply bind_Ok_inv in Hat as (method & Hm & Hat).
  apply bind_Ok_inv in Hat as (evidence & He & Hat). apply bind_Ok_inv in Hat as (lineage & Hl & Hat).
  apply bind_Ok_inv in Hat as (attestationId & Haid & Hat). apply bind_Ok_inv in Hat as (sig & Hsig & Hat%Ok_inj).
  unfold ascii_attestation in Haa. apply andb_prop in Haa as [Hmeth Hev].
  assert (Hm' : ascii_value (with_default (oprop aargs "method") (JStr "independent-review")) = true)
    by (by destruct (oprop aargs "method")).
  assert (Hev' : ascii_evidence (with_default (oprop aargs "evidence") (JArr [])) = true)
    by (by destruct (oprop aargs "evidence")).
  apply (normalizeText_value _ _ _ _ Hm') in Hm. apply requiredIdentity_inv in Hid as (Htp & Hnode & Htn & Hn).
  rewrite Hpriv in Hsig. cbn [string_or_empty] in Hsig. rewrite Hpub, Hnode in *.
  pose proof (signValue_nonempty pub2 priv2 HK2 HL _ _ Hsig) as Hne. unfold dated in Hda.
  set (at' := with_default (oprop aargs "createdAt") _) in *.
  rewrite Hcid. set (verdict := oprop aargs "verdict") in *.
  pose proof (normalized_body_fixed (JStr claimId) verdict domain method evidence lineage _ _ _
                (oprop aargs "rationaleDigest") Htidy Hm Hev' He Hl eq_refl) as Hnorm. cbv zeta in Hnorm.
  set (body := attestation_body _ _ _ _ _ _ _) in *.
  assert (Hattid : truthy (JStr attestationId) = true).
  { unfold attestation_id in Haid. apply bind_Ok_inv in Haid as (d & _ & <-%Ok_inj). done. }
  subst a. unfold verifyAttestation, check_attestation. set (att := JObj (_ ++ _)).
  assert (Ht : missing att ["attestationId"; "body"; "attesterNodeId"; "createdAt"; "publicKey"; "signature"] = false).
  { unfold missing. cbn [existsb].
    change (oprop att "attestationId") with (JStr attestationId). change (oprop att "body") with (JObj body).
    change (oprop att "attesterNodeId") with (JStr nodeId). change (oprop att "createdAt") with at'.
    change (oprop att "publicKey") with (JStr pub2). change (oprop att "signature") with (JStr sig).
    rewrite Hattid, Htn, Hda, Htp. cbn [truthy]. by rewrite (proj2 (nonempty_str_true sig) Hne). }
  rewrite Ht. clear Ht. cbv zeta.
  change (oprop att "attestationId") with (JStr attestationId). change (oprop att "body") with (JObj body).
  change (oprop att "attesterNodeId") with (JStr nodeId). change (oprop att "createdAt") with at'.
  change (oprop att "publicKey") with (JStr pub2). change (oprop att "signature") with (JStr sig).
  change (oprop (JObj body) "claimId") with (JStr claimId). change (oprop (JObj body) "verdict") with verdict.
  assert (Htext : ∃ t, canonicalize (JObj body) = Ok t).
  { unfold signValue in Hsig. apply bind_Ok_inv in Hsig as (t & Hcan & _).
    apply (canonicalize_member _ _ ("body", JObj body) Hcan). right. left. }
  destruct Htext as [text Htext]. rewrite (bind_step _ _ tt eq_refl).
  rewrite (bind_step _ _ tt) by (cbn [strict_eq]; by rewrite bool_decide_true, andb_false_r by done).
  rewrite throw_if_Ok in Hver. rewrite (bind_step _ _ tt) by (by rewrite Hver). rewrite (bind_step _ _ _ Hn).
  rewrite (bind_step _ _ tt) by (unfold eq_str; cbn [strict_eq]; by rewrite bool_decide_true).
  rewrite (bind_step _ _ _ Hnorm), !(bind_step _ _ _ Htext).
  rewrite (bind_step _ _ tt) by (by rewrite bool_decide_true).
  rewrite (bind_step _ _ _ Haid).
  rewrite (bind_step _ _ tt) by (unfold eq_str; cbn [strict_eq]; by rewrite bool_decide_true).
  by rewrite (bind_step _ _ true (verifyValue_signValue pub2 priv2 _ sig HK2 HL Hsig)).
Qed.

(** ** Identifiers name contents *)

Lemma verifyClaim_content claim :
  verifyClaim claim = Accepted →
  ∃ text, canonicalize (oprop claim "body") = Ok text ∧
    oprop claim "claimId" = JStr ("truyn:claim:" +:+ sha256_hex text).
Proof.
  unfold verifyClaim, to_verdict. destruct (check_claim claim) as [[]|] eqn:Hc; [intros _|done].
  unfold check_claim in Hc. apply bind_Ok_inv in Hc as ([] & _ & Hc). apply bind_Ok_inv in Hc as (nodeId & _ & Hc).
  apply bind_Ok_inv in Hc as ([] & _ & Hc). apply bind_Ok_inv in Hc as ([claimId body] & Hid & Hc).
  apply bind_Ok_inv in Hc as ([] & Heq & Hc). apply bind_Ok_inv in Hc as (expected & Hexp & Hc).
  apply bind_Ok_inv in Hc as (actual & Hact & Hc). apply bind_Ok_inv in Hc as ([] & Hsame & _).
  rewrite throw_if_Ok, negb_false_iff in Heq, Hsame. apply eq_str_true in Heq. bool_hyps. subst actual.
  unfold claimContentId in Hid. apply bind_Ok_inv in Hid as (? & _ & Hid).
  apply bind_Ok_inv in Hid as (? & _ & Hid). apply bind_Ok_inv in Hid as (? & _ & Hid).
  apply bind_Ok_inv in Hid as (d & Hd & Hid%Ok_inj). injection Hid as <- Hb. unfold digest in Hd.
  rewrite Hb in Hd. rewrite (bind_step _ _ _ Hexp) in Hd. apply Ok_inj in Hd as <-.
  exists expected. split; [exact Hact|]. rewrite Heq. done.
Qed.

(** A claim identifier names its content.  Two claims that verify and carry
    the same identifier have the same canonical body, unless SHA-256 collides
    on their two bodies; their issuers and dates may differ. *)
Theorem claim_id_binds_content c1 c2 :
  verifyClaim c1 = Accepted → verifyClaim c2 = Accepted →
  oprop c1 "claimId" = oprop c2 "claimId" →
  collision_free (λ t, canonicalize (oprop c1 "body") = Ok t ∨ canonicalize (oprop c2 "body") = Ok t) →
  canonicalize (oprop c1 "body") = canonicalize (oprop c2 "body").
Proof.
  intros (t1 & Ht1 & H1)%verifyClaim_content (t2 & Ht2 & H2)%verifyClaim_content Hid Hfree.
  rewrite Ht1, Ht2. f_equal. apply Hfree; [by left|by right|].
  rewrite H1, H2 in Hid. injection Hid as Hid. by apply string_app_inj_l in Hid.
Qed.

End claims.

(** ** A concrete claim and its attestation *)

Definition toy_author : jval :=
  JObj [("nodeId", JStr (match nodeIdFromPublicKey (H := Toy.host) (JStr "pem") with Ok s => s | Throw _ => "" end));
        ("publicKeyPem", JStr "pem"); ("privateKeyPem", JStr "priv")].

Definition toy_claim_args (subject : jval) : jval :=
  JObj [("identity", toy_author); ("domain", JStr " Chess  Rules "); ("statement", JStr "White moves  first");
        ("subject", subject); ("createdAt", JStr "2026-10-13T12:30:00.000Z")].

Definition toy_claim_of (subject : jval) : list (string * jval) :=
  match createClaim (H := Toy.host) "now" (toy_claim_args subject) with Ok c => c | Throw _ => [] end.

Definition toy_claim : list (string * jval) := Eval vm_compute in toy_claim_of JNull.

Definition toy_attestation_args : jval :=
  JObj [("identity", toy_author); ("claim", JObj toy_claim); ("verdict", JStr "support");
        ("evidence", JArr [JObj [("sourceId", JStr "fide handbook"); ("parentSourceIds", JArr [JStr " b "; JStr "a"])]]);
        ("lineage", JObj [("originIds", JArr [JStr "o1"; JStr "o1"])])].

Definition toy_attestation : list (string * jval) := Eval vm_compute in
  ok_or [] (createAttestation (H := Toy.host) "2026-10-13T12:30:00.000Z" toy_attestation_args).

Lemma attested_claim_verifies_witness :
  verifyClaim (H := Toy.host) (JObj toy_claim) = Accepted ∧
  verifyAttestation (H := Toy.host) (oprop (JObj toy_claim) "claimId") (JObj toy_attestation) = Accepted.
Proof.
  apply (attested_claim_verifies (H := Toy.host) toy_nfkc_laws Toy.base64_laws "pem" "priv" "pem" "priv"
           (Toy.key_pair "pem" "priv") (Toy.key_pair "pem" "priv") "now" "2026-10-13T12:30:00.000Z"
           (toy_claim_args JNull) toy_attestation_args).
  - split; reflexivity.
  - vm_compute; reflexivity.
  - reflexivity.
  - split; reflexivity.
  - vm_compute; reflexivity.
  - reflexivity.
  - vm_compute; reflexivity.
  - reflexivity.
  - vm_compute; reflexivity.
Defined.

Lemma claim_id_binds_content_witness :
  canonicalize (oprop (JObj toy_claim) "body") = canonicalize (oprop (JObj (rev toy_claim)) "body").
Proof.
  apply (claim_id_binds_content (H := Toy.host)).
  - vm_compute; reflexivity.
  - vm_compute; reflexivity.
  - vm_compute; reflexivity.
  - intros a b Ha Hb _.
    assert (Hs : canonicalize (oprop (JObj toy_claim) "body") = canonicalize (oprop (JObj (rev toy_claim)) "body"))
      by (vm_compute; reflexivity).
    rewrite <- Hs in Ha, Hb. destruct Ha as [Ha|Ha], Hb as [Hb|Hb]; rewrite Ha in Hb; by apply Ok_inj in Hb.
Defined.

End Claims.
