(* ===== verification/Provenance.v ===== *)
(** * Independence of attestations

    Models core/provenance/index.js: the union-find over attestation indices
    that puts attestations with a shared origin, publisher or generator in one
    group, the summary of the groups and the provenance graph of a claim.
    Fuel: [find] is given one more step than there are nodes, and never runs
    out ([find_total]).  The attestations analysed are those
    [verifyAttestation] accepts, whose lineage lists are lists of strings. *)
From S2P Require Import Prelude JSMap JSValue JsonPrint Host Text Protocol Claims.

(** ** Union-find with path halving *)

Module UnionFind.

(** [find]: [parent[value] = parent[parent[value]]; value = parent[value]] *)
Fixpoint find_from (fuel : nat) (parent : list nat) (value : nat) : option (list nat * nat) :=
  match fuel with
  | O => None
  | S fuel =>
      p ← parent !! value;
      if decide (p = value) then Some (parent, value)
      else g ← parent !! p; find_from fuel (<[value := g]> parent) g
  end.

Definition find (parent : list nat) (value : nat) : option (list nat * nat) :=
  find_from (S (length parent)) parent value.

Arguments find : simpl never.

Definition union (a b : nat) (parent : list nat) : option (list nat) :=
  '(parent, ra) ← find parent a;
  '(parent, rb) ← find parent b;
  Some (if decide (ra = rb) then parent else <[rb := ra]> parent).

Definition unionFind (size : nat) : list nat := seq 0 size.

(** *** The forest *)

(** Parents are nodes, and every step that is not at a root climbs. *)
Definition ranked (rank : nat → nat) (p : list nat) : Prop :=
  ∀ i j, p !! i = Some j → j < length p ∧ (i = j ∨ rank i < rank j).
Definition forest (p : list nat) : Prop := ∃ rank, ranked rank p.

Inductive climbs (p : list nat) : nat → nat → Prop :=
| climb_root i : p !! i = Some i → climbs p i i
| climb_step i j r : p !! i = Some j → i ≠ j → climbs p j r → climbs p i r.

Lemma climbs_root p i r : climbs p i r → p !! r = Some r.
Proof. induction 1; done. Qed.

Lemma climbs_det p i r s : climbs p i r → climbs p i s → r = s.
Proof.
  intros Hr. revert s. induction Hr as [i Hi|i j r Hi Hj Hr IH]; intros s Hs.
  - inversion Hs; simplify_eq; done.
  - inversion Hs; simplify_eq. by apply IH.
Qed.

Lemma climbs_of_root p i s : p !! i = Some i → climbs p i s → s = i.
Proof. intros Hi Hs. eapply climbs_det; [exact Hs|by apply climb_root]. Qed.

(** The nodes ranked above a node: the measure of a climb. *)
Definition above (rank : nat → nat) (n v : nat) : nat :=
  length (filter (λ j, rank v < rank j) (seq 0 n)).

Lemma above_le rank n v : above rank n v ≤ n.
Proof. unfold above. etrans; [apply length_filter|]. by rewrite length_seq. Qed.

Lemma above_lt rank n v w : w < n → rank v < rank w → above rank n w < above rank n v.
Proof.
  intros Hw Hr. unfold above.
  assert (Hin : w ∈ seq 0 n) by (apply elem_of_seq; lia). revert Hin.
  induction (seq 0 n) as [|x l IH]; [by intros ?%elem_of_nil|].
  assert (Hle : length (filter (λ j, rank w < rank j) l) ≤ length (filter (λ j, rank v < rank j) l)).
  { clear IH. induction l as [|y l IHl]; [done|]. rewrite !filter_cons. repeat case_decide; cbn; lia. }
  intros [->|Hx]%elem_of_cons; rewrite !filter_cons.
  - rewrite decide_False by lia. rewrite decide_True by done. cbn. lia.
  - specialize (IH Hx). repeat case_decide; cbn; lia.
Qed.

Lemma ranked_step rank p i j : ranked rank p → p !! i = Some j → i ≠ j → j < length p ∧ rank i < rank j.
Proof. intros Hp Hi Hj. destruct (Hp _ _ Hi) as [? [?|?]]; [done|]. done. Qed.

(** Halving the path at a node keeps ranks and roots. *)
Lemma halving_ranked rank p v j g :
  ranked rank p → p !! v = Some j → v ≠ j → p !! j = Some g → ranked rank (<[v := g]> p).
Proof.
  intros Hp Hv Hj Hg i k Hi. rewrite length_insert. destruct (decide (i = v)) as [->|Hi'].
  - rewrite list_lookup_insert_eq in Hi by (by eapply lookup_lt_Some). injection Hi as <-.
    destruct (Hp _ _ Hg) as [Hlt Hor]. split; [done|]. right.
    destruct (ranked_step _ _ _ _ Hp Hv Hj). destruct Hor as [->|]; lia.
  - rewrite list_lookup_insert_ne in Hi by done. by apply Hp.
Qed.

Lemma halving_climbs rank p v j g i s :
  ranked rank p → p !! v = Some j → v ≠ j → p !! j = Some g →
  climbs p i s → climbs (<[v := g]> p) i s.
Proof.
  intros Hp Hv Hj Hg Hs. pose proof (lookup_lt_Some _ _ _ Hv) as Hlt.
  destruct (ranked_step _ _ _ _ Hp Hv Hj) as [Hjl Hvj].
  induction Hs as [i Hi|i k r Hi Hk Hr IH].
  - apply climb_root. rewrite list_lookup_insert_ne; [done|]. intros <-. congruence.
  - destruct (decide (i = v)) as [->|Hi'].
    + assert (k = j) as -> by congruence. destruct (decide (g = j)) as [->|Hgj].
      * apply climbs_of_root in Hr as ->; [|done]. eapply climb_step; [by apply list_lookup_insert_eq|done|exact IH].
      * destruct (ranked_step _ _ _ _ Hp Hg ltac:(done)) as [_ Hjg].
        inversion IH as [? Hroot|? j' ? Hj' Hne Hr']; subst.
        -- rewrite list_lookup_insert_ne in Hroot by done. congruence.
        -- rewrite list_lookup_insert_ne in Hj' by done. assert (j' = g) as -> by congruence.
           eapply climb_step; [by apply list_lookup_insert_eq|intros ->; lia|done].
    + eapply climb_step; [by rewrite list_lookup_insert_ne|done|done].
Qed.

Definition same_roots (p p' : list nat) : Prop :=
  length p' = length p ∧ ∀ i s, climbs p i s → climbs p' i s.

Lemma same_roots_refl p : same_roots p p.
Proof. done. Qed.

Lemma same_roots_trans p q r : same_roots p q → same_roots q r → same_roots p r.
Proof. intros [? ?] [? ?]. split; [congruence|auto]. Qed.

(** [find] returns the root with the ranks and roots kept, within its fuel. *)
Lemma find_from_root rank fuel p v :
  ranked rank p → v < length p → above rank (length p) v < fuel →
  ∃ p' r, find_from fuel p v = Some (p', r) ∧ ranked rank p' ∧ same_roots p p' ∧ climbs p v r ∧ r < length p.
Proof.
  revert p v. induction fuel as [|fuel IH]; intros p v Hp Hv Hf; [lia|]. cbn [find_from].
  destruct (lookup_lt_is_Some_2 p v Hv) as [j Hj]. rewrite Hj. cbn.
  destruct (decide (j = v)) as [->|Hjv].
  { exists p, v. split_and!; [done|done|apply same_roots_refl|by apply climb_root|done]. }
  destruct (ranked_step _ _ _ _ Hp Hj ltac:(done)) as [Hjl Hr].
  destruct (lookup_lt_is_Some_2 p j Hjl) as [g Hg]. rewrite Hg. cbn.
  destruct (Hp _ _ Hg) as [Hgl Hgr].
  pose proof (halving_ranked _ _ _ _ _ Hp Hj ltac:(done) Hg) as Hp1.
  destruct (IH (<[v:=g]> p) g) as (p' & r & Hfind & Hp' & Hs & Hc & Hrl).
  - done.
  - by rewrite length_insert.
  - rewrite length_insert. assert (rank v < rank g) by (destruct Hgr as [->|]; lia).
    pose proof (above_lt rank (length p) v g Hgl ltac:(done)). lia.
  - exists p', r. rewrite length_insert in Hrl.
    assert (Hh : same_roots p (<[v:=g]> p)).
    { split; [apply length_insert|]. intros i s. by eapply halving_climbs. }
    split_and!; [done|done|by eapply same_roots_trans| |done].
    assert (v ≠ g) by (intros ->; destruct Hgr as [->|]; lia).
    assert (Hcv : climbs (<[v:=g]> p) v r)
      by (eapply climb_step; [by apply list_lookup_insert_eq|done|done]).
    (* the node had a root before halving *)
    destruct (IH p g) as (_ & s & _ & _ & _ & Hcg & _).
    + done.
    + done.
    + assert (rank v < rank g) by (destruct Hgr as [->|]; lia).
      pose proof (above_lt rank (length p) v g Hgl ltac:(done)). lia.
    + assert (Hcs : climbs p v s).
      { eapply climb_step; [exact Hj|done|]. destruct (decide (g = j)) as [->|]; [done|].
        eapply climb_step; [exact Hg|done|done]. }
      destruct Hh as [_ Hh]. by rewrite (climbs_det _ _ _ _ Hcv (Hh _ _ Hcs)).
Qed.

Lemma find_root rank p v :
  ranked rank p → v < length p →
  ∃ p' r, find p v = Some (p', r) ∧ ranked rank p' ∧ same_roots p p' ∧ climbs p v r ∧ r < length p.
Proof. intros Hp Hv. apply find_from_root; [done|done|]. pose proof (above_le rank (length p) v). lia. Qed.

Lemma forest_climbs p v : forest p → v < length p → ∃ r, climbs p v r.
Proof. intros [rank Hp] Hv. destruct (find_root _ _ _ Hp Hv) as (_ & r & _ & _ & _ & Hc & _). eauto. Qed.

(** *** Classes *)

Definition connected (p : list nat) (i j : nat) : Prop := ∃ r, climbs p i r ∧ climbs p j r.

Lemma connected_same_roots p p' i j :
  forest p → i < length p → j < length p → same_roots p p' → connected p i j ↔ connected p' i j.
Proof.
  intros Hp Hi Hj [Hl Hs]. split; [intros (r & ? & ?); exists r; auto|].
  intros (r & Hri & Hrj). destruct (forest_climbs p i Hp Hi) as [ri Hi']. destruct (forest_climbs p j Hp Hj) as [rj Hj'].
  assert (r = ri) as -> by (eapply climbs_det; [exact Hri|by apply Hs]).
  assert (ri = rj) as -> by (eapply climbs_det; [exact Hrj|by apply Hs]). by exists rj.
Qed.

(** Linking the root [rb] under the root [ra]. *)
Lemma link_climbs p ra rb i s :
  p !! ra = Some ra → p !! rb = Some rb → ra ≠ rb → climbs p i s →
  climbs (<[rb := ra]> p) i (if decide (s = rb) then ra else s).
Proof.
  intros Ha Hb Hab. pose proof (lookup_lt_Some _ _ _ Hb).
  assert (Hra : climbs (<[rb := ra]> p) ra ra) by (apply climb_root; by rewrite list_lookup_insert_ne).
  induction 1 as [i Hi|i j r Hi Hj Hr IH].
  - case_decide as Hd; [subst; eapply climb_step; [by apply list_lookup_insert_eq|done|done]|].
    apply climb_root. by rewrite list_lookup_insert_ne.
  - eapply climb_step; [|exact Hj|exact IH]. rewrite list_lookup_insert_ne; [done|]. intros <-. congruence.
Qed.

Lemma link_forest p ra rb :
  forest p → p !! ra = Some ra → p !! rb = Some rb → ra ≠ rb → forest (<[rb := ra]> p).
Proof.
  intros [rank Hp] Ha Hb Hab. pose proof (lookup_lt_Some _ _ _ Ha) as Hal. pose proof (lookup_lt_Some _ _ _ Hb).
  set (root i := match find p i with Some (_, r) => r | None => i end).
  assert (Hroot : ∀ i, i < length p → climbs p i (root i)).
  { intros i Hi. unfold root. destruct (find_root _ _ _ Hp Hi) as (p' & r & -> & _ & _ & Hc & _). done. }
  exists (λ i, rank i + if decide (root i = ra) then S (rank rb) else 0).
  intros i j Hij. rewrite length_insert. destruct (decide (i = rb)) as [->|Hi].
  - rewrite list_lookup_insert_eq in Hij by done. injection Hij as <-. split; [done|]. right.
    rewrite (climbs_of_root _ _ _ Ha (Hroot _ Hal)), (climbs_of_root _ _ _ Hb (Hroot rb ltac:(done))).
    rewrite (decide_False (P := rb = ra)) by done. rewrite decide_True by done. lia.
  - rewrite list_lookup_insert_ne in Hij by done. destruct (Hp _ _ Hij) as [Hj [->|Hr]]; [by split; [|left]|].
    split; [done|]. right. assert (i ≠ j) by (intros ->; lia).
    assert (root i = root j) as ->; [|lia].
    eapply climbs_det; [apply Hroot; by eapply lookup_lt_Some|]. eapply climb_step; [done|done|by apply Hroot].
Qed.

Definition joined (R : nat → nat → Prop) (a b i j : nat) : Prop :=
  R i j ∨ (R i a ∧ R j b) ∨ (R i b ∧ R j a).

(** [union] succeeds and merges exactly the classes of its two arguments. *)
Lemma union_connected p a b :
  forest p → a < length p → b < length p →
  ∃ p', union a b p = Some p' ∧ forest p' ∧ length p' = length p ∧
    ∀ i j, i < length p → j < length p → connected p' i j ↔ joined (connected p) a b i j.
Proof.
  intros [rank Hp] Ha Hb. unfold union.
  destruct (find_root _ _ _ Hp Ha) as (p1 & ra & -> & Hp1 & Hs1 & Hca & _). cbn.
  destruct (find_root rank p1 b Hp1) as (p2 & rb & -> & Hp2 & Hs2 & Hcb & _); [by rewrite (proj1 Hs1)|]. cbn.
  pose proof (same_roots_trans _ _ _ Hs1 Hs2) as [Hl Hs].
  assert (Hcb' : climbs p b rb).
  { destruct (forest_climbs p b ltac:(by exists rank) Hb) as [r Hr].
    by rewrite (climbs_det _ _ _ _ Hcb (proj2 Hs1 _ _ Hr)). }
  assert (Hroots : ∀ i, i < length p → ∃ r, climbs p i r ∧ climbs p2 i r).
  { intros i Hi. destruct (forest_climbs p i ltac:(by exists rank) Hi) as [r Hr]. eauto. }
  assert (Hold : ∀ i j r s, climbs p i r → climbs p j s → connected p i j ↔ r = s).
  { intros i j r s Hr Hj. split; [|intros ->; by exists s]. intros (t & Hti & Htj).
    by rewrite (climbs_det _ _ _ _ Hr Hti), (climbs_det _ _ _ _ Hj Htj). }
  pose proof (climbs_root _ _ _ (Hs _ _ Hca)) as Hra. pose proof (climbs_root _ _ _ (Hs _ _ Hcb')) as Hrb.
  eexists. split; [reflexivity|]. case_decide as Hab.
  - subst rb. split_and!; [by exists rank|done|]. intros i j Hi Hj.
    destruct (Hroots i Hi) as (ri & Hri & Hri2). destruct (Hroots j Hj) as (rj & Hrj & Hrj2). unfold joined.
    rewrite (Hold i j ri rj), (Hold i a ri ra), (Hold j b rj ra), (Hold i b ri ra), (Hold j a rj ra) by done.
    split; [intros (r & H1 & H2)|]; [left; rewrite (climbs_det _ _ _ _ Hri2 H1); by apply (climbs_det _ _ _ _ H2)|].
    intros Hor. assert (ri = rj) as -> by (destruct Hor as [?|[[? ?]|[? ?]]]; congruence). by exists rj.
  - split_and!; [apply link_forest; [by exists rank|done..]|by rewrite length_insert|]. intros i j Hi Hj.
    destruct (Hroots i Hi) as (ri & Hri & Hri2). destruct (Hroots j Hj) as (rj & Hrj & Hrj2). unfold joined.
    rewrite (Hold i j ri rj), (Hold i a ri ra), (Hold j b rj rb), (Hold i b ri rb), (Hold j a rj ra) by done.
    pose proof (link_climbs _ _ _ _ _ Hra Hrb Hab Hri2) as Hli. pose proof (link_climbs _ _ _ _ _ Hra Hrb Hab Hrj2) as Hlj.
    split.
    + intros (r & H1 & H2). rewrite (climbs_det _ _ _ _ H1 Hli) in H2. pose proof (climbs_det _ _ _ _ H2 Hlj) as He.
      repeat case_decide; subst; auto.
    + intros Hor. eexists. split; [exact Hli|].
      replace (if decide (ri = rb) then ra else ri) with (if decide (rj = rb) then ra else rj); [done|].
      destruct Hor as [->|[[-> ->]|[-> ->]]]; repeat case_decide; congruence.
Qed.

(** *** Classes as the closure of the unions *)

Definition edge (E : list (nat * nat)) (i j : nat) : Prop := (i, j) ∈ E.

Record uf_ok (n : nat) (E : list (nat * nat)) (p : list nat) : Prop := {
  uf_forest : forest p;
  uf_length : length p = n;
  uf_edges i j : (i, j) ∈ E → i < n ∧ j < n;
  uf_classes i j : i < n → j < n → connected p i j ↔ rtsc (edge E) i j
}.

Lemma rtsc_edges_in n E i j :
  (∀ i j, (i, j) ∈ E → i < n ∧ j < n) → rtsc (edge E) i j → i < n → j < n.
Proof.
  intros HE. induction 1 as [|x y z [Hxy|Hxy] _ IH]; [done|..]; intros; apply IH;
    destruct (HE _ _ Hxy); done.
Qed.

Lemma rtsc_joined (E : list (nat * nat)) a b i j :
  rtsc (edge ((a, b) :: E)) i j ↔ joined (rtsc (edge E)) a b i j.
Proof.
  assert (Hsub : ∀ i j, rtsc (edge E) i j → rtsc (edge ((a, b) :: E)) i j).
  { clear. intros i j. induction 1 as [|x y z Hxy _ IH]; [done|]. eapply rtc_l; [|exact IH].
    destruct Hxy; [left|right]; by right. }
  assert (Hab : rtsc (edge ((a, b) :: E)) a b) by (apply rtc_once; left; left).
  split.
  - induction 1 as [x|x y z Hxy _ IH]; [by left|]. destruct Hxy as [Hxy|Hxy];
      apply elem_of_cons in Hxy as [[= -> ->]|Hxy].
    + destruct IH as [?|[[? ?]|[? ?]]]; unfold joined; naive_solver.
    + assert (Hs : rtsc (edge E) x y) by (apply rtc_once; by left).
      destruct IH as [?|[[? ?]|[? ?]]]; unfold joined;
        [left; by etrans|right; left; split; [by etrans|done]|right; right; split; [by etrans|done]].
    + destruct IH as [?|[[? ?]|[? ?]]]; unfold joined; naive_solver.
    + assert (Hs : rtsc (edge E) x y) by (apply rtc_once; by right).
      destruct IH as [?|[[? ?]|[? ?]]]; unfold joined;
        [left; by etrans|right; left; split; [by etrans|done]|right; right; split; [by etrans|done]].
  - intros [?|[[Hi Hj]|[Hi Hj]]]; [by apply Hsub|..].
    + etrans; [by apply Hsub|]. etrans; [exact Hab|]. symmetry. by apply Hsub.
    + etrans; [by apply Hsub|]. etrans; [symmetry; exact Hab|]. symmetry. by apply Hsub.
Qed.

Lemma unionFind_ok n : uf_ok n [] (unionFind n).
Proof.
  assert (Hl : ∀ i, i < n → unionFind n !! i = Some i) by (intros i Hi; by apply lookup_seq; lia).
  assert (Hinv : ∀ i j, unionFind n !! i = Some j → i = j ∧ j < n)
    by (intros i j [-> Hi]%lookup_seq; cbn; lia).
  split.
  - exists (λ _, 0). intros i j [-> Hj]%Hinv. unfold unionFind. rewrite length_seq. auto.
  - apply length_seq.
  - by intros i j ?%elem_of_nil.
  - intros i j Hi Hj. split.
    + intros (r & Hr & Hs). apply climbs_of_root in Hr as ->; [|by apply Hl].
      apply climbs_of_root in Hs as ->; [done|by apply Hl].
    + intros Hr. inversion Hr as [|x y z [Hxy|Hxy]]; [|by apply elem_of_nil in Hxy..].
      subst. exists j. split; apply climb_root; by apply Hl.
Qed.

Lemma union_ok n E p a b :
  uf_ok n E p → a < n → b < n → ∃ p', union a b p = Some p' ∧ uf_ok n ((a, b) :: E) p'.
Proof.
  intros [Hf Hl HE Hc] Ha Hb.
  destruct (union_connected p a b Hf) as (p' & Hu & Hf' & Hl' & Hc'); [by rewrite Hl..|].
  exists p'. split; [done|]. split; [done|congruence| |].
  - intros i j [[= -> ->]|?]%elem_of_cons; auto.
  - intros i j Hi Hj. rewrite Hc' by (rewrite Hl; done). rewrite rtsc_joined. unfold joined.
    by rewrite !Hc.
Qed.

Lemma find_ok n E p v :
  uf_ok n E p → v < n → ∃ p' r, find p v = Some (p', r) ∧ uf_ok n E p' ∧ climbs p' v r.
Proof.
  intros [[rank Hp] Hl HE Hc] Hv. destruct (find_root rank p v Hp) as (p' & r & Hf & Hp' & Hs & Hr & _); [by rewrite Hl|].
  exists p', r. split; [done|]. split.
  - split; [by exists rank|by rewrite (proj1 Hs)|done|]. intros i j Hi Hj.
    rewrite <- (connected_same_roots p p'); [by apply Hc|by exists rank|by rewrite Hl..|done].
  - by apply (proj2 Hs).
Qed.

End UnionFind.

(** ** The analysis *)

Module Independence.
Import UnionFind Canonical Keys.

(** What the analysis reads of a verified attestation. *)
Record attestation := Attestation {
  attestationId : string; attesterNodeId : string; verdict : string;
  originIds : list string; publisherIds : list string; generatorIds : list string
}.

Definition read_strings (v : jval) : list string :=
  omap (λ x, match x with JStr s => Some s | _ => None end) (elements_of v).

Definition read_attestation (v : jval) : attestation :=
  let body := oprop v "body" in
  let lineage := oprop body "lineage" in
  Attestation (to_string (oprop v "attestationId")) (to_string (oprop v "attesterNodeId"))
    (to_string (oprop body "verdict")) (read_strings (oprop lineage "originIds"))
    (read_strings (oprop lineage "publisherIds")) (read_strings (oprop lineage "generatorIds")).

Definition lineageTokens (a : attestation) : list string :=
  uniq (map (λ v, "origin:" +:+ v) (originIds a) ++ map (λ v, "publisher:" +:+ v) (publisherIds a) ++
        map (λ v, "generator:" +:+ v) (generatorIds a)).

(** *** Linking *)

Record scan := Scan { parent : list nat; tokenOwner : jsmap string nat; unknown : list nat }.

Definition link_token (index : nat) (s : option scan) (token : string) : option scan :=
  s ← s;
  match map_get token (tokenOwner s) with
  | Some owner => p ← union index owner (parent s); Some (Scan p (tokenOwner s) (unknown s))
  | None => Some (Scan (parent s) (map_set token index (tokenOwner s)) (unknown s))
  end.

Definition scan_one (s : option scan) (entry : nat * attestation) : option scan :=
  let '(index, a) := entry in
  match lineageTokens a with
  | [] => s ← s; Some (Scan (parent s) (tokenOwner s) (unknown s ++ [index]))
  | tokens => fold_left (link_token index) tokens s
  end.

(** [for (i = 1; ...) uf.union(unknown[0], unknown[i])] *)
Definition collapse_unknown (s : scan) : option (list nat) :=
  match unknown s with
  | [] => Some (parent s)
  | first :: rest => fold_left (λ p i, p ← p; union first i p) rest (Some (parent s))
  end.

Definition indexed (l : list attestation) : list (nat * attestation) := zip (seq 0 (length l)) l.

Definition link_all (l : list attestation) : option (list nat) :=
  s ← fold_left scan_one (indexed l) (Some (Scan (unionFind (length l)) [] []));
  collapse_unknown s.

(** *** Groups *)

Definition member : Type := nat * attestation.

Definition group_one (st : option (list nat * jsmap nat (list member))) (entry : member)
    : option (list nat * jsmap nat (list member)) :=
  '(p, groups) ← st;
  '(p, root) ← find p entry.1;
  Some (p, map_set root (default [] (map_get root groups) ++ [entry]) groups).

Definition group_all (p : list nat) (l : list attestation) : option (list (list member)) :=
  st ← fold_left group_one (indexed l) (Some (p, []));
  Some (map_values st.2).

Definition groups_of (l : list attestation) : option (list (list member)) :=
  p ← link_all l; group_all p l.

(** *** Summaries *)

Record group := Group {
  groupId : string; knownLineage : bool; g_verdict : string; memberCount : Z; attesterCount : Z;
  originCount : Z; publisherCount : Z; generatorCount : Z; attestationIds : list string
}.

Definition group_verdict (verdicts : list string) : string :=
  if bool_decide ("support" ∈ verdicts) && bool_decide ("contradict" ∈ verdicts) then "mixed"
  else if bool_decide ("support" ∈ verdicts) then "support"
  else if bool_decide ("contradict" ∈ verdicts) then "contradict"
  else "uncertain".

Record report := Report {
  r_groups : list group; independentKnownGroups : Z; supportGroups : Z; contradictGroups : Z;
  mixedGroups : Z; uncertainGroups : Z; unknownLineageGroups : Z; rawAttestations : Z
}.

Definition count_if (p : group → bool) (l : list group) : Z := Z.of_nat (length (List.filter p l)).

Section analysis.
Context `{Host}.

Definition summarize (members : list member) : result group :=
  let all := members.*2 in
  let origins := uniq (flat_map originIds all) in
  let publishers := uniq (flat_map publisherIds all) in
  let generators := uniq (flat_map generatorIds all) in
  let known := bool_decide (0 < length origins + length publishers + length generators) in
  id ← digest (JObj [("origins", Text.string_list (sort_strings origins));
                     ("publishers", Text.string_list (sort_strings publishers));
                     ("generators", Text.string_list (sort_strings generators));
                     ("unknown", JBool (negb known))]);
  Ok (Group id known (group_verdict (map verdict all)) (Z.of_nat (length members))
        (Z.of_nat (length (uniq (map attesterNodeId all)))) (Z.of_nat (length origins))
        (Z.of_nat (length publishers)) (Z.of_nat (length generators))
        (sort_strings (map attestationId all))).

Definition by_groupId (a b : group) : bool := bool_decide (localeCompare (groupId a) (groupId b) ≤ 0)%Z.

Definition report_of (n : nat) (summaries : list group) : report :=
  let normalized := sort_by by_groupId summaries in
  let known := List.filter knownLineage normalized in
  let with_verdict v := count_if (λ g, bool_decide (g_verdict g = v)) known in
  Report normalized (Z.of_nat (length known)) (with_verdict "support") (with_verdict "contradict")
    (with_verdict "mixed") (with_verdict "uncertain") (count_if (λ g, negb (knownLineage g)) normalized)
    (Z.of_nat n).

Definition analyzeAttestationIndependence (l : list attestation) : option (result report) :=
  groups ← groups_of l;
  Some (report_of (length l) <$> result_map summarize groups).

End analysis.

(** ** What the groups are *)

(** Two attestations share lineage: a common token, or no known lineage at
    all. *)
Definition shares (l : list attestation) (i j : nat) : Prop :=
  ∃ a b, l !! i = Some a ∧ l !! j = Some b ∧
    ((∃ t, t ∈ lineageTokens a ∧ t ∈ lineageTokens b) ∨ (lineageTokens a = [] ∧ lineageTokens b = [])).

Definition token_of (l : list attestation) (t : string) (i : nat) : Prop :=
  ∃ a, l !! i = Some a ∧ t ∈ lineageTokens a.

(** The loop invariant.  [todo] holds the tokens seen so far. *)
Record scan_ok (l : list attestation) (seen : string → nat → Prop) (s : scan) (E : list (nat * nat)) : Prop := {
  sc_uf : uf_ok (length l) E (parent s);
  sc_sound i j : (i, j) ∈ E → shares l i j;
  sc_owner t o : map_get t (tokenOwner s) = Some o → token_of l t o;
  sc_seen t i : seen t i → ∃ o, map_get t (tokenOwner s) = Some o ∧ rtsc (edge E) i o
}.

Lemma rtsc_mono E E' i j : (∀ e, e ∈ E → e ∈ E') → rtsc (edge E) i j → rtsc (edge E') i j.
Proof.
  intros HE. induction 1 as [|x y z Hxy _ IH]; [done|]. eapply rtc_l; [|exact IH].
  destruct Hxy; [left|right]; by apply HE.
Qed.

Lemma token_of_lt l t i : token_of l t i → i < length l.
Proof. intros (a & Ha & _). by eapply lookup_lt_Some. Qed.

Lemma link_token_ok l seen s E index token :
  scan_ok l seen s E → token_of l token index →
  ∃ s' E', link_token index (Some s) token = Some s' ∧ unknown s' = unknown s ∧
    scan_ok l (λ t i, seen t i ∨ (t = token ∧ i = index)) s' E' ∧ (∀ e, e ∈ E → e ∈ E').
Proof.
  intros [Huf Hsd Ho Hs] Ht. cbn. destruct (map_get token (tokenOwner s)) as [o|] eqn:Hg.
  - destruct (union_ok _ _ _ index o Huf) as (p & -> & Huf');
      [by eapply token_of_lt|by eapply token_of_lt, Ho|].
    exists (Scan p (tokenOwner s) (unknown s)), ((index, o) :: E). split_and!; [done|done| |by intros; right].
    split; cbn; [done| |done|].
    + intros i j [[= -> ->]|?]%elem_of_cons; [|auto]. destruct Ht as (a & ? & ?). destruct (Ho _ _ Hg) as (b & ? & ?).
      exists a, b. split_and!; [done|done|]. left. eauto.
    + intros t i [Hti|[-> ->]].
      * destruct (Hs t i Hti) as (o' & Ho' & Hr). exists o'. split; [done|]. eapply rtsc_mono; [|exact Hr].
        intros; by right.
      * exists o. split; [done|]. apply rtc_once. left. left.
  - exists (Scan (parent s) (map_set token index (tokenOwner s)) (unknown s)), E. split_and!; [done..| |done].
    split; cbn; [done|done| |].
    + intros t o. rewrite map_get_set. case_decide; [|apply Ho]. intros [= <-]. by subst.
    + intros t i. rewrite map_get_set. intros [Hti|[-> ->]].
      * destruct (Hs t i Hti) as (o & Ho' & Hr). rewrite decide_False by congruence. eauto.
      * rewrite decide_True by done. by exists index.
Qed.

Lemma link_tokens_ok l seen s E index tokens :
  scan_ok l seen s E → (∀ t, t ∈ tokens → token_of l t index) →
  ∃ s' E', fold_left (link_token index) tokens (Some s) = Some s' ∧ unknown s' = unknown s ∧
    scan_ok l (λ t i, seen t i ∨ (t ∈ tokens ∧ i = index)) s' E'.
Proof.
  revert seen s E. induction tokens as [|t tokens IH]; intros seen s E Hs Ht; cbn [fold_left].
  - exists s, E. split_and!; [done..|]. destruct Hs. split; [done..|].
    intros t i [?|[?%elem_of_nil _]]; [auto|done].
  - destruct (link_token_ok _ _ _ _ index t Hs) as (s1 & E1 & -> & Hu & Hs1 & _); [apply Ht; left|].
    destruct (IH _ _ _ Hs1) as (s2 & E2 & Hf & Hu2 & Hs2); [intros; apply Ht; by right|].
    exists s2, E2. split_and!; [done|congruence|]. destruct Hs2 as [? ? ? Hseen]. split; [done..|].
    intros t' i [?|[[->|?]%elem_of_cons ->]]; apply Hseen; tauto.
Qed.

Definition no_tokens (e : member) : bool := match lineageTokens e.2 with [] => true | _ => false end.

Definition reads (l : list attestation) (entries : list member) : Prop := ∀ i a, (i, a) ∈ entries → l !! i = Some a.

Lemma scan_one_ok l seen s E i a :
  scan_ok l seen s E → l !! i = Some a →
  ∃ s' E', scan_one (Some s) (i, a) = Some s' ∧
    unknown s' = unknown s ++ (List.filter no_tokens [(i, a)]).*1 ∧
    scan_ok l (λ t j, seen t j ∨ (t ∈ lineageTokens a ∧ j = i)) s' E'.
Proof.
  intros Hs Hi. unfold scan_one. cbn [List.filter]. unfold no_tokens. cbn [snd].
  destruct (lineageTokens a) as [|t ts] eqn:Ht.
  - cbn. eexists _, E. split_and!; [done|done|]. destruct Hs. split; [done..|].
    intros t j [?|[?%elem_of_nil _]]; [auto|done].
  - cbn [fmap list_fmap]. rewrite app_nil_r. rewrite <- Ht.
    destruct (link_tokens_ok l seen s E i (lineageTokens a) Hs) as (s' & E' & Hf & Hu & Hs'); [by exists a|].
    exists s', E'. done.
Qed.

Lemma scan_all_ok l entries seen s E :
  scan_ok l seen s E → reads l entries →
  ∃ s' E', fold_left scan_one entries (Some s) = Some s' ∧
    unknown s' = unknown s ++ (List.filter no_tokens entries).*1 ∧
    scan_ok l (λ t i, seen t i ∨ ∃ a, (i, a) ∈ entries ∧ t ∈ lineageTokens a) s' E'.
Proof.
  revert seen s E. induction entries as [|[i a] entries IH]; intros seen s E Hs Hr; cbn [fold_left].
  - exists s, E. split_and!; [done|by rewrite app_nil_r|]. destruct Hs. split; [done..|].
    intros t i [?|(a & ?%elem_of_nil & _)]; [auto|done].
  - destruct (scan_one_ok l seen s E i a Hs) as (s1 & E1 & -> & Hu & Hs1); [by apply Hr; left|].
    destruct (IH _ _ _ Hs1) as (s2 & E2 & Hf & Hu2 & Hs2); [intros j b ?; apply Hr; by right|].
    exists s2, E2. split_and!; [done| |].
    + rewrite Hu2, Hu, <- app_assoc, <- fmap_app. do 2 f_equal. cbn [List.filter]. by destruct (no_tokens _).
    + destruct Hs2 as [? ? ? Hseen]. split; [done..|].
      intros t j [?|(b & [[= -> ->]|?]%elem_of_cons & Hb)]; apply Hseen; [auto|auto|]. right. eauto.
Qed.

Lemma collapse_ok l first rest p E :
  uf_ok (length l) E p → (∀ i j, (i, j) ∈ E → shares l i j) → (∀ i, i ∈ first :: rest → ∃ a, l !! i = Some a ∧ lineageTokens a = []) →
  ∃ p' E', fold_left (λ p i, p ← p; union first i p) rest (Some p) = Some p' ∧ uf_ok (length l) E' p' ∧
    (∀ i j, (i, j) ∈ E' → shares l i j) ∧ (∀ e, e ∈ E → e ∈ E') ∧ (∀ i, i ∈ rest → rtsc (edge E') first i).
Proof.
  revert p E. induction rest as [|x rest IH]; intros p E Huf Hsd Hin; cbn [fold_left].
  - exists p, E. split_and!; try done. by intros i ?%elem_of_nil.
  - destruct (Hin first ltac:(left)) as (a & Ha & Hta). destruct (Hin x ltac:(right; left)) as (b & Hb & Htb).
    destruct (union_ok _ _ _ first x Huf) as (p1 & Hu & Huf1); [by eapply lookup_lt_Some..|]. cbn. rewrite Hu.
    destruct (IH p1 ((first, x) :: E) Huf1) as (p2 & E2 & Hf & Huf2 & Hsd2 & Hsub & Hrest).
    + intros i j [[= -> ->]|?]%elem_of_cons; [|auto]. exists a, b. auto.
    + intros i [->|?]%elem_of_cons; [exists a; auto|]. apply Hin. right. by right.
    + exists p2, E2. split_and!; try done.
      * intros e He. apply Hsub. by right.
      * intros i [->|?]%elem_of_cons; [|auto]. apply rtc_once. left. apply Hsub. left.
Qed.

Lemma indexed_reads l : reads l (indexed l).
Proof.
  intros i a [k Hk]%list_elem_of_lookup. unfold indexed in Hk.
  apply lookup_zip_Some in Hk as [[-> _]%lookup_seq Ha]. done.
Qed.

Lemma indexed_elem l i a : l !! i = Some a → (i, a) ∈ indexed l.
Proof.
  intros Ha. apply list_elem_of_lookup. exists i. apply lookup_zip_Some. split; [|done].
  apply lookup_seq. split; [done|]. by eapply lookup_lt_Some.
Qed.

Lemma shares_sym l i j : shares l i j → shares l j i.
Proof. intros (a & b & ? & ? & [(t & ? & ?)|[? ?]]); exists b, a; eauto 10. Qed.

(** Linking succeeds, and its classes are the closure of sharing. *)
Lemma link_all_ok l :
  ∃ p E, link_all l = Some p ∧ uf_ok (length l) E p ∧ ∀ i j, rtsc (edge E) i j ↔ rtsc (shares l) i j.
Proof.
  unfold link_all.
  assert (H0 : scan_ok l (λ _ _, False) (Scan (unionFind (length l)) [] []) []).
  { split; cbn; [apply unionFind_ok|by intros i j ?%elem_of_nil|done|done]. }
  destruct (scan_all_ok l (indexed l) _ _ _ H0 (indexed_reads l)) as (s & E & -> & Hu & [Huf Hsd Ho Hs]). cbn.
  cbn in Hu. unfold collapse_unknown.
  assert (Hunk : ∀ i, i ∈ unknown s ↔ ∃ a, l !! i = Some a ∧ lineageTokens a = []).
  { intros i. rewrite Hu, list_elem_of_fmap. split.
    - intros ([j a] & -> & Hin). apply list_elem_of_In, filter_In in Hin as [Hin Hn].
      apply list_elem_of_In, indexed_reads in Hin. exists a. split; [done|]. unfold no_tokens in Hn. cbn in Hn.
      by destruct (lineageTokens a).
    - intros (a & Ha & Hn). exists (i, a). split; [done|]. apply list_elem_of_In, filter_In.
      split; [by apply list_elem_of_In, indexed_elem|]. unfold no_tokens. cbn. by rewrite Hn. }
  assert (Hfin : ∃ p E', match unknown s with [] => Some (parent s) | first :: rest =>
      fold_left (λ p i, p ← p; union first i p) rest (Some (parent s)) end = Some p ∧ uf_ok (length l) E' p ∧
      (∀ i j, (i, j) ∈ E' → shares l i j) ∧ (∀ e, e ∈ E → e ∈ E') ∧
      (∀ i j, i ∈ unknown s → j ∈ unknown s → rtsc (edge E') i j)).
  { destruct (unknown s) as [|first rest].
    - exists (parent s), E. split_and!; try done. by intros i j ?%elem_of_nil.
    - destruct (collapse_ok l first rest (parent s) E Huf Hsd) as (p & E' & Hf & Huf' & Hsd' & Hsub & Hrest);
        [intros i Hi; by apply Hunk|].
      exists p, E'. split_and!; try done.
      assert (Hall : ∀ i, i ∈ first :: rest → rtsc (edge E') first i)
        by (intros i [->|?]%elem_of_cons; [done|auto]).
      intros i j Hi Hj. etrans; [symmetry; by apply Hall|by apply Hall]. }
  destruct Hfin as (p & E' & -> & Huf' & Hsd' & Hsub & Hunk').
  exists p, E'. split_and!; [done|done|]. intros i j. split.
  - induction 1 as [|x y z [Hxy|Hxy] _ IH]; [done|..]; (eapply rtc_l; [|exact IH]); [left|right]; by apply Hsd'.
  - assert (Hstep : ∀ x y, shares l x y → rtsc (edge E') x y).
    { intros x y (a & b & Ha & Hb & [(t & Hta & Htb)|[Hta Htb]]).
      - destruct (Hs t x) as (o & Hox & Hrx); [right; exists a; split; [by apply indexed_elem|done]|].
        destruct (Hs t y) as (o' & Hoy & Hry); [right; exists b; split; [by apply indexed_elem|done]|].
        assert (o' = o) as -> by congruence. apply (rtsc_mono _ _ _ _ Hsub) in Hrx, Hry.
        etrans; [exact Hrx|by symmetry].
      - apply Hunk'; apply Hunk; eauto. }
    induction 1 as [|x y z [Hxy|Hxy] _ IH]; [done|..]; (etrans; [|exact IH]); [by apply Hstep|symmetry; by apply Hstep].
Qed.

(** *** Grouping *)

Lemma map_values_append {K V} `{EqDecision K} (k : K) (g : list V) (e : V) (m : jsmap K (list V)) :
  map_get k m = Some g ∨ (map_get k m = None ∧ g = []) →
  concat (map_values (map_set k (g ++ [e]) m)) ≡ₚ concat (map_values m) ++ [e].
Proof.
  unfold map_values. induction m as [|[j w] m IH]; cbn [map_get map_set fmap list_fmap snd concat]; intros Hg.
  - destruct Hg as [|[_ ->]]; done.
  - destruct (decide (k = j)) as [->|Hk]; cbn [fmap list_fmap snd concat].
    + destruct Hg as [[= ->]|[? _]]; [|done]. rewrite <- !app_assoc. apply Permutation_app_head, Permutation_app_comm.
    + rewrite IH by done. by rewrite app_assoc.
Qed.

Record grouped (p0 : list nat) (done_ : list member) (groups : jsmap nat (list member)) : Prop := {
  gr_wf : map_wf groups;
  gr_sound r g e : map_get r groups = Some g → e ∈ g → climbs p0 e.1 r;
  gr_complete e r : e ∈ done_ → climbs p0 e.1 r → ∃ g, map_get r groups = Some g ∧ e ∈ g;
  gr_nonempty r g : map_get r groups = Some g → g ≠ [];
  gr_all : concat (map_values groups) ≡ₚ done_
}.

Lemma group_all_ok rank p0 p entries done_ groups :
  ranked rank p → same_roots p0 p → (∀ e, e ∈ entries → ∃ r, climbs p0 e.1 r) →
  grouped p0 done_ groups →
  ∃ p' groups', fold_left group_one entries (Some (p, groups)) = Some (p', groups') ∧
    grouped p0 (done_ ++ entries) groups'.
Proof.
  revert p done_ groups. induction entries as [|e entries IH]; intros p done_ groups Hp Hs Hlt Hg; cbn [fold_left].
  { exists p, groups. by rewrite app_nil_r. }
  destruct (Hlt e ltac:(left)) as [r0 Hr0]. pose proof (proj2 Hs _ _ Hr0) as Hr0'.
  assert (Hlp : e.1 < length p) by (inversion Hr0'; by eapply lookup_lt_Some).
  destruct (find_root rank p e.1 Hp Hlp) as (p1 & r & Hf & Hp1 & Hs1 & Hr & _).
  cbn. rewrite Hf. cbn. assert (Hcl : climbs p0 e.1 r).
  { assert (r = r0) as ->; [|done]. eapply climbs_det; [exact Hr|]. exact Hr0'. }
  replace (done_ ++ e :: entries) with ((done_ ++ [e]) ++ entries) by (by rewrite <- app_assoc).
  apply (IH p1); [done|by eapply same_roots_trans|intros; apply Hlt; by right|].
  destruct Hg as [Hwf Hsd Hco Hne Hall]. split.
  - by apply map_wf_set.
  - intros r' g e'. rewrite map_get_set. case_decide as Hd; [|apply Hsd]. subst r'. intros [= <-].
    intros [He'| ->%list_elem_of_singleton]%elem_of_app; [|done].
    destruct (map_get r groups) as [g|] eqn:Hg; cbn in He'; [by eapply Hsd|by apply elem_of_nil in He'].
  - intros e' r' He' Hr'. rewrite map_get_set. case_decide as Hd.
    + subst r'. eexists. split; [done|]. apply elem_of_app. apply elem_of_app in He' as [He'|He']; [left|by right].
      destruct (Hco _ _ He' Hr') as (g & Hgg & Heg). by rewrite Hgg.
    + apply elem_of_app in He' as [He'| ->%list_elem_of_singleton]; [by apply Hco|].
      destruct Hd. by eapply climbs_det.
  - intros r' g. rewrite map_get_set. case_decide; [|apply Hne]. intros [= <-]. by destruct (default _ _).
  - rewrite map_values_append; [by rewrite Hall|]. destruct (map_get r groups); [by left|by right].
Qed.

(** Grouping succeeds, and its groups are the classes of sharing. *)
Lemma groups_are_classes_aux l :
  ∃ gs, groups_of l = Some gs ∧ concat gs ≡ₚ indexed l ∧ Forall (λ g, g ≠ []) gs ∧
    ∀ i j, i < length l → j < length l →
      (∃ g, g ∈ gs ∧ i ∈ g.*1 ∧ j ∈ g.*1) ↔ rtsc (shares l) i j.
Proof.
  unfold groups_of. destruct (link_all_ok l) as (p & E & -> & [[rank Hp] Hl HE Hc] & Hclosure). cbn.
  assert (Hroots : ∀ e, e ∈ indexed l → ∃ r, climbs p e.1 r).
  { intros [i a] Hi%indexed_reads. apply forest_climbs; [by exists rank|]. rewrite Hl. by eapply lookup_lt_Some. }
  destruct (group_all_ok rank p p (indexed l) [] []) as (p' & gs & Hf & [Hwf Hsd Hco Hne Hall]);
    [done|apply same_roots_refl|done| |].
  { split; [apply map_wf_nil|done| |done|done]. by intros e r ?%elem_of_nil. }
  unfold group_all. rewrite Hf. exists (map_values gs). split; [done|]. split_and!; [done| |].
  - apply Forall_forall. intros g Hg. unfold map_values in Hg. apply list_elem_of_fmap in Hg as ([r g'] & -> & Hin).
    eapply Hne. by apply map_elem_get.
  - intros i j Hi Hj. rewrite <- Hclosure, <- Hc by done. split.
    + intros (g & Hg & Hgi & Hgj). unfold map_values in Hg. apply list_elem_of_fmap in Hg as ([r g'] & -> & Hin).
      apply map_elem_get in Hin; [|done]. apply list_elem_of_fmap in Hgi as (ei & -> & Hei), Hgj as (ej & -> & Hej).
      exists r. split; by eapply Hsd.
    + intros (r & Hri & Hrj). destruct (lookup_lt_is_Some_2 l i Hi) as [a Ha], (lookup_lt_is_Some_2 l j Hj) as [b Hb].
      destruct (Hco (i, a) r) as (g & Hg & Hig); [by apply indexed_elem|done|].
      destruct (Hco (j, b) r) as (g' & Hg' & Hjg); [by apply indexed_elem|done|].
      assert (g' = g) as -> by congruence. exists g. split.
      * unfold map_values. apply list_elem_of_fmap. exists (r, g). split; [done|by apply map_get_elem].
      * split; apply list_elem_of_fmap; [by exists (i, a)|by exists (j, b)].
Qed.

(** C27: the groups are the classes of shared lineage.  For every list of
    attestations the analysis terminates within its fuel and puts each
    attestation in exactly one group; two attestations are in the same group
    exactly when a chain of attestations links them in which neighbours share
    an origin, a publisher or a generator, or both have no known lineage. *)
Theorem groups_are_classes l :
  ∃ gs, groups_of l = Some gs ∧ concat gs ≡ₚ indexed l ∧ Forall (λ g, g ≠ []) gs ∧
    ∀ i j, i < length l → j < length l →
      (∃ g, g ∈ gs ∧ i ∈ g.*1 ∧ j ∈ g.*1) ↔ rtsc (shares l) i j.
Proof. apply groups_are_classes_aux. Qed.

(** ** What the report counts *)

Section report.
Context `{Host}.

Lemma result_map_length {A B} (f : A → result B) l ys : result_map f l = Ok ys → length ys = length l.
Proof.
  revert ys. induction l as [|x l IH]; intros ys; [by intros <-%Ok_inj|]. cbn [result_map].
  intros (y & _ & Hy)%bind_Ok_inv. apply bind_Ok_inv in Hy as (ys' & Hys & <-%Ok_inj). cbn. by rewrite (IH _ Hys).
Qed.

Lemma result_map_members {A B} (f : A → result B) l ys y :
  result_map f l = Ok ys → y ∈ ys → ∃ x, x ∈ l ∧ f x = Ok y.
Proof.
  revert ys. induction l as [|x l IH]; intros ys; [by intros <-%Ok_inj ?%elem_of_nil|]. cbn [result_map].
  intros (z & Hz & Hy)%bind_Ok_inv. apply bind_Ok_inv in Hy as (ys' & Hys & <-%Ok_inj).
  intros [->|Hin]%elem_of_cons; [exists x; by split; [left|]|].
  destruct (IH _ Hys Hin) as (w & ? & ?). exists w. split; [by right|done].
Qed.

Lemma group_verdict_cases vs : group_verdict vs ∈ ["support"; "contradict"; "mixed"; "uncertain"].
Proof. unfold group_verdict. repeat case_match; set_solver. Qed.

Lemma count_if_split (l : list group) :
  (∀ g, g ∈ l → g_verdict g ∈ ["support"; "contradict"; "mixed"; "uncertain"]) →
  let c v := count_if (λ g, bool_decide (g_verdict g = v)) l in
  (Z.of_nat (length l) = c "support" + c "contradict" + c "mixed" + c "uncertain")%Z.
Proof.
  cbv zeta. unfold count_if. induction l as [|g l IH]; intros Hl; [done|]. cbn [List.filter length].
  specialize (IH ltac:(intros g' Hg'; apply Hl; by right)).
  assert (Hg := Hl g ltac:(left)).
  rewrite !elem_of_cons, elem_of_nil in Hg.
  repeat (case_bool_decide; try congruence); cbn [length]; try lia. naive_solver.
Qed.

Lemma filter_at_most_one {A} (P : A → bool) (l : list A) :
  (∀ i j x y, l !! i = Some x → l !! j = Some y → P x = true → P y = true → i = j) →
  length (List.filter P l) ≤ 1.
Proof.
  induction l as [|x l IH]; intros Hl; [cbn; lia|]. cbn [List.filter]. destruct (P x) eqn:Hx.
  - cbn [length]. assert (List.filter P l = []) as ->; [|cbn; lia].
    destruct (List.filter P l) as [|y m] eqn:Hf; [done|]. exfalso.
    assert (Hy : y ∈ l ∧ P y = true).
    { assert (In y (List.filter P l)) as [? ?]%filter_In by (rewrite Hf; by left).
      split; [by apply list_elem_of_In|done]. }
    destruct Hy as [[k Hk]%list_elem_of_lookup Hy]. by specialize (Hl 0 (S k) x y eq_refl Hk Hx Hy).
  - apply IH. intros i j y z Hi Hj Hy Hz. specialize (Hl (S i) (S j) y z Hi Hj Hy Hz). lia.
Qed.

Lemma NoDup_concat_position {A} (gs : list (list A)) i j g h x :
  NoDup (concat gs) → gs !! i = Some g → gs !! j = Some h → x ∈ g → x ∈ h → i = j.
Proof.
  revert i j. induction gs as [|g0 gs IH]; intros i j Hnd Hi Hj Hg Hh; [done|]. cbn [concat] in Hnd.
  apply NoDup_app in Hnd as (_ & Hdis & Hnd).
  assert (Hin : ∀ k m, gs !! k = Some m → x ∈ m → x ∈ concat gs).
  { clear. intros k m Hk Hm. apply list_elem_of_In, in_concat. exists m.
    split; apply list_elem_of_In; [by eapply list_elem_of_lookup_2|done]. }
  destruct i as [|i], j as [|j]; cbn in Hi, Hj; simplify_eq; [done| | |f_equal; by eapply IH].
  - exfalso. eapply Hdis; [exact Hg|by eapply Hin].
  - exfalso. eapply Hdis; [exact Hh|by eapply Hin].
Qed.

Lemma summarize_unknown g s e :
  summarize g = Ok s → knownLineage s = false → e ∈ g → lineageTokens e.2 = [].
Proof.
  unfold summarize. intros (id & _ & <-%Ok_inj)%bind_Ok_inv. cbn [knownLineage]. intros Hk He. bool_hyps.
  assert (Hempty : ∀ f : attestation → list string, length (uniq (flat_map f g.*2)) = 0 → f e.2 = []).
  { intros f Hf%length_zero_iff_nil. destruct (f e.2) as [|x xs] eqn:Hx; [done|]. exfalso.
    assert (x ∈ uniq (flat_map f g.*2)) as Hin; [|rewrite Hf in Hin; by apply elem_of_nil in Hin].
    apply elem_of_uniq, list_elem_of_In, in_flat_map. exists e.2. split; [|rewrite Hx; by left].
    apply list_elem_of_In, list_elem_of_fmap. by exists e. }
  unfold lineageTokens. rewrite (Hempty originIds), (Hempty publisherIds), (Hempty generatorIds); [done|lia..].
Qed.

Definition total_members (l : list group) : Z := foldr (λ g n, (memberCount g + n)%Z) 0%Z l.

Lemma total_members_perm l l' : l ≡ₚ l' → total_members l = total_members l'.
Proof. unfold total_members. induction 1; cbn [foldr] in *; try lia; congruence. Qed.

Lemma total_members_summaries gs ss :
  result_map summarize gs = Ok ss → total_members ss = Z.of_nat (length (concat gs)).
Proof.
  revert ss. induction gs as [|g gs IH]; intros ss; [by intros <-%Ok_inj|]. cbn [result_map].
  intros (y & Hy & Hs)%bind_Ok_inv. apply bind_Ok_inv in Hs as (ys & Hys & <-%Ok_inj). cbn [total_members foldr concat].
  fold (total_members ys). rewrite (IH _ Hys), length_app. unfold summarize in Hy.
  apply bind_Ok_inv in Hy as (id & _ & <-%Ok_inj). cbn [memberCount]. lia.
Qed.

Lemma filter_perm (P : group → bool) l l' : l ≡ₚ l' → length (List.filter P l) = length (List.filter P l').
Proof. induction 1; cbn [List.filter]; repeat case_match; cbn; lia. Qed.

Lemma filter_split (P : group → bool) l :
  length l = length (List.filter P l) + length (List.filter (λ g, negb (P g)) l).
Proof. induction l; cbn [List.filter length]; [done|]. case_match; cbn; lia. Qed.

(** Unknown lineage is one group at most. *)
Lemma unknown_at_most_one l gs ss :
  groups_of l = Some gs → result_map summarize gs = Ok ss →
  length (List.filter (λ g, negb (knownLineage g)) ss) ≤ 1.
Proof.
  intros Hg Hs. destruct (groups_are_classes_aux l) as (gs' & Hg' & Hperm & Hne & Hcl).
  rewrite Hg in Hg'. injection Hg' as <-.
  assert (Hnth : ∀ k s, ss !! k = Some s → ∃ g, gs !! k = Some g ∧ summarize g = Ok s).
  { clear -Hs. revert ss Hs. induction gs as [|g gs IH]; intros ss; [by intros <-%Ok_inj|]. cbn [result_map].
    intros (y & Hy & Hs)%bind_Ok_inv. apply bind_Ok_inv in Hs as (ys & Hys & <-%Ok_inj).
    intros [|k] s Hk; [injection Hk as <-; by exists g|]. by apply IH with (ss := ys). }
  assert (Hnd : NoDup (concat gs)).
  { rewrite Hperm. apply (NoDup_fmap_1 fst). unfold indexed. rewrite fst_zip by (by rewrite length_seq). apply NoDup_seq. }
  apply filter_at_most_one. intros i j s t Hi Hj Hus Hut. bool_hyps.
  destruct (Hnth _ _ Hi) as (g & Hgi & Hsg). destruct (Hnth _ _ Hj) as (h & Hhj & Hsh).
  pose proof (proj1 (Forall_lookup _ _) Hne _ _ Hgi) as Hgne. pose proof (proj1 (Forall_lookup _ _) Hne _ _ Hhj) as Hhne.
  destruct g as [|[x a] g]; [done|]. destruct h as [|[y b] h]; [done|].
  assert (Hin : ∀ k m e, gs !! k = Some m → e ∈ m → l !! e.1 = Some e.2).
  { intros k m [z c] Hk He. apply indexed_reads. rewrite <- Hperm. apply list_elem_of_In, in_concat. exists m.
    split; apply list_elem_of_In; [by eapply list_elem_of_lookup_2|done]. }
  pose proof (Hin _ _ (x, a) Hgi ltac:(left)) as Hx. pose proof (Hin _ _ (y, b) Hhj ltac:(left)) as Hy. cbn in Hx, Hy.
  pose proof (summarize_unknown _ _ (x, a) Hsg Hus ltac:(left)) as Hta.
  pose proof (summarize_unknown _ _ (y, b) Hsh Hut ltac:(left)) as Htb. cbn in Hta, Htb.
  destruct (proj2 (Hcl x y (lookup_lt_Some _ _ _ Hx) (lookup_lt_Some _ _ _ Hy))) as (m & Hm & Hxm & Hym).
  { apply rtc_once. left. exists a, b. auto. }
  apply list_elem_of_lookup in Hm as [k Hk].
  apply list_elem_of_fmap in Hxm as ([x' a'] & Hx' & Hxm). apply list_elem_of_fmap in Hym as ([y' b'] & Hy' & Hym).
  cbn in Hx', Hy'. subst x' y'. pose proof (Hin _ _ _ Hk Hxm) as Ha'. pose proof (Hin _ _ _ Hk Hym) as Hb'. cbn in Ha', Hb'.
  rewrite Hx in Ha'. rewrite Hy in Hb'. injection Ha' as <-. injection Hb' as <-.
  trans k; [by eapply (NoDup_concat_position gs i k _ _ (x, a)); [done|done|done|left|]|].
  by eapply (NoDup_concat_position gs k j _ _ (y, b)); [done|done|done| |left].
Qed.

(** The report accounts for every attestation.  Whatever the attestations
    are, the analysis terminates; when it returns a report, the member counts
    of its groups add up to the number of attestations, the verdict counts add
    up to the number of groups with known lineage, every group is known or
    unknown, and all attestations of unknown lineage together make at most one
    group, which has no part in the independent groups. *)
Theorem report_accounts l :
  ∃ res, analyzeAttestationIndependence l = Some res ∧
    match res with
    | Throw _ => True
    | Ok r =>
        rawAttestations r = Z.of_nat (length l) ∧ total_members (r_groups r) = Z.of_nat (length l) ∧
        independentKnownGroups r =
          (supportGroups r + contradictGroups r + mixedGroups r + uncertainGroups r)%Z ∧
        Z.of_nat (length (r_groups r)) = (independentKnownGroups r + unknownLineageGroups r)%Z ∧
        (unknownLineageGroups r ≤ 1)%Z
    end.
Proof.
  unfold analyzeAttestationIndependence. destruct (groups_are_classes_aux l) as (gs & Hg & Hperm & _ & _).
  rewrite Hg. cbn. eexists. split; [done|]. destruct (result_map summarize gs) as [ss|] eqn:Hs; [|done].
  cbn [fmap result_fmap]. unfold report_of. set (sorted := sort_by by_groupId ss). cbv zeta.
  cbn [rawAttestations r_groups independentKnownGroups supportGroups contradictGroups mixedGroups
       uncertainGroups unknownLineageGroups].
  assert (Hsort : sorted ≡ₚ ss) by apply sort_by_perm. split_and!.
  - done.
  - rewrite (total_members_perm _ _ Hsort), (total_members_summaries _ _ Hs), Hperm. unfold indexed.
    rewrite length_zip_with, length_seq. lia.
  - apply count_if_split. intros g [Hin _]%list_elem_of_In%filter_In. apply list_elem_of_In in Hin.
    rewrite Hsort in Hin. destruct (result_map_members _ _ _ _ Hs Hin) as (m & _ & Hm).
    unfold summarize in Hm. apply bind_Ok_inv in Hm as (id & _ & <-%Ok_inj). cbn. apply group_verdict_cases.
  - unfold count_if. rewrite (filter_split knownLineage sorted) at 1. lia.
  - unfold count_if. rewrite (filter_perm _ _ _ Hsort). pose proof (unknown_at_most_one _ _ _ Hg Hs). lia.
Qed.

End report.

(** ** A concrete analysis *)

Definition toy_attested (id : string) (origins publishers : list string) : attestation :=
  Attestation id "node" "support" origins publishers [].

Definition toy_attestations : list attestation :=
  [toy_attested "a" ["o1"] []; toy_attested "b" [] ["p"]; toy_attested "c" ["o1"; "o2"] [];
   toy_attested "d" [] []; toy_attested "e" ["o2"] []; toy_attested "f" [] []].

Example toy_groups :
  map (map fst) <$> groups_of toy_attestations = Some [[0; 2; 4]; [1]; [3; 5]].
Proof. vm_compute. reflexivity. Qed.

Lemma groups_are_classes_witness :
  ∃ gs, groups_of toy_attestations = Some gs ∧
    ((∃ g, g ∈ gs ∧ 0 ∈ g.*1 ∧ 4 ∈ g.*1) ↔ rtsc (shares toy_attestations) 0 4).
Proof.
  destruct (groups_are_classes toy_attestations) as (gs & Hg & _ & _ & Hc).
  exists gs. split; [exact Hg|]. apply Hc; cbn; lia.
Defined.

End Independence.

(** ** The provenance graph *)

Module Graph.
Import Canonical Keys Claims Independence.

Record gedge := Edge { e_from : jval; e_to : jval; e_type : string }.
Record build := Build { nodes : list jval; edges : list gedge; sourceNodes : jsmap string jval }.

Definition node_id (n : jval) : jval := oprop n "id".

Definition edge_value (e : gedge) : jval :=
  JObj [("from", e_from e); ("to", e_to e); ("type", JStr (e_type e))].
Definition edge_text (e : gedge) : string :=
  to_string (e_from e) +:+ ":" +:+ e_type e +:+ ":" +:+ to_string (e_to e).

Definition strings (l : list string) : jval := Text.string_list l.

Definition group_value (g : group) : jval :=
  JObj [("groupId", JStr (groupId g)); ("knownLineage", JBool (knownLineage g)); ("verdict", JStr (g_verdict g));
        ("memberCount", JNum (JInt (memberCount g))); ("attesterCount", JNum (JInt (attesterCount g)));
        ("originCount", JNum (JInt (originCount g))); ("publisherCount", JNum (JInt (publisherCount g)));
        ("generatorCount", JNum (JInt (generatorCount g))); ("attestationIds", strings (attestationIds g))].

Definition report_value (r : report) : jval :=
  JObj [("groups", JArr (map group_value (r_groups r)));
        ("independentKnownGroups", JNum (JInt (independentKnownGroups r)));
        ("supportGroups", JNum (JInt (supportGroups r))); ("contradictGroups", JNum (JInt (contradictGroups r)));
        ("mixedGroups", JNum (JInt (mixedGroups r))); ("uncertainGroups", JNum (JInt (uncertainGroups r)));
        ("unknownLineageGroups", JNum (JInt (unknownLineageGroups r)));
        ("rawAttestations", JNum (JInt (rawAttestations r)))].

Section graph.
Context `{Host}.

Definition source_id (sourceId contentDigest : jval) : result string :=
  d ← digest (JObj [("sourceId", sourceId); ("contentDigest", contentDigest)]);
  Ok ("source:" +:+ d).

(** A source node is created the first time its identifier is met. *)
Definition ensure_source (id : string) (kind sourceId contentDigest : jval) (b : build) : result build :=
  if map_has id (sourceNodes b) then Ok b
  else commitment ← digest sourceId;
       Ok (Build (nodes b) (edges b)
             (map_set id (JObj [("id", JStr id); ("type", JStr "SOURCE"); ("kind", kind);
                                ("sourceCommitment", JStr commitment); ("contentDigest", contentDigest)])
                (sourceNodes b))).

Definition add_edge (e : gedge) (b : build) : build := Build (nodes b) (edges b ++ [e]) (sourceNodes b).

Definition add_parent (sourceNodeId : string) (b : build) (parent : jval) : result build :=
  id ← source_id parent JNull;
  b ← ensure_source id (JStr "lineage-parent") parent JNull b;
  Ok (add_edge (Edge (JStr sourceNodeId) (JStr id) "DERIVED_FROM") b).

Definition add_evidence (attestationId : jval) (b : build) (evidence : jval) : result build :=
  id ← source_id (oprop evidence "sourceId") (oprop evidence "contentDigest");
  b ← ensure_source id (oprop evidence "kind") (oprop evidence "sourceId") (oprop evidence "contentDigest") b;
  let b := add_edge (Edge attestationId (JStr id) "EVIDENCED_BY") b in
  result_fold (add_parent id) (elements_of (oprop evidence "parentSourceIds")) b.

Definition verdict_edge (verdict : jval) : string :=
  if eq_str verdict "support" then "SUPPORTS"
  else if eq_str verdict "contradict" then "CONTRADICTS" else "EVALUATES".

Definition add_attestation (claimId : jval) (b : build) (a : jval) : result build :=
  _ ← match verifyAttestation claimId a with
      | Accepted => Ok tt
      | Rejected reason => Throw (error ("invalid attestation: " +:+ reason))
      end;
  let body := oprop a "body" in
  d ← digest body;
  let node := JObj [("id", oprop a "attestationId"); ("type", JStr "ATTEST"); ("verdict", oprop body "verdict");
                    ("attesterNodeId", oprop a "attesterNodeId"); ("digest", JStr d)] in
  let b := add_edge (Edge (oprop a "attestationId") claimId (verdict_edge (oprop body "verdict")))
             (Build (nodes b ++ [node]) (edges b) (sourceNodes b)) in
  b ← result_fold (add_evidence (oprop a "attestationId")) (elements_of (oprop body "evidence")) b;
  Ok (fold_left (λ b p, add_edge (Edge (oprop a "attestationId") p "DERIVED_FROM_ATTESTATION") b)
        (elements_of (oprop (oprop body "lineage") "parentAttestationIds")) b).

Definition by_node_id (a b : jval) : bool :=
  bool_decide (localeCompare (to_string (node_id a)) (to_string (node_id b)) ≤ 0)%Z.
Definition by_edge_text (a b : gedge) : bool :=
  bool_decide (localeCompare (edge_text a) (edge_text b) ≤ 0)%Z.

(** The nodes and edges, before they are digested. *)
Definition collect (claim : jval) (attestations : list jval) : result (list jval * list gedge) :=
  _ ← match verifyClaim claim with
      | Accepted => Ok tt
      | Rejected reason => Throw (error ("invalid claim: " +:+ reason))
      end;
  d ← digest (oprop claim "body");
  let root := JObj [("id", oprop claim "claimId"); ("type", JStr "CLAIM"); ("digest", JStr d)] in
  b ← result_fold (add_attestation (oprop claim "claimId")) attestations (Build [root] [] []);
  Ok (sort_by by_node_id (nodes b ++ map_values (sourceNodes b)), sort_by by_edge_text (edges b)).

Definition buildProvenanceGraph (claim : jval) (attestations : list jval) : result jval :=
  '(ns, es) ← collect claim attestations;
  independence ← default (Throw (error "unreachable"))
                   (analyzeAttestationIndependence (map read_attestation attestations));
  let graph := [("version", JNum (JInt 1)); ("claimId", oprop claim "claimId"); ("nodes", JArr ns);
                ("edges", JArr (map edge_value es)); ("independence", report_value independence)] in
  graphDigest ← digest (JObj graph);
  Ok (JObj (graph ++ [("graphDigest", JStr graphDigest)])).

(** *** Every edge but a reference to another attestation has both ends *)

Definition has_node (ns : list jval) (id : jval) : Prop := ∃ n, n ∈ ns ∧ node_id n = id.

Definition all_nodes (b : build) : list jval := nodes b ++ map_values (sourceNodes b).

Record closed (claimId : jval) (b : build) : Prop := {
  cl_root : has_node (nodes b) claimId;
  cl_keys id : map_has id (sourceNodes b) = true → has_node (all_nodes b) (JStr id);
  cl_edges e : e ∈ edges b → has_node (all_nodes b) (e_from e) ∧
    (e_type e = "DERIVED_FROM_ATTESTATION" ∨ has_node (all_nodes b) (e_to e))
}.

Definition extends (b b' : build) : Prop :=
  nodes b' = nodes b ∧ (∀ id, map_has id (sourceNodes b) = true → map_has id (sourceNodes b') = true).

Lemma has_node_mono ns ns' id : (∀ n, n ∈ ns → n ∈ ns') → has_node ns id → has_node ns' id.
Proof. intros Hs (n & ? & ?). exists n. auto. Qed.

Lemma ensure_source_closed claimId id kind sid cd b b' :
  ensure_source id kind sid cd b = Ok b' → closed claimId b →
  closed claimId b' ∧ has_node (all_nodes b') (JStr id) ∧
  (∀ n, n ∈ all_nodes b → n ∈ all_nodes b') ∧ nodes b' = nodes b.
Proof.
  unfold ensure_source. destruct (map_has id _) eqn:Hh.
  { intros <-%Ok_inj Hc. split_and!; [done|by apply Hc|done..]. }
  intros (c & _ & <-%Ok_inj)%bind_Ok_inv [Hr Hk He].
  set (n := JObj _). set (b' := Build _ _ _).
  assert (Hin : ∀ m, m ∈ all_nodes b → m ∈ all_nodes b').
  { intros m. unfold all_nodes. rewrite !elem_of_app. intros [?|Hm]; [by left|right]. cbn.
    apply map_has_false in Hh. clear -Hm Hh. unfold map_values, map_keys in *.
    induction (sourceNodes b) as [|[k v] l IH]; [by apply elem_of_nil in Hm|]. cbn in *.
    apply not_elem_of_cons in Hh as [Hk Hh]. destruct (decide (id = k)); [done|]. cbn.
    apply elem_of_cons in Hm as [->|Hm]; [left|right; auto]. }
  assert (Hn : n ∈ all_nodes b').
  { unfold all_nodes. apply elem_of_app. right. cbn. unfold map_values. apply list_elem_of_fmap.
    exists (id, n). split; [done|]. apply map_get_elem. rewrite map_get_set. by case_decide. }
  split_and!; [|by exists n|done|done]. split; [done| |].
  - intros id' Hid'. apply map_has_true in Hid'. unfold b' in Hid'; cbn [sourceNodes] in Hid'. rewrite map_keys_set in Hid'.
    destruct (decide (id' = id)) as [->|Hne]; [by exists n|]. eapply has_node_mono; [exact Hin|]. apply Hk, map_has_true.
    case_decide; [done|]. apply elem_of_app in Hid' as [?| ->%list_elem_of_singleton]; done.
  - intros e Hin'. destruct (He e Hin') as [Hf Ht]. split; [by eapply has_node_mono|].
    destruct Ht; [by left|right; by eapply has_node_mono].
Qed.

Lemma add_edge_closed claimId e b :
  closed claimId b → has_node (all_nodes b) (e_from e) →
  e_type e = "DERIVED_FROM_ATTESTATION" ∨ has_node (all_nodes b) (e_to e) → closed claimId (add_edge e b).
Proof.
  intros [Hr Hk He] Hf Ht. split; [done|done|]. intros e' [?| ->%list_elem_of_singleton]%elem_of_app; [by apply He|done].
Qed.

(** The builder with one node known to be there. *)
Definition closed_with (claimId id : jval) (b : build) : Prop := closed claimId b ∧ has_node (all_nodes b) id.

Lemma add_parent_closed claimId a s b p b' :
  add_parent s b p = Ok b' → closed_with claimId (JStr s) b → has_node (all_nodes b) a →
  closed_with claimId (JStr s) b' ∧ has_node (all_nodes b') a.
Proof.
  unfold add_parent. intros (id & _ & Hb)%bind_Ok_inv [Hc Hs] Ha. apply bind_Ok_inv in Hb as (b1 & Hb1 & <-%Ok_inj).
  destruct (ensure_source_closed _ _ _ _ _ _ _ Hb1 Hc) as (Hc1 & Hid & Hmono & _).
  split; [split|].
  - apply add_edge_closed; [done|by eapply has_node_mono|by right].
  - by eapply (has_node_mono (all_nodes b)).
  - by eapply (has_node_mono (all_nodes b)).
Qed.

Lemma add_evidence_closed claimId a b ev b' :
  add_evidence a b ev = Ok b' → closed_with claimId a b → closed_with claimId a b'.
Proof.
  unfold add_evidence. intros (id & _ & Hb)%bind_Ok_inv [Hc Ha]. apply bind_Ok_inv in Hb as (b1 & Hb1 & Hb).
  destruct (ensure_source_closed _ _ _ _ _ _ _ Hb1 Hc) as (Hc1 & Hid & Hmono & _). cbv zeta in Hb.
  apply (result_fold_invariant (λ b, closed_with claimId (JStr id) b ∧ has_node (all_nodes b) a)) in Hb.
  - destruct Hb as [[? ?] ?]. by split.
  - intros p t t' _ [Hw Hwa] Hp. by eapply add_parent_closed.
  - assert (Ha1 : has_node (all_nodes b1) a) by (by eapply has_node_mono). split; [split|]; [|done|done].
    apply add_edge_closed; [done|done|by right].
Qed.

Lemma add_attestation_closed claimId b a b' :
  add_attestation claimId b a = Ok b' → closed claimId b →
  closed claimId b' ∧ verifyAttestation claimId a = Accepted.
Proof.
  unfold add_attestation. intros ([] & Hv & Hb)%bind_Ok_inv [Hr Hk He].
  destruct (verifyAttestation claimId a); [|done].
  apply bind_Ok_inv in Hb as (d & _ & Hb). apply bind_Ok_inv in Hb as (b1 & Hb1 & <-%Ok_inj).
  set (n := JObj _) in Hb1. set (b0 := Build _ _ _) in Hb1. set (id := oprop a "attestationId") in *.
  assert (Hmono : ∀ m, m ∈ all_nodes b → m ∈ all_nodes b0)
    by (intros m; unfold all_nodes; rewrite !elem_of_app; cbn; rewrite elem_of_app; tauto).
  assert (Hn : has_node (all_nodes b0) id).
  { exists n. split; [|done]. unfold all_nodes. cbn. rewrite !elem_of_app. left. right. left. }
  assert (Hc0 : closed claimId b0).
  { split.
    - eapply has_node_mono; [|exact Hr]. intros m ?. cbn. apply elem_of_app. by left.
    - intros i Hi. eapply has_node_mono; [exact Hmono|]. by apply Hk.
    - intros e Hin. destruct (He e Hin) as [Hf Ht]. split; [by eapply has_node_mono|].
      destruct Ht; [by left|right; by eapply has_node_mono]. }
  assert (Hroot : ∀ b, closed claimId b → has_node (all_nodes b) claimId).
  { clear. intros b [Hr _ _]. eapply has_node_mono; [|exact Hr]. intros m ?. unfold all_nodes. apply elem_of_app. by left. }
  assert (Hc1 : closed_with claimId id b1).
  { eapply (result_fold_invariant (closed_with claimId id)); [|..|exact Hb1].
    - intros ev t t' _ Hw Hev. by eapply add_evidence_closed.
    - split; [|exact Hn]. apply add_edge_closed; [done|done|right; by apply Hroot]. }
  split; [|done]. clear -Hc1.
  generalize (elements_of (oprop (oprop (oprop a "body") "lineage") "parentAttestationIds")). intros ps.
  revert b1 Hc1. induction ps as [|p ps IH]; intros b1 [Hc Hid]; [done|]. cbn [fold_left]. apply IH.
  split; [apply add_edge_closed; [done|done|by left]|done].
Qed.

(** C40: a provenance graph holds only verified evidence and is closed.  When
    the graph is built, the claim and every attestation in it verify, and both
    ends of every edge are nodes of the graph, except that the parents an
    attestation names may be elsewhere. *)
Theorem graph_verified_and_closed claim attestations ns es :
  collect claim attestations = Ok (ns, es) →
  verifyClaim claim = Accepted ∧
  (∀ a, a ∈ attestations → verifyAttestation (oprop claim "claimId") a = Accepted) ∧
  ∀ e, e ∈ es → has_node ns (e_from e) ∧ (e_type e = "DERIVED_FROM_ATTESTATION" ∨ has_node ns (e_to e)).
Proof.
  unfold collect. intros ([] & Hv & Hc)%bind_Ok_inv. destruct (verifyClaim claim); [|done].
  apply bind_Ok_inv in Hc as (d & _ & Hc). apply bind_Ok_inv in Hc as (b & Hb & Hc%Ok_inj). injection Hc as <- <-.
  set (root := JObj _) in Hb. set (claimId := oprop claim "claimId") in *.
  assert (H0 : closed claimId (Build [root] [] [])).
  { split; [exists root; split; [left|done]|done|]. by intros e ?%elem_of_nil. }
  assert (Hall : closed claimId b ∧ ∀ a, a ∈ attestations → verifyAttestation claimId a = Accepted).
  { clear Hv. revert Hb H0. generalize (Build [root] [] []). induction attestations as [|a l IH]; intros b0 Hb H0.
    - apply Ok_inj in Hb as <-. split; [done|]. by intros a ?%elem_of_nil.
    - cbn [result_fold] in Hb. apply bind_Ok_inv in Hb as (b1 & H1 & Hb).
      apply add_attestation_closed in H1 as [Hc1 Hv1]; [|done]. destruct (IH _ Hb Hc1) as [Hc Hl].
      split; [done|]. intros x [->|?]%elem_of_cons; auto. }
  destruct Hall as [[Hr Hk He] Hver]. split_and!; [done|done|].
  intros e Hin. unfold sort_by in Hin. fold (sort_by by_edge_text (edges b)) in Hin. rewrite elem_of_sort_by in Hin.
  assert (Hsort : ∀ n, n ∈ all_nodes b → n ∈ sort_by by_node_id (all_nodes b)) by (intros n; by rewrite elem_of_sort_by).
  destruct (He e Hin) as [Hf Ht]. split; [by eapply has_node_mono|]. destruct Ht; [by left|right; by eapply has_node_mono].
Qed.

End graph.

Definition toy_graph : list jval * list gedge := Eval vm_compute in
  ok_or ([], []) (collect (H := Toy.host) (JObj toy_claim) [JObj toy_attestation]).

Lemma graph_verified_and_closed_witness : verifyClaim (H := Toy.host) (JObj toy_claim) = Accepted.
Proof.
  assert (Hc : collect (H := Toy.host) (JObj toy_claim) [JObj toy_attestation] = Ok (toy_graph.1, toy_graph.2))
    by (vm_compute; reflexivity).
  exact (proj1 (graph_verified_and_closed (H := Toy.host) _ _ _ _ Hc)).
Defined.

End Graph.
