(* ===== verification/Evidence.v ===== *)
(** * Claim evidence and trust receipts

    Models core/trust/claim-verification.js: the policy, the binding of a claim
    to verified retrieval, the status a claim's independent evidence earns, and
    the signed receipt of an assessment.  The evidence balance is computed as
    the engine does, on 53-bit floating-point numbers ([SpecFloat]). *)
From S2P Require Import Prelude JSValue Host Text Protocol Claims Provenance.
From Stdlib Require Import SpecFloat.

(** ** Rounded quotients *)

Module Rounded.

(** The double nearest to an integer, and the quotient of two doubles. *)
Definition double_of (z : Z) : spec_float := binary_normalize 53 1024 z 0 false.
Definition quotient (a b : Z) : spec_float := SFdiv 53 1024 (double_of a) (double_of b).

(** [floor(m * 2^e * 10^digits + 1/2)] *)
Definition scaled (digits : Z) (m : positive) (e : Z) : Z :=
  if bool_decide (0 ≤ e)%Z then (Zpos m * 2 ^ e * 10 ^ digits)%Z
  else ((2 * Zpos m * 10 ^ digits + 2 ^ (- e)) / (2 * 2 ^ (- e)))%Z.

Fixpoint strip (n : Z) (k : nat) : jnum :=
  match k with
  | O => JInt n
  | S k' => if bool_decide (n mod 10 = 0)%Z then strip (n / 10) k' else JDec n (Pos.of_nat k)
  end.

(** [Number(x.toFixed(digits))] *)
Definition to_fixed (digits : nat) (x : spec_float) : jnum :=
  match x with
  | S754_zero _ => JInt 0
  | S754_finite s m e =>
      let n := scaled (Z.of_nat digits) m e in strip (if s then - n else n)%Z digits
  | S754_infinity s => JInfinity s
  | S754_nan => JNaN
  end.

Example round_third : to_fixed 6 (quotient 1 3) = JDec 333333 6.
Proof. vm_compute. reflexivity. Qed.
Example round_tie : to_fixed 6 (quotient (-1) 128) = JDec (-7813) 6.
Proof. vm_compute. reflexivity. Qed.
Example round_half : to_fixed 6 (quotient 1 2) = JDec 5 1.
Proof. vm_compute. reflexivity. Qed.
End Rounded.

(** ** Assessment *)

Module Evidence.
Import Canonical Keys Claims Independence Graph.

Definition TRUST_RECEIPT_VERSION : Z := 1.
Definition TRUST_RECEIPT_PROTOCOL : string := "truyn-trust-receipt-v1".

Record policy := Policy { minIndependentSupport : Z; maxContradictForVerified : Z; requireKnownLineage : bool }.

Definition normalizePolicy (p : jval) : result policy :=
  let p := with_default p (JObj []) in
  min ← get p "minIndependentSupport";
  let min := default 2%Z (is_integer min) in
  let max := default 0%Z (is_integer (oprop p "maxContradictForVerified")) in
  _ ← throw_if (bool_decide (min < 1)%Z || bool_decide (32 < min)%Z)
        (error "minIndependentSupport must be 1..32");
  _ ← throw_if (bool_decide (max < 0)%Z || bool_decide (32 < max)%Z)
        (error "maxContradictForVerified must be 0..32");
  Ok (Policy min max (negb (strict_eq (oprop p "requireKnownLineage") (JBool false)))).

Inductive retrieval :=
| NotBound
| Unverified (reason : string)
| Bound (rootCid queryHash provenanceDigest : jval) (selectedEvidence : Z).

Inductive status :=
| InsufficientIndependence | RetrievalUnverified | Unsupported | Disputed | Contradicted | Verified.
#[export] Instance status_eq_dec : EqDecision status.
Proof. solve_decision. Defined.

Definition status_text (s : status) : string :=
  match s with
  | InsufficientIndependence => "insufficient_independence"
  | RetrievalUnverified => "retrieval_unverified"
  | Unsupported => "unsupported"
  | Disputed => "disputed"
  | Contradicted => "contradicted"
  | Verified => "verified"
  end.

(** The chain of conditions that sets [status] and [reason]. *)
Definition judge (r : retrieval) (attestations : nat) (p : policy) (i : report) : status * string :=
  let support := supportGroups i in
  let contradict := contradictGroups i in
  let known := independentKnownGroups i in
  match r with
  | Unverified reason => (RetrievalUnverified, reason)
  | _ =>
      if bool_decide (attestations = 0) then (Unsupported, "no_attestations")
      else if bool_decide (0 < mixedGroups i)%Z || (bool_decide (0 < support)%Z && bool_decide (0 < contradict)%Z)
      then (Disputed, "independent_evidence_conflicts")
      else if bool_decide (minIndependentSupport p ≤ contradict)%Z && bool_decide (support = 0)%Z
      then (Contradicted, "independent_contradiction_meets_policy")
      else if bool_decide (minIndependentSupport p ≤ support)%Z &&
              bool_decide (contradict ≤ maxContradictForVerified p)%Z &&
              (negb (requireKnownLineage p) || bool_decide (minIndependentSupport p ≤ known)%Z)
      then (Verified, "independent_support_meets_policy")
      else if bool_decide (0 < unknownLineageGroups i)%Z && bool_decide (known < minIndependentSupport p)%Z
      then (InsufficientIndependence, "lineage_unknown_or_correlated")
      else (InsufficientIndependence, "independent_support_below_policy")
  end.

Definition evidence_balance (i : report) : jval :=
  let decisive := (supportGroups i + contradictGroups i + mixedGroups i)%Z in
  if bool_decide (decisive = 0)%Z then JNull
  else JNum (Rounded.to_fixed 6 (Rounded.quotient (supportGroups i - contradictGroups i) decisive)).

Record assessment := Assessment {
  a_claimId : jval; a_retrieval : retrieval; a_status : status; a_reason : string; a_balance : jval;
  a_report : report; a_policy : policy; a_graph : jval
}.

Definition retrieval_value (r : retrieval) : jval :=
  match r with
  | NotBound => JObj [("required", JBool false); ("verified", JNull); ("reason", JStr "not_retrieval_bound")]
  | Unverified reason => JObj [("required", JBool true); ("verified", JBool false); ("reason", JStr reason)]
  | Bound root query d n =>
      JObj [("required", JBool true); ("verified", JBool true); ("rootCid", root); ("queryHash", query);
            ("provenanceDigest", d); ("selectedEvidence", JNum (JInt n))]
  end.

Definition truth_value (a : assessment) : jval :=
  let i := a_report a in
  JObj [("status", JStr (status_text (a_status a))); ("reason", JStr (a_reason a));
        ("evidenceBalance", a_balance a); ("calibratedTruthProbability", JNull);
        ("independentKnownGroups", JNum (JInt (independentKnownGroups i)));
        ("supportGroups", JNum (JInt (supportGroups i))); ("contradictGroups", JNum (JInt (contradictGroups i)));
        ("mixedGroups", JNum (JInt (mixedGroups i))); ("uncertainGroups", JNum (JInt (uncertainGroups i)));
        ("unknownLineageGroups", JNum (JInt (unknownLineageGroups i)));
        ("rawAttestations", JNum (JInt (rawAttestations i)))].

Definition policy_value (p : policy) : jval :=
  JObj [("version", JNum (JInt 1)); ("minIndependentSupport", JNum (JInt (minIndependentSupport p)));
        ("maxContradictForVerified", JNum (JInt (maxContradictForVerified p)));
        ("requireKnownLineage", JBool (requireKnownLineage p))].

Section evidence.
Context `{Host}.

Definition verifyRetrievalBinding (claim provenance : jval) : result retrieval :=
  let basis := oprop (oprop claim "body") "basis" in
  if negb (truthy basis) || negb (eq_str (oprop basis "kind") "distributed-context") then Ok NotBound
  else if negb (truthy (oprop provenance "verified")) then Ok (Unverified "retrieval_provenance_unverified")
  else if negb (strict_eq (oprop provenance "rootCid") (oprop basis "rootCid")) then
    Ok (Unverified "retrieval_root_mismatch")
  else if negb (strict_eq (oprop provenance "queryHash") (oprop basis "queryHash")) then
    Ok (Unverified "retrieval_query_mismatch")
  else
    d ← digest provenance;
    if negb (eq_str (oprop basis "provenanceDigest") d) then
      Ok (Unverified "retrieval_provenance_digest_mismatch")
    else
      expected ← result_map canonicalize (elements_of (js_or (oprop basis "evidenceCommitments") (JArr [])));
      actual ← result_map (λ entry,
        contentCommitment ← get entry "contentCommitment";
        canonicalize (JObj [("contentCommitment", contentCommitment);
                            ("holderReceiptDigest", oprop entry "holderReceiptDigest")]))
        (elements_of (js_or (oprop provenance "selected") (JArr [])));
      if negb (bool_decide (sort_strings expected = sort_strings actual)) then
        Ok (Unverified "retrieval_selection_commitment_mismatch")
      else Ok (Bound (oprop basis "rootCid") (oprop basis "queryHash") (oprop basis "provenanceDigest")
                 (Z.of_nat (length expected))).

Definition demand (label : string) (v : Protocol.verdict) : result unit :=
  match v with Accepted => Ok tt | Rejected reason => Throw (error (label +:+ reason)) end.

Definition assessClaimEvidence (claim : jval) (attestations : list jval) (provenance policy : jval)
    : result assessment :=
  _ ← demand "invalid claim: " (verifyClaim claim);
  _ ← result_fold (λ _ a, demand "invalid attestation: " (verifyAttestation (oprop claim "claimId") a))
        attestations tt;
  p ← normalizePolicy policy;
  r ← verifyRetrievalBinding claim provenance;
  graph ← buildProvenanceGraph claim attestations;
  i ← default (Throw (error "unreachable"))
        (analyzeAttestationIndependence (map read_attestation attestations));
  let '(status, reason) := judge r (length attestations) p i in
  Ok (Assessment (oprop claim "claimId") r status reason (evidence_balance i) i p graph).

(** ** Receipts *)

Definition attestation_commitment (a : jval) : result string :=
  digest (JObj [("attestationId", oprop a "attestationId"); ("attesterNodeId", oprop a "attesterNodeId");
                ("verdict", oprop (oprop a "body") "verdict")]).

Definition receipt_payload (claim : jval) (attestations : list jval) (a : assessment) : result jval :=
  cd ← claimDigest claim;
  commitments ← result_map attestation_commitment attestations;
  Ok (JObj [("protocol", JStr TRUST_RECEIPT_PROTOCOL); ("version", JNum (JInt TRUST_RECEIPT_VERSION));
            ("claimId", oprop claim "claimId"); ("claimDigest", JStr cd);
            ("retrievalIntegrity", retrieval_value (a_retrieval a)); ("truthAssessment", truth_value a);
            ("policy", policy_value (a_policy a));
            ("provenanceGraphDigest", oprop (a_graph a) "graphDigest");
            ("attestationCommitments", Text.string_list (sort_strings commitments))]).

Definition receipt_id (payload verifierNodeId : jval) : result string :=
  d ← digest (JObj [("payload", payload); ("verifierNodeId", verifierNodeId)]);
  Ok ("truyn:trust:" +:+ str_drop 7 d).

Definition signed_receipt (receiptId payload verifierNodeId createdAt : jval) : list (string * jval) :=
  [("receiptId", receiptId); ("payload", payload); ("verifierNodeId", verifierNodeId); ("createdAt", createdAt)].

Definition createTrustReceipt (identity claim : jval) (attestations : list jval) (provenance policy createdAt : jval)
    : result (list (string * jval)) :=
  nodeId ← requiredIdentity identity "trust receipt verifier";
  a ← assessClaimEvidence claim attestations provenance policy;
  payload ← receipt_payload claim attestations a;
  receiptId ← receipt_id payload (JStr nodeId);
  let signed := signed_receipt (JStr receiptId) payload (JStr nodeId) createdAt in
  signature ← signValue (JObj signed) (string_or_empty (oprop identity "privateKeyPem"));
  Ok (signed ++ [("publicKey", oprop identity "publicKeyPem"); ("signature", JStr signature)]).

Definition check_receipt (expectedClaimId receipt : jval) : result unit :=
  _ ← throw_if (missing receipt ["receiptId"; "payload"; "verifierNodeId"; "createdAt"; "publicKey"; "signature"])
        (error "trust_receipt_missing_required_field");
  let payload := oprop receipt "payload" in
  _ ← throw_if (negb (eq_str (oprop payload "protocol") TRUST_RECEIPT_PROTOCOL) ||
                negb (eq_int (oprop payload "version") TRUST_RECEIPT_VERSION))
        (error "trust_receipt_protocol_mismatch");
  _ ← throw_if (truthy expectedClaimId && negb (strict_eq (oprop payload "claimId") expectedClaimId))
        (error "trust_receipt_claim_mismatch");
  nodeId ← nodeIdFromPublicKey (oprop receipt "publicKey");
  _ ← throw_if (negb (eq_str (oprop receipt "verifierNodeId") nodeId))
        (error "trust_receipt_verifier_key_mismatch");
  expectedId ← receipt_id payload (oprop receipt "verifierNodeId");
  _ ← throw_if (negb (eq_str (oprop receipt "receiptId") expectedId)) (error "trust_receipt_content_id_mismatch");
  ok ← verifyValue (JObj (signed_receipt (oprop receipt "receiptId") payload (oprop receipt "verifierNodeId")
                            (oprop receipt "createdAt")))
         (oprop receipt "signature") (oprop receipt "publicKey");
  throw_if (negb ok) (error "trust_receipt_signature_invalid").

Definition verifyTrustReceipt (expectedClaimId receipt : jval) : Protocol.verdict :=
  to_verdict (check_receipt expectedClaimId receipt).

Definition trustReceiptDigest (receipt : jval) : result string := digest receipt.

(** ** What a verified claim has *)

Lemma demand_Ok label v : demand label v = Ok tt → v = Accepted.
Proof. by destruct v. Qed.

(** Groups are counted among those of known lineage. *)
Lemma report_counts l i :
  analyzeAttestationIndependence l = Some (Ok i) →
  (0 ≤ supportGroups i ∧ 0 ≤ contradictGroups i ∧ 0 ≤ mixedGroups i ∧ 0 ≤ uncertainGroups i ∧
   independentKnownGroups i = supportGroups i + contradictGroups i + mixedGroups i + uncertainGroups i)%Z.
Proof.
  unfold analyzeAttestationIndependence. destruct (groups_of l) as [gs|]; [|done]. cbn.
  destruct (result_map summarize gs) as [ss|] eqn:Hs; [|done]. intros [= <-].
  cbn [independentKnownGroups supportGroups contradictGroups mixedGroups uncertainGroups report_of].
  unfold count_if at 1 2 3 4. split_and!; [lia..|].
  apply count_if_split. intros g [Hin _]%list_elem_of_In%filter_In. apply list_elem_of_In in Hin.
  rewrite elem_of_sort_by in Hin. destruct (result_map_members _ _ _ _ Hs Hin) as (m & _ & Hm).
  unfold summarize in Hm. apply bind_Ok_inv in Hm as (id & _ & <-%Ok_inj). cbn. apply group_verdict_cases.
Qed.

Lemma normalizePolicy_bounds p q : normalizePolicy p = Ok q → (1 ≤ minIndependentSupport q ≤ 32)%Z ∧
  (0 ≤ maxContradictForVerified q ≤ 32)%Z.
Proof.
  unfold normalizePolicy. intros (m & _ & Hp)%bind_Ok_inv. cbv zeta in Hp.
  apply bind_Ok_inv in Hp as ([] & H1 & Hp). apply bind_Ok_inv in Hp as ([] & H2 & <-%Ok_inj).
  rewrite throw_if_Ok in H1, H2. bool_hyps. cbn. lia.
Qed.

Lemma judge_verified r n p i :
  (0 ≤ contradictGroups i ∧ 0 ≤ mixedGroups i ∧ supportGroups i ≤ independentKnownGroups i)%Z →
  (1 ≤ minIndependentSupport p)%Z → (0 ≤ maxContradictForVerified p)%Z →
  (judge r n p i).1 = Verified ↔
    (match r with Unverified _ => False | _ => True end) ∧ n ≠ 0 ∧
    mixedGroups i = 0%Z ∧ contradictGroups i = 0%Z ∧ (minIndependentSupport p ≤ supportGroups i)%Z.
Proof.
  intros Hi Hmin Hmax. unfold judge. destruct r; cbn [fst]; [|split; [done|by intros []]|].
  all: repeat (case_bool_decide; cbn [orb andb negb]); try destruct (requireKnownLineage p); cbn [orb andb negb fst];
    (split; [first [done|intros _; split_and!; first [done|lia]]|intros (_ & ? & ? & ? & ?); first [done|lia]]).
Qed.

(** How an assessment comes about. *)
Lemma assess_inv claim attestations provenance policy a :
  assessClaimEvidence claim attestations provenance policy = Ok a →
  verifyClaim claim = Accepted ∧
  (∀ x, x ∈ attestations → verifyAttestation (oprop claim "claimId") x = Accepted) ∧
  normalizePolicy policy = Ok (a_policy a) ∧
  analyzeAttestationIndependence (map read_attestation attestations) = Some (Ok (a_report a)) ∧
  a_status a = (judge (a_retrieval a) (length attestations) (a_policy a) (a_report a)).1.
Proof.
  unfold assessClaimEvidence. intros ([] & Hv & Ha)%bind_Ok_inv. apply bind_Ok_inv in Ha as ([] & Hall & Ha).
  apply bind_Ok_inv in Ha as (p & Hp & Ha). apply bind_Ok_inv in Ha as (r & _ & Ha).
  apply bind_Ok_inv in Ha as (g & _ & Ha). apply bind_Ok_inv in Ha as (i & Hi & Ha).
  assert (Hreport : analyzeAttestationIndependence (map read_attestation attestations) = Some (Ok i)).
  { destruct (analyzeAttestationIndependence _) as [res|]; cbn in Hi; congruence. }
  destruct (judge r (length attestations) p i) as [st reason] eqn:Hj. apply Ok_inj in Ha as <-. cbn.
  split; [by apply demand_Ok in Hv|]. split; [|by rewrite Hj].
  clear -Hall. induction attestations as [|x l IH]; [by intros x ?%elem_of_nil|]. cbn [result_fold] in Hall.
  apply bind_Ok_inv in Hall as ([] & Hx & Hall). intros y [->|?]%elem_of_cons; [by apply demand_Ok in Hx|auto].
Qed.

(** What the decision requires of an assessment that ends verified. *)
Lemma assessed_verified claim attestations provenance policy a :
  assessClaimEvidence claim attestations provenance policy = Ok a →
  (1 ≤ minIndependentSupport (a_policy a) ≤ 32)%Z ∧
  (a_status a = Verified ↔
     (match a_retrieval a with Unverified _ => False | _ => True end) ∧ attestations ≠ [] ∧
     mixedGroups (a_report a) = 0%Z ∧ contradictGroups (a_report a) = 0%Z ∧
     (minIndependentSupport (a_policy a) ≤ supportGroups (a_report a))%Z).
Proof.
  intros (_ & _ & Hp & Hreport & ->)%assess_inv.
  pose proof (report_counts _ _ Hreport). pose proof (normalizePolicy_bounds _ _ Hp) as [? ?].
  split; [lia|]. rewrite judge_verified by lia. rewrite length_zero_iff_nil. done.
Qed.

(** C34: what "verified" means.  A claim is assessed as verified exactly when it
    and all its attestations verify, it is not bound to a retrieval that fails
    to match, there are attestations, no independent group contradicts it or is
    mixed, and at least the policy's number of independent groups of known
    lineage support it.  The policy's [maxContradictForVerified] and
    [requireKnownLineage] have no part in it. *)
Theorem verified_iff claim attestations provenance policy a :
  assessClaimEvidence claim attestations provenance policy = Ok a →
  verifyClaim claim = Accepted ∧
  (∀ x, x ∈ attestations → verifyAttestation (oprop claim "claimId") x = Accepted) ∧
  (1 ≤ minIndependentSupport (a_policy a) ≤ 32)%Z ∧
  (a_status a = Verified ↔
     (match a_retrieval a with Unverified _ => False | _ => True end) ∧ attestations ≠ [] ∧
     mixedGroups (a_report a) = 0%Z ∧ contradictGroups (a_report a) = 0%Z ∧
     (minIndependentSupport (a_policy a) ≤ supportGroups (a_report a))%Z).
Proof.
  intros Ha. destruct (assess_inv _ _ _ _ _ Ha) as (Hv & Hall & _). split; [done|]. split; [done|].
  by apply assessed_verified in Ha.
Qed.

(** A receipt built with a verifier's key pair verifies. *)
Lemma createTrustReceipt_verifies (HL : Base64Laws _) pub priv (HK : KeyPair _ pub priv)
    identity claim attestations provenance policy createdAt r :
  oprop identity "publicKeyPem" = JStr pub → oprop identity "privateKeyPem" = JStr priv →
  truthy createdAt = true →
  createTrustReceipt identity claim attestations provenance policy createdAt = Ok r →
  verifyTrustReceipt (oprop claim "claimId") (JObj r) = Accepted.
Proof.
  intros Hpub Hpriv Hat. unfold createTrustReceipt. intros (nodeId & Hid & Hr)%bind_Ok_inv.
  apply bind_Ok_inv in Hr as (a & Ha & Hr). apply bind_Ok_inv in Hr as (payload & Hp & Hr).
  apply bind_Ok_inv in Hr as (receiptId & Hrid & Hr). apply bind_Ok_inv in Hr as (sig & Hsig & <-%Ok_inj).
  apply requiredIdentity_inv in Hid as (Htp & _ & Htn & Hn). rewrite Hpriv in Hsig. cbn [string_or_empty] in Hsig.
  rewrite Hpub in *. pose proof (signValue_nonempty pub priv HK HL _ _ Hsig) as Hne.
  assert (Hpay : truthy payload = true ∧ oprop payload "protocol" = JStr TRUST_RECEIPT_PROTOCOL ∧
            oprop payload "version" = JNum (JInt 1) ∧ oprop payload "claimId" = oprop claim "claimId").
  { unfold receipt_payload in Hp. apply bind_Ok_inv in Hp as (? & _ & Hp). apply bind_Ok_inv in Hp as (? & _ & <-%Ok_inj).
    done. }
  destruct Hpay as (Htpay & Hproto & Hversion & Hclaim).
  assert (Htid : truthy (JStr receiptId) = true)
    by (unfold receipt_id in Hrid; by apply bind_Ok_inv in Hrid as (? & _ & <-%Ok_inj)).
  assert (Hcid : ∃ c, oprop claim "claimId" = JStr c).
  { unfold assessClaimEvidence in Ha. apply bind_Ok_inv in Ha as ([] & Hv & _). apply demand_Ok in Hv.
    apply verifyClaim_content in Hv as (? & _ & ->). eauto. }
  destruct Hcid as [c Hc]. rewrite Hc in *.
  unfold verifyTrustReceipt, check_receipt. set (rc := JObj (_ ++ _)).
  change (oprop rc "publicKey") with (JStr pub). change (oprop rc "verifierNodeId") with (JStr nodeId).
  change (oprop rc "payload") with payload. change (oprop rc "receiptId") with (JStr receiptId).
  change (oprop rc "createdAt") with createdAt. change (oprop rc "signature") with (JStr sig).
  rewrite (bind_step _ _ tt).
  2:{ apply throw_if_Ok. unfold missing. cbn [existsb].
      change (oprop rc "publicKey") with (JStr pub). change (oprop rc "verifierNodeId") with (JStr nodeId).
      change (oprop rc "payload") with payload. change (oprop rc "receiptId") with (JStr receiptId).
      change (oprop rc "createdAt") with createdAt. change (oprop rc "signature") with (JStr sig).
      rewrite Htp, Htn, Hat, Htpay, Htid. cbn [truthy]. by rewrite (proj2 (nonempty_str_true sig) Hne). }
  cbv zeta. rewrite Hproto, Hversion, Hclaim.
  rewrite (bind_step _ _ tt) by (vm_compute; reflexivity).
  rewrite (bind_step _ _ tt) by (cbn [strict_eq]; by rewrite bool_decide_true, andb_false_r by done).
  rewrite (bind_step _ _ _ Hn).
  rewrite (bind_step _ _ tt) by (unfold eq_str; cbn [strict_eq]; by rewrite bool_decide_true).
  rewrite (bind_step _ _ _ Hrid).
  rewrite (bind_step _ _ tt) by (unfold eq_str; cbn [strict_eq]; by rewrite bool_decide_true).
  by rewrite (bind_step _ _ true (verifyValue_signValue pub priv _ sig HK HL Hsig)).
Qed.

End evidence.

Definition toy_policy : jval := JObj [("minIndependentSupport", JNum (JInt 1))].

Definition toy_assessment : assessment := Eval vm_compute in
  ok_or (Assessment JNull NotBound Unsupported "" JNull (Report [] 0 0 0 0 0 0 0) (Policy 0 0 false) JNull)
    (assessClaimEvidence (H := Toy.host) (JObj toy_claim) [JObj toy_attestation] JNull toy_policy).

Lemma verified_iff_witness : a_status toy_assessment = Verified ∧ mixedGroups (a_report toy_assessment) = 0%Z.
Proof.
  assert (Ha : assessClaimEvidence (H := Toy.host) (JObj toy_claim) [JObj toy_attestation] JNull toy_policy
               = Ok toy_assessment) by (vm_compute; reflexivity).
  destruct (verified_iff (H := Toy.host) _ _ _ _ _ Ha) as (_ & _ & _ & Hiff).
  assert (Hs : a_status toy_assessment = Verified) by reflexivity.
  split; [exact Hs|]. exact (proj1 (proj2 (proj2 (proj1 Hiff Hs)))).
Defined.

End Evidence.
