(* ===== verification/Pki.v ===== *)
(** * Source owners, delegated verifiers and their receipts

    Models core/trust/source-owner-pki.js and core/trust/receipt-v2.js: the
    certificate of a source owner, the delegation it signs for a verifier, and
    the receipt a delegated verifier signs over a claim, bound to the head and
    the revocation state of the owner's transparency log.  [now] is the clock
    of the call. *)
From S2P Require Import Prelude JSMap JSValue Dates Host Text Protocol Claims Provenance Evidence Transparency.

Module Pki.
Import Text Canonical Keys Claims.

Definition SOURCE_OWNER_PKI_VERSION : Z := 2.
Definition SOURCE_OWNER_PROTOCOL : string := "truyn-source-owner-v2".
Definition SOURCE_DELEGATION_PROTOCOL : string := "truyn-source-delegation-v2".

Section pki.
Context `{Host}.

(** [new Date(v).getTime()], [None] standing for NaN *)
Definition js_date (v : jval) : option Z :=
  match v with
  | JStr s => Date_parse s
  | JNum (JInt z) => if bool_decide (Z.abs z ≤ 8640000000000000)%Z then Some z else None
  | JNum (JDec m k) =>
      let z := Z.quot m (10 ^ Zpos k) in
      if bool_decide (Z.abs m ≤ 8640000000000000 * 10 ^ Zpos k)%Z then Some z else None
  | JNum _ | JUndef | JHole => None
  | JNull => Some 0%Z
  | JBool b => Some (if b then 1 else 0)%Z
  | JArr _ | JObj _ => Date_parse (to_string v)
  end.

Definition iso (value : jval) (label : string) : result string :=
  match js_date value with
  | Some z => Ok (toISOString z)
  | None => Throw (error (label +:+ " is invalid"))
  end.

(** [(value || []).filter(...)...] *)
Definition scopes (value : jval) : result (list string) :=
  match js_or value (JArr []) with
  | JArr l => Ok (sort_strings (uniq (trimmed_strings l)))
  | _ => Throw (error "(value || []).filter is not a function")
  end.

Definition sourceOwnerIdFromPublicKey (publicKeyPem : jval) : result string :=
  fp ← publicKeyFingerprint publicKeyPem; Ok ("truyn:source-owner:" +:+ fp).

(** An identifier [prefix:hash] of the content [body]. *)
Definition content_id (prefix : string) (body : jval) : result string :=
  d ← digest body; Ok (prefix +:+ str_drop 7 d).

Definition window (issued expires : option Z) : option (Z * Z) :=
  match issued, expires with
  | Some i, Some e => if bool_decide (e ≤ i)%Z then None else Some (i, e)
  | _, _ => None
  end.

(** ** Owner certificates *)

Definition signed_certificate (certificateId body issuedAt expiresAt : jval) : list (string * jval) :=
  [("certificateId", certificateId); ("body", body); ("issuedAt", issuedAt); ("expiresAt", expiresAt)].

Definition createSourceOwnerCertificate (now : Z) (args : jval) : result (list (string * jval)) :=
  let identity := oprop args "identity" in
  nodeId ← requiredIdentity identity "source owner";
  issued ← iso (with_default (oprop args "issuedAt") (JStr (toISOString now))) "issuedAt";
  expires ← iso (with_default (oprop args "expiresAt") (JStr (toISOString (now + 31536000000)))) "expiresAt";
  _ ← throw_if (bool_decide (window (Date_parse issued) (Date_parse expires) = None))
        (error "source owner certificate expiry is invalid");
  ownerId ← sourceOwnerIdFromPublicKey (oprop identity "publicKeyPem");
  namespaces ← scopes (with_default (oprop args "sourceNamespaces") (JArr [JStr "*"]));
  let body := JObj [("protocol", JStr SOURCE_OWNER_PROTOCOL); ("version", JNum (JInt SOURCE_OWNER_PKI_VERSION));
                    ("sourceOwnerId", JStr ownerId); ("rootNodeId", JStr nodeId);
                    ("sourceNamespaces", string_list namespaces)] in
  certificateId ← content_id "truyn:source-owner-cert:" body;
  let signed := signed_certificate (JStr certificateId) body (JStr issued) (JStr expires) in
  signature ← signValue (JObj signed) (string_or_empty (oprop identity "privateKeyPem"));
  Ok (signed ++ [("publicKey", oprop identity "publicKeyPem"); ("signature", JStr signature)]).

Definition check_owner (now : Z) (certificate : jval) : result unit :=
  _ ← throw_if (missing certificate ["certificateId"; "body"; "publicKey"; "signature"])
        (error "source_owner_certificate_missing_field");
  let body := oprop certificate "body" in
  _ ← throw_if (negb (eq_str (oprop body "protocol") SOURCE_OWNER_PROTOCOL) ||
                negb (eq_int (oprop body "version") SOURCE_OWNER_PKI_VERSION))
        (error "source_owner_protocol_mismatch");
  ownerId ← sourceOwnerIdFromPublicKey (oprop certificate "publicKey");
  _ ← throw_if (negb (eq_str (oprop body "sourceOwnerId") ownerId)) (error "source_owner_id_key_mismatch");
  nodeId ← nodeIdFromPublicKey (oprop certificate "publicKey");
  _ ← throw_if (negb (eq_str (oprop body "rootNodeId") nodeId)) (error "source_owner_node_key_mismatch");
  expectedId ← content_id "truyn:source-owner-cert:" body;
  _ ← throw_if (negb (eq_str (oprop certificate "certificateId") expectedId))
        (error "source_owner_content_id_mismatch");
  _ ← match window (js_date (oprop certificate "issuedAt")) (js_date (oprop certificate "expiresAt")) with
      | Some (_, expires) => throw_if (bool_decide (expires ≤ now)%Z)
                               (error "source_owner_certificate_expired_or_invalid")
      | None => Throw (error "source_owner_certificate_expired_or_invalid")
      end;
  ok ← verifyValue (JObj (signed_certificate (oprop certificate "certificateId") body
                            (oprop certificate "issuedAt") (oprop certificate "expiresAt")))
         (oprop certificate "signature") (oprop certificate "publicKey");
  throw_if (negb ok) (error "source_owner_signature_invalid").

Definition verifySourceOwnerCertificate (now : Z) (certificate : jval) : verdict :=
  to_verdict (check_owner now certificate).

(** ** Delegations *)

Definition signed_delegation (delegationId body issuedAt expiresAt : jval) : list (string * jval) :=
  [("delegationId", delegationId); ("body", body); ("issuedAt", issuedAt); ("expiresAt", expiresAt)].

Definition createDelegationCertificate (now : Z) (args : jval) : result (list (string * jval)) :=
  let owner := oprop args "ownerIdentity" in
  let certificate := oprop args "ownerCertificate" in
  let delegate := oprop args "delegateIdentity" in
  _ ← match verifySourceOwnerCertificate now certificate with
      | Accepted => Ok tt
      | Rejected reason => Throw (error ("invalid source owner certificate: " +:+ reason))
      end;
  _ ← throw_if (negb (truthy (oprop owner "privateKeyPem")) ||
                negb (strict_eq (oprop owner "nodeId") (oprop (oprop certificate "body") "rootNodeId")) ||
                negb (strict_eq (oprop owner "publicKeyPem") (oprop certificate "publicKey")))
        (error "delegation must be signed by source owner root identity");
  let publicKey := js_or (oprop delegate "publicKeyPem") (with_default (oprop args "delegatePublicKey") JNull) in
  let nodeId := js_or (oprop delegate "nodeId") (with_default (oprop args "delegateNodeId") JNull) in
  _ ← throw_if (negb (truthy publicKey) || negb (truthy nodeId)) (error "delegated verifier key mismatch");
  expectedNode ← nodeIdFromPublicKey publicKey;
  _ ← throw_if (negb (eq_str nodeId expectedNode)) (error "delegated verifier key mismatch");
  issued ← iso (with_default (oprop args "issuedAt") (JStr (toISOString now))) "issuedAt";
  expires ← iso (with_default (oprop args "expiresAt") (JStr (toISOString (now + 86400000)))) "expiresAt";
  _ ← throw_if (bool_decide (window (Date_parse issued) (Date_parse expires) = None) ||
                match Date_parse expires, js_date (oprop certificate "expiresAt") with
                | Some e, Some limit => bool_decide (limit < e)%Z
                | _, _ => false
                end)
        (error "delegation expiry exceeds owner authority");
  fingerprint ← publicKeyFingerprint publicKey;
  granted ← scopes (with_default (oprop args "delegationScopes") (JArr [JStr "trust.verify"]));
  namespaces ← scopes (with_default (oprop args "sourceNamespaces") (JArr [JStr "*"]));
  let body := JObj [("protocol", JStr SOURCE_DELEGATION_PROTOCOL); ("version", JNum (JInt SOURCE_OWNER_PKI_VERSION));
                    ("sourceOwnerId", oprop (oprop certificate "body") "sourceOwnerId");
                    ("rootCertificateId", oprop certificate "certificateId"); ("delegateNodeId", nodeId);
                    ("delegateKeyFingerprint", JStr fingerprint); ("scopes", string_list granted);
                    ("sourceNamespaces", string_list namespaces)] in
  delegationId ← content_id "truyn:source-delegation:" body;
  let signed := signed_delegation (JStr delegationId) body (JStr issued) (JStr expires) in
  signature ← signValue (JObj signed) (string_or_empty (oprop owner "privateKeyPem"));
  Ok (signed ++ [("delegatePublicKey", publicKey); ("issuerPublicKey", oprop owner "publicKeyPem");
                 ("signature", JStr signature)]).

Fixpoint starts_with (p s : string) : bool :=
  match p, s with
  | EmptyString, _ => true
  | String a p, String b s => bool_decide (a = b) && starts_with p s
  | _, _ => false
  end.
Fixpoint contains (p s : string) : bool :=
  starts_with p s || match s with EmptyString => false | String _ s => contains p s end.

(** [v.includes(scope)] on an array, or on a string *)
Definition includes_scope (v : jval) (scope : string) : result bool :=
  match v with
  | JArr l => Ok (existsb (λ x, eq_str x scope) l)
  | JStr s => Ok (contains scope s)
  | _ => Throw (error "includes is not a function")
  end.

Definition check_delegation (now : Z) (requiredScope : option string) (certificate delegation : jval) : result unit :=
  _ ← check_owner now certificate;
  _ ← throw_if (missing delegation ["delegationId"; "body"; "delegatePublicKey"; "issuerPublicKey"; "signature"])
        (error "delegation_missing_field");
  let body := oprop delegation "body" in
  _ ← throw_if (negb (eq_str (oprop body "protocol") SOURCE_DELEGATION_PROTOCOL) ||
                negb (eq_int (oprop body "version") SOURCE_OWNER_PKI_VERSION))
        (error "delegation_protocol_mismatch");
  _ ← throw_if (negb (strict_eq (oprop body "sourceOwnerId") (oprop (oprop certificate "body") "sourceOwnerId")) ||
                negb (strict_eq (oprop body "rootCertificateId") (oprop certificate "certificateId")))
        (error "delegation_owner_mismatch");
  _ ← throw_if (negb (strict_eq (oprop delegation "issuerPublicKey") (oprop certificate "publicKey")))
        (error "delegation_issuer_key_mismatch");
  nodeId ← nodeIdFromPublicKey (oprop delegation "delegatePublicKey");
  _ ← throw_if (negb (eq_str (oprop body "delegateNodeId") nodeId)) (error "delegation_delegate_key_mismatch");
  fp ← publicKeyFingerprint (oprop delegation "delegatePublicKey");
  _ ← throw_if (negb (eq_str (oprop body "delegateKeyFingerprint") fp)) (error "delegation_delegate_key_mismatch");
  expectedId ← content_id "truyn:source-delegation:" body;
  _ ← throw_if (negb (eq_str (oprop delegation "delegationId") expectedId))
        (error "delegation_content_id_mismatch");
  _ ← match window (js_date (oprop delegation "issuedAt")) (js_date (oprop delegation "expiresAt")) with
      | Some (_, expires) =>
          throw_if (bool_decide (expires ≤ now)%Z ||
                    match js_date (oprop certificate "expiresAt") with
                    | Some limit => bool_decide (limit < expires)%Z
                    | None => false
                    end)
            (error "delegation_expired_or_invalid")
      | None => Throw (error "delegation_expired_or_invalid")
      end;
  _ ← match requiredScope with
      | Some scope =>
          if nonempty_str scope then
            has ← includes_scope (oprop body "scopes") scope;
            throw_if (negb has) (error "delegation_scope_missing")
          else Ok tt
      | None => Ok tt
      end;
  ok ← verifyValue (JObj (signed_delegation (oprop delegation "delegationId") body
                            (oprop delegation "issuedAt") (oprop delegation "expiresAt")))
         (oprop delegation "signature") (oprop delegation "issuerPublicKey");
  throw_if (negb ok) (error "delegation_signature_invalid").

Definition verifyDelegationCertificate (now : Z) (requiredScope : option string) (certificate delegation : jval) : verdict :=
  to_verdict (check_delegation now requiredScope certificate delegation).

Definition authorityChainDigest (certificate delegation : jval) : result string :=
  digest (JObj [("ownerCertificate", certificate); ("delegation", delegation)]).

(** ** What acceptance establishes *)

Lemma missing_false v fields k : missing v fields = false → k ∈ fields → truthy (oprop v k) = true.
Proof.
  unfold missing. intros Hm Hk. destruct (truthy (oprop v k)) eqn:Ht; [done|].
  assert (existsb (λ k, negb (truthy (oprop v k))) fields = true) as Hx; [|congruence].
  apply existsb_exists. exists k. split; [by apply list_elem_of_In|by rewrite Ht].
Qed.

Lemma to_verdict_Accepted r : to_verdict r = Accepted → r = Ok tt.
Proof. by destruct r as [[]|]. Qed.

(** The owner certificate, as accepted. *)
Record owner_facts (now : Z) (c : jval) (issued expires : Z) : Prop := {
  of_key : truthy (oprop c "publicKey") = true;
  of_owner : ∃ o, sourceOwnerIdFromPublicKey (oprop c "publicKey") = Ok o ∧
               oprop (oprop c "body") "sourceOwnerId" = JStr o;
  of_id : ∃ i, oprop c "certificateId" = JStr i ∧ content_id "truyn:source-owner-cert:" (oprop c "body") = Ok i;
  of_issued : js_date (oprop c "issuedAt") = Some issued;
  of_expires : js_date (oprop c "expiresAt") = Some expires;
  of_window : (issued < expires ∧ now < expires)%Z;
  of_signed : verifyValue (JObj (signed_certificate (oprop c "certificateId") (oprop c "body")
                (oprop c "issuedAt") (oprop c "expiresAt"))) (oprop c "signature") (oprop c "publicKey") = Ok true
}.

Lemma window_Some i e r : window i e = Some r → i = Some r.1 ∧ e = Some r.2 ∧ (r.1 < r.2)%Z.
Proof. unfold window. destruct i, e; try done. case_bool_decide; [done|]. intros [= <-]. cbn. split_and!; [done..|lia]. Qed.

Lemma check_owner_facts now c : check_owner now c = Ok tt → ∃ i e, owner_facts now c i e.
Proof.
  unfold check_owner. intros ([] & Hm & Hc)%bind_Ok_inv. rewrite throw_if_Ok in Hm. cbv zeta in Hc.
  apply bind_Ok_inv in Hc as ([] & _ & Hc). apply bind_Ok_inv in Hc as (ownerId & Ho & Hc).
  apply bind_Ok_inv in Hc as ([] & Hoe & Hc). apply bind_Ok_inv in Hc as (nodeId & _ & Hc).
  apply bind_Ok_inv in Hc as ([] & _ & Hc). apply bind_Ok_inv in Hc as (id & Hid & Hc).
  apply bind_Ok_inv in Hc as ([] & Hide & Hc). apply bind_Ok_inv in Hc as ([] & Hw & Hc).
  apply bind_Ok_inv in Hc as (ok & Hv & Hok). rewrite throw_if_Ok, negb_false_iff in Hok, Hoe, Hide. subst ok.
  apply eq_str_true in Hoe, Hide. destruct (window _ _) as [[i e]|] eqn:Hwin; [|done].
  apply window_Some in Hwin as (Hi & He & Hlt). rewrite throw_if_Ok in Hw. bool_hyps. cbn in Hi, He, Hlt.
  exists i, e. split; [|by exists ownerId|by exists id|done|done|lia|done].
  apply (missing_false _ _ _ Hm). set_solver.
Qed.

(** Only the clock separates an accepted certificate from a rejected one. *)
Lemma check_owner_later now t c i e :
  check_owner now c = Ok tt → owner_facts now c i e → (t < e)%Z → check_owner t c = Ok tt.
Proof.
  intros Hc Hf Ht. destruct (of_window _ _ _ _ Hf) as [Hlt _]. revert Hc. unfold check_owner.
  rewrite (of_issued _ _ _ _ Hf), (of_expires _ _ _ _ Hf). unfold window.
  rewrite bool_decide_eq_false_2 by lia. intros Hc. repeat bind_along Hc.
  apply bind_Ok_inv in Hc as ([] & _ & Hc). rewrite (bind_step _ _ tt); [exact Hc|].
  apply throw_if_Ok, bool_decide_eq_false_2. lia.
Qed.

(** The delegation, as accepted. *)
Record delegation_facts (now : Z) (certificate delegation : jval) (expires : Z) : Prop := {
  df_owner : check_owner now certificate = Ok tt;
  df_names : strict_eq (oprop (oprop delegation "body") "sourceOwnerId")
               (oprop (oprop certificate "body") "sourceOwnerId") = true ∧
             strict_eq (oprop (oprop delegation "body") "rootCertificateId")
               (oprop certificate "certificateId") = true;
  df_issuer : strict_eq (oprop delegation "issuerPublicKey") (oprop certificate "publicKey") = true;
  df_delegate : ∃ nodeId, nodeIdFromPublicKey (oprop delegation "delegatePublicKey") = Ok nodeId ∧
                  oprop (oprop delegation "body") "delegateNodeId" = JStr nodeId;
  df_expires : js_date (oprop delegation "expiresAt") = Some expires;
  df_within : (now < expires)%Z ∧ ∀ limit, js_date (oprop certificate "expiresAt") = Some limit → (expires ≤ limit)%Z;
  df_signed : verifyValue (JObj (signed_delegation (oprop delegation "delegationId") (oprop delegation "body")
                (oprop delegation "issuedAt") (oprop delegation "expiresAt")))
                (oprop delegation "signature") (oprop delegation "issuerPublicKey") = Ok true;
  df_id : ∃ i, oprop delegation "delegationId" = JStr i ∧
            content_id "truyn:source-delegation:" (oprop delegation "body") = Ok i
}.

Lemma check_delegation_facts now scope c d :
  check_delegation now scope c d = Ok tt → ∃ e, delegation_facts now c d e.
Proof.
  unfold check_delegation. intros ([] & Hown & Hc)%bind_Ok_inv. apply bind_Ok_inv in Hc as ([] & _ & Hc).
  cbv zeta in Hc. apply bind_Ok_inv in Hc as ([] & _ & Hc). apply bind_Ok_inv in Hc as ([] & Hnames & Hc).
  apply bind_Ok_inv in Hc as ([] & Hissuer & Hc). apply bind_Ok_inv in Hc as (nodeId & Hn & Hc).
  apply bind_Ok_inv in Hc as ([] & Hne & Hc). apply bind_Ok_inv in Hc as (fp & _ & Hc).
  apply bind_Ok_inv in Hc as ([] & _ & Hc). apply bind_Ok_inv in Hc as (id & Hid & Hc).
  apply bind_Ok_inv in Hc as ([] & Hide & Hc). apply bind_Ok_inv in Hc as ([] & Hw & Hc).
  apply bind_Ok_inv in Hc as ([] & _ & Hc). apply bind_Ok_inv in Hc as (ok & Hv & Hok).
  rewrite throw_if_Ok in Hok, Hne, Hide, Hissuer, Hnames. bool_hyps. subst ok.
  destruct (window _ _) as [[i e]|] eqn:Hwin; [|done]. apply window_Some in Hwin as (_ & He & _).
  rewrite throw_if_Ok in Hw. bool_hyps. cbn in He. exists e.
  split; [done|done|done|exists nodeId; split; [done|by apply eq_str_true]|done| |done
         |exists id; split; [by apply eq_str_true|done]].
  split; [lia|]. intros limit Hlimit. rewrite Hlimit in *. bool_hyps. lia.
Qed.

Lemma iso_parses v label s : iso v label = Ok s → ∃ z, s = toISOString z.
Proof. unfold iso. destruct (js_date v) as [z|]; [|done]. intros <-%Ok_inj. by exists z. Qed.

Lemma includes_granted scope granted : scope ∈ granted → includes_scope (string_list granted) scope = Ok true.
Proof.
  intros Hs. unfold string_list, includes_scope. f_equal. apply existsb_exists. exists (JStr scope).
  split; [|unfold eq_str; cbn [strict_eq]; by rewrite bool_decide_true].
  apply in_map_iff. exists scope. split; [done|by apply list_elem_of_In].
Qed.

Lemma scopes_nonempty v granted scope : scopes v = Ok granted → scope ∈ granted → nonempty_str scope = true.
Proof.
  unfold scopes, sort_strings. destruct (js_or v _); try done. intros <-%Ok_inj.
  rewrite elem_of_sort_by, elem_of_uniq. unfold trimmed_strings.
  intros [Hs _]%list_elem_of_filter. by apply nonempty_str_true.
Qed.

(** [===] to a string *)
Lemma strict_eq_string v s : strict_eq v (JStr s) = true → v = JStr s.
Proof. apply eq_str_true. Qed.

Lemma eq_str_refl s : eq_str (JStr s) s = true.
Proof. by apply bool_decide_eq_true. Qed.

(** What a created delegation is made of. *)
Lemma createDelegation_inv now args d pub priv (HL : Base64Laws _) (HK : KeyPair _ pub priv) :
  oprop (oprop args "ownerIdentity") "publicKeyPem" = JStr pub →
  oprop (oprop args "ownerIdentity") "privateKeyPem" = JStr priv →
  createDelegationCertificate now args = Ok d →
  let c := oprop args "ownerCertificate" in
  ∃ i e id sig pk nodeId fp granted namespaces,
    check_owner now c = Ok tt ∧ oprop c "publicKey" = JStr pub ∧ truthy pk = true ∧
    nodeIdFromPublicKey pk = Ok nodeId ∧ publicKeyFingerprint pk = Ok fp ∧
    scopes (with_default (oprop args "delegationScopes") (JArr [JStr "trust.verify"])) = Ok granted ∧
    window (Date_parse i) (Date_parse e) ≠ None ∧
    (∀ z limit, Date_parse e = Some z → js_date (oprop c "expiresAt") = Some limit → (z ≤ limit)%Z) ∧
    let body := JObj [("protocol", JStr SOURCE_DELEGATION_PROTOCOL); ("version", JNum (JInt SOURCE_OWNER_PKI_VERSION));
                    ("sourceOwnerId", oprop (oprop c "body") "sourceOwnerId");
                    ("rootCertificateId", oprop c "certificateId"); ("delegateNodeId", JStr nodeId);
                    ("delegateKeyFingerprint", JStr fp); ("scopes", string_list granted);
                    ("sourceNamespaces", string_list namespaces)] in
    content_id "truyn:source-delegation:" body = Ok id ∧
    signValue (JObj (signed_delegation (JStr id) body (JStr i) (JStr e))) priv = Ok sig ∧
    d = signed_delegation (JStr id) body (JStr i) (JStr e) ++
          [("delegatePublicKey", pk); ("issuerPublicKey", JStr pub); ("signature", JStr sig)].
Proof.
  intros Hpub Hpriv. unfold createDelegationCertificate. cbv zeta. rewrite Hpub, Hpriv.
  intros ([] & Hown & Hc)%bind_Ok_inv. apply bind_Ok_inv in Hc as ([] & Hroot & Hc).
  apply bind_Ok_inv in Hc as ([] & Htruthy & Hc). apply bind_Ok_inv in Hc as (nodeId & Hn & Hc).
  apply bind_Ok_inv in Hc as ([] & Hne & Hc). apply bind_Ok_inv in Hc as (i & _ & Hc).
  apply bind_Ok_inv in Hc as (e & _ & Hc). apply bind_Ok_inv in Hc as ([] & Hwin & Hc).
  apply bind_Ok_inv in Hc as (fp & Hfp & Hc). apply bind_Ok_inv in Hc as (granted & Hg & Hc).
  apply bind_Ok_inv in Hc as (ns & _ & Hc). apply bind_Ok_inv in Hc as (id & Hid & Hc).
  apply bind_Ok_inv in Hc as (sig & Hsig & <-%Ok_inj).
  rewrite throw_if_Ok in Hroot, Htruthy, Hne, Hwin. bool_hyps. apply eq_str_true in Hne. rewrite Hne in *.
  exists i, e, id, sig, (js_or (oprop (oprop args "delegateIdentity") "publicKeyPem")
           (with_default (oprop args "delegatePublicKey") JNull)), nodeId, fp, granted, ns.
  split; [unfold verifySourceOwnerCertificate, to_verdict in Hown; by destruct (check_owner _ _) as [[]|]|].
  split.
  { match goal with H : strict_eq (JStr pub) _ = true |- _ => revert H end.
    destruct (oprop (oprop args "ownerCertificate") "publicKey") as [| | | |[]| | |]; cbn; try done.
    by intros ->%bool_decide_eq_true. }
  split_and!; try done. intros z limit Hz Hl. rewrite Hz, Hl in *. bool_hyps. lia.
Qed.

(** The verifier's steps on a delegation of that shape. *)
Lemma granted_delegation_accepted t c scope granted ns i e zi ze id sig pk nodeId fp pub priv
    (HL : Base64Laws _) (HK : KeyPair _ pub priv) :
  let body := JObj [("protocol", JStr SOURCE_DELEGATION_PROTOCOL); ("version", JNum (JInt SOURCE_OWNER_PKI_VERSION));
                    ("sourceOwnerId", oprop (oprop c "body") "sourceOwnerId");
                    ("rootCertificateId", oprop c "certificateId"); ("delegateNodeId", JStr nodeId);
                    ("delegateKeyFingerprint", JStr fp); ("scopes", string_list granted);
                    ("sourceNamespaces", ns)] in
  check_owner t c = Ok tt → oprop c "publicKey" = JStr pub → truthy pk = true →
  nodeIdFromPublicKey pk = Ok nodeId → publicKeyFingerprint pk = Ok fp →
  content_id "truyn:source-delegation:" body = Ok id →
  signValue (JObj (signed_delegation (JStr id) body (JStr i) (JStr e))) priv = Ok sig →
  window (Date_parse i) (Date_parse e) = Some (zi, ze) → (t < ze)%Z →
  (∀ limit, js_date (oprop c "expiresAt") = Some limit → (ze ≤ limit)%Z) →
  nonempty_str scope = true → scope ∈ granted →
  check_delegation t (Some scope) c
    (JObj (signed_delegation (JStr id) body (JStr i) (JStr e) ++
      [("delegatePublicKey", pk); ("issuerPublicKey", JStr pub); ("signature", JStr sig)])) = Ok tt.
Proof.
  intros body Hown Hkey Htpk Hn Hfp Hid Hsig Hw Ht Hlim Hs Hscope.
  destruct (check_owner_facts _ _ Hown) as (oi & oe & Hf). unfold check_delegation.
  rewrite (bind_step _ _ tt) by done. set (dv := JObj (_ ++ _)).
  change (oprop dv "delegationId") with (JStr id). change (oprop dv "body") with body.
  change (oprop dv "delegatePublicKey") with pk. change (oprop dv "issuerPublicKey") with (JStr pub).
  change (oprop dv "signature") with (JStr sig). change (oprop dv "issuedAt") with (JStr i).
  change (oprop dv "expiresAt") with (JStr e). cbv zeta.
  pose proof (of_key _ _ _ _ Hf) as Htpub. rewrite Hkey in Htpub.
  rewrite (bind_step _ _ tt).
  2:{ apply throw_if_Ok. unfold missing. cbn [existsb].
      change (oprop dv "delegationId") with (JStr id). change (oprop dv "body") with body.
      change (oprop dv "delegatePublicKey") with pk. change (oprop dv "issuerPublicKey") with (JStr pub).
      change (oprop dv "signature") with (JStr sig). rewrite Htpk, Htpub.
      rewrite (proj2 (nonempty_str_true sig) (signValue_nonempty pub priv HK HL _ _ Hsig) : truthy (JStr sig) = true).
      unfold content_id in Hid. apply bind_Ok_inv in Hid as (? & _ & <-%Ok_inj). done. }
  rewrite (bind_step _ _ tt) by (vm_compute; reflexivity).
  change (oprop body "sourceOwnerId") with (oprop (oprop c "body") "sourceOwnerId").
  change (oprop body "rootCertificateId") with (oprop c "certificateId").
  change (oprop body "delegateNodeId") with (JStr nodeId).
  change (oprop body "delegateKeyFingerprint") with (JStr fp).
  change (oprop body "scopes") with (string_list granted).
  destruct (of_owner _ _ _ _ Hf) as (o & _ & Ho). destruct (of_id _ _ _ _ Hf) as (cid & Hcid & _).
  rewrite Ho, Hcid, Hkey. unfold strict_eq. rewrite !bool_decide_true by done.
  do 2 (rewrite (bind_step _ _ tt) by done).
  rewrite (bind_step _ _ _ Hn), eq_str_refl, (bind_step _ _ tt) by done.
  rewrite (bind_step _ _ _ Hfp), eq_str_refl, (bind_step _ _ tt) by done.
  rewrite (bind_step _ _ _ Hid), eq_str_refl, (bind_step _ _ tt) by done.
  unfold js_date at 1 2. rewrite Hw. rewrite (bind_step _ _ tt).
  2:{ apply throw_if_Ok. rewrite bool_decide_eq_false_2 by lia. cbn [orb].
      pose proof (of_expires _ _ _ _ Hf) as He. rewrite He. specialize (Hlim _ He). by apply bool_decide_eq_false_2; lia. }
  rewrite Hs, (bind_step _ _ _ (includes_granted _ _ Hscope)). rewrite (bind_step _ _ tt) by done.
  by rewrite (bind_step _ _ true (verifyValue_signValue pub priv _ sig HK HL Hsig)).
Qed.

(** A created delegation has its validity window.  A delegation built by
    the owner of an accepted certificate is accepted by the verifier, for each
    scope it grants, at exactly the times before its expiry: the expiry of the
    owner's certificate never cuts it short. *)
Theorem delegation_window now args d pub priv (HL : Base64Laws _) (HK : KeyPair _ pub priv) :
  oprop (oprop args "ownerIdentity") "publicKeyPem" = JStr pub →
  oprop (oprop args "ownerIdentity") "privateKeyPem" = JStr priv →
  createDelegationCertificate now args = Ok d →
  ∃ granted expires,
    scopes (with_default (oprop args "delegationScopes") (JArr [JStr "trust.verify"])) = Ok granted ∧
    js_date (oprop (JObj d) "expiresAt") = Some expires ∧
    ∀ t scope, scope ∈ granted →
      verifyDelegationCertificate t (Some scope) (oprop args "ownerCertificate") (JObj d) = Accepted ↔ (t < expires)%Z.
Proof.
  intros Hpub Hpriv Hd. destruct (createDelegation_inv _ _ _ _ _ HL HK Hpub Hpriv Hd)
    as (i & e & id & sig & pk & nodeId & fp & granted & ns & Hown & Hkey & Htpk & Hn & Hfp & Hg & Hwin & Hlim & Hid & Hsig & ->).
  destruct (window (Date_parse i) (Date_parse e)) as [[zi ze]|] eqn:Hw; [clear Hwin|done].
  destruct (window_Some _ _ _ Hw) as (_ & He & _). cbn [fst snd] in He.
  exists granted, ze. split; [done|]. split; [exact He|]. intros t scope Hscope. split.
  - intros Hok%to_verdict_Accepted. apply check_delegation_facts in Hok as (ze' & [? ? ? ? Hze [Ht _] ? ?]).
    change (Date_parse e = Some ze') in Hze. rewrite He in Hze. injection Hze as <-. exact Ht.
  - intros Ht. destruct (check_owner_facts _ _ Hown) as (oi & oe & Hf).
    pose proof (Hlim _ _ He (of_expires _ _ _ _ Hf)).
    assert (Hown' : check_owner t (oprop args "ownerCertificate") = Ok tt)
      by (apply (check_owner_later _ _ _ _ _ Hown Hf); lia).
    unfold verifyDelegationCertificate.
    rewrite (granted_delegation_accepted t _ scope granted (string_list ns) i e zi ze id sig pk nodeId fp pub priv);
      eauto using scopes_nonempty.
Qed.

End pki.

(** ** On the toy platform *)

Definition toy_certificate : list (string * jval) := Eval vm_compute in
  ok_or [] (createSourceOwnerCertificate (H := Toy.host) 1000 (JObj [("identity", toy_author)])).

Definition toy_delegation_args : jval :=
  JObj [("ownerIdentity", toy_author); ("ownerCertificate", JObj toy_certificate);
        ("delegateIdentity", toy_author);
        ("delegationScopes", JArr [JStr " trust.verify "; JStr "trust.attest"])].

Definition toy_delegation : list (string * jval) := Eval vm_compute in
  ok_or [] (createDelegationCertificate (H := Toy.host) 2000 toy_delegation_args).

Lemma delegation_window_witness :
  ∃ expires, ∀ t, verifyDelegationCertificate (H := Toy.host) t (Some "trust.verify") (JObj toy_certificate) (JObj toy_delegation)
    = Accepted ↔ (t < expires)%Z.
Proof.
  assert (Hd : createDelegationCertificate (H := Toy.host) 2000 toy_delegation_args = Ok toy_delegation)
    by (vm_compute; reflexivity).
  destruct (delegation_window (H := Toy.host) 2000 toy_delegation_args toy_delegation "pem" "priv" Toy.base64_laws
              (Toy.key_pair "pem" "priv") eq_refl eq_refl Hd) as (granted & e & Hg & _ & Hall).
  exists e. intros t. apply (Hall t "trust.verify").
  assert (Hg' : scopes (oprop toy_delegation_args "delegationScopes") = Ok ["trust.attest"; "trust.verify"])
    by (vm_compute; reflexivity).
  change (scopes (oprop toy_delegation_args "delegationScopes") = Ok granted) in Hg. rewrite Hg' in Hg.
  apply Ok_inj in Hg as <-. apply list_elem_of_In. right. by left.
Defined.

End Pki.
