(* ===== verification/Receipts.v ===== *)
(** * Receipts of delegated verifiers

    Models core/trust/receipt-v2.js: the receipt a delegated verifier signs
    over a claim, bound to the head and to the revocation state of the source
    owner's transparency log, and its verification against the log's current
    head and state.  The log is the one of [Transparency]. *)
From S2P Require Import Prelude JSMap JSValue Dates Host Text Protocol Claims Provenance Evidence Transparency Pki.

Module Receipts.
Import Text Canonical Keys Claims Evidence Pki Log.

Definition TRUST_RECEIPT_V2_VERSION : Z := 2.
Definition TRUST_RECEIPT_V2_PROTOCOL : string := "truyn-trust-receipt-v2".

(** [new Map((state.relevant || []).map((item) => [item.targetId, item]))] *)
Definition relevant_map (state : jval) : result (list (jval * jval)) :=
  match js_or (oprop state "relevant") (JArr []) with
  | JArr l => result_map (λ item, t ← get item "targetId"; Ok (t, item)) l
  | _ => Throw (error "map is not a function")
  end.

Definition revoked_in (m : list (jval * jval)) (target : jval) : bool :=
  match last_entry m target with Some item => truthy (oprop item "revoked") | None => false end.

Definition differs (v w : jval) (fields : list string) : bool :=
  existsb (λ k, negb (strict_eq (oprop v k) (oprop w k))) fields.

Definition validateCommittedState (lifecycleHead state sourceOwnerId delegationId claimId : jval) : result unit :=
  _ ← throw_if (negb (truthy lifecycleHead) || negb (truthy state))
        (error "trust receipt v2 requires lifecycleHead and revocationState");
  _ ← throw_if (negb (strict_eq (oprop lifecycleHead "sourceOwnerId") sourceOwnerId) ||
                negb (strict_eq (oprop state "sourceOwnerId") sourceOwnerId))
        (error "trust receipt v2 source owner state mismatch");
  _ ← throw_if (differs lifecycleHead state ["logId"; "sequence"; "headHash"])
        (error "trust receipt v2 lifecycle/revocation head mismatch");
  _ ← throw_if (negb (strict_eq (oprop lifecycleHead "revocationStateDigest") (oprop state "stateDigest")))
        (error "trust receipt v2 revocation digest mismatch");
  relevant ← relevant_map state;
  _ ← throw_if (bool_decide (last_entry relevant delegationId = None) ||
                bool_decide (last_entry relevant claimId = None))
        (error "trust receipt v2 revocation state lacks relevant subjects");
  _ ← throw_if (revoked_in relevant delegationId) (error "trust receipt v2 verifier delegation is revoked");
  throw_if (revoked_in relevant claimId) (error "trust receipt v2 claim is revoked").

Section receipts.
Context `{Host}.

Definition receipt_id_v2 (payload verifierNodeId : jval) : result string :=
  content_id "truyn:trust:v2:" (JObj [("payload", payload); ("verifierNodeId", verifierNodeId)]).

Record receipt_request := {
  q_identity : jval; q_claim : jval; q_attestations : list jval; q_retrievalProvenance : jval; q_policy : jval;
  q_ownerCertificate : jval; q_delegation : jval; q_lifecycleHead : jval; q_revocationState : jval;
  q_createdAt : jval
}.

Definition authority_value (certificate delegation : jval) (chainDigest : string) : jval :=
  JObj [("sourceOwnerId", oprop (oprop certificate "body") "sourceOwnerId");
        ("rootCertificateId", oprop certificate "certificateId");
        ("delegationId", oprop delegation "delegationId"); ("authorityChainDigest", JStr chainDigest)].

Definition receipt_payload_v2 (q : receipt_request) (a : assessment) : result jval :=
  cd ← claimDigest (q_claim q);
  commitments ← result_map attestation_commitment (q_attestations q);
  chainDigest ← authorityChainDigest (q_ownerCertificate q) (q_delegation q);
  Ok (JObj [("protocol", JStr TRUST_RECEIPT_V2_PROTOCOL); ("version", JNum (JInt TRUST_RECEIPT_V2_VERSION));
            ("claimId", oprop (q_claim q) "claimId"); ("claimDigest", JStr cd);
            ("retrievalIntegrity", retrieval_value (a_retrieval a)); ("truthAssessment", truth_value a);
            ("policy", policy_value (a_policy a));
            ("provenanceGraphDigest", oprop (a_graph a) "graphDigest");
            ("attestationCommitments", string_list (sort_strings commitments));
            ("verifierAuthority", authority_value (q_ownerCertificate q) (q_delegation q) chainDigest);
            ("lifecycleHead", q_lifecycleHead q); ("revocationState", q_revocationState q)]).

Definition createTrustReceiptV2 (now : Z) (q : receipt_request) : result (list (string * jval)) :=
  let identity := q_identity q in
  let invalid := error "trust receipt v2 verifier identity is required" in
  _ ← throw_if (negb (truthy (oprop identity "nodeId")) || negb (truthy (oprop identity "publicKeyPem")) ||
                negb (truthy (oprop identity "privateKeyPem"))) invalid;
  nodeId ← nodeIdFromPublicKey (oprop identity "publicKeyPem");
  _ ← throw_if (negb (eq_str (oprop identity "nodeId") nodeId)) invalid;
  _ ← demand "trust receipt v2 source owner invalid: " (verifySourceOwnerCertificate now (q_ownerCertificate q));
  _ ← demand "trust receipt v2 delegation invalid: "
        (verifyDelegationCertificate now (Some "trust.verify") (q_ownerCertificate q) (q_delegation q));
  _ ← throw_if (negb (strict_eq (oprop (oprop (q_delegation q) "body") "delegateNodeId") (JStr nodeId)))
        (error "trust receipt v2 delegation invalid: delegate mismatch");
  claimId ← get (q_claim q) "claimId";
  _ ← validateCommittedState (q_lifecycleHead q) (q_revocationState q)
        (oprop (oprop (q_ownerCertificate q) "body") "sourceOwnerId")
        (oprop (q_delegation q) "delegationId") claimId;
  a ← assessClaimEvidence (q_claim q) (q_attestations q) (q_retrievalProvenance q) (q_policy q);
  payload ← receipt_payload_v2 q a;
  receiptId ← receipt_id_v2 payload (JStr nodeId);
  stamp ← date_toISOString (js_date (q_createdAt q));
  let signed := signed_receipt (JStr receiptId) payload (JStr nodeId) (JStr stamp) in
  signature ← signValue (JObj signed) (string_or_empty (oprop identity "privateKeyPem"));
  Ok (signed ++ [("authorityChain", JObj [("ownerCertificate", q_ownerCertificate q);
                                          ("delegation", q_delegation q)]);
                 ("publicKey", oprop identity "publicKeyPem"); ("signature", JStr signature)]).

(** ** Verification *)

(** What the caller knows of the log: JNull where it knows nothing. *)
Record expectations := {
  x_claimId : jval; x_lifecycleHead : jval; x_revocationState : jval
}.

Definition check_authority (now : Z) (receipt : jval) : result unit :=
  let payload := oprop receipt "payload" in
  let certificate := oprop (oprop receipt "authorityChain") "ownerCertificate" in
  let delegation := oprop (oprop receipt "authorityChain") "delegation" in
  let authority := oprop payload "verifierAuthority" in
  d ← authorityChainDigest certificate delegation;
  _ ← throw_if (negb (eq_str (oprop authority "authorityChainDigest") d))
        (error "trust_receipt_v2_authority_commitment_mismatch");
  _ ← demand "" (verifySourceOwnerCertificate now certificate);
  _ ← demand "" (verifyDelegationCertificate now (Some "trust.verify") certificate delegation);
  _ ← throw_if (negb (strict_eq (oprop (oprop delegation "body") "delegateNodeId") (oprop receipt "verifierNodeId")))
        (error "trust_receipt_v2_delegate_mismatch");
  _ ← throw_if (negb (strict_eq (oprop authority "sourceOwnerId") (oprop (oprop certificate "body") "sourceOwnerId")) ||
                negb (strict_eq (oprop authority "delegationId") (oprop delegation "delegationId")))
        (error "trust_receipt_v2_authority_identity_mismatch");
  validateCommittedState (oprop payload "lifecycleHead") (oprop payload "revocationState")
    (oprop (oprop certificate "body") "sourceOwnerId") (oprop delegation "delegationId") (oprop payload "claimId").

Definition check_current (x : expectations) (receipt : jval) : result unit :=
  let payload := oprop receipt "payload" in
  let delegation := oprop (oprop receipt "authorityChain") "delegation" in
  _ ← throw_if (truthy (x_lifecycleHead x) &&
                differs (x_lifecycleHead x) (oprop payload "lifecycleHead") ["logId"; "sequence"; "headHash"])
        (error "trust_receipt_v2_lifecycle_head_stale");
  if truthy (x_revocationState x) then
    _ ← throw_if (differs (x_revocationState x) (oprop payload "revocationState")
                    ["logId"; "sequence"; "headHash"; "stateDigest"])
          (error "trust_receipt_v2_revocation_state_stale");
    relevant ← relevant_map (x_revocationState x);
    _ ← throw_if (revoked_in relevant (oprop delegation "delegationId")) (error "trust_receipt_v2_verifier_revoked");
    throw_if (revoked_in relevant (oprop payload "claimId")) (error "trust_receipt_v2_claim_revoked")
  else Ok tt.

Definition check_receipt_v2 (now : Z) (x : expectations) (receipt : jval) : result unit :=
  _ ← throw_if (missing receipt ["receiptId"; "payload"; "verifierNodeId"; "createdAt"; "authorityChain";
                                 "publicKey"; "signature"])
        (error "trust_receipt_v2_missing_required_field");
  let payload := oprop receipt "payload" in
  _ ← throw_if (negb (eq_str (oprop payload "protocol") TRUST_RECEIPT_V2_PROTOCOL) ||
                negb (eq_int (oprop payload "version") TRUST_RECEIPT_V2_VERSION))
        (error "trust_receipt_v2_protocol_mismatch");
  _ ← throw_if (truthy (x_claimId x) && negb (strict_eq (oprop payload "claimId") (x_claimId x)))
        (error "trust_receipt_v2_claim_mismatch");
  nodeId ← nodeIdFromPublicKey (oprop receipt "publicKey");
  _ ← throw_if (negb (eq_str (oprop receipt "verifierNodeId") nodeId))
        (error "trust_receipt_v2_verifier_key_mismatch");
  _ ← check_authority now receipt;
  expectedId ← receipt_id_v2 payload (oprop receipt "verifierNodeId");
  _ ← throw_if (negb (eq_str (oprop receipt "receiptId") expectedId)) (error "trust_receipt_v2_content_id_mismatch");
  ok ← verifyValue (JObj (signed_receipt (oprop receipt "receiptId") payload (oprop receipt "verifierNodeId")
                            (oprop receipt "createdAt")))
         (oprop receipt "signature") (oprop receipt "publicKey");
  _ ← throw_if (negb ok) (error "trust_receipt_v2_signature_invalid");
  check_current x receipt.

Definition verifyTrustReceiptV2 (now : Z) (x : expectations) (receipt : jval) : Protocol.verdict :=
  to_verdict (check_receipt_v2 now x receipt).

Definition trustReceiptV2Digest (receipt : jval) : result string := digest receipt.

(** ** Against the log *)

(** The objects [head()] and [revocationState(targets)] return. *)
Definition head_value (h : log_head) : jval :=
  JObj [("protocol", JStr "truyn-transparency-head-v2"); ("version", JNum (JInt TRANSPARENCY_LOG_VERSION));
        ("logId", JStr (h_logId h)); ("sourceOwnerId", JStr (h_sourceOwnerId h)); ("sequence", h_sequence h);
        ("headHash", h_headHash h); ("revocationStateDigest", JStr (h_revocationStateDigest h))].

Definition target_value (t : target_state) : jval :=
  JObj [("targetId", JStr (t_targetId t)); ("revoked", JBool (t_revoked t));
        ("revocationEntryHash", t_entryHash t); ("revocationSequence", t_sequence t)].

Definition state_value (h : log_head) (ts : list target_state) : jval :=
  JObj [("protocol", JStr "truyn-revocation-state-v2"); ("version", JNum (JInt TRANSPARENCY_LOG_VERSION));
        ("logId", JStr (h_logId h)); ("sourceOwnerId", JStr (h_sourceOwnerId h)); ("sequence", h_sequence h);
        ("headHash", h_headHash h); ("stateDigest", JStr (h_revocationStateDigest h));
        ("relevant", JArr (map target_value ts))].

Context `{Coercions}.

Lemma target_status_revoked rs t :
  t_revoked (target_status rs t) = existsb (λ r, eq_str (oprop r "targetId") t) rs.
Proof.
  unfold target_status. destruct (last _) as [m|] eqn:Hl; cbn [t_revoked]; symmetry.
  - apply last_Some_elem_of, list_elem_of_In, filter_In in Hl. apply existsb_exists. by exists m.
  - apply last_None in Hl. apply not_true_iff_false. intros (r & Hin & Hr)%existsb_exists.
    assert (In r []) as []. rewrite <- Hl. by apply filter_In.
Qed.

Lemma revocations_status es rs t :
  revocations es = Ok rs →
  existsb (λ r, eq_str (oprop r "targetId") t) rs =
  existsb (λ e, is_revoke e && eq_str (oprop e "targetId") t) es.
Proof.
  intros Hrs. assert (Hp : rs ≡ₚ map revocation_of (List.filter is_revoke es)).
  { revert Hrs. unfold revocations. case_bool_decide; [by intros <-%Ok_inj|].
    destruct (forallb _ _); [|done]. intros <-%Ok_inj. apply sort_by_perm. }
  apply eq_true_iff_eq. rewrite !existsb_exists. split.
  - intros (r & Hin & Hr). apply list_elem_of_In in Hin. rewrite Hp in Hin.
    apply list_elem_of_In, in_map_iff in Hin as (e & <- & [Hin He]%filter_In). exists e. by rewrite He.
  - intros (e & Hin & [He Ht]%andb_prop). exists (revocation_of e). split; [|done].
    apply list_elem_of_In. rewrite Hp. apply list_elem_of_In, in_map, filter_In. done.
Qed.

(** The state a log reports for a target is the log's. *)
Lemma reported_state l targets h ts t :
  revocationState targets l = Ok (h, ts) → t ∈ targets →
  ∃ m, relevant_map (state_value h ts) = Ok m ∧ revoked_in m (JStr t) = isRevoked t l.
Proof.
  unfold revocationState. intros (h' & _ & Hr)%bind_Ok_inv Ht. apply bind_Ok_inv in Hr as (rs & Hrs & Hr%Ok_inj).
  injection Hr as -> <-.
  assert (Hm : ∀ ks, relevant_map (state_value h (map (target_status rs) ks)) =
                     Ok (map (λ k, (JStr k, target_value (target_status rs k))) ks)).
  { intros ks. unfold relevant_map. change (js_or _ _) with (JArr (map target_value (map (target_status rs) ks))).
    cbv iota. induction ks as [|k ks IH]; [done|]. cbn [map result_map]. rewrite IH.
    change (get (target_value (target_status rs k)) "targetId") with (Ok (JStr (t_targetId (target_status rs k)))).
    assert (t_targetId (target_status rs k) = k) as -> by (unfold target_status; by destruct (last _)). done. }
  eexists. split; [apply Hm|]. unfold revoked_in, last_entry.
  set (ks := sort_strings (uniq targets)). assert (Hk : t ∈ ks)
    by (unfold ks, sort_strings; by rewrite elem_of_sort_by, elem_of_uniq).
  assert (Hst : truthy (oprop (target_value (target_status rs t)) "revoked") = isRevoked t l).
  { change (t_revoked (target_status rs t) = isRevoked t l). by rewrite target_status_revoked, (revocations_status _ _ _ Hrs). }
  destruct (last _) as [p|] eqn:Hl; cbn [fmap option_fmap option_map].
  - apply last_Some_elem_of, list_elem_of_In, filter_In in Hl as [Hin Hp].
    apply in_map_iff in Hin as (k & <- & _). cbn [fst snd] in *. unfold same_key in Hp. rewrite orb_false_r in Hp.
    apply bool_decide_eq_true in Hp as ->. exact Hst.
  - exfalso. apply last_None in Hl. assert (In (JStr t, target_value (target_status rs t)) []) as [].
    rewrite <- Hl. apply filter_In. split.
    + apply in_map_iff. exists t. split; [done|by apply list_elem_of_In].
    + unfold same_key. cbn. by rewrite bool_decide_true.
Qed.

Lemma check_current_revocation x receipt :
  check_current x receipt = Ok tt → truthy (x_revocationState x) = true →
  ∃ m, relevant_map (x_revocationState x) = Ok m ∧
    revoked_in m (oprop (oprop (oprop receipt "authorityChain") "delegation") "delegationId") = false ∧
    revoked_in m (oprop (oprop receipt "payload") "claimId") = false ∧
    differs (x_revocationState x) (oprop (oprop receipt "payload") "revocationState")
      ["logId"; "sequence"; "headHash"; "stateDigest"] = false.
Proof.
  unfold check_current. cbv zeta. intros ([] & _ & Hc)%bind_Ok_inv Ht. rewrite Ht in Hc.
  apply bind_Ok_inv in Hc as ([] & Hd & Hc). apply bind_Ok_inv in Hc as (m & Hm & Hc).
  apply bind_Ok_inv in Hc as ([] & H1 & H2). rewrite throw_if_Ok in H1, H2, Hd. by exists m.
Qed.

(** An accepted receipt stands on the log.  When a receipt is accepted
    against the current revocation state of a transparency log, queried for its
    delegation and its claim, then neither is revoked in that log, the receipt
    commits to that log's very head and revocation digest, and its verifier
    holds a delegation accepted at the time of the check. *)
Theorem accepted_receipt_unrevoked now expected l targets h ts receipt did cid :
  revocationState targets l = Ok (h, ts) → did ∈ targets → cid ∈ targets →
  oprop (oprop (oprop receipt "authorityChain") "delegation") "delegationId" = JStr did →
  oprop (oprop receipt "payload") "claimId" = JStr cid →
  verifyTrustReceiptV2 now
    {| x_claimId := expected; x_lifecycleHead := JNull; x_revocationState := state_value h ts |} receipt = Accepted →
  isRevoked did l = false ∧ isRevoked cid l = false ∧
  differs (state_value h ts) (oprop (oprop receipt "payload") "revocationState")
    ["logId"; "sequence"; "headHash"; "stateDigest"] = false ∧
  verifyDelegationCertificate now (Some "trust.verify")
    (oprop (oprop receipt "authorityChain") "ownerCertificate")
    (oprop (oprop receipt "authorityChain") "delegation") = Accepted ∧
  oprop (oprop (oprop (oprop receipt "authorityChain") "delegation") "body") "delegateNodeId" =
    oprop receipt "verifierNodeId".
Proof.
  intros Hs Hdid Hcid Hd Hc Hok%to_verdict_Accepted. unfold check_receipt_v2 in Hok. cbv zeta in Hok.
  do 3 apply bind_Ok_inv in Hok as ([] & _ & Hok). apply bind_Ok_inv in Hok as (nodeId & _ & Hok).
  apply bind_Ok_inv in Hok as ([] & Hn & Hok). apply bind_Ok_inv in Hok as ([] & Ha & Hok).
  apply bind_Ok_inv in Hok as (id & _ & Hok). apply bind_Ok_inv in Hok as ([] & _ & Hok).
  apply bind_Ok_inv in Hok as (ok & _ & Hok). apply bind_Ok_inv in Hok as ([] & _ & Hok).
  apply check_current_revocation in Hok as (m & Hm & H1 & H2 & Hdiff); [|done]. cbn [x_revocationState] in Hm, Hdiff.
  destruct (reported_state _ _ _ _ did Hs Hdid) as (m1 & Hm1 & Hr1).
  destruct (reported_state _ _ _ _ cid Hs Hcid) as (m2 & Hm2 & Hr2).
  rewrite Hm in Hm1, Hm2. apply Ok_inj in Hm1 as <-. apply Ok_inj in Hm2 as <-.
  unfold check_authority in Ha. cbv zeta in Ha. apply bind_Ok_inv in Ha as (d & _ & Ha).
  do 2 apply bind_Ok_inv in Ha as ([] & _ & Ha). apply bind_Ok_inv in Ha as ([] & Hdel & Ha).
  apply bind_Ok_inv in Ha as ([] & Hnode & _). rewrite throw_if_Ok, negb_false_iff in Hnode, Hn.
  apply eq_str_true in Hn. rewrite Hn in *. apply strict_eq_string in Hnode.
  split_and!; [congruence..|done|by apply demand_Ok in Hdel|done].
Qed.

End receipts.

(** ** On the toy platform *)

#[local] Existing Instance toy_coercions.

Definition toy_owner : string := string_or_empty (oprop (oprop (JObj toy_certificate) "body") "sourceOwnerId").
Definition toy_did : string := string_or_empty (oprop (JObj toy_delegation) "delegationId").
Definition toy_cid : string := string_or_empty (oprop (JObj toy_claim) "claimId").

(** A log of the toy owner that revoked something else. *)
Definition toy_owner_log : log := Eval vm_compute in
  match open_log (H := Toy.host) toy_owner [] [] with
  | Ok (l, _) => (append (H := Toy.host) toy_author (JStr "REVOKE") (JStr "another") JUndef
                    "2026-10-13T12:30:00.000Z" l).1
  | Throw _ => MkLog "" "" [] [] []
  end.

Definition toy_state : log_head * list target_state := Eval vm_compute in
  ok_or (LogHead "" "" JNull JNull "", []) (revocationState (H := Toy.host) [toy_cid; toy_did] toy_owner_log).

Definition toy_request : receipt_request := {|
  q_identity := toy_author; q_claim := JObj toy_claim; q_attestations := [JObj toy_attestation];
  q_retrievalProvenance := JNull; q_policy := toy_policy; q_ownerCertificate := JObj toy_certificate;
  q_delegation := JObj toy_delegation; q_lifecycleHead := head_value toy_state.1;
  q_revocationState := state_value toy_state.1 toy_state.2; q_createdAt := JNum (JInt 3000)
|}.

Definition toy_receipt : list (string * jval) := Eval vm_compute in
  ok_or [] (createTrustReceiptV2 (H := Toy.host) 3000 toy_request).

Lemma accepted_receipt_unrevoked_witness :
  length (entries toy_owner_log) = 1 ∧ isRevoked toy_did toy_owner_log = false.
Proof.
  assert (Hs : revocationState (H := Toy.host) [toy_cid; toy_did] toy_owner_log = Ok (toy_state.1, toy_state.2))
    by (vm_compute; reflexivity).
  assert (Hok : verifyTrustReceiptV2 (H := Toy.host) 4000
                  {| x_claimId := JStr toy_cid; x_lifecycleHead := JNull;
                     x_revocationState := state_value toy_state.1 toy_state.2 |} (JObj toy_receipt) = Accepted)
    by (vm_compute; reflexivity).
  split; [reflexivity|].
  apply (accepted_receipt_unrevoked (H := Toy.host) 4000 (JStr toy_cid) toy_owner_log [toy_cid; toy_did]
           toy_state.1 toy_state.2 (JObj toy_receipt) toy_did toy_cid Hs).
  - apply list_elem_of_In. right. by left.
  - apply list_elem_of_In. by left.
  - reflexivity.
  - reflexivity.
  - exact Hok.
Defined.

End Receipts.
