(* ===== verification/Lifecycle.v ===== *)
(** * The active trust lifecycle

    Models core/trust/lifecycle.js: lineage certificates, the signed lifecycle
    objects (revocations, challenges, verifications, disputes) with their
    construction and verification, and the active assessment of a claim, which
    counts fresh, certified and unrevoked attestations only.  [now] is the
    clock of the call. *)
From S2P Require Import Prelude JSMap JSValue Dates Host Text Protocol Claims Provenance Evidence Pki.

Module Lifecycle.
Import Text Canonical Keys Claims Evidence Pki.

Definition TRUST_LIFECYCLE_VERSION : Z := 1.
Definition LINEAGE_CERT_PROTOCOL : string := "truyn-lineage-cert-v1".
Definition TRUST_REVOCATION_PROTOCOL : string := "truyn-trust-revoke-v1".
Definition CHALLENGE_PROTOCOL : string := "truyn-challenge-v1".
Definition VERIFY_PROTOCOL : string := "truyn-verify-v1".
Definition DISPUTE_PROTOCOL : string := "truyn-dispute-v1".

Section lifecycle.
Context `{Host}.

Definition sourceLineageCommitment (sourceId : jval) : result string :=
  digest (JObj [("sourceId", JStr (trim (nfkc (to_string sourceId))))]).

Definition lineage_commitments (value : jval) : result jval :=
  ds ← result_map (λ s, sourceLineageCommitment (JStr s)) (normalizeStringList value 64);
  Ok (string_list ds).

(** ** Signed objects *)

(** What tells the kinds of lifecycle object apart. *)
Record object_kind := { k_prefix : string; k_protocol : string; k_at : string }.

Definition object_id (kind : object_kind) (body signer : jval) : result string :=
  content_id ("truyn:" +:+ k_prefix kind +:+ ":") (JObj [("body", body); ("signerNodeId", signer)]).

Definition signed_object (kind : object_kind) (objectId body signer at_ : jval) : list (string * jval) :=
  [("objectId", objectId); ("body", body); ("signerNodeId", signer); (k_at kind, at_)].

Definition signObject (kind : object_kind) (identity : jval) (body : list (string * jval)) (atValue : jval)
    : result (list (string * jval)) :=
  nodeId ← requiredIdentity identity (k_prefix kind);
  let normalized := JObj ([("protocol", JStr (k_protocol kind)); ("version", JNum (JInt TRUST_LIFECYCLE_VERSION))] ++ body) in
  objectId ← object_id kind normalized (JStr nodeId);
  at_ ← iso atValue (k_at kind);
  let signed := signed_object kind (JStr objectId) normalized (JStr nodeId) (JStr at_) in
  signature ← signValue (JObj signed) (string_or_empty (oprop identity "privateKeyPem"));
  Ok (signed ++ [("publicKey", oprop identity "publicKeyPem"); ("signature", JStr signature)]).

Definition check_object (kind : object_kind) (object : jval) : result unit :=
  let refuse reason := error (k_prefix kind +:+ reason) in
  _ ← throw_if (missing object ["objectId"; "body"; "signerNodeId"; k_at kind; "publicKey"; "signature"])
        (refuse "_missing_required_field");
  let body := oprop object "body" in
  _ ← throw_if (negb (eq_str (oprop body "protocol") (k_protocol kind)) ||
                negb (eq_int (oprop body "version") TRUST_LIFECYCLE_VERSION))
        (refuse "_protocol_mismatch");
  nodeId ← nodeIdFromPublicKey (oprop object "publicKey");
  _ ← throw_if (negb (eq_str (oprop object "signerNodeId") nodeId)) (refuse "_signer_key_mismatch");
  expectedId ← object_id kind body (oprop object "signerNodeId");
  _ ← throw_if (negb (eq_str (oprop object "objectId") expectedId)) (refuse "_content_id_mismatch");
  ok ← verifyValue (JObj (signed_object kind (oprop object "objectId") body (oprop object "signerNodeId")
                            (oprop object (k_at kind))))
         (oprop object "signature") (oprop object "publicKey");
  throw_if (negb ok) (refuse "_signature_invalid").

Definition verifyObject (kind : object_kind) (object : jval) : verdict := to_verdict (check_object kind object).

Definition revocation_kind : object_kind :=
  {| k_prefix := "trust-revoke"; k_protocol := TRUST_REVOCATION_PROTOCOL; k_at := "revokedAt" |}.
Definition challenge_kind : object_kind :=
  {| k_prefix := "challenge"; k_protocol := CHALLENGE_PROTOCOL; k_at := "createdAt" |}.
Definition verification_kind : object_kind :=
  {| k_prefix := "verify"; k_protocol := VERIFY_PROTOCOL; k_at := "createdAt" |}.
Definition dispute_kind : object_kind :=
  {| k_prefix := "dispute"; k_protocol := DISPUTE_PROTOCOL; k_at := "createdAt" |}.

(** The expected subject of an object, if one is given. *)
Definition about_subject (v : verdict) (actual expected : jval) (reason : string) : verdict :=
  match v with
  | Rejected r => Rejected r
  | Accepted => if truthy expected && negb (strict_eq actual expected) then Rejected reason else Accepted
  end.

Definition blank (v : jval) : bool := match v with JStr s => negb (nonempty_str (trim s)) | _ => true end.

(** *** Revocations *)

Definition createTrustRevocation (now : Z) (args : jval) : result (list (string * jval)) :=
  let targetType := oprop args "targetType" in
  let targetId := oprop args "targetId" in
  _ ← throw_if (negb (Envelope.includes ["claim"; "attestation"; "lineage-certificate"; "verification"] targetType))
        (error "trust revocation targetType is invalid");
  _ ← throw_if (blank targetId) (error "trust revocation targetId is required");
  signObject revocation_kind (oprop args "identity")
    [("targetType", targetType); ("targetId", JStr (trim (string_or_empty targetId)));
     ("reasonDigest", trimmed_or_null (oprop args "reasonDigest"))]
    (with_default (oprop args "revokedAt") (JStr (toISOString now))).

Definition verifyTrustRevocation (revocation : jval) : verdict := verifyObject revocation_kind revocation.

(** *** Challenges *)

Definition createChallenge (now : Z) (args : jval) : result (list (string * jval)) :=
  let claim := oprop args "claim" in
  _ ← demand "cannot challenge invalid claim: " (verifyClaim claim);
  deadline ← (if nullish (oprop args "deadlineAt") then Ok JNull
              else JStr <$> iso (oprop args "deadlineAt") "deadlineAt");
  let reason := to_string (js_or (with_default (oprop args "reason") (JStr "active-verification"))
                             (JStr "active-verification")) in
  signObject challenge_kind (oprop args "identity")
    [("claimId", oprop claim "claimId"); ("domain", oprop (oprop claim "body") "domain");
     ("methods", string_list (normalizeStringList
                   (with_default (oprop args "methods") (JArr [JStr "independent-review"])) 16));
     ("reason", JStr (str_take 512 (trim (nfkc reason)))); ("deadlineAt", deadline)]
    (with_default (oprop args "createdAt") (JStr (toISOString now))).

Definition verifyChallenge (expectedClaimId challenge : jval) : verdict :=
  about_subject (verifyObject challenge_kind challenge) (oprop (oprop challenge "body") "claimId") expectedClaimId
    "challenge_claim_mismatch".

(** *** Verifications *)

Definition createVerification (now : Z) (args : jval) : result (list (string * jval)) :=
  let challenge := oprop args "challenge" in
  let attestation := oprop args "attestation" in
  _ ← demand "cannot verify invalid challenge: " (verifyChallenge JNull challenge);
  _ ← demand "cannot use invalid attestation: "
        (verifyAttestation (oprop (oprop challenge "body") "claimId") attestation);
  _ ← throw_if (negb (strict_eq (oprop (oprop args "identity") "nodeId") (oprop attestation "attesterNodeId")))
        (error "verification signer must be the attestation signer");
  signObject verification_kind (oprop args "identity")
    [("challengeId", oprop challenge "objectId"); ("claimId", oprop (oprop challenge "body") "claimId");
     ("attestationId", oprop attestation "attestationId");
     ("verdict", oprop (oprop attestation "body") "verdict")]
    (with_default (oprop args "createdAt") (JStr (toISOString now))).

Definition verifyVerification (expectedChallengeId verification : jval) : verdict :=
  about_subject (verifyObject verification_kind verification)
    (oprop (oprop verification "body") "challengeId") expectedChallengeId "verification_challenge_mismatch".

(** *** Disputes *)

Definition createDispute (now : Z) (args : jval) : result (list (string * jval)) :=
  let claim := oprop args "claim" in
  let grounds := oprop args "groundsDigest" in
  _ ← demand "cannot dispute invalid claim: " (verifyClaim claim);
  _ ← throw_if (blank grounds) (error "dispute groundsDigest is required");
  signObject dispute_kind (oprop args "identity")
    [("claimId", oprop claim "claimId");
     ("targetAttestationIds", string_list (normalizeStringList (oprop args "targetAttestationIds") 64));
     ("groundsDigest", JStr (trim (string_or_empty grounds)));
     ("evidenceCommitments", string_list (normalizeStringList (oprop args "evidenceCommitments") 64))]
    (with_default (oprop args "createdAt") (JStr (toISOString now))).

Definition verifyDispute (expectedClaimId dispute : jval) : verdict :=
  about_subject (verifyObject dispute_kind dispute) (oprop (oprop dispute "body") "claimId") expectedClaimId
    "dispute_claim_mismatch".

(** ** Lineage certificates *)

Definition createLineageCertificate (now : Z) (args : jval) : result (list (string * jval)) :=
  let identity := oprop args "identity" in
  let sourceId := oprop args "sourceId" in
  let lineage := with_default (oprop args "lineage") (JObj []) in
  nodeId ← requiredIdentity identity "lineage certificate";
  _ ← throw_if (blank sourceId) (error "lineage sourceId is required");
  issued ← iso (with_default (oprop args "issuedAt") (JStr (toISOString now))) "issuedAt";
  expires ← iso (with_default (oprop args "expiresAt") (JStr (toISOString (now + 86400000)))) "expiresAt";
  _ ← throw_if (bool_decide (window (Date_parse issued) (Date_parse expires) = None))
        (error "lineage certificate expiresAt must be after issuedAt");
  source ← sourceLineageCommitment sourceId;
  originIds ← get lineage "originIds";
  origins ← lineage_commitments originIds;
  publishers ← lineage_commitments (oprop lineage "publisherIds");
  generators ← lineage_commitments (oprop lineage "generatorIds");
  let body := JObj [("protocol", JStr LINEAGE_CERT_PROTOCOL); ("version", JNum (JInt TRUST_LIFECYCLE_VERSION));
                    ("sourceCommitment", JStr source); ("ownerNodeId", JStr nodeId);
                    ("originCommitments", origins); ("publisherCommitments", publishers);
                    ("generatorCommitments", generators);
                    ("parentCertificateIds", string_list (normalizeStringList (oprop args "parentCertificateIds") 64))] in
  certificateId ← content_id "truyn:lineage:" body;
  let signed := signed_certificate (JStr certificateId) body (JStr issued) (JStr expires) in
  signature ← signValue (JObj signed) (string_or_empty (oprop identity "privateKeyPem"));
  Ok (signed ++ [("publicKey", oprop identity "publicKeyPem"); ("signature", JStr signature)]).

Definition check_lineage (now : Z) (allowExpired : bool) (certificate : jval) : result unit :=
  _ ← throw_if (missing certificate ["certificateId"; "body"; "issuedAt"; "expiresAt"; "publicKey"; "signature"])
        (error "lineage_certificate_missing_required_field");
  let body := oprop certificate "body" in
  _ ← throw_if (negb (eq_str (oprop body "protocol") LINEAGE_CERT_PROTOCOL) ||
                negb (eq_int (oprop body "version") TRUST_LIFECYCLE_VERSION))
        (error "lineage_certificate_protocol_mismatch");
  nodeId ← nodeIdFromPublicKey (oprop certificate "publicKey");
  _ ← throw_if (negb (eq_str (oprop body "ownerNodeId") nodeId)) (error "lineage_certificate_owner_key_mismatch");
  expectedId ← content_id "truyn:lineage:" body;
  _ ← throw_if (negb (eq_str (oprop certificate "certificateId") expectedId))
        (error "lineage_certificate_content_id_mismatch");
  _ ← match window (js_date (oprop certificate "issuedAt")) (js_date (oprop certificate "expiresAt")) with
      | Some (_, expires) => throw_if (negb allowExpired && bool_decide (expires ≤ now)%Z)
                               (error "lineage_certificate_expired")
      | None => Throw (error "lineage_certificate_time_invalid")
      end;
  ok ← verifyValue (JObj (signed_certificate (oprop certificate "certificateId") body
                            (oprop certificate "issuedAt") (oprop certificate "expiresAt")))
         (oprop certificate "signature") (oprop certificate "publicKey");
  throw_if (negb ok) (error "lineage_certificate_signature_invalid").

Definition verifyLineageCertificate (now : Z) (allowExpired : bool) (certificate : jval) : verdict :=
  to_verdict (check_lineage now allowExpired certificate).

(** ** The active assessment *)

Definition accepted (v : verdict) : bool := match v with Accepted => true | Rejected _ => false end.

Definition revokes (targetType : string) (targetId issuerNodeId : jval) (item : jval) : bool :=
  accepted (verifyTrustRevocation item) &&
  (eq_str (oprop (oprop item "body") "targetType") targetType &&
   strict_eq (oprop (oprop item "body") "targetId") targetId &&
   strict_eq (oprop item "signerNodeId") issuerNodeId).

Definition revokedByIssuer (targetType : string) (targetId issuerNodeId : jval) (revocations : list jval) : bool :=
  existsb (revokes targetType targetId issuerNodeId) revocations.

(** The entries set on the map, in order. *)
Definition certificateIndex (certificates revocations : list jval) (now : Z) : list (jval * jval) :=
  map (λ c, (oprop (oprop c "body") "sourceCommitment", c))
    (List.filter (λ c, accepted (verifyLineageCertificate now false c) &&
                       negb (revokedByIssuer "lineage-certificate" (oprop c "certificateId")
                               (oprop (oprop c "body") "ownerNodeId") revocations)) certificates).

Definition certificate_of (certs : list (jval * jval)) (evidence : jval) : result (option jval) :=
  sourceId ← get evidence "sourceId";
  c ← sourceLineageCommitment sourceId;
  Ok (last_entry certs (JStr c)).

Definition source_certificates (certs : list (jval * jval)) (evidence : list jval) : result (list jval) :=
  found ← result_map (certificate_of certs) evidence;
  Ok (flat_map (λ c, match c with Some c => [c] | None => [] end) found).

(** The loop over the identifiers of one dimension: the identifiers counted, or
    [None] at the first that is not certified. *)
Fixpoint certified_ids (commitments : list jval) (ids : list string) : result (option nat) :=
  match ids with
  | [] => Ok (Some 0)
  | id :: ids =>
      c ← sourceLineageCommitment (JStr id);
      if negb (set_has commitments (JStr c)) then Ok None
      else n ← certified_ids commitments ids; Ok (option_map S n)
  end.

Definition commitments_of (certs : list jval) (field : string) : list jval :=
  flat_map (λ c, spread (oprop (oprop c "body") field)) certs.

Fixpoint certified_dimensions (certs : list jval) (declared : jval) (dimensions : list (string * string))
    : result (option nat) :=
  match dimensions with
  | [] => Ok (Some 0)
  | (ids, field) :: dimensions =>
      n ← certified_ids (commitments_of certs field) (normalizeStringList (oprop declared ids) 64);
      match n with
      | None => Ok None
      | Some n => m ← certified_dimensions certs declared dimensions; Ok (option_map (Nat.add n) m)
      end
  end.

Definition declaredLineageIsCertified (certs : list (jval * jval)) (attestation : jval) : result bool :=
  let body := oprop attestation "body" in
  sourceCerts ← source_certificates certs (elements_of (js_or (oprop body "evidence") (JArr [])));
  if bool_decide (sourceCerts = []) then Ok false
  else
    n ← certified_dimensions sourceCerts (js_or (oprop body "lineage") (JObj []))
          [("originIds", "originCommitments"); ("publisherIds", "publisherCommitments");
           ("generatorIds", "generatorCommitments")];
    Ok (match n with Some n => bool_decide (0 < n) | None => false end).

Record trust_request := {
  r_claim : jval; r_attestations : list jval; r_lineageCertificates : list jval; r_revocations : list jval;
  r_disputes : list jval; r_authorizedDisputerNodeIds : list jval; r_retrievalProvenance : jval;
  r_policy : jval; r_now : Z; r_maxAttestationAgeMs : Z; r_maxFutureSkewMs : Z
}.

(** What the loop makes of one attestation. *)
Inductive fate := Ignored | Withdrawn | Stale | Uncertified | Active.

Definition fate_of (q : trust_request) (certs : list (jval * jval)) (a : jval) : result fate :=
  if negb (accepted (verifyAttestation (oprop (r_claim q) "claimId") a)) then Ok Ignored
  else if revokedByIssuer "attestation" (oprop a "attestationId") (oprop a "attesterNodeId") (r_revocations q)
  then Ok Withdrawn
  else match js_date (oprop a "createdAt") with
       | None => Ok Stale
       | Some created =>
           if bool_decide (r_maxAttestationAgeMs q < r_now q - created)%Z ||
              bool_decide (r_maxFutureSkewMs q < created - r_now q)%Z then Ok Stale
           else
             c ← declaredLineageIsCertified certs a;
             Ok (if c : bool then Active else Uncertified)
       end.

Record tally := Tally { t_active : list jval; t_stale : Z; t_revoked : Z; t_uncertified : Z }.

Definition count_fate (q : trust_request) (certs : list (jval * jval)) (t : tally) (a : jval) : result tally :=
  f ← fate_of q certs a;
  Ok match f with
     | Ignored => t
     | Withdrawn => Tally (t_active t) (t_stale t) (t_revoked t + 1) (t_uncertified t)
     | Stale => Tally (t_active t) (t_stale t + 1) (t_revoked t) (t_uncertified t)
     | Uncertified => Tally (t_active t) (t_stale t) (t_revoked t) (t_uncertified t + 1)
     | Active => Tally (t_active t ++ [a]) (t_stale t) (t_revoked t) (t_uncertified t)
     end.

Record active_assessment := ActiveAssessment {
  s_claimId : jval; s_lifecycleStatus : string; s_truthAssessment : jval; s_retrievalIntegrity : jval;
  s_activeAttestations : Z; s_staleAttestations : Z; s_revokedAttestations : Z; s_uncertifiedAttestations : Z;
  s_activeDisputes : Z; s_provenanceGraphDigest : jval
}.

(** [{ ...truthAssessment, status, reason }] *)
Definition with_status (truth : jval) (status reason : string) : jval :=
  match truth with
  | JObj kvs => JObj (set_key "reason" (JStr reason) (set_key "status" (JStr status) kvs))
  | _ => truth
  end.

Definition valid_disputes (q : trust_request) : list jval :=
  List.filter (λ d, accepted (verifyDispute (oprop (r_claim q) "claimId") d) &&
                    set_has (r_authorizedDisputerNodeIds q) (oprop d "signerNodeId")) (r_disputes q).

Definition lifecycle_decision (base : assessment) (disputes : nat) (t : tally) : string * jval :=
  let status := status_text (a_status base) in
  if bool_decide (0 < disputes) && negb (bool_decide (status = "retrieval_unverified")) then
    ("disputed", with_status (truth_value base) "disputed" "active_authorized_dispute_present")
  else if bool_decide (t_active t = []) &&
          (bool_decide (0 < t_stale t)%Z || bool_decide (0 < t_uncertified t)%Z || bool_decide (0 < t_revoked t)%Z)
  then ("stale_or_uncertified",
        with_status (truth_value base) "stale_or_uncertified" "no_fresh_certified_attestations")
  else (status, truth_value base).

Definition claim_revoked (q : trust_request) : bool :=
  revokedByIssuer "claim" (oprop (r_claim q) "claimId") (oprop (r_claim q) "issuedBy") (r_revocations q).

Definition assessActiveTrust (q : trust_request) : result active_assessment :=
  let claimId := oprop (r_claim q) "claimId" in
  _ ← demand "invalid claim: " (verifyClaim (r_claim q));
  if claim_revoked q then
    Ok (ActiveAssessment claimId "revoked"
          (JObj [("status", JStr "revoked"); ("reason", JStr "claim_revoked"); ("calibratedTruthProbability", JNull)])
          JUndef 0 0 (Z.of_nat (length (r_attestations q))) 0 0 JUndef)
  else
    let certs := certificateIndex (r_lineageCertificates q) (r_revocations q) (r_now q) in
    t ← result_fold (count_fate q certs) (r_attestations q) (Tally [] 0 0 0);
    base ← assessClaimEvidence (r_claim q) (t_active t) (r_retrievalProvenance q) (r_policy q);
    let disputes := length (valid_disputes q) in
    let '(status, truth) := lifecycle_decision base disputes t in
    Ok (ActiveAssessment claimId status truth (retrieval_value (a_retrieval base))
          (Z.of_nat (length (t_active t))) (t_stale t) (t_revoked t) (t_uncertified t) (Z.of_nat disputes)
          (oprop (a_graph base) "graphDigest")).

(** ** Signed objects verify *)

Definition known_kind (kind : object_kind) : Prop :=
  kind = revocation_kind ∨ kind = challenge_kind ∨ kind = verification_kind ∨ kind = dispute_kind.

Lemma content_id_truthy prefix body id : content_id prefix body = Ok id → prefix ≠ "" → truthy (JStr id) = true.
Proof.
  unfold content_id. intros (d & _ & <-%Ok_inj)%bind_Ok_inv Hp. apply nonempty_str_true. by destruct prefix.
Qed.

Lemma signObject_verifies kind identity body at_ o pub priv (HL : Base64Laws _) (HK : KeyPair _ pub priv) :
  known_kind kind →
  oprop identity "publicKeyPem" = JStr pub → oprop identity "privateKeyPem" = JStr priv →
  signObject kind identity body at_ = Ok o →
  verifyObject kind (JObj o) = Accepted ∧
  oprop (JObj o) "body" =
    JObj ([("protocol", JStr (k_protocol kind)); ("version", JNum (JInt TRUST_LIFECYCLE_VERSION))] ++ body).
Proof.
  intros Hkind Hpub Hpriv. unfold signObject. intros (nodeId & Hid & Ho)%bind_Ok_inv. cbv zeta in Ho.
  set (b := JObj ([_; _] ++ body)) in *. apply bind_Ok_inv in Ho as (oid & Hoid & Ho).
  apply bind_Ok_inv in Ho as (at' & Hat & Ho). apply bind_Ok_inv in Ho as (sig & Hsig & <-%Ok_inj).
  apply requiredIdentity_inv in Hid as (Htp & _ & Htn & Hn). rewrite Hpriv in Hsig. cbn [string_or_empty] in Hsig.
  rewrite Hpub in *. pose proof (signValue_nonempty pub priv HK HL _ _ Hsig) as Hne.
  set (ov := JObj (app (A := string * jval) _ _)).
  assert (Hf : oprop ov "objectId" = JStr oid ∧ oprop ov "body" = b ∧ oprop ov "signerNodeId" = JStr nodeId ∧
            oprop ov (k_at kind) = JStr at' ∧ oprop ov "publicKey" = JStr pub ∧ oprop ov "signature" = JStr sig)
    by (by destruct Hkind as [Hk|[Hk|[Hk|Hk] ] ]; subst kind).
  destruct Hf as (F1 & F2 & F3 & F4 & F5 & F6). split; [|done].
  assert (Htat : truthy (JStr at') = true).
  { apply iso_parses in Hat as [z ->]. apply nonempty_str_true. apply toISOString_nonempty. }
  assert (Htid : truthy (JStr oid) = true) by (by eapply content_id_truthy).
  unfold verifyObject. enough (check_object kind ov = Ok tt) as -> by done. unfold check_object. cbv zeta.
  rewrite F1, F2, F3, F4, F5, F6. rewrite (bind_step _ _ tt).
  2:{ apply throw_if_Ok. unfold missing. cbn [existsb]. rewrite F1, F2, F3, F4, F5, F6, Htp, Htn, Htat, Htid.
      cbn [truthy]. by rewrite (proj2 (nonempty_str_true sig) Hne). }
  rewrite (bind_step _ _ tt).
  2:{ apply throw_if_Ok. change (oprop b "protocol") with (JStr (k_protocol kind)). by rewrite eq_str_refl. }
  rewrite (bind_step _ _ _ Hn), eq_str_refl, (bind_step _ _ tt) by done.
  rewrite (bind_step _ _ _ Hoid), eq_str_refl, (bind_step _ _ tt) by done.
  by rewrite (bind_step _ _ true (verifyValue_signValue pub priv _ sig HK HL Hsig)).
Qed.

Lemma about_subject_same kind o body k v x reason :
  verifyObject kind o = Accepted →
  oprop o "body" = JObj body → oprop (JObj body) k = v → v = JStr x →
  about_subject (verifyObject kind o) (oprop (oprop o "body") k) v reason = Accepted.
Proof.
  intros Hv Hb Hk ->. rewrite Hv, Hb, Hk. unfold about_subject. cbn [strict_eq].
  by rewrite bool_decide_true, andb_false_r.
Qed.

(** Lifecycle objects verify.  A revocation, a challenge, a verification or
    a dispute built with a key pair is accepted by its verifier, a challenge and
    a dispute for the claim they were built for and a verification for its
    challenge. *)
Theorem lifecycle_objects_verify now args o pub priv (HL : Base64Laws _) (HK : KeyPair _ pub priv) :
  oprop (oprop args "identity") "publicKeyPem" = JStr pub →
  oprop (oprop args "identity") "privateKeyPem" = JStr priv →
  (createTrustRevocation now args = Ok o → verifyTrustRevocation (JObj o) = Accepted) ∧
  (createChallenge now args = Ok o → verifyChallenge (oprop (oprop args "claim") "claimId") (JObj o) = Accepted) ∧
  (createVerification now args = Ok o →
     verifyVerification (oprop (oprop args "challenge") "objectId") (JObj o) = Accepted) ∧
  (createDispute now args = Ok o → verifyDispute (oprop (oprop args "claim") "claimId") (JObj o) = Accepted).
Proof.
  intros Hpub Hpriv.
  assert (Hclaim : ∀ claim, verifyClaim claim = Accepted → ∃ c, oprop claim "claimId" = JStr c).
  { intros c Hc. apply verifyClaim_content in Hc as (? & _ & ->). eauto. }
  assert (Hobj : ∀ ch, verifyObject challenge_kind ch = Accepted → ∃ c, oprop ch "objectId" = JStr c).
  { intros ch Hc%to_verdict_Accepted. unfold check_object in Hc. cbv zeta in Hc.
    do 2 apply bind_Ok_inv in Hc as ([] & _ & Hc). apply bind_Ok_inv in Hc as (? & _ & Hc).
    apply bind_Ok_inv in Hc as ([] & _ & Hc). apply bind_Ok_inv in Hc as (i & _ & Hc).
    apply bind_Ok_inv in Hc as ([] & Hi & _). rewrite throw_if_Ok, negb_false_iff in Hi. apply eq_str_true in Hi. eauto. }
  split_and!.
  - unfold createTrustRevocation. cbv zeta. intros ([] & _ & Ho)%bind_Ok_inv. apply bind_Ok_inv in Ho as ([] & _ & Ho).
    destruct (signObject_verifies revocation_kind _ _ _ _ pub priv HL HK ltac:(by left) Hpub Hpriv Ho) as [Hv _]. exact Hv.
  - unfold createChallenge. cbv zeta. intros ([] & Hc & Ho)%bind_Ok_inv. apply demand_Ok in Hc.
    apply bind_Ok_inv in Ho as (d & _ & Ho). destruct (Hclaim _ Hc) as [c Hcid].
    destruct (signObject_verifies challenge_kind _ _ _ _ pub priv HL HK ltac:(by right; left) Hpub Hpriv Ho) as [Hv Hb].
    eapply about_subject_same; [exact Hv|exact Hb|reflexivity|exact Hcid].
  - unfold createVerification. cbv zeta. intros ([] & Hc & Ho)%bind_Ok_inv. apply demand_Ok in Hc.
    do 2 apply bind_Ok_inv in Ho as ([] & _ & Ho).
    assert (Hch : verifyObject challenge_kind (oprop args "challenge") = Accepted)
      by (unfold verifyChallenge, about_subject in Hc; by destruct (verifyObject _ _)).
    destruct (Hobj _ Hch) as [c Hcid].
    destruct (signObject_verifies verification_kind _ _ _ _ pub priv HL HK ltac:(by right; right; left) Hpub Hpriv Ho) as [Hv Hb].
    eapply about_subject_same; [exact Hv|exact Hb|reflexivity|exact Hcid].
  - unfold createDispute. cbv zeta. intros ([] & Hc & Ho)%bind_Ok_inv. apply demand_Ok in Hc.
    apply bind_Ok_inv in Ho as ([] & _ & Ho). destruct (Hclaim _ Hc) as [c Hcid].
    destruct (signObject_verifies dispute_kind _ _ _ _ pub priv HL HK ltac:(by right; right; right) Hpub Hpriv Ho) as [Hv Hb].
    eapply about_subject_same; [exact Hv|exact Hb|reflexivity|exact Hcid].
Qed.

(** ** The active assessment *)

Definition verified_attestation (q : trust_request) (a : jval) : bool :=
  accepted (verifyAttestation (oprop (r_claim q) "claimId") a).

Definition tally_size (t : tally) : Z :=
  (Z.of_nat (length (t_active t)) + t_stale t + t_revoked t + t_uncertified t)%Z.

Lemma fate_of_ignored q certs a f :
  fate_of q certs a = Ok f → f = Ignored ↔ verified_attestation q a = false.
Proof.
  unfold fate_of, verified_attestation. destruct (accepted _); cbn [negb]; [|by intros <-%Ok_inj].
  intros Hf. split; [|done]. intros ->. revert Hf. destruct (revokedByIssuer _ _ _ _); [done|].
  destruct (js_date _) as [c|]; [|done]. destruct (_ || _); [done|].
  intros (b & _ & Hb%Ok_inj)%bind_Ok_inv. by destruct b.
Qed.

(** The loop files every verified attestation in exactly one place. *)
Lemma tally_accounts q certs l t0 t :
  result_fold (count_fate q certs) l t0 = Ok t →
  (∃ act, t_active t = t_active t0 ++ act ∧ ∀ a, a ∈ act ↔ a ∈ l ∧ fate_of q certs a = Ok Active) ∧
  tally_size t = (tally_size t0 + Z.of_nat (length (List.filter (verified_attestation q) l)))%Z ∧
  (t_stale t0 ≤ t_stale t ∧ t_revoked t0 ≤ t_revoked t ∧ t_uncertified t0 ≤ t_uncertified t)%Z.
Proof.
  revert t0. induction l as [|a l IH]; intros t0; cbn [result_fold].
  - intros <-%Ok_inj. split; [exists []; rewrite app_nil_r; split; [done|set_solver]|]. split; [cbn; lia|lia].
  - intros (t1 & H1 & Hl)%bind_Ok_inv. destruct (IH _ Hl) as ((act & Hact & Hin) & Hsize & Hmono). clear IH Hl.
    unfold count_fate in H1. apply bind_Ok_inv in H1 as (f & Hf & H1%Ok_inj).
    pose proof (fate_of_ignored _ _ _ _ Hf) as Hign. cbn [List.filter].
    destruct (verified_attestation q a); [assert (f ≠ Ignored) as Hni by (by intros Hi%Hign)
                                         |pose proof (proj2 Hign eq_refl); subst f]; clear Hign.
    1: destruct f; try done.
    all: subst t1; unfold tally_size in *;
      cbn [t_active t_stale t_revoked t_uncertified length] in *.
    all: (split; [|rewrite ?length_app in *; cbn [length] in *; split_and!; lia]).
    1-3,5: exists act; split; [done|]; intros x; rewrite Hin, elem_of_cons; split; [tauto|];
        intros [[->|?] ?]; [congruence|tauto].
    exists (a :: act). split; [by rewrite Hact, <- app_assoc|].
    intros x. rewrite !elem_of_cons, Hin. split; [intros [->|[? ?]]; auto|intros [[->|?] ?]; auto].
Qed.

(** A tally of a run started empty. *)
Lemma tally_run q certs l t :
  result_fold (count_fate q certs) l (Tally [] 0 0 0) = Ok t →
  (∀ a, a ∈ t_active t ↔ a ∈ l ∧ fate_of q certs a = Ok Active) ∧
  tally_size t = Z.of_nat (length (List.filter (verified_attestation q) l)) ∧
  (0 ≤ t_stale t ∧ 0 ≤ t_revoked t ∧ 0 ≤ t_uncertified t)%Z.
Proof.
  intros Ht. destruct (tally_accounts _ _ _ _ _ Ht) as ((act & Hact & Hin) & Hs & Hm). cbn in Hact, Hs, Hm.
  change (tally_size (Tally [] 0 0 0)) with 0%Z in Hs. rewrite Hact. split; [done|]. split; [lia|lia].
Qed.

(** What an attestation that counts has gone through. *)
Lemma fate_active q certs a :
  fate_of q certs a = Ok Active →
  verified_attestation q a = true ∧
  revokedByIssuer "attestation" (oprop a "attestationId") (oprop a "attesterNodeId") (r_revocations q) = false ∧
  (∃ created, js_date (oprop a "createdAt") = Some created ∧
     (r_now q - r_maxAttestationAgeMs q ≤ created ≤ r_now q + r_maxFutureSkewMs q)%Z) ∧
  declaredLineageIsCertified certs a = Ok true.
Proof.
  unfold fate_of, verified_attestation. destruct (accepted _); cbn [negb]; [|done].
  destruct (revokedByIssuer _ _ _ _); [done|]. destruct (js_date _) as [c|]; [|done].
  destruct (_ || _) eqn:Hb; [done|]. bool_hyps. intros (b & Hd & Hb%Ok_inj)%bind_Ok_inv. destruct b; [|done].
  split; [done|]. split; [done|]. split; [|done]. exists c. split; [done|lia].
Qed.

(** The status of a claim that is not revoked. *)
Lemma lifecycle_verified base n t :
  (lifecycle_decision base n t).1 = "verified" → a_status base = Verified ∧ n = 0 ∧
  (t_active t = [] → ¬ (0 < t_stale t)%Z ∧ ¬ (0 < t_uncertified t)%Z ∧ ¬ (0 < t_revoked t)%Z).
Proof.
  unfold lifecycle_decision. destruct (bool_decide (0 < n) && _) eqn:Hd; [done|].
  destruct (bool_decide (t_active t = []) && _) eqn:Hs; [done|]. cbn [fst]. intros Hv.
  assert (a_status base = Verified) as Hst by (by destruct (a_status base)). split; [done|].
  rewrite Hst in Hd. cbn in Hd. rewrite andb_true_r in Hd. apply bool_decide_eq_false in Hd. split; [lia|].
  intros He. rewrite (bool_decide_true _ He) in Hs. cbn [andb] in Hs. bool_hyps. done.
Qed.

(** An actively verified claim stands on fresh, certified, unrevoked
    evidence.  Whenever the assessment of a claim that its issuer has not
    revoked succeeds, every verified attestation is counted exactly once as
    active, stale, revoked or uncertified; and if the outcome is "verified",
    there is no valid dispute by an authorised node, at least one attestation
    is active, and each active one verifies, is not revoked by its attester,
    was created within the age and skew bounds and declares only lineage that
    unexpired, unrevoked certificates certify. *)
Theorem actively_verified q r :
  assessActiveTrust q = Ok r → claim_revoked q = false →
  (s_activeAttestations r + s_staleAttestations r + s_revokedAttestations r + s_uncertifiedAttestations r =
     Z.of_nat (length (List.filter (verified_attestation q) (r_attestations q))))%Z ∧
  (s_lifecycleStatus r = "verified" →
     valid_disputes q = [] ∧
     ∃ active, s_activeAttestations r = Z.of_nat (length active) ∧ active ≠ [] ∧
       ∀ a, a ∈ active → a ∈ r_attestations q ∧ verified_attestation q a = true ∧
         revokedByIssuer "attestation" (oprop a "attestationId") (oprop a "attesterNodeId") (r_revocations q) = false ∧
         (∃ created, js_date (oprop a "createdAt") = Some created ∧
            (r_now q - r_maxAttestationAgeMs q ≤ created ≤ r_now q + r_maxFutureSkewMs q)%Z) ∧
         declaredLineageIsCertified (certificateIndex (r_lineageCertificates q) (r_revocations q) (r_now q)) a = Ok true).
Proof.
  unfold assessActiveTrust. cbv zeta. intros ([] & _ & Hr)%bind_Ok_inv Hc. rewrite Hc in Hr.
  apply bind_Ok_inv in Hr as (t & Ht & Hr). apply bind_Ok_inv in Hr as (base & Hbase & Hr).
  destruct (tally_run _ _ _ _ Ht) as (Hin & Hs & _).
  destruct (lifecycle_decision base _ t) as [st truth] eqn:Hd. apply Ok_inj in Hr as <-. cbn.
  split; [exact Hs|]. intros ->.
  assert (Hv : (lifecycle_decision base (length (valid_disputes q)) t).1 = "verified") by (by rewrite Hd).
  apply lifecycle_verified in Hv as (Hst & Hn & _). split; [by apply length_zero_iff_nil|].
  exists (t_active t). split; [done|]. apply assessed_verified in Hbase as (_ & Hiff).
  apply Hiff in Hst as (_ & Hne & _). split; [done|].
  intros a Ha. apply Hin in Ha as [Hal Hf]. split; [done|]. by apply fate_active in Hf.
Qed.

(** ** Revocations by others *)

(** A valid revocation signed by another node than the one named. *)
Definition foreign_to (issuer item : jval) : Prop :=
  verifyTrustRevocation item = Accepted → strict_eq (oprop item "signerNodeId") issuer = false.

Lemma foreign_revocations type id issuer rs extra :
  (∀ x, x ∈ extra → foreign_to issuer x) →
  revokedByIssuer type id issuer (rs ++ extra) = revokedByIssuer type id issuer rs.
Proof.
  intros Hf. unfold revokedByIssuer. rewrite existsb_app.
  assert (existsb (revokes type id issuer) extra = false) as ->; [|by rewrite orb_false_r].
  apply not_true_iff_false. intros (x & Hx & Hr)%existsb_exists. apply list_elem_of_In in Hx.
  unfold revokes in Hr. apply andb_prop in Hr as [Ha Hr]. apply andb_prop in Hr as [_ Hs].
  assert (verifyTrustRevocation x = Accepted) as Hacc by (by destruct (verifyTrustRevocation x)).
  rewrite (Hf x Hx Hacc) in Hs. done.
Qed.

Definition with_revocations (q : trust_request) (rs : list jval) : trust_request :=
  {| r_claim := r_claim q; r_attestations := r_attestations q; r_lineageCertificates := r_lineageCertificates q;
     r_revocations := rs; r_disputes := r_disputes q;
     r_authorizedDisputerNodeIds := r_authorizedDisputerNodeIds q;
     r_retrievalProvenance := r_retrievalProvenance q; r_policy := r_policy q; r_now := r_now q;
     r_maxAttestationAgeMs := r_maxAttestationAgeMs q; r_maxFutureSkewMs := r_maxFutureSkewMs q |}.

Lemma result_fold_ext {A S} (f g : S → A → result S) l s :
  (∀ s a, a ∈ l → f s a = g s a) → result_fold f l s = result_fold g l s.
Proof.
  revert s. induction l as [|a l IH]; intros s Hfg; [done|]. cbn [result_fold].
  rewrite (Hfg s a) by set_solver. destruct (g s a) as [s'|]; cbn; [|done]. apply IH. intros. apply Hfg. set_solver.
Qed.

(** Only issuers revoke.  Revocations that are invalid, or signed by nodes
    that issued neither the claim, nor one of the attestations, nor one of the
    certificates, change nothing in the assessment, whatever they target. *)
Theorem foreign_revocations_inert q extra :
  (∀ x issuer, x ∈ extra →
     issuer = oprop (r_claim q) "issuedBy" ∨
     (∃ a, a ∈ r_attestations q ∧ issuer = oprop a "attesterNodeId") ∨
     (∃ c, c ∈ r_lineageCertificates q ∧ issuer = oprop (oprop c "body") "ownerNodeId") →
     foreign_to issuer x) →
  assessActiveTrust (with_revocations q (r_revocations q ++ extra)) = assessActiveTrust q.
Proof.
  intros Hf. unfold assessActiveTrust.
  assert (Hclaim : claim_revoked (with_revocations q (r_revocations q ++ extra)) = claim_revoked q).
  { apply foreign_revocations. intros x Hx. apply (Hf x _ Hx). by left. }
  rewrite Hclaim. cbn [r_claim r_attestations r_lineageCertificates r_revocations r_now with_revocations
    r_retrievalProvenance r_policy].
  assert (Hcerts : certificateIndex (r_lineageCertificates q) (r_revocations q ++ extra) (r_now q) =
                   certificateIndex (r_lineageCertificates q) (r_revocations q) (r_now q)).
  { unfold certificateIndex. f_equal. apply filter_ext_in. intros c Hc. do 2 f_equal.
    apply foreign_revocations. intros x Hx. apply (Hf x _ Hx). right; right. exists c.
    split; [by apply list_elem_of_In|done]. }
  rewrite Hcerts. set (certs := certificateIndex _ _ _).
  rewrite (result_fold_ext (count_fate (with_revocations q (r_revocations q ++ extra)) certs) (count_fate q certs)); [done|].
  intros t a Ha. unfold count_fate, fate_of.
  cbn [r_claim r_revocations r_now r_maxAttestationAgeMs r_maxFutureSkewMs with_revocations].
  rewrite foreign_revocations; [done|]. intros x Hx. apply (Hf x _ Hx). right; left. by exists a.
Qed.

End lifecycle.

(** ** On the toy platform *)

Definition toy_now : Z := Eval vm_compute in
  (default 0 (Date_parse (H := Toy.host) "2026-10-13T12:30:00.000Z") + 1000)%Z.

Definition toy_args : jval :=
  JObj [("identity", toy_author); ("claim", JObj toy_claim); ("groundsDigest", JStr " sha256:00 ");
        ("targetType", JStr "claim"); ("targetId", oprop (JObj toy_claim) "claimId"); ("sourceId", JStr "fide handbook");
        ("lineage", JObj [("originIds", JArr [JStr "o1"])])].

Definition toy_dispute : list (string * jval) := Eval vm_compute in
  ok_or [] (createDispute (H := Toy.host) toy_now toy_args).

Lemma lifecycle_objects_verify_witness :
  verifyDispute (H := Toy.host) (oprop (JObj toy_claim) "claimId") (JObj toy_dispute) = Accepted.
Proof.
  assert (Hd : createDispute (H := Toy.host) toy_now toy_args = Ok toy_dispute) by (vm_compute; reflexivity).
  destruct (lifecycle_objects_verify (H := Toy.host) toy_now toy_args toy_dispute "pem" "priv" Toy.base64_laws
              (Toy.key_pair "pem" "priv") eq_refl eq_refl) as (_ & _ & _ & Hv).
  exact (Hv Hd).
Defined.

Definition toy_lineage : list (string * jval) := Eval vm_compute in
  ok_or [] (createLineageCertificate (H := Toy.host) (toy_now - 5000) toy_args).

Definition toy_trust (revocations disputes : list jval) : trust_request :=
  {| r_claim := JObj toy_claim; r_attestations := [JObj toy_attestation; JNull];
     r_lineageCertificates := [JObj toy_lineage]; r_revocations := revocations;
     r_disputes := disputes; r_authorizedDisputerNodeIds := [];
     r_retrievalProvenance := JNull; r_policy := toy_policy; r_now := toy_now;
     r_maxAttestationAgeMs := 86400000; r_maxFutureSkewMs := 300000 |}.

Definition toy_active : active_assessment := Eval vm_compute in
  ok_or (ActiveAssessment JNull "" JNull JNull 0 0 0 0 0 JNull)
    (assessActiveTrust (H := Toy.host) (toy_trust [] [JObj toy_dispute])).

Lemma actively_verified_witness :
  s_lifecycleStatus toy_active = "verified" ∧
  valid_disputes (H := Toy.host) (toy_trust [] [JObj toy_dispute]) = [].
Proof.
  assert (Ha : assessActiveTrust (H := Toy.host) (toy_trust [] [JObj toy_dispute]) = Ok toy_active)
    by (vm_compute; reflexivity).
  destruct (actively_verified (H := Toy.host) _ _ Ha eq_refl) as (_ & Hv).
  assert (Hs : s_lifecycleStatus toy_active = "verified") by reflexivity.
  split; [exact Hs|]. exact (proj1 (Hv Hs)).
Defined.

Definition toy_stranger : jval := Eval vm_compute in
  JObj [("nodeId", JStr (match nodeIdFromPublicKey (H := Toy.host) (JStr "other") with Ok s => s | Throw _ => "" end));
        ("publicKeyPem", JStr "other"); ("privateKeyPem", JStr "other")].

(** A revocation of the claim by a stranger. *)
Definition toy_foreign : list (string * jval) := Eval vm_compute in
  ok_or [] (createTrustRevocation (H := Toy.host) toy_now
              (JObj [("identity", toy_stranger); ("targetType", JStr "claim");
                     ("targetId", oprop (JObj toy_claim) "claimId")])).

Lemma foreign_revocations_inert_witness :
  verifyTrustRevocation (H := Toy.host) (JObj toy_foreign) = Accepted ∧
  assessActiveTrust (H := Toy.host) (with_revocations (toy_trust [] []) ([] ++ [JObj toy_foreign])) =
  assessActiveTrust (H := Toy.host) (toy_trust [] []).
Proof.
  split; [vm_compute; reflexivity|].
  apply (foreign_revocations_inert (H := Toy.host) (toy_trust [] []) [JObj toy_foreign]).
  intros x issuer Hx Hi _. apply list_elem_of_In in Hx as [<-|[] ].
  destruct Hi as [->|[(a & Ha & ->)|(c & Hc & ->)]].
  - vm_compute. reflexivity.
  - apply list_elem_of_In in Ha as [<-|[<-|[] ] ]; vm_compute; reflexivity.
  - apply list_elem_of_In in Hc as [<-|[] ]; vm_compute; reflexivity.
Defined.

End Lifecycle.
