(* ===== verification/Verifiers.v ===== *)
(** * Discovery of authorised claim verifiers

    Models core/trust/network.js: the capabilities a claim verifier offers, the
    metadata of its OFFER, and the choice of verifiers among offers received
    from the network. *)
From S2P Require Import Prelude JSMap JSValue Host Text Protocol.

Module Verifiers.
Import Text Canonical.

Definition TRUST_VERIFIER_NETWORK_VERSION : Z := 1.
Definition TRUST_VERIFIER_NETWORK_PROTOCOL : string := "truyn-claim-verifier-v1".

(** A verifier read off an offer. *)
Record verifier := Verifier {
  v_nodeId : string; v_publicKey : jval; v_trust : jval; v_domain : string;
  v_requestCapability : string; v_methods : list jval; v_offer : jval
}.

Section verifiers.
Context `{Host}.

Definition hash (value : jval) : result string := text ← canonicalize value; Ok (sha256_hex text).

Definition normalizeDomain (domain : jval) : result string :=
  match domain with
  | JStr s => if nonempty_str (trim s) then Ok (to_lower (trim (nfkc s)))
              else Throw (error "claim verifier domain is required")
  | _ => Throw (error "claim verifier domain is required")
  end.

Definition trustVerifierDiscoveryCapability (domain : jval) : result string :=
  d ← normalizeDomain domain;
  h ← hash (JObj [("domain", JStr d)]);
  Ok ("trust.verify." +:+ str_take 32 h).

Definition trustVerifierRequestCapability (domain verifierNodeId : jval) : result string :=
  match verifierNodeId with
  | JStr s =>
      if nonempty_str s then
        c ← trustVerifierDiscoveryCapability domain;
        h ← hash (JObj [("verifierNodeId", JStr s)]);
        Ok (c +:+ "." +:+ str_take 16 h)
      else Throw (error "verifier node ID is required")
  | _ => Throw (error "verifier node ID is required")
  end.

Definition trustVerifierOfferMetadata (domain verifierNodeId requestCapability methods : jval) : result jval :=
  d ← normalizeDomain domain;
  expected ← trustVerifierRequestCapability (JStr d) verifierNodeId;
  _ ← throw_if (negb (eq_str requestCapability expected)) (error "claim verifier request capability mismatch");
  ms ← match js_or methods (JArr []) with
       | JArr l => Ok (sort_strings (uniq (trimmed_strings l)))
       | _ => Throw (error "(methods || []).filter is not a function")
       end;
  Ok (JObj [("protocol", JStr TRUST_VERIFIER_NETWORK_PROTOCOL);
            ("version", JNum (JInt TRUST_VERIFIER_NETWORK_VERSION)); ("role", JStr "claim-verifier");
            ("domain", JStr d); ("verifierNodeId", verifierNodeId); ("requestCapability", requestCapability);
            ("methods", string_list ms)]).

Definition parseTrustVerifierOffer (offer domain : jval) : result (option verifier) :=
  d ← normalizeDomain domain;
  let metadata := oprop (oprop (oprop offer "payload") "metadata") "claimVerifier" in
  if negb (truthy metadata) || negb (eq_str (oprop metadata "protocol") TRUST_VERIFIER_NETWORK_PROTOCOL) ||
     negb (eq_int (oprop metadata "version") TRUST_VERIFIER_NETWORK_VERSION) then Ok None
  else if negb (eq_str (oprop metadata "role") "claim-verifier") || negb (eq_str (oprop metadata "domain") d)
  then Ok None
  else if negb (strict_eq (oprop metadata "verifierNodeId") (oprop offer "from")) then Ok None
  else
    expected ← trustVerifierRequestCapability (JStr d) (oprop offer "from");
    if negb (eq_str (oprop metadata "requestCapability") expected) then Ok None
    else Ok (Some (Verifier (string_or_empty (oprop offer "from")) (oprop offer "publicKey")
                     (js_or (oprop offer "trust") JNull) d expected
                     (elements_of (oprop metadata "methods")) offer)).

Context `{Coercions}.

Definition score (v : verifier) : jval := js_or (oprop (v_trust v) "score") (JNum (JInt 0)).

(** The comparator: [Number(right) - Number(left) || left.nodeId.localeCompare(right.nodeId)].
    Subtraction converts its operands as Number does. *)
Definition ranked_before (left right : verifier) : bool :=
  match js_minus_sign (score right) (score left) with
  | Some Lt => true
  | Some Gt => false
  | Some Eq | None => bool_decide (localeCompare (v_nodeId left) (v_nodeId right) ≤ 0)%Z
  end.

Definition keep_first (m : jsmap string verifier) (v : verifier) : jsmap string verifier :=
  if map_has (v_nodeId v) m then m else map_set (v_nodeId v) v m.

Definition resolveAuthorizedTrustVerifiers (offers : list jval) (domain limit : jval) : result (list verifier) :=
  match is_integer limit with
  | None => Throw (error "claim verifier limit must be 1..32")
  | Some n =>
      if bool_decide (n < 1)%Z || bool_decide (32 < n)%Z then Throw (error "claim verifier limit must be 1..32")
      else
        parsed ← result_map (λ offer, parseTrustVerifierOffer offer domain) offers;
        let unique := fold_left keep_first (flat_map (λ v, match v with Some v => [v] | None => [] end) parsed) [] in
        Ok (take (Z.to_nat n) (sort_by ranked_before (map_values unique)))
  end.

(** ** What resolution returns *)

Definition found (parsed : list (option verifier)) : list verifier :=
  flat_map (λ v, match v with Some v => [v] | None => [] end) parsed.

Lemma elem_of_found v parsed : v ∈ found parsed ↔ Some v ∈ parsed.
Proof.
  unfold found. rewrite !list_elem_of_In, in_flat_map. split.
  - intros ([w|] & Hw & Hv); [|done]. destruct Hv as [->|[] ]. done.
  - intros Hv. exists (Some v). split; [done|by left].
Qed.

(** The first verifier of each node, under its node's identifier. *)
Lemma keep_first_all l m :
  map_wf m → (∀ k v, (k, v) ∈ m → v_nodeId v = k) →
  let m' := fold_left keep_first l m in
  map_wf m' ∧ (∀ k v, (k, v) ∈ m' → v_nodeId v = k ∧ ((k, v) ∈ m ∨ v ∈ l)) ∧
  (∀ k, k ∈ map_keys m' ↔ k ∈ map_keys m ∨ ∃ v, v ∈ l ∧ v_nodeId v = k).
Proof.
  revert m. induction l as [|x l IH]; intros m Hwf Hk; cbn [fold_left].
  - split; [done|]. split; [auto|]. intros k. split; [auto|]. intros [?|(v & Hv & _)]; [done|]. by apply elem_of_nil in Hv.
  - assert (Hstep : map_wf (keep_first m x) ∧ (∀ k v, (k, v) ∈ keep_first m x → v_nodeId v = k ∧ ((k, v) ∈ m ∨ v = x)) ∧
              (∀ k, k ∈ map_keys (keep_first m x) ↔ k ∈ map_keys m ∨ v_nodeId x = k)).
    { unfold keep_first. destruct (map_has (v_nodeId x) m) eqn:Hh.
      - split; [done|]. split; [auto|]. intros k. apply map_has_true in Hh. split; [auto|]. intros [?| <-]; done.
      - apply map_has_false in Hh. split; [by apply map_wf_set|]. split.
        + intros k v Hin. apply (map_elem_get _ _ _ (map_wf_set _ _ _ Hwf)) in Hin. rewrite map_get_set in Hin.
          case_decide as Hd; [injection Hin as <-; auto|]. apply map_get_elem in Hin. auto.
        + intros k. rewrite map_keys_set, decide_False by done. rewrite elem_of_app, list_elem_of_singleton. naive_solver. }
    destruct Hstep as (H1 & H2 & H3). destruct (IH (keep_first m x) H1) as (I1 & I2 & I3); [intros k v Hkv; apply (H2 k v Hkv)|].
    split; [done|]. split.
    + intros k v Hin. destruct (I2 k v Hin) as [? [Hin'|?]]; (split; [done|]); [|right; by right].
      destruct (H2 _ _ Hin') as [_ [?| ->]]; [by left|right; by left].
    + intros k. rewrite I3, H3. split.
      * intros [[?|?]|(v & ? & ?)]; [by left|right; exists x; split; [by left|done]|right; exists v; split; [by right|done]].
      * intros [?|(v & [->|?]%elem_of_cons & ?)]; [by left; left|by left; right|right; eauto].
Qed.

(** What a parsed offer proves about its sender. *)
Lemma parse_authorized offer domain v :
  parseTrustVerifierOffer offer domain = Ok (Some v) →
  v_offer v = offer ∧ oprop offer "from" = JStr (v_nodeId v) ∧
  normalizeDomain domain = Ok (v_domain v) ∧
  trustVerifierRequestCapability (JStr (v_domain v)) (JStr (v_nodeId v)) = Ok (v_requestCapability v) ∧
  oprop (oprop (oprop (oprop offer "payload") "metadata") "claimVerifier") "verifierNodeId" = JStr (v_nodeId v).
Proof.
  unfold parseTrustVerifierOffer. intros (d & Hd & Hp)%bind_Ok_inv. cbv zeta in Hp.
  destruct (_ || _); [done|]. destruct (_ || _); [done|].
  destruct (negb (strict_eq _ _)) eqn:Hfrom; [done|]. apply bind_Ok_inv in Hp as (c & Hc & Hp).
  destruct (negb (eq_str _ c)); [done|]. apply Ok_inj in Hp. injection Hp as <-. cbn [v_offer v_nodeId v_domain v_requestCapability].
  assert (∃ s, oprop offer "from" = JStr s) as [s Hs].
  { unfold trustVerifierRequestCapability in Hc. destruct (oprop offer "from"); try done. eauto. }
  rewrite Hs in *. cbn [string_or_empty]. bool_hyps. apply eq_str_true in Hfrom. done.
Qed.

Lemma result_map_in {A B} (f : A → result B) l ys y :
  result_map f l = Ok ys → y ∈ ys ↔ ∃ x, x ∈ l ∧ f x = Ok y.
Proof.
  revert ys. induction l as [|x l IH]; intros ys; cbn [result_map].
  - intros <-%Ok_inj. split; [by intros ?%elem_of_nil|]. by intros (x & ?%elem_of_nil & _).
  - intros (z & Hz & Hl)%bind_Ok_inv. apply bind_Ok_inv in Hl as (zs & Hzs & <-%Ok_inj).
    rewrite elem_of_cons, (IH _ Hzs). split.
    + intros [->|(x' & ? & ?)]; [exists x; split; [by left|done]|exists x'; split; [by right|done]].
    + intros (x' & [->|?]%elem_of_cons & Hf); [left; congruence|right; eauto].
Qed.

(** Only authorised verifiers are chosen.  The verifiers resolved from any
    offers are at most the limit and pairwise distinct nodes; each comes from
    one of the offers, whose sender is the node and whose metadata carries the
    request capability of that node for the domain; and unless the limit is
    reached, every sender of such an offer is among them. *)
Theorem resolved_verifiers offers domain n vs :
  resolveAuthorizedTrustVerifiers offers domain (JNum (JInt n)) = Ok vs →
  (1 ≤ n ≤ 32)%Z ∧ (Z.of_nat (length vs) ≤ n)%Z ∧ NoDup (map v_nodeId vs) ∧
  (∀ v, v ∈ vs → v_offer v ∈ offers ∧ oprop (v_offer v) "from" = JStr (v_nodeId v) ∧
     trustVerifierRequestCapability (JStr (v_domain v)) (JStr (v_nodeId v)) = Ok (v_requestCapability v)) ∧
  (Z.of_nat (length vs) = n ∨
   ∀ offer v, offer ∈ offers → parseTrustVerifierOffer offer domain = Ok (Some v) → v_nodeId v ∈ map v_nodeId vs).
Proof.
  unfold resolveAuthorizedTrustVerifiers. cbn [is_integer].
  destruct (_ || _) eqn:Hn; [done|]. bool_hyps. intros (parsed & Hparsed & <-%Ok_inj)%bind_Ok_inv.
  destruct (keep_first_all (found parsed) []) as (Hwf & Hval & Hkeys); [constructor|by intros ? ? ?%elem_of_nil|].
  change (flat_map _ parsed) with (found parsed). set (m := fold_left keep_first (found parsed) []) in *.
  set (sorted := sort_by ranked_before (map_values m)).
  assert (Hids : map v_nodeId (map_values m) = map_keys m).
  { unfold map_values, map_keys. clear -Hval. revert Hval. generalize (found parsed). intros l Hval.
    assert (∀ k v, (k, v) ∈ m → v_nodeId v = k) as Hk by (intros; by apply (Hval k v)). clear Hval l.
    induction m as [|[k v] m' IH]; [done|]. cbn. rewrite IH by (intros; apply Hk; by right).
    f_equal. apply Hk. by left. }
  assert (Hnd : NoDup (map v_nodeId sorted)).
  { unfold sorted. rewrite (Permutation_map v_nodeId (sort_by_perm ranked_before (map_values m))), Hids. exact Hwf. }
  assert (Hin : ∀ v, v ∈ sorted → Some v ∈ parsed).
  { intros v Hv. unfold sorted in Hv. rewrite elem_of_sort_by in Hv. unfold map_values in Hv.
    apply list_elem_of_fmap in Hv as ([k w] & -> & Hv). destruct (Hval _ _ Hv) as [_ [He|He]]; [by apply elem_of_nil in He|].
    by apply elem_of_found. }
  split; [lia|]. split; [rewrite length_take; lia|]. split.
  { rewrite <- (take_drop (Z.to_nat n) sorted), map_app in Hnd. by apply NoDup_app in Hnd as [? _]. }
  split.
  - intros v Hv%elem_of_take_list. apply Hin, (result_map_in _ _ _ _ Hparsed) in Hv as (o & Ho & Hp).
    destruct (parse_authorized _ _ _ Hp) as (-> & Hfrom & _ & Hcap & _). done.
  - destruct (decide (length sorted ≤ Z.to_nat n)) as [Hle|Hgt]; [right|left; rewrite length_take; lia].
    intros o v Ho Hp. rewrite take_ge by done. apply list_elem_of_In, (Permutation_in _
      (Permutation_map v_nodeId (Permutation_sym (sort_by_perm ranked_before (map_values m))))).
    rewrite Hids. apply list_elem_of_In, Hkeys. right. exists v. split; [|done].
    apply elem_of_found, (result_map_in _ _ _ _ Hparsed). eauto.
Qed.

End verifiers.

(** ** On the toy platform *)

#[local] Existing Instance toy_coercions.

Definition toy_metadata : jval := Eval vm_compute in
  ok_or JNull (c ← trustVerifierRequestCapability (H := Toy.host) (JStr "chess") (JStr "node-1");
               trustVerifierOfferMetadata (H := Toy.host) (JStr " Chess ") (JStr "node-1") (JStr c)
                 (JArr [JStr "review "; JNull])).

(** The offer of node-1, and the same metadata replayed by another node. *)
Definition toy_offer (from : string) : jval :=
  JObj [("from", JStr from); ("payload", JObj [("metadata", JObj [("claimVerifier", toy_metadata)])])].
Definition toy_offers : list jval := [toy_offer "node-2"; toy_offer "node-1"; JNull; toy_offer "node-1"].

Definition toy_found : list verifier := Eval vm_compute in
  ok_or [] (resolveAuthorizedTrustVerifiers (H := Toy.host) toy_offers (JStr "CHESS") (JNum (JInt 8))).

Lemma resolved_verifiers_witness :
  map v_nodeId toy_found = ["node-1"] ∧ NoDup (map v_nodeId toy_found).
Proof.
  assert (Hr : resolveAuthorizedTrustVerifiers (H := Toy.host) toy_offers (JStr "CHESS") (JNum (JInt 8)) = Ok toy_found)
    by (vm_compute; reflexivity).
  split; [reflexivity|].
  exact (proj1 (proj2 (proj2 (resolved_verifiers (H := Toy.host) toy_offers (JStr "CHESS") 8 toy_found Hr)))).
Defined.

End Verifiers.
