(* ===== verification/Cosmos.v ===== *)
(** * The multi-host lifecycle ledger

    Models network/relay/cosmos-lifecycle-ledger.js: needs, offers and provider
    effects as documents of a remote store shared by several hosts, each
    mutated by an optimistic compare-and-swap on its ETag.  The store is the
    parameter [fetch]; its documented behaviour, with other hosts writing
    between and during the calls of this one and with replies that get lost, is
    the class [Store].  A document is the JSON value the code handles. *)
From S2P Require Import Prelude JSMap JSValue Dates Host Protocol.

Module Cosmos.
Import Canonical Keys Envelope.

(** ** Requests and replies *)

Inductive request :=
| Get (key : string)
| Post (key : string) (body : jval)
| Put (key : string) (etag body : jval)
| Query (text recipient : string) (continuation : jval).

(** [r_body] is [None] when the body is not readable JSON. *)
Record response := Response {
  r_status : Z; r_substatus : string; r_etag : jval; r_body : option jval; r_continuation : jval
}.

Record reply := Reply { p_status : Z; p_doc : jval; p_etag : jval; p_continuation : jval }.

Record config := Config {
  maxDocumentBytes : Z; maxDeliveriesPerNeed : Z; maxCasAttempts : nat; recordCapacity : option Z; base : string
}.

(** [Buffer.byteLength(s)]: a code unit from 128 to 255 takes two bytes. *)
Fixpoint byte_length (s : string) : Z :=
  match s with
  | EmptyString => 0
  | String c s => (if bool_decide (N_of_ascii c < 128)%N then 1 else 2) + byte_length s
  end.

Definition json (v : jval) : string := default "undefined" (stringify v).

Definition nonempty (x : string) : bool := nonempty_str x && bool_decide (String.length x ≤ 4096).
Definition nonempty_value (v : jval) : bool := match v with JStr s => nonempty s | _ => false end.
Definition validNeedId (id : string) : bool := nonempty id && bool_decide (String.length id ≤ 4070).

Definition kinds : list string := ["NEED"; "RESULT"; "REVOKE"; "PARTIAL"].
Definition TERMINAL : list string := ["completed"; "cancelled"; "failed"].
Definition CAPACITY_ID : string := "g5-container-admission-v1".

Definition unavailable : jerror := fault 503 "lifecycle_ledger_unavailable".
Definition invalid_response : jerror := fault 503 "lifecycle_ledger_invalid_response".

(** [v + 1] on the integers the documents hold *)
Definition add_one (v : jval) : jval := match v with JNum (JInt n) => JNum (JInt (n + 1)) | _ => JNum JNaN end.
Definition minus_one (v : jval) : jval := match v with JNum (JInt n) => JNum (JInt (n - 1)) | _ => JNum JNaN end.

(** Assignment and deletion of a member of an object value. *)
Definition set (k : string) (w v : jval) : jval := match v with JObj kvs => JObj (set_key k w kvs) | _ => v end.
Definition delete (k : string) (v : jval) : jval := match v with JObj kvs => JObj (remove_key k kvs) | _ => v end.

Definition eventId (kind : string) (id event : jval) : string :=
  if bool_decide (kind = "PARTIAL") then "partial:" +:+ to_string id +:+ ":" +:+ to_string (oprop event "sequence")
  else to_lower kind +:+ ":" +:+ to_string id.

Existing Class config.

(** The remote store of a world [W]: what one HTTP request does to the world
    and answers. *)
Class Remote (W : Type) := fetch : request → W → W * result response.

Section ledger.
Context `{Host} {W : Type} `{!Remote W} {cfg : config}.

Definition partitionId (kind id : string) : string := kind +:+ "-" +:+ sha256_hex id.

(** ** One call *)

Definition body_of (r : request) : jval :=
  match r with
  | Post _ b | Put _ _ b => b
  | Get _ => JNull
  | Query text recipient _ =>
      JObj [("query", JStr text);
            ("parameters", JArr [JObj [("name", JStr "@recipient"); ("value", JStr recipient)]])]
  end.

Definition classify (r : response) : result reply :=
  let one_of l := existsb (Z.eqb (r_status r)) l in
  _ ← throw_if (one_of [401; 403]%Z) (fault 503 "lifecycle_ledger_auth_denied");
  _ ← throw_if (one_of [408; 429; 449; 500; 502; 503; 504]%Z) unavailable;
  _ ← throw_if (negb (one_of [200; 201; 204; 404; 409; 412]%Z)) (fault 503 "lifecycle_ledger_protocol_error");
  if one_of [404]%Z then
    if bool_decide (r_substatus r = "1002") then Throw (fault 503 "lifecycle_session_unavailable")
    else Ok (Reply 404 JNull JNull JUndef)
  else
    doc ← (if one_of [204]%Z then Ok JNull
           else match r_body r with
                | Some doc => Ok doc
                | None => if bool_decide (r_status r < 400)%Z then Throw invalid_response else Ok JNull
                end);
    Ok (Reply (r_status r) doc (js_or (js_or (r_etag r) (oprop doc "_etag")) JNull) (r_continuation r)).

(** A failure that carries no status is reported as unavailability. *)
Definition call (r : request) : M W reply := λ w,
  match fetch r w with
  | (w', Ok resp) => (w', classify resp)
  | (w', Throw e) => (w', Throw (match e_httpStatus e with Some _ => e | None => unavailable end))
  end.

Definition api (r : request) : M W reply :=
  _ ← guard_throw (negb (nullish (body_of r)) && bool_decide (maxDocumentBytes cfg < byte_length (json (body_of r)))%Z)
        (fault 503 "lifecycle_document_capacity_reached");
  call r.

Definition get_doc (kind id : string) : M W (option jval) :=
  _ ← guard_throw (negb (if bool_decide (kind = "need") then validNeedId id else nonempty id))
        (fault 400 "invalid_lifecycle_id");
  r ← api (Get (partitionId kind id));
  if bool_decide (p_status r = 404)%Z then mret None
  else
    let doc := p_doc r in
    _ ← guard_throw (negb (bool_decide (p_status r = 200)%Z) || negb (truthy doc) ||
                     negb (eq_int (oprop doc "schemaVersion") 1) || negb (eq_str (oprop doc "kind") kind) ||
                     negb (eq_str (oprop doc "logicalId") id) || negb (eq_int (oprop doc "ttl") (-1)) ||
                     negb (truthy (p_etag r))) invalid_response;
    mret (Some (set "_etag" (p_etag r) doc)).

Definition pending_count (doc : jval) : Z :=
  Z.of_nat (length (List.filter (λ x, strict_eq (oprop x "acknowledgedAt") JNull) (elements_of (oprop doc "deliveries")))).

Definition packed (doc : jval) : result jval :=
  _ ← throw_if (negb (eq_int (oprop doc "ttl") (-1))) (fault 503 "lifecycle_tombstone_ttl_unsafe");
  _ ← throw_if (bool_decide (maxDocumentBytes cfg < byte_length (json doc) + pending_count doc * 24 + 128)%Z)
        (fault 503 "lifecycle_document_capacity_reached");
  Ok doc.

(** ** Compare-and-swap *)

(** The variables a callback's closure assigns are the state [X], kept from
    attempt to attempt.  A callback answers [None] for no change. *)
Definition callback (X : Type) : Type := X → jval → result (X * option jval).

(** What is sent for the document a callback returned. *)
Definition successor_of (current next : jval) : jval :=
  set "ttl" (JNum (JInt (-1))) (delete "_etag" (set "version" (add_one (oprop current "version")) next)).

Fixpoint cas_loop {X} (attempts : nat) (kind id : string) (f : callback X) (x : X) : M W (X * bool * jval) :=
  match attempts with
  | O => throw (fault 503 "lifecycle_cas_contention")
  | S attempts =>
      current ← get_doc kind id;
      match current with
      | None => throw (fault 404 "lifecycle_not_found")
      | Some current =>
          '(x, next) ← lift_result (f x current);
          match next with
          | None => mret (x, false, current)
          | Some next =>
              body ← lift_result (packed (successor_of current next));
              r ← api (Put (partitionId kind id) (oprop current "_etag") body);
              if bool_decide (p_status r = 412)%Z then cas_loop attempts kind id f x
              else
                _ ← guard_throw (negb (bool_decide (p_status r = 200)%Z)) unavailable;
                mret (x, true, js_or (p_doc r) body)
          end
      end
  end.

Definition mutate {X} (kind id : string) (f : callback X) (x : X) : M W (X * bool * jval) :=
  cas_loop (maxCasAttempts cfg) kind id f x.

(** A callback without variables. *)
Definition plain (f : jval → result (option jval)) : callback unit := λ _ doc, next ← f doc; Ok (tt, next).

Definition mutate_plain (kind id : string) (f : jval → result (option jval)) : M W (bool * jval) :=
  '(_, changed, row) ← mutate kind id (plain f) tt;
  mret (changed, row).

(** ** Capacity *)

Definition ticket_shape (v : jval) : bool :=
  match v with
  | JStr s =>
      existsb (λ kind, bool_decide (str_take (String.length kind) s = kind) &&
                       bool_decide (String.length s = String.length kind + 64) &&
                       str_forall is_hex_digit (str_drop (String.length kind) s))
        ["need-"; "offer-"; "effect-"; "offer-owner-"]
  | _ => false
  end.

Fixpoint distinct_values (l : list jval) : bool :=
  match l with [] => true | v :: l => negb (existsb (same_key v) l) && distinct_values l end.

Definition validateCapacity (doc : jval) : result jval :=
  let key := partitionId "capacity" CAPACITY_ID in
  let tickets := elements_of (oprop doc "tickets") in
  let cap := default 0%Z (recordCapacity cfg) in
  _ ← throw_if (negb (truthy doc) || negb (eq_str (oprop doc "id") key) || negb (eq_str (oprop doc "partitionKey") key) ||
                negb (eq_int (oprop doc "schemaVersion") 1) || negb (eq_str (oprop doc "kind") "capacity") ||
                negb (eq_str (oprop doc "logicalId") CAPACITY_ID) || negb (eq_int (oprop doc "ttl") (-1)) ||
                negb (eq_int (oprop doc "capacityVersion") 1) || negb (eq_str (oprop doc "scopeDigest") (sha256_hex (base cfg))) ||
                negb (eq_int (oprop doc "recordCapacity") cap) ||
                negb (match is_safe_integer (oprop doc "version") with
                      | Some v => bool_decide (1 ≤ v < max_safe)%Z
                      | None => false
                      end) ||
                negb (is_array (oprop doc "tickets")) || bool_decide (cap < Z.of_nat (length tickets))%Z ||
                negb (eq_int (oprop doc "reserved") (Z.of_nat (length tickets))) ||
                negb (distinct_values tickets) || negb (forallb ticket_shape tickets))
        (fault 503 "lifecycle_capacity_contract_invalid");
  Ok doc.

Definition take_ticket (ticket : string) (doc : jval) : result (option jval) :=
  _ ← validateCapacity doc;
  let tickets := elements_of (oprop doc "tickets") in
  if existsb (λ t, eq_str t ticket) tickets then Ok None
  else
    _ ← throw_if (num_ge (match oprop doc "reserved" with JNum n => n | _ => JNaN end) (default 0%Z (recordCapacity cfg)))
          (fault 503 "lifecycle_global_capacity_reached");
    let tickets := tickets ++ [JStr ticket] in
    Ok (Some (set "reserved" (JNum (JInt (Z.of_nat (length tickets)))) (set "tickets" (JArr tickets) doc))).

Definition reserveCreationCapacity (kind id : string) : M W unit :=
  match recordCapacity cfg with
  | None => mret tt
  | Some _ =>
      let ticket := partitionId kind id in
      '(_, row) ← catch_with (mutate_plain "capacity" CAPACITY_ID (take_ticket ticket))
                    (λ e, if bool_decide (e_httpStatus e = Some 404%Z)
                          then throw (fault 503 "lifecycle_capacity_not_initialized") else throw e);
      saved ← lift_result (validateCapacity row);
      guard_throw (negb (existsb (λ t, eq_str t ticket) (elements_of (oprop saved "tickets"))))
        (fault 503 "lifecycle_capacity_commit_unverified")
  end.

(** ** Creation *)

Definition document (now kind id : string) (data : list (string * jval)) : jval :=
  JObj ([("id", JStr (partitionId kind id)); ("partitionKey", JStr (partitionId kind id));
         ("schemaVersion", JNum (JInt 1)); ("kind", JStr kind); ("logicalId", JStr id);
         ("version", JNum (JInt 1)); ("createdAt", JStr now); ("ttl", JNum (JInt (-1)))] ++ data).

Definition duplicate_code (kind : string) : string :=
  if bool_decide (kind = "need") then "duplicate_request"
  else if bool_decide (kind = "offer") then "duplicate_offer" else "duplicate_effect".

Definition create (now kind id : string) (data : list (string * jval)) : M W jval :=
  doc ← lift_result (packed (document now kind id data));
  _ ← reserveCreationCapacity kind id;
  r ← api (Post (partitionId kind id) doc);
  _ ← guard_throw (bool_decide (p_status r = 409)%Z) (fault 409 (duplicate_code kind));
  _ ← guard_throw (negb (bool_decide (p_status r = 201)%Z) && negb (bool_decide (p_status r = 200)%Z)) unavailable;
  mret (js_or (p_doc r) doc).

(** ** Deliveries *)

Definition deliveryFor (delivery id : jval) : result jval :=
  let kind := oprop delivery "kind" in
  let event := oprop delivery "event" in
  _ ← throw_if (negb (includes kinds kind) || negb (nonempty_value (oprop delivery "recipient")) ||
                negb (truthy event) || negb (strict_eq (oprop event "kind") kind))
        (fault 400 "invalid_lifecycle_delivery");
  _ ← throw_if (bool_decide (128000 < Z.of_nat (String.length (json event)))%Z)
        (fault 413 "lifecycle_delivery_too_large");
  Ok (JObj [("eventId", JStr (eventId (string_or_empty kind) id event)); ("recipient", oprop delivery "recipient");
            ("kind", kind); ("event", event); ("acknowledgedAt", JNull)]).

Definition appendDelivery (doc delivery : jval) (expectedKind : string) (recipient : jval) : result jval :=
  if nullish delivery then Ok doc
  else
    _ ← throw_if (negb (eq_str (oprop delivery "kind") expectedKind) ||
                  negb (strict_eq (oprop delivery "recipient") recipient))
          (fault 400 "invalid_lifecycle_delivery");
    match oprop doc "deliveries" with
    | JArr deliveries =>
        _ ← throw_if (bool_decide (maxDeliveriesPerNeed cfg ≤ Z.of_nat (length deliveries))%Z)
              (fault 503 "lifecycle_outbox_capacity_reached");
        item ← deliveryFor delivery (oprop doc "logicalId");
        _ ← throw_if (existsb (λ e, strict_eq (oprop e "eventId") (oprop item "eventId")) deliveries)
              (fault 409 "delivery_already_recorded");
        Ok (set "deliveries" (JArr (deliveries ++ [item])) doc)
    | _ => Throw (error "Cannot read properties of undefined")
    end.

Definition authorize (doc : jval) (requester provider : option string) : result unit :=
  _ ← match requester with
      | Some r => throw_if (nonempty_str r && negb (eq_str (oprop doc "requester") r)) (fault 403 "not_request_owner")
      | None => Ok tt
      end;
  match provider with
  | Some p => throw_if (nonempty_str p && negb (eq_str (oprop doc "provider") p)) (fault 403 "provider_mismatch")
  | None => Ok tt
  end.

Definition closed_fault (doc : jval) : jerror :=
  fault 409 (if eq_str (oprop doc "status") "cancelled" then "request_cancelled"
             else if eq_str (oprop doc "status") "failed" then "request_failed" else "request_already_completed").

(** ** Needs *)

Definition need_fields (doc : jval) : jval :=
  match doc with
  | JObj kvs => JObj (kvs ++ [("created_at", oprop doc "createdAt"); ("terminal_at", oprop doc "terminalAt");
                              ("partial_sequence", oprop doc "partialSequence");
                              ("partial_digest", oprop doc "partialDigest")])
  | _ => doc
  end.

Definition getNeed (id : string) : M W (option jval) := doc ← get_doc "need" id; mret (need_fields <$> doc).
Definition getOffer (id : string) : M W (option jval) := get_doc "offer" id.
Definition getEffect (id : string) : M W (option jval) := get_doc "effect" id.

Record need_args := NeedArgs {
  n_id : string; n_requester : string; n_provider : string; n_fingerprint : string; n_capability : string;
  n_mode : string; n_scope : string; n_policyDigest : string; n_delivery : jval; n_paidAuthorization : jval
}.

Definition paid_valid (a : need_args) : bool :=
  let p := n_paidAuthorization a in
  strict_eq p JNull ||
  (eq_str (oprop p "contract") "truyn.paid.need/1" && eq_str (oprop p "status") "authorized" &&
   eq_str (oprop p "requesterNodeId") (n_requester a) && eq_str (oprop p "providerNodeId") (n_provider a) &&
   eq_str (oprop p "capability") (n_capability a) && eq_str (oprop p "payerNodeId") (n_provider a) &&
   eq_str (oprop p "billingResponsibility") "provider-owner" &&
   match is_safe_integer (oprop p "authorityRevision") with Some v => bool_decide (0 ≤ v)%Z | None => false end).

Definition need_data (a : need_args) (deliveries : jval) : list (string * jval) :=
  [("requester", JStr (n_requester a)); ("provider", JStr (n_provider a));
   ("fingerprint", JStr (n_fingerprint a)); ("capability", JStr (n_capability a)); ("mode", JStr (n_mode a));
   ("scope", JStr (n_scope a)); ("policyDigest", JStr (n_policyDigest a)); ("status", JStr "matched");
   ("paidAuthorization", n_paidAuthorization a); ("terminalAt", JNull); ("partialSequence", JNum (JInt 0));
   ("partialDigest", JNull); ("deliveries", deliveries)].

Definition reserveNeed (now : string) (a : need_args) : M W jval :=
  _ ← guard_throw (negb (validNeedId (n_id a)) ||
        negb (forallb nonempty [n_requester a; n_provider a; n_fingerprint a; n_capability a; n_mode a; n_scope a;
                                n_policyDigest a]))
        (fault 400 "invalid_lifecycle_reservation");
  _ ← guard_throw (negb (paid_valid a)) (fault 403 "paid_need_authorization_invalid");
  let draft := JObj (need_data a (JArr []) ++ [("logicalId", JStr (n_id a))]) in
  doc ← lift_result (if truthy (n_delivery a)
                     then appendDelivery draft (n_delivery a) "NEED" (JStr (n_provider a)) else Ok draft);
  create now "need" (n_id a) (need_data a (oprop doc "deliveries")).

Definition close_need (now to : string) (requester provider : option string) (delivery doc : jval)
    : result (option jval) :=
  _ ← authorize doc requester provider;
  if negb (eq_str (oprop doc "status") "matched") then
    if bool_decide (to = "cancelled") && eq_str (oprop doc "status") "cancelled" then Ok None
    else Throw (closed_fault doc)
  else
    _ ← throw_if (bool_decide (to = "failed") && truthy delivery) (fault 400 "invalid_lifecycle_delivery");
    doc ← (if bool_decide (to = "completed") then appendDelivery doc delivery "RESULT" (oprop doc "requester")
           else if bool_decide (to = "cancelled") then appendDelivery doc delivery "REVOKE" (oprop doc "provider")
           else Ok doc);
    Ok (Some (set "terminalAt" (JStr now) (set "status" (JStr to) doc))).

Definition transitionNeed (now id : string) (requester provider : option string) (to : string) (delivery : jval)
    : M W (bool * jval) :=
  _ ← guard_throw (negb (bool_decide (to ∈ TERMINAL))) (fault 400 "invalid_lifecycle_transition");
  mutate_plain "need" id (close_need now to requester provider delivery).

(** The closure variable is [previousDigest]. *)
Definition next_partial (id provider : string) (n : Z) (digest delivery : jval) : callback jval :=
  λ previousDigest doc,
  _ ← authorize doc None (Some provider);
  _ ← throw_if (negb (eq_str (oprop doc "status") "matched")) (closed_fault doc);
  if strict_eq (JNum (JInt n)) (minus_one (oprop doc "partialSequence")) &&
     strict_eq digest (oprop doc "partialDigest") then Ok (previousDigest, None)
  else
    _ ← throw_if (negb (eq_int (oprop doc "partialSequence") n)) (fault 409 "partial_sequence_mismatch");
    let previousDigest := oprop doc "partialDigest" in
    _ ← throw_if (negb (truthy delivery)) (fault 400 "partial_delivery_required");
    _ ← throw_if (negb (eq_int (oprop (oprop delivery "event") "sequence") n) ||
                  negb (eq_str (oprop (oprop delivery "event") "requestId") id))
          (fault 400 "invalid_partial_delivery");
    doc ← appendDelivery doc delivery "PARTIAL" (oprop doc "requester");
    Ok (previousDigest,
        Some (set "partialDigest" digest
                (set "partialSequence" (add_one (oprop doc "partialSequence")) doc))).

Definition acceptPartial (id provider : string) (sequence digest delivery : jval) : M W (bool * jval) :=
  _ ← guard_throw (negb (nonempty provider)) (fault 400 "invalid_partial_provider");
  match is_safe_integer sequence with
  | None => throw (fault 400 "invalid_partial_sequence")
  | Some n =>
      _ ← guard_throw (bool_decide (n < 0)%Z || negb (nonempty_value digest)) (fault 400 "invalid_partial_sequence");
      '(previousDigest, changed, _) ← mutate "need" id (next_partial id provider n digest delivery) JNull;
      mret (negb changed, previousDigest)
  end.

(** ** Effects *)

Definition effect_data (requester provider fingerprint : string) : list (string * jval) :=
  [("requester", JStr requester); ("provider", JStr provider); ("fingerprint", JStr fingerprint);
   ("status", JStr "started"); ("terminalAt", JNull)].

(** [None] for an acquired effect, the existing one otherwise. *)
Definition beginEffect (now id requester provider fingerprint : string) : M W (option jval) :=
  _ ← guard_throw (negb (forallb nonempty [id; requester; provider; fingerprint])) (fault 400 "invalid_effect_intent");
  catch_with (_ ← create now "effect" id (effect_data requester provider fingerprint); mret None)
    (λ e, if negb (bool_decide (e_httpStatus e = Some 409%Z)) then throw e
          else
            existing ← get_doc "effect" id;
            match existing with
            | None => throw unavailable
            | Some doc =>
                _ ← guard_throw (negb (eq_str (oprop doc "requester") requester) ||
                                 negb (eq_str (oprop doc "provider") provider) ||
                                 negb (eq_str (oprop doc "fingerprint") fingerprint))
                      (fault 409 "effect_identity_conflict");
                mret (Some doc)
            end).

Definition end_effect (now provider outcome : string) (observedTokens : jval) (doc : jval) : result (option jval) :=
  _ ← throw_if (negb (eq_str (oprop doc "provider") provider)) (fault 403 "provider_mismatch");
  if negb (eq_str (oprop doc "status") "started") then Ok None
  else
    let doc := set "terminalAt" (JStr now) (set "status" (JStr outcome) doc) in
    Ok (Some (if strict_eq observedTokens JNull then doc else set "observedTokens" observedTokens doc)).

Definition finishEffect (now id provider outcome : string) (observedTokens : jval) : M W (bool * jval) :=
  _ ← guard_throw (negb (bool_decide (outcome ∈ ["completed"; "failed"; "unknown"]))) (fault 400 "invalid_effect_outcome");
  _ ← guard_throw (negb (strict_eq observedTokens JNull) &&
        (negb (match is_safe_integer observedTokens with Some n => bool_decide (0 ≤ n)%Z | None => false end) ||
         negb (bool_decide (outcome = "completed")))) (fault 400 "invalid_effect_meter");
  mutate_plain "effect" id (end_effect now provider outcome observedTokens).

(** ** Acknowledgement *)

Fixpoint index_of (c : ascii) (s : string) : option nat :=
  match s with
  | EmptyString => None
  | String d s => if decide (d = c) then Some 0 else option_map S (index_of c s)
  end.

Fixpoint last_index_of (c : ascii) (s : string) : option nat :=
  match s with
  | EmptyString => None
  | String d s =>
      match last_index_of c s with
      | Some n => Some (S n)
      | None => if decide (d = c) then Some 0 else None
      end
  end.

(** Zero, or digits without a leading zero. *)
Definition sequence_text (s : string) : bool :=
  bool_decide (s = "0") ||
  match s with
  | EmptyString => false
  | String c _ => str_forall is_digit s && negb (bool_decide (c = "0"%char))
  end.

(** The request an event identifier belongs to. *)
Definition delivery_request (eventId : string) : result string :=
  let invalid := fault 400 "invalid_delivery_ack" in
  match index_of ":" eventId with
  | None | Some O => Throw invalid
  | Some separator =>
      let prefix := str_take separator eventId in
      let id := str_drop (S separator) eventId in
      _ ← throw_if (negb (bool_decide (prefix ∈ ["need"; "result"; "revoke"; "partial"]))) invalid;
      id ← (if bool_decide (prefix = "partial") then
              match last_index_of ":" id with
              | None | Some O => Throw invalid
              | Some last => if sequence_text (str_drop (S last) id) then Ok (str_take last id) else Throw invalid
              end
            else Ok id);
      _ ← throw_if (negb (nonempty id)) invalid;
      Ok id
  end.

(** Changes the first element for which [p] holds. *)
Fixpoint update_first (p : jval → bool) (f : jval → jval) (l : list jval) : list jval :=
  match l with
  | [] => []
  | x :: l => if p x then f x :: l else x :: update_first p f l
  end.

Definition acknowledge (now eventId recipient : string) (doc : jval) : result (option jval) :=
  match oprop doc "deliveries" with
  | JArr deliveries =>
      match List.find (λ x, eq_str (oprop x "eventId") eventId) deliveries with
      | None => Throw (fault 404 "delivery_not_found")
      | Some event =>
          _ ← throw_if (negb (eq_str (oprop event "recipient") recipient)) (fault 404 "delivery_not_found");
          if truthy (oprop event "acknowledgedAt") then Ok None
          else Ok (Some (set "deliveries" (JArr (update_first (λ x, eq_str (oprop x "eventId") eventId)
                                                  (set "acknowledgedAt" (JStr now)) deliveries)) doc))
      end
  | _ => Throw (error "Cannot read properties of undefined")
  end.

(** Whether the acknowledgement was already there. *)
Definition acknowledgeDelivery (now eventId recipient : string) : M W bool :=
  _ ← guard_throw (negb (forallb nonempty [eventId; recipient])) (fault 400 "invalid_delivery_ack");
  id ← lift_result (delivery_request eventId);
  '(changed, _) ← mutate_plain "need" id (acknowledge now eventId recipient);
  mret (negb changed).

(** ** Compaction of a closed need *)

Definition compactable (event : jval) : bool :=
  eq_str (oprop event "kind") "PARTIAL" && negb (nullish (oprop event "acknowledgedAt")) &&
  negb (strict_eq (oprop event "event") JNull).

Definition compact_event (now : string) (event : jval) : result jval :=
  if negb (compactable event) then Ok event
  else
    _ ← throw_if (bool_decide (Date_parse (to_string (oprop event "acknowledgedAt")) = None) ||
                  negb (truthy (oprop event "event"))) invalid_response;
    Ok (set "payloadCompactedAt" (JStr now)
          (set "event" JNull (set "eventDigest" (JStr (sha256_hex (json (oprop event "event")))) event))).

Definition compact_need (now requester : string) (doc : jval) : result (option jval) :=
  _ ← authorize doc (Some requester) None;
  _ ← throw_if (negb (includes TERMINAL (oprop doc "status"))) (fault 409 "lifecycle_compaction_requires_terminal");
  match oprop doc "deliveries" with
  | JArr deliveries =>
      compacted ← result_map (compact_event now) deliveries;
      Ok (if existsb compactable deliveries then Some (set "deliveries" (JArr compacted) doc) else None)
  | _ => Throw invalid_response
  end.

Definition compactNeed (now id requester : string) : M W (bool * jval) :=
  _ ← guard_throw (negb (validNeedId id) || negb (nonempty requester)) (fault 400 "invalid_lifecycle_compaction");
  '(changed, row) ← mutate_plain "need" id (compact_need now requester);
  mret (changed, oprop row "status").

(** ** Offers and the slots of their owners *)

Definition signedOffer (envelope : jval) (id owner fingerprint : string) : result (list (string * jval)) :=
  match stringify envelope with
  | None => Throw (fault 413 "lifecycle_offer_too_large")
  | Some text =>
      _ ← throw_if (bool_decide (128000 < byte_length text)%Z) (fault 413 "lifecycle_offer_too_large");
      let capability := js_or (oprop (oprop (oprop envelope "payload") "capability") "name")
                          (oprop (oprop envelope "payload") "capability") in
      _ ← throw_if (negb (match verifyEnvelope envelope ["OFFER"] with Accepted => true | Rejected _ => false end) ||
                    negb (eq_str (oprop envelope "id") id) || negb (eq_str (oprop envelope "from") owner) ||
                    negb (bool_decide (sha256_hex text = fingerprint)) || negb (nonempty_value capability))
            (fault 409 "lifecycle_offer_integrity_mismatch");
      Ok [("offerDirectoryVersion", JNum (JInt 1)); ("offerJson", JStr text); ("offerCapability", capability)]
  end.

Definition slot_id (slot : jval) : jval := oprop slot "id".

Definition validateOfferOwner (doc : jval) (owner : string) : result unit :=
  let slots := elements_of (oprop doc "offerSlots") in
  throw_if (negb (eq_str (oprop doc "owner") owner) || negb (eq_int (oprop doc "slotLimit") 128) ||
            negb (is_array (oprop doc "offerSlots")) || bool_decide (128 < length slots) ||
            existsb (λ s, negb (nonempty_value (slot_id s)) || negb (nonempty_value (oprop s "fingerprint"))) slots ||
            negb (distinct_values (map slot_id slots)))
    (fault 503 "lifecycle_offer_owner_index_invalid").

Definition slot_of (doc : jval) (id : jval) : option jval :=
  List.find (λ s, strict_eq (slot_id s) id) (elements_of (oprop doc "offerSlots")).

Definition claim_slot (id owner fingerprint : string) (doc : jval) : result (option jval) :=
  _ ← validateOfferOwner doc owner;
  match slot_of doc (JStr id) with
  | Some existing =>
      _ ← throw_if (negb (eq_str (oprop existing "fingerprint") fingerprint))
            (fault 409 "lifecycle_offer_integrity_mismatch");
      Ok None
  | None =>
      let slots := elements_of (oprop doc "offerSlots") in
      _ ← throw_if (bool_decide (128 ≤ length slots)) (fault 503 "lifecycle_offer_owner_capacity_reached");
      Ok (Some (set "offerSlots" (JArr (slots ++ [JObj [("id", JStr id); ("fingerprint", JStr fingerprint)]])) doc))
  end.

Definition claimOfferSlot (now id owner fingerprint : string) : M W unit :=
  index ← get_doc "offer-owner" owner;
  _ ← match index with
      | Some _ => mret tt
      | None =>
          catch_with (_ ← create now "offer-owner" owner
                        [("owner", JStr owner); ("slotLimit", JNum (JInt 128)); ("offerSlots", JArr [])]; mret tt)
            (λ e, if bool_decide (e_httpStatus e = Some 409%Z) then mret tt else throw e)
      end;
  _ ← mutate_plain "offer-owner" owner (claim_slot id owner fingerprint);
  mret tt.

Definition free_slot (id fingerprint : jval) (owner : string) (doc : jval) : result (option jval) :=
  _ ← validateOfferOwner doc owner;
  match slot_of doc id with
  | None => Ok None
  | Some slot =>
      _ ← throw_if (negb (strict_eq (oprop slot "fingerprint") fingerprint))
            (fault 503 "lifecycle_offer_owner_index_invalid");
      Ok (Some (set "offerSlots"
                  (JArr (List.filter (λ s, negb (strict_eq (slot_id s) id)) (elements_of (oprop doc "offerSlots")))) doc))
  end.

Definition releaseRevokedOfferSlot (offer : jval) : M W unit :=
  if negb (eq_int (oprop offer "offerDirectoryVersion") 1) then mret tt
  else
    let owner := string_or_empty (oprop offer "owner") in
    _ ← mutate_plain "offer-owner" owner (free_slot (oprop offer "logicalId") (oprop offer "fingerprint") owner);
    mret tt.

Definition releaseOfferClaim (id owner fingerprint : string) : M W unit :=
  index ← get_doc "offer-owner" owner;
  match index with
  | None => mret tt
  | Some _ => _ ← mutate_plain "offer-owner" owner (free_slot (JStr id) (JStr fingerprint) owner); mret tt
  end.

Definition offer_data (owner fingerprint : string) (projection : list (string * jval)) : list (string * jval) :=
  [("owner", JStr owner); ("fingerprint", JStr fingerprint); ("revoked", JNum (JInt 0))] ++ projection.

Definition duplicate_offer (e : jerror) : bool :=
  bool_decide (e_httpStatus e = Some 409%Z) && bool_decide (e_publicCode e = Some "duplicate_offer").

(** [envelope] is JNull for an offer without a recoverable snapshot. *)
Definition reserveOffer (now id owner fingerprint : string) (envelope : jval) : M W jval :=
  _ ← guard_throw (negb (forallb nonempty [id; owner; fingerprint])) (fault 400 "invalid_offer_reservation");
  projection ← lift_result (if nullish envelope then Ok [] else signedOffer envelope id owner fingerprint);
  let recoverable := negb (nullish envelope) in
  _ ← (if recoverable then
         _ ← lift_result (packed (document now "offer" id (offer_data owner fingerprint projection)));
         existing ← get_doc "offer" id;
         _ ← guard_throw (bool_decide (is_Some existing)) (fault 409 "duplicate_offer");
         claimOfferSlot now id owner fingerprint
       else mret tt);
  catch_with (create now "offer" id (offer_data owner fingerprint projection))
    (λ e,
      _ ← (if recoverable && duplicate_offer e then
             existing ← get_doc "offer" id;
             match existing with
             | Some doc =>
                 if negb (eq_str (oprop doc "owner") owner) || negb (eq_str (oprop doc "fingerprint") fingerprint)
                 then releaseOfferClaim id owner fingerprint else mret tt
             | None => mret tt
             end
           else mret tt);
      throw e).

Definition revoke (owner : string) (doc : jval) : result (option jval) :=
  _ ← throw_if (negb (eq_str (oprop doc "owner") owner)) (fault 403 "not_target_owner");
  if truthy (oprop doc "revoked") then Ok None else Ok (Some (set "revoked" (JNum (JInt 1)) doc)).

Definition revokeOffer (id owner : string) : M W (bool * jval) :=
  '(changed, row) ← mutate_plain "offer" id (revoke owner);
  _ ← releaseRevokedOfferSlot row;
  mret (changed, row).

Definition verifyCapacityContract : M W (option jval) :=
  match recordCapacity cfg with
  | None => mret None
  | Some _ =>
      row ← get_doc "capacity" CAPACITY_ID;
      match row with
      | None => throw (fault 503 "lifecycle_capacity_not_initialized")
      | Some row => saved ← lift_result (validateCapacity row); mret (Some (oprop saved "reserved"))
      end
  end.

(** ** Recovered results *)

Definition hex64 (v : jval) : bool :=
  match v with JStr s => bool_decide (String.length s = 64) && str_forall is_hex_digit s | _ => false end.

Definition response_id_char (c : ascii) : bool :=
  let n := N_of_ascii c in
  bool_decide ((97 ≤ n ∧ n ≤ 122) ∨ (65 ≤ n ∧ n ≤ 90) ∨ (48 ≤ n ∧ n ≤ 57) ∨ n = 95 ∨ n = 45)%N.
Definition response_id (v : jval) : bool :=
  match v with
  | JStr s => bool_decide (str_take 5 s = "resp_") && bool_decide (6 ≤ String.length s ≤ 205) &&
              str_forall response_id_char (str_drop 5 s)
  | _ => false
  end.

Definition accepts (envelope : jval) (type : string) : bool :=
  match verifyEnvelope envelope [type] with Accepted => true | Rejected _ => false end.

Definition hash_canonical (v : jval) : result string := text ← canonicalize v; Ok (sha256_hex text).

Definition count (v : jval) : option Z :=
  match is_safe_integer v with Some n => if bool_decide (0 ≤ n)%Z then Some n else None | None => None end.

(** The token counts of a receipt, if they are consistent. *)
Definition usage_counts (usage : jval) : option (Z * Z * Z) :=
  match count (oprop usage "input_tokens"), count (oprop usage "output_tokens"), count (oprop usage "total_tokens") with
  | Some i, Some o, Some t => if bool_decide (i + o ≤ max_safe ∧ i + o = t)%Z then Some (i, o, t) else None
  | _, _, _ => None
  end.

Definition invalid_recovered : jerror := fault 400 "invalid_recovered_result".

(** The checks on the caller's data. *)
Definition check_recovered (need delivery : jval) (provider : string) (receiptDigest : jval) : result jval :=
  _ ← throw_if (negb (eq_str (oprop need "type") "NEED") || truthy (oprop need "compact") ||
                truthy (oprop need "chain") || negb (accepts need "NEED") || negb (nonempty provider) ||
                negb (hex64 receiptDigest)) invalid_recovered;
  let signed := oprop (oprop delivery "event") "envelope" in
  _ ← throw_if (negb (eq_str (oprop delivery "kind") "RESULT") ||
                negb (strict_eq (oprop delivery "recipient") (oprop need "from")) ||
                negb (eq_str (oprop (oprop delivery "event") "kind") "RESULT") ||
                negb (eq_str (oprop signed "type") "RESULT") || negb (accepts signed "RESULT") ||
                negb (eq_str (oprop signed "from") provider) ||
                negb (strict_eq (oprop signed "to") (oprop need "from")) ||
                negb (strict_eq (oprop (oprop signed "payload") "requestId") (oprop need "id")) ||
                negb (is_string (oprop (oprop signed "payload") "output"))) invalid_recovered;
  Ok signed.

(** The effect the result claims, and the receipt it left. *)
Definition check_effect (need signed : jval) (provider receiptDigest : string) (effect : jval)
    : result (Z * Z * Z) :=
  let fingerprint := sha256_hex (json (JArr [oprop need "id"; oprop need "from"; oprop need "payload"])) in
  _ ← throw_if (negb (truthy effect) || negb (strict_eq (oprop effect "requester") (oprop need "from")) ||
                negb (eq_str (oprop effect "provider") provider) ||
                negb (eq_str (oprop effect "fingerprint") fingerprint) ||
                negb (includes ["started"; "unknown"; "completed"] (oprop effect "status")))
        (fault 409 "effect_identity_conflict");
  let receipt := oprop effect "effectReceipt" in
  let unverified := fault 409 "effect_receipt_unverified" in
  _ ← throw_if (negb (eq_int (oprop receipt "version") 1) || negb (eq_str (oprop receipt "provider") "azure-openai") ||
                negb (response_id (oprop receipt "responseId")) || negb (nonempty_value (oprop receipt "model")) ||
                bool_decide (256 < String.length (string_or_empty (oprop receipt "model"))) ||
                negb (hex64 (oprop receipt "scopeDigest")) ||
                negb (eq_str (oprop receipt "outputDigest")
                        (sha256_hex (string_or_empty (oprop (oprop signed "payload") "output"))))) unverified;
  match usage_counts (oprop receipt "usage") with
  | None => Throw unverified
  | Some counts =>
      d ← hash_canonical receipt;
      _ ← throw_if (negb (bool_decide (d = receiptDigest))) unverified;
      expected ← canonicalize (JObj
        [("provider", JStr "azure-openai"); ("usage", oprop receipt "usage"); ("receiptDigest", JStr receiptDigest);
         ("recovered", JBool true); ("usageAccounting", JStr "operational-only");
         ("providerInvoiceVerified", JBool false); ("accountingSettled", JBool false)]);
      let conflict := fault 409 "invalid_recovered_usage_metadata" in
      _ ← throw_if (negb (eq_str (oprop signed "id") ("g5-recovered-" +:+ sha256_hex (to_string (oprop need "id")))) ||
                    negb (strict_eq (oprop signed "createdAt") (oprop effect "receiptCapturedAt"))) conflict;
      actual ← canonicalize (oprop (oprop signed "payload") "metadata");
      _ ← throw_if (negb (bool_decide (actual = expected))) conflict;
      Ok counts
  end.

Definition usage_record (need : jval) (provider receiptDigest resultDigest : string) (counts : Z * Z * Z) : jval :=
  let '(i, o, t) := counts in
  JObj [("schema", JStr "truyn.g5.recovered-usage/v1"); ("requestId", oprop need "id");
        ("requester", oprop need "from"); ("provider", JStr provider);
        ("effectFingerprint",
          JStr (sha256_hex (json (JArr [oprop need "id"; oprop need "from"; oprop need "payload"]))));
        ("receiptDigest", JStr receiptDigest); ("inputTokens", JNum (JInt i)); ("outputTokens", JNum (JInt o));
        ("totalTokens", JNum (JInt t)); ("resultDigest", JStr resultDigest); ("vendorChargeVerified", JBool false)].

Definition of_kind (kind : string) (doc : jval) : list jval :=
  List.filter (λ d, eq_str (oprop d "kind") kind) (elements_of (oprop doc "deliveries")).

Definition same_canonical (v w : jval) : result bool :=
  a ← canonicalize v; b ← canonicalize w; Ok (bool_decide (a = b)).

Definition recover_need (now : string) (need delivery : jval) (provider resultDigest : string) (record doc : jval)
    : result (option jval) :=
  let original := match of_kind "NEED" doc with d :: _ => oprop (oprop d "event") "envelope" | [] => JUndef end in
  let mismatch := fault 409 "recovered_need_binding_mismatch" in
  let conflict := fault 409 "recovered_result_conflict" in
  _ ← throw_if (negb (eq_str (oprop doc "mode") "legacy") || negb (strict_eq (oprop doc "requester") (oprop need "from")) ||
                negb (eq_str (oprop doc "provider") provider) || negb (strict_eq (oprop doc "scope") (oprop need "from")) ||
                negb (truthy original) || negb (eq_str (oprop doc "fingerprint") (sha256_hex (json original)))) mismatch;
  same ← same_canonical original need;
  _ ← throw_if (negb same) mismatch;
  if eq_str (oprop doc "status") "completed" && truthy (oprop doc "recoveredUsage") then
    same ← same_canonical (oprop doc "recoveredUsage") record;
    _ ← throw_if (negb same) conflict;
    match of_kind "RESULT" doc with
    | [terminal] =>
        d ← hash_canonical (oprop terminal "event");
        _ ← throw_if (negb (bool_decide (d = resultDigest))) conflict;
        Ok None
    | _ => Throw conflict
    end
  else
    _ ← throw_if (negb (eq_str (oprop doc "status") "matched")) (closed_fault doc);
    _ ← throw_if (truthy (oprop doc "recoveredUsage")) conflict;
    doc ← appendDelivery doc delivery "RESULT" (oprop doc "requester");
    Ok (Some (set "terminalAt" (JStr now) (set "status" (JStr "completed") (set "recoveredUsage" record doc)))).

Record recovered := Recovered { v_idempotent : bool; v_usageRecord : jval; v_resultQueued : bool }.

(** The call's abort signal is not raised. *)
Definition commitRecoveredResult (now : string) (need delivery : jval) (provider : string) (receiptDigest : jval)
    : M W recovered :=
  signed ← lift_result (check_recovered need delivery provider receiptDigest);
  let id := string_or_empty (oprop need "id") in
  let receiptDigest := string_or_empty receiptDigest in
  effect ← get_doc "effect" id;
  counts ← lift_result (check_effect need signed provider receiptDigest (default JNull effect));
  resultDigest ← lift_result (hash_canonical (oprop delivery "event"));
  let record := usage_record need provider receiptDigest resultDigest counts in
  '(changed, row) ← mutate_plain "need" id (recover_need now need delivery provider resultDigest record);
  let unverified := fault 503 "recovered_result_commit_unverified" in
  _ ← guard_throw (negb (eq_str (oprop row "status") "completed") || negb (truthy (oprop row "recoveredUsage"))) unverified;
  same ← lift_result (same_canonical (oprop row "recoveredUsage") record);
  _ ← guard_throw (negb same) unverified;
  match of_kind "RESULT" row with
  | [terminal] =>
      d ← lift_result (hash_canonical (oprop terminal "event"));
      _ ← guard_throw (negb (bool_decide (d = resultDigest))) unverified;
      mret (Recovered (negb changed) (oprop row "recoveredUsage") (negb (truthy (oprop terminal "acknowledgedAt"))))
  | _ => throw unverified
  end.

(** ** Pending deliveries *)

Definition quoted (s : string) : string := String dquote s +:+ String dquote "".

Definition pending_query : string :=
  "SELECT VALUE c FROM c WHERE c.kind = " +:+ quoted "need" +:+
  " AND EXISTS (SELECT VALUE e FROM e IN c.deliveries WHERE e.recipient = @recipient AND IS_NULL(e.acknowledgedAt) AND (e.kind != " +:+
  quoted "NEED" +:+ " OR c.status = " +:+ quoted "matched" +:+ "))".

Definition due (recipient : string) (doc d : jval) : bool :=
  eq_str (oprop d "recipient") recipient && strict_eq (oprop d "acknowledgedAt") JNull &&
  negb (eq_str (oprop d "kind") "NEED" && negb (eq_str (oprop doc "status") "matched")).

Definition due_item (doc d : jval) : jval :=
  JObj [("eventId", oprop d "eventId"); ("kind", oprop d "kind"); ("requestId", oprop doc "logicalId");
        ("event", oprop d "event"); ("createdAt", oprop doc "createdAt")].

Definition due_of (recipient : string) (doc : jval) : result (list jval) :=
  if negb (eq_str (oprop doc "kind") "need") || negb (is_array (oprop doc "deliveries"))
  then Throw (fault 503 "lifecycle_outbox_query_invalid")
  else Ok (map (due_item doc) (List.filter (due recipient doc) (elements_of (oprop doc "deliveries")))).

(** One page: [inl] with the full batch, [inr] with what was collected. *)
Fixpoint collect_page (recipient : string) (limit : nat) (docs output : list jval)
    : result (list jval + list jval) :=
  match docs with
  | [] => Ok (inr output)
  | doc :: docs =>
      items ← due_of recipient doc;
      let output := output ++ items in
      if bool_decide (limit ≤ length output) then Ok (inl (take limit output))
      else collect_page recipient limit docs output
  end.

Fixpoint collect_pages (pages : nat) (recipient : string) (limit : nat) (continuation : jval) (output : list jval)
    : M W (list jval) :=
  match pages with
  | O => throw (fault 503 "lifecycle_outbox_scan_capacity_reached")
  | S pages =>
      r ← api (Query pending_query recipient continuation);
      _ ← guard_throw (negb (bool_decide (p_status r = 200)%Z) || negb (is_array (oprop (p_doc r) "Documents")))
            (fault 503 "lifecycle_outbox_query_invalid");
      out ← lift_result (collect_page recipient limit (elements_of (oprop (p_doc r) "Documents")) output);
      match out with
      | inl batch => mret batch
      | inr output =>
          if negb (truthy (p_continuation r)) then mret output
          else collect_pages pages recipient limit (p_continuation r) output
      end
  end.

Definition pendingDeliveries (recipient : string) (limit : Z) : M W (list jval) :=
  _ ← guard_throw (negb (nonempty recipient) || bool_decide (limit < 1)%Z || bool_decide (100 < limit)%Z)
        (fault 400 "invalid_delivery_query");
  collect_pages 50 recipient (Z.to_nat limit) JNull [].

Definition rollbackPartial : M W unit := throw (fault 503 "distributed_partial_rollback_not_safe").

End ledger.
End Cosmos.
