(* ===== verification/SharedHistory.v ===== *)
(** * Lifecycle documents under concurrent hosts

    What the operations of [Cosmos] do to the history of a store that several
    hosts write: the versions of every document evolve legally, whatever the
    other hosts do between and during the requests and whichever replies are
    lost. *)
From S2P Require Import Prelude JSMap JSValue Dates Host Protocol Cosmos.

Module SharedHistory.
Import Canonical Keys Envelope Cosmos.

(** ** The shared history *)

(** A committed version of a document. *)
Record change := Change { c_key : string; c_doc : jval; c_etag : jval }.

Definition latest (key : string) (h : list change) : option change :=
  last (List.filter (λ c, String.eqb (c_key c) key) h).

(** What the code compares of a value: primitives; objects and arrays only as
    such. *)
Definition scalar (v : jval) : jval :=
  match v with JArr _ => JArr [] | JObj _ => JObj [] | v => v end.

Definition same_member (v w : jval) (k : string) : Prop := scalar (oprop v k) = scalar (oprop w k).

Definition system_members : list string := ["_rid"; "_self"; "_etag"; "_attachments"; "_ts"].

(** A stored document as the store returns it: the members that are its own,
    in any order, those of its authorisation and of its deliveries too. *)
Definition reads_as (doc body : jval) : Prop :=
  (∀ k, k ∉ system_members → same_member doc body k) ∧
  (∀ k, same_member (oprop doc "paidAuthorization") (oprop body "paidAuthorization") k) ∧
  Forall2 (λ d e, ∀ k, same_member d e k) (elements_of (oprop doc "deliveries")) (elements_of (oprop body "deliveries")).

Definition fresh (h : list change) (c : change) : Prop := ∀ c', c' ∈ h → c_key c' = c_key c → c_etag c' ≠ c_etag c.

(** *** Legal versions *)

Definition is_open (doc : jval) : bool := includes ["matched"; "started"] (oprop doc "status").

Definition immutable : list string :=
  ["schemaVersion"; "kind"; "logicalId"; "ttl"; "createdAt"; "requester"; "provider"; "fingerprint";
   "capability"; "mode"; "scope"; "policyDigest"; "paidAuthorization"; "owner"].

Definition delivery_later (d e : jval) : Prop :=
  (∀ k, k ∈ ["eventId"; "recipient"; "kind"] → same_member e d k) ∧
  (truthy (oprop d "acknowledgedAt") = true → same_member e d "acknowledgedAt").

(** What an operation may do to a document. *)
Record evolves (old new : jval) : Prop := {
  ev_immutable : ∀ k, k ∈ immutable → same_member new old k;
  ev_paid : ∀ k, same_member (oprop new "paidAuthorization") (oprop old "paidAuthorization") k;
  ev_closed : is_open old = false → same_member new old "status" ∧ same_member new old "partialSequence";
  ev_revoked : truthy (oprop old "revoked") = true → same_member new old "revoked";
  ev_deliveries : ∃ kept extra, elements_of (oprop new "deliveries") = kept ++ extra ∧
    Forall2 delivery_later (elements_of (oprop old "deliveries")) kept ∧ (is_open old = false → extra = [])
}.

(** The versions of a key: the first is numbered 1, each other is numbered
    after and evolves from the one before. *)
Definition legal (h : list change) (c : change) : Prop :=
  match latest (c_key c) h with
  | None => oprop (c_doc c) "version" = JNum (JInt 1)
  | Some p => oprop (c_doc c) "version" = add_one (oprop (c_doc p) "version") ∧ evolves (c_doc p) (c_doc c)
  end.

Definition write (h h' : list change) : Prop := ∃ c, h' = h ++ [c] ∧ legal h c ∧ fresh h c.

Inductive good : list change → Prop :=
| good_nil : good []
| good_snoc h c : good h → legal h c → fresh h c → good (h ++ [c]).

(** *** What the store does with a request *)

Definition committed (r : request) (h h' : list change) : Prop :=
  match r with
  | Post key body => ∃ etag, latest key h = None ∧ h' = h ++ [Change key body etag] ∧ fresh h (Change key body etag)
  | Put key match_ body =>
      ∃ etag p, latest key h = Some p ∧ c_etag p = match_ ∧ h' = h ++ [Change key body etag] ∧
        fresh h (Change key body etag)
  | Get _ | Query _ _ _ => False
  end.

(** A read answers with some committed version and its ETag; a write that is
    confirmed was committed, one that is refused was not, and one whose reply
    is lost or is an error may have been. *)
Definition served (r : request) (answer : result response) (h h' : list change) : Prop :=
  match answer with
  | Throw _ => h' = h ∨ committed r h h'
  | Ok resp =>
      if bool_decide (r_status resp = 200 ∨ r_status resp = 201)%Z then
        match r with
        | Get key => h' = h ∧ (r_status resp = 200%Z → ∃ c doc, c ∈ h ∧ c_key c = key ∧ r_body resp = Some doc ∧
                       js_or (r_etag resp) (oprop doc "_etag") = c_etag c ∧ reads_as doc (c_doc c))
        | Query _ _ _ => h' = h
        | _ => committed r h h'
        end
      else if bool_decide (r_status resp = 412 ∨ r_status resp = 409)%Z then h' = h
      else h' = h ∨ committed r h h'
  end.

Section shared.
Context `{Host} {W : Type} `{!Remote W} {cfg : config}.
Context (log : W → list change).

(** The store as the hosts use it: before and after it serves a request it
    commits what the other hosts write, legal versions with new ETags. *)
Class Store : Prop := store_serves r w :
  ∃ h1 h2, rtc write (log w) h1 ∧ served r (fetch r w).2 h1 h2 ∧ rtc write h2 (log (fetch r w).1).

(** ** Histories *)

Lemma latest_in key h c : latest key h = Some c → c ∈ h ∧ c_key c = key.
Proof.
  unfold latest. intros Hl%last_Some_elem_of. apply list_elem_of_In, filter_In in Hl as [Hin Hk].
  split; [by apply list_elem_of_In|by apply String.eqb_eq].
Qed.

Lemma latest_snoc key h c : latest key (h ++ [c]) = if String.eqb (c_key c) key then Some c else latest key h.
Proof.
  unfold latest. rewrite List.filter_app. cbn [List.filter]. destruct (String.eqb (c_key c) key).
  - by rewrite last_snoc.
  - by rewrite app_nil_r.
Qed.

(** An ETag identifies a version of its document. *)
Lemma good_etags h c c' :
  good h → c ∈ h → c' ∈ h → c_key c = c_key c' → c_etag c = c_etag c' → c = c'.
Proof.
  induction 1 as [|h d Hg IH Hl Hf]; [by intros ?%elem_of_nil|].
  rewrite !elem_of_app, !list_elem_of_singleton. intros [Hc| ->] [Hc'| ->] Hk He; [auto| | |done].
  - by destruct (Hf c Hc Hk).
  - by destruct (Hf c' Hc' (eq_sym Hk)).
Qed.

Lemma good_write h h' : good h → write h h' → good h' ∧ h `prefix_of` h'.
Proof. intros Hg (c & -> & Hl & Hf). split; [by constructor|by eexists]. Qed.

Lemma good_writes h h' : rtc write h h' → good h → good h' ∧ h `prefix_of` h'.
Proof.
  induction 1 as [h|h h1 h2 Hw _ IH]; intros Hg; [done|].
  destruct (good_write _ _ Hg Hw) as [Hg1 Hp]. destruct (IH Hg1). split; [done|by etrans].
Qed.

(** ** Computations that keep the history good *)

Definition keeps (w w' : W) : Prop := good (log w) → good (log w') ∧ log w `prefix_of` log w'.
Definition safe {A} (m : M W A) : Prop := ∀ w, keeps w (m w).1.

Lemma keeps_trans w1 w2 w3 : keeps w1 w2 → keeps w2 w3 → keeps w1 w3.
Proof. intros H12 H23 Hg. destruct (H12 Hg) as [Hg2 ?]. destruct (H23 Hg2). split; [done|by etrans]. Qed.

Lemma safe_id {A} (r : result A) : safe (λ w, (w, r)).
Proof. by intros w Hg. Qed.

Lemma safe_bind {A B} (m : M W A) (f : A → M W B) : safe m → (∀ a, safe (f a)) → safe (x ← m; f x).
Proof.
  intros Hm Hf w. unfold mbind, M_bind. specialize (Hm w). destruct (m w) as [w1 [a|e]]; cbn in *; [|done].
  eapply keeps_trans; [exact Hm|apply Hf].
Qed.

Lemma safe_catch {A} (m : M W A) (f : jerror → M W A) : safe m → (∀ e, safe (f e)) → safe (catch_with m f).
Proof.
  intros Hm Hf w. unfold catch_with. specialize (Hm w). destruct (m w) as [w1 [a|e]]; cbn in *; [done|].
  eapply keeps_trans; [exact Hm|apply Hf].
Qed.

Lemma safe_guard b e : safe (guard_throw b e).
Proof. intros w. by destruct b. Qed.

Context `{!Store}.

(** A write that would be legal wherever it is committed. *)
Definition may_write (r : request) (h : list change) : Prop :=
  ∀ h1 h2, good h1 → h `prefix_of` h1 → committed r h1 h2 → write h1 h2.

Lemma call_keeps r w : (good (log w) → may_write r (log w)) → keeps w (call r w).1.
Proof.
  intros Hr Hg. destruct (store_serves r w) as (h1 & h2 & H1 & Hs & H2).
  destruct (good_writes _ _ H1 Hg) as [Hg1 Hp1].
  assert (good h2 ∧ h1 `prefix_of` h2) as [Hg2 Hp2].
  { assert (Hcase : h2 = h1 ∨ committed r h1 h2).
    { unfold served in Hs. destruct (fetch r w) as [w' [resp|e]]; cbn in Hs; [|done].
      repeat case_bool_decide; auto. destruct r; auto. left. by destruct Hs. }
    destruct Hcase as [->|Hc]; [by split|]. apply good_write; [done|]. by apply (Hr Hg). }
  destruct (good_writes _ _ H2 Hg2) as [Hg3 Hp3].
  unfold call. destruct (fetch r w) as [w' [resp|e]]; cbn in *; (split; [done|]); by do 2 (etrans; [eassumption|]).
Qed.

Lemma api_keeps r w : (good (log w) → may_write r (log w)) → keeps w (api r w).1.
Proof.
  intros Hr. unfold api. unfold mbind, M_bind. destruct (guard_throw _ _ w) as [w1 [[]|e]] eqn:Hgd.
  - assert (w1 = w) as -> by (unfold guard_throw in Hgd; destruct (_ && _) in Hgd; cbn in Hgd; congruence).
    by apply call_keeps.
  - assert (w1 = w) as -> by (unfold guard_throw in Hgd; destruct (_ && _) in Hgd; cbn in Hgd; congruence). by intros Hg.
Qed.

Lemma safe_read r : match r with Get _ | Query _ _ _ => True | _ => False end → safe (api r).
Proof. intros Hr w. apply api_keeps. intros _ h1 h2 _ _ Hc. by destruct r. Qed.

Lemma safe_get kind id : safe (get_doc kind id).
Proof.
  unfold get_doc. apply safe_bind; [apply safe_guard|]. intros _. apply safe_bind; [by apply safe_read|].
  intros r. destruct (bool_decide _); [apply safe_id|]. cbv zeta.
  apply safe_bind; [apply safe_guard|]. intros _. apply safe_id.
Qed.

(** ** Documents *)

Definition is_object (v : jval) : Prop := match v with JObj _ => True | _ => False end.

Lemma oprop_set k w v k' : is_object v → oprop (set k w v) k' = if decide (k' = k) then w else oprop v k'.
Proof.
  destruct v as [| | | | | | |kvs]; try done. intros _. cbn [set oprop].
  induction kvs as [|[j x] kvs IH]; cbn [set_key lookup_key]; [by destruct (decide (k' = k))|].
  destruct (decide (k = j)) as [->|Hk]; cbn [lookup_key]; [by destruct (decide (k' = j))|].
  destruct (decide (k' = j)) as [->|Hj]; [|done]. by rewrite decide_False.
Qed.

Lemma oprop_delete k v k' : k' ≠ k → oprop (delete k v) k' = oprop v k'.
Proof.
  intros Hk. destruct v as [| | | | | | |kvs]; try done. cbn [delete oprop]. unfold remove_key.
  induction kvs as [|[j x] kvs IH]; [done|]. rewrite filter_cons. cbn [fst].
  destruct (decide (j ≠ k)) as [Hj|Hj]; cbn [lookup_key]; destruct (decide (k' = j)) as [->|]; try done.
Qed.

Lemma set_object k w v : is_object v → is_object (set k w v).
Proof. by destruct v. Qed.
Lemma delete_object k v : is_object v → is_object (delete k v).
Proof. by destruct v. Qed.

Lemma truthy_scalar v : truthy (scalar v) = truthy v.
Proof. by destruct v. Qed.
Lemma add_one_scalar v : add_one (scalar v) = add_one v.
Proof. by destruct v. Qed.
Lemma includes_scalar l v : includes l (scalar v) = includes l v.
Proof. by destruct v. Qed.

Lemma same_truthy v w k : same_member v w k → truthy (oprop v k) = truthy (oprop w k).
Proof. unfold same_member. intros E. by rewrite <- truthy_scalar, E, truthy_scalar. Qed.

Lemma same_open v w : same_member v w "status" → is_open v = is_open w.
Proof. unfold same_member, is_open. intros E. by rewrite <- includes_scalar, E, includes_scalar. Qed.

Lemma later_of_same d0 d e : (∀ k, same_member d d0 k) → delivery_later d e → delivery_later d0 e.
Proof.
  intros Hs [Hk Ha]. split; [intros k Hin; etrans; [by apply Hk|apply Hs]|].
  intros Ht. etrans; [apply Ha; by rewrite (same_truthy _ _ _ (Hs _))|apply Hs].
Qed.

Lemma delivery_later_refl d : delivery_later d d.
Proof. split; intros; reflexivity. Qed.

Lemma deliveries_later_refl l : Forall2 delivery_later l l.
Proof. induction l; constructor; auto using delivery_later_refl. Qed.

(** What was read, and is sent back changed, evolves from what is stored. *)
Lemma read_then_evolved stored current next :
  reads_as current stored → oprop current "ttl" = JNum (JInt (-1)) → is_object next → evolves current next →
  evolves stored (successor_of current next).
Proof.
  intros (Hr & Hp & Hd) Httl Hobj [Hi Hpaid Hc Hv (kept & extra & He & Hk & Hx)].
  assert (Hb : ∀ k, k ∉ ["ttl"; "version"; "_etag"] → oprop (successor_of current next) k = oprop next k).
  { intros k Hk'. unfold successor_of. rewrite oprop_set by auto using delete_object, set_object.
    rewrite decide_False by (intros ->; apply Hk'; by left).
    rewrite oprop_delete by (intros ->; apply Hk'; by right; right; left).
    rewrite oprop_set by done. by rewrite decide_False by (intros ->; apply Hk'; by right; left). }
  assert (Hopen : is_open current = is_open stored) by (apply same_open, Hr; by vm_compute; set_solver).
  split.
  - intros k Hk'. unfold same_member. destruct (decide (k = "ttl")) as [->|Hn].
    + transitivity (scalar (JNum (JInt (-1)))).
      * unfold successor_of. rewrite oprop_set by auto using delete_object, set_object. by rewrite decide_True.
      * rewrite <- Httl. apply Hr. set_solver.
    + rewrite Hb by (unfold immutable in Hk'; set_solver). etrans; [by apply Hi|]. apply Hr.
      unfold immutable in Hk'. set_solver.
  - intros k. unfold same_member at 1. rewrite (Hb "paidAuthorization") by set_solver. etrans; [apply Hpaid|apply Hp].
  - rewrite <- Hopen. intros Ho. destruct (Hc Ho) as [H1 H2]. unfold same_member. rewrite !Hb by set_solver.
    split; (etrans; [eassumption|apply Hr; set_solver]).
  - intros Ht. unfold same_member. rewrite Hb by set_solver.
    etrans; [apply Hv; rewrite (same_truthy current stored); [done|apply Hr; set_solver]|apply Hr; set_solver].
  - exists kept, extra. rewrite Hb by set_solver. split; [done|]. rewrite <- Hopen. split; [|done].
    clear -Hd Hk. revert kept Hk. induction Hd as [|d e l l' Hde _ IH]; intros kept Hk.
    + by apply Forall2_nil_inv_l in Hk as ->.
    + apply Forall2_cons_inv_l in Hk as (f & kept' & Hf & Hk & ->). constructor; [|by apply IH].
      by eapply later_of_same.
Qed.

(** ** Compare-and-swap under interference *)

(** A document read is a committed version, with its ETag. *)
Record was_read (key : string) (current : jval) (w : W) : Prop := {
  rd_version : ∃ c, c ∈ log w ∧ c_key c = key ∧ c_etag c = oprop current "_etag" ∧ reads_as current (c_doc c);
  rd_object : is_object current;
  rd_ttl : oprop current "ttl" = JNum (JInt (-1))
}.

Lemma guard_passed {S} b e (s s' : S) u : guard_throw b e s = (s', Ok u) → s' = s ∧ b = false.
Proof. unfold guard_throw. destruct b; [done|]. by intros [= <-]. Qed.

Lemma call_get key w w' r :
  good (log w) → call (Get key) w = (w', Ok r) → p_status r = 200%Z → truthy (p_etag r) = true →
  ∃ c, c ∈ log w' ∧ c_key c = key ∧ c_etag c = p_etag r ∧ reads_as (p_doc r) (c_doc c).
Proof.
  intros Hg Hc Hst Htr. pose proof (store_serves (Get key) w) as (h1 & h2 & H1 & Hs & H2).
  unfold call in Hc. destruct (fetch (Get key) w) as [w1 [resp|e]]; [|done]. injection Hc as <- Hcl. cbn in Hs, H2.
  destruct (good_writes _ _ H1 Hg) as [Hg1 _]. unfold classify in Hcl.
  do 3 apply bind_Ok_inv in Hcl as ([] & _ & Hcl).
  destruct (r_status resp =? 404)%Z eqn:H404; cbn [existsb orb] in Hcl; rewrite ?H404 in Hcl; cbn [orb] in Hcl.
  { destruct (bool_decide _); [done|]. by apply Ok_inj in Hcl as <-. }
  apply bind_Ok_inv in Hcl as (doc & Hdoc & <-%Ok_inj). cbn [p_status p_doc p_etag] in *. rewrite Hst in *.
  cbn in Hdoc, Hs. destruct (r_body resp) as [d|]; [|done]. apply Ok_inj in Hdoc as ->.
  destruct Hs as (-> & Hv). destruct (Hv eq_refl) as (c & d' & Hin & Hk & [= <-] & He & Hr).
  destruct (good_writes _ _ H2 Hg1) as [_ [l Hl]]. exists c. split; [rewrite Hl, elem_of_app; by left|].
  split; [done|]. split; [|done]. rewrite He in Htr |- *. revert Htr. unfold js_or. by destruct (truthy (c_etag c)).
Qed.

Lemma api_get key w w' r :
  good (log w) → api (Get key) w = (w', Ok r) → p_status r = 200%Z → truthy (p_etag r) = true →
  ∃ c, c ∈ log w' ∧ c_key c = key ∧ c_etag c = p_etag r ∧ reads_as (p_doc r) (c_doc c).
Proof.
  intros Hg Ha. unfold api in Ha. apply M_bind_Ok_inv in Ha as (w1 & u & Hgd & Hc). apply guard_passed in Hgd as [-> _].
  by eapply call_get.
Qed.

Lemma reads_as_etag e doc body : is_object doc → reads_as doc body → reads_as (set "_etag" e doc) body.
Proof.
  intros Ho (Hk & Hp & Hd). split_and!.
  - intros k Hn. unfold same_member. rewrite oprop_set by done. rewrite decide_False; [by apply Hk|].
    intros ->. apply Hn. unfold system_members. set_solver.
  - rewrite oprop_set by done. by rewrite decide_False.
  - rewrite oprop_set by done. by rewrite decide_False.
Qed.

Lemma get_doc_read kind id w w' current :
  good (log w) → get_doc kind id w = (w', Ok (Some current)) → was_read (partitionId kind id) current w'.
Proof.
  intros Hg Hd. unfold get_doc in Hd. apply M_bind_Ok_inv in Hd as (w1 & u & Hgd & Hd). apply guard_passed in Hgd as [-> _].
  apply M_bind_Ok_inv in Hd as (w2 & r & Ha & Hd). destruct (bool_decide (p_status r = 404)%Z); [done|].
  cbv zeta in Hd. apply M_bind_Ok_inv in Hd as (w3 & u' & Hgd & Hd). apply guard_passed in Hgd as [-> Hchk].
  injection Hd as <- <-. bool_hyps.
  match goal with H : p_status r = 200%Z |- _ => rename H into Hst end.
  match goal with H : truthy (p_etag r) = true |- _ => rename H into Htr end.
  match goal with H : eq_int (oprop (p_doc r) "ttl") _ = true |- _ => apply eq_int_true in H; rename H into Httl end.
  assert (Ho : is_object (p_doc r)) by (by destruct (p_doc r)).
  destruct (api_get _ _ _ _ Hg Ha Hst Htr) as (c & Hin & Hk & He & Hr).
  split; [|by apply set_object|by rewrite oprop_set, decide_False].
  exists c. split; [done|]. split; [done|]. split; [by rewrite oprop_set, decide_True|]. by apply reads_as_etag.
Qed.

(** What a callback must guarantee of the document it returns. *)
Definition evolving {X} (f : callback X) : Prop := ∀ x current x' next,
  is_object current → f x current = Ok (x', Some next) → is_object next ∧ evolves current next.

Lemma packed_same doc doc' : packed doc = Ok doc' → doc' = doc.
Proof. unfold packed. intros ([] & _ & Hp)%bind_Ok_inv. by apply bind_Ok_inv in Hp as ([] & _ & <-%Ok_inj). Qed.

(** Sending back an evolved document is a legal write: it is committed only on
    top of the version that was read. *)
Lemma put_may_write key current next w :
  good (log w) → was_read key current w → is_object next → evolves current next →
  may_write (Put key (oprop current "_etag") (successor_of current next)) (log w).
Proof.
  intros Hg [(c & Hin & Hk & He & Hr) _ Httl] Hobj Hev h1 h2 Hg1 Hp (etag & p & Hl & Hpe & -> & Hf).
  exists (Change key (successor_of current next) etag). split; [done|]. split; [|done].
  destruct (latest_in _ _ _ Hl) as [Hpin Hpk].
  assert (p = c) as ->.
  { apply (good_etags h1); [done|done| |congruence|congruence]. destruct Hp as [l ->]. rewrite elem_of_app. by left. }
  unfold legal. cbn [c_key c_doc]. rewrite Hl. split; [|by apply (read_then_evolved _ current)].
  unfold successor_of. rewrite oprop_set by auto using delete_object, set_object. rewrite decide_False by done.
  rewrite oprop_delete by done. rewrite oprop_set, decide_True by done.
  rewrite <- add_one_scalar, <- (add_one_scalar (oprop (c_doc c) _)). f_equal. apply Hr. unfold system_members. set_solver.
Qed.

Lemma keeps_from w w1 w2 : good (log w) → keeps w w1 → (good (log w1) → keeps w1 w2) → keeps w w2.
Proof. intros Hg H1 H2 _. destruct (H1 Hg) as [Hg1 ?]. destruct (H2 Hg1 Hg1). split; [done|by etrans]. Qed.

Lemma safe_cas {X} attempts kind id (f : callback X) x : evolving f → safe (cas_loop attempts kind id f x).
Proof.
  intros Hf. revert x. induction attempts as [|n IH]; intros x w; [by intros Hg|]. intros Hg. revert Hg. intros Hg.
  enough (keeps w (cas_loop (S n) kind id f x w).1) by auto. cbn [cas_loop].
  unfold mbind at 1, M_bind at 1. pose proof (safe_get kind id w) as Hget.
  destruct (get_doc kind id w) as [w1 [current|e]] eqn:Hread; cbn [fst] in Hget; [|done].
  apply (keeps_from _ _ _ Hg Hget). intros Hg1. destruct current as [current|]; [|by intros ?].
  apply get_doc_read in Hread; [|done].
  unfold mbind at 1, M_bind at 1. cbn [lift_result].
  destruct (f x current) as [[x' [next|]]|e] eqn:Hcall; [|by intros ?|by intros ?].
  unfold mbind at 1, M_bind at 1. cbn [lift_result].
  destruct (packed (successor_of current next)) as [body|e] eqn:Hpk; [|by intros ?].
  apply packed_same in Hpk as ->. destruct (Hf _ _ _ _ (rd_object _ _ _ Hread) Hcall) as [Hobj Hev].
  pose proof (api_keeps (Put (partitionId kind id) (oprop current "_etag") (successor_of current next)) w1
                (λ _, put_may_write _ _ _ _ Hg1 Hread Hobj Hev)) as Hput.
  unfold mbind at 1, M_bind at 1. destruct (api _ w1) as [w2 [r|e]]; cbn [fst] in Hput; [|done].
  apply (keeps_trans _ _ _ Hput). destruct (bool_decide (p_status r = 412)%Z); [apply IH|].
  apply safe_bind; [apply safe_guard|]. intros ?. apply safe_id.
Qed.

Lemma safe_mutate_plain kind id f : evolving (plain f) → safe (mutate_plain kind id f).
Proof.
  intros Hf. unfold mutate_plain. apply safe_bind; [by apply safe_cas|]. intros [[u c] row]. apply safe_id.
Qed.

(** A callback without variables evolves if its documents do. *)
Lemma evolving_plain f :
  (∀ current next, is_object current → f current = Ok (Some next) → is_object next ∧ evolves current next) →
  evolving (plain f).
Proof.
  intros Hf x current x' next Ho Hp. unfold plain in Hp. apply bind_Ok_inv in Hp as (n & Hn & Hp%Ok_inj).
  injection Hp as <- ->. by apply Hf.
Qed.

(** ** What the operations write *)

Lemma same_member_set k w v k' : is_object v → k' ≠ k → same_member (set k w v) v k'.
Proof. intros Ho Hk. unfold same_member. by rewrite oprop_set, decide_False. Qed.

Lemma delivery_later_trans d e f : delivery_later d e → delivery_later e f → delivery_later d f.
Proof.
  intros [H1 A1] [H2 A2]. split; [intros k Hk; etrans; [by apply H2|by apply H1]|].
  intros Ht. specialize (A1 Ht). etrans; [apply A2; by rewrite (same_truthy _ _ _ A1)|done].
Qed.

Lemma evolves_refl v : evolves v v.
Proof.
  split; try done. exists (elements_of (oprop v "deliveries")), []. rewrite app_nil_r.
  split; [done|]. split; [apply deliveries_later_refl|done].
Qed.

Lemma evolves_trans u v w : evolves u v → evolves v w → evolves u w.
Proof.
  intros [I1 P1 C1 R1 (k1 & x1 & E1 & L1 & X1)] [I2 P2 C2 R2 (k2 & x2 & E2 & L2 & X2)]. split.
  - intros k Hk. etrans; [by apply I2|by apply I1].
  - intros k. etrans; [apply P2|apply P1].
  - intros Ho. destruct (C1 Ho) as [S1 Q1]. destruct C2 as [S2 Q2]; [by rewrite (same_open _ _ S1)|].
    split; by etrans.
  - intros Hr. specialize (R1 Hr). etrans; [apply R2; by rewrite (same_truthy _ _ _ R1)|done].
  - rewrite E1 in L2. apply Forall2_app_inv_l in L2 as (k2a & k2b & La & Lb & ->).
    exists k2a, (k2b ++ x2). split; [by rewrite E2, (assoc_L (++))|]. split.
    + revert La. clear -L1. revert k2a. induction L1 as [|d e l l' Hde _ IH]; intros l2 Hl.
      * by apply Forall2_nil_inv_l in Hl as ->.
      * apply Forall2_cons_inv_l in Hl as (f & l2' & Hf & Hl & ->). constructor; [by eapply delivery_later_trans|auto].
    + intros Ho. rewrite (X1 Ho) in Lb. apply Forall2_nil_inv_l in Lb as ->.
      apply X2. destruct (C1 Ho) as [S1 _]. by rewrite (same_open _ _ S1).
Qed.

#[global] Instance evolves_preorder : PreOrder evolves.
Proof. split; [exact evolves_refl|exact evolves_trans]. Qed.

(** One assignment that is allowed in the state of the document. *)
Lemma evolves_set k w v :
  is_object v → k ∉ immutable → k ≠ "deliveries" →
  (is_open v = true ∨ k ∉ ["status"; "partialSequence"]) → (truthy (oprop v "revoked") = false ∨ k ≠ "revoked") →
  evolves v (set k w v).
Proof.
  intros Ho Hi Hd Hs Hr. split.
  - intros k' Hk'. apply same_member_set; [done|]. by intros ->.
  - intros k'. rewrite oprop_set by done. rewrite decide_False; [done|]. intros <-. apply Hi. unfold immutable. set_solver.
  - intros Hc. destruct Hs as [Hs|Hs]; [congruence|]. split; apply same_member_set; set_solver.
  - intros Ht. destruct Hr as [Hr|Hr]; [congruence|]. by apply same_member_set.
  - rewrite oprop_set, decide_False by done. exists (elements_of (oprop v "deliveries")), [].
    rewrite app_nil_r. split; [done|]. split; [apply deliveries_later_refl|done].
Qed.

(** The outbox grows at its end while the document is open; its items are only
    acknowledged or compacted. *)
Lemma evolves_deliveries v kept extra :
  is_object v → Forall2 delivery_later (elements_of (oprop v "deliveries")) kept → is_open v = true ∨ extra = [] →
  evolves v (set "deliveries" (JArr (kept ++ extra)) v).
Proof.
  intros Ho Hk Hx. split.
  - intros k Hin. apply same_member_set; [done|]. unfold immutable in Hin. set_solver.
  - intros k. by rewrite oprop_set, decide_False.
  - intros _. by split; apply same_member_set.
  - intros _. by apply same_member_set.
  - exists kept, extra. rewrite oprop_set, decide_True by done. split; [done|]. split; [done|].
    intros Hc. destruct Hx; [congruence|done].
Qed.

Lemma open_set k w v : is_object v → k ≠ "status" → is_open (set k w v) = is_open v.
Proof. intros Ho Hk. by apply same_open, same_member_set. Qed.

Lemma open_status v s : eq_str (oprop v "status") s = true → s ∈ ["matched"; "started"] → is_open v = true.
Proof.
  intros E%eq_str_true Hs. unfold is_open. rewrite E. rewrite !elem_of_cons, elem_of_nil in Hs.
  by destruct Hs as [->|[->|[]]].
Qed.

Lemma oprop_set_ne k w v k' : k' ≠ k → oprop (set k w v) k' = oprop v k'.
Proof. intros Hk. destruct v; try done. rewrite oprop_set by done. by rewrite decide_False. Qed.

Lemma append_evolves doc delivery kind recipient doc' :
  is_object doc → is_open doc = true → appendDelivery doc delivery kind recipient = Ok doc' →
  is_object doc' ∧ is_open doc' = true ∧ oprop doc' "revoked" = oprop doc "revoked" ∧ evolves doc doc'.
Proof.
  intros Ho Hop. unfold appendDelivery. destruct (nullish delivery); [by intros <-%Ok_inj|].
  intros ([] & _ & Ha)%bind_Ok_inv. destruct (oprop doc "deliveries") as [| | | | | |l|] eqn:Hl; try done.
  apply bind_Ok_inv in Ha as ([] & _ & Ha). apply bind_Ok_inv in Ha as (item & _ & Ha).
  apply bind_Ok_inv in Ha as ([] & _ & <-%Ok_inj). split; [by apply set_object|].
  split; [by rewrite open_set|]. split; [by apply oprop_set_ne|].
  apply evolves_deliveries; [done| |by left]. rewrite Hl. apply deliveries_later_refl.
Qed.

Lemma elsewhere (k k' : string) (l : list string) : bool_decide (k' ∈ l) = false → k ∈ l → k ≠ k'.
Proof. by intros ?%bool_decide_eq_false ? ->. Qed.

Lemma acknowledged_later now d : truthy (oprop d "acknowledgedAt") = false → delivery_later d (set "acknowledgedAt" (JStr now) d).
Proof.
  intros Ht. split; [|congruence]. intros k Hk. unfold same_member. rewrite oprop_set_ne; [done|].
  by eapply elsewhere; [|exact Hk].
Qed.

Lemma update_first_later p f l d :
  List.find p l = Some d → delivery_later d (f d) → Forall2 delivery_later l (update_first p f l).
Proof.
  induction l as [|x l IH]; [done|]. cbn. destruct (p x).
  - intros [= ->] Hd. constructor; [done|apply deliveries_later_refl].
  - intros Hf Hd. constructor; [apply delivery_later_refl|auto].
Qed.

Lemma compact_later now d e : compact_event now d = Ok e → delivery_later d e.
Proof.
  unfold compact_event. destruct (negb (compactable d)); [intros <-%Ok_inj; apply delivery_later_refl|].
  intros ([] & _ & <-%Ok_inj)%bind_Ok_inv.
  split; [intros k Hk|intros _]; unfold same_member; rewrite !oprop_set_ne;
    first [done|by eapply elsewhere; [|exact Hk]].
Qed.

Lemma not_listed (k : string) (l : list string) : bool_decide (k ∈ l) = false → k ∉ l.
Proof. by intros ?%bool_decide_eq_false. Qed.

(** The side conditions of an assignment. *)
Ltac assignable :=
  solve [done | by repeat apply set_object | by apply not_listed | right; first [done | by apply not_listed]
        | left; first [done | by rewrite !open_set by (by repeat apply set_object)]].

(** A chain of assignments. *)
Ltac assigned := repeat (etrans; [|apply evolves_set; assignable]); reflexivity.

Lemma take_ticket_evolves ticket : evolving (plain (take_ticket ticket)).
Proof.
  apply evolving_plain. intros current next Ho. unfold take_ticket. intros (d & _ & Hn)%bind_Ok_inv.
  cbv zeta in Hn. destruct (existsb _ _); [by apply Ok_inj in Hn|].
  apply bind_Ok_inv in Hn as ([] & _ & [= <-]%Ok_inj). split; [assignable|].
  assigned.
Qed.

Lemma close_need_evolves now to requester provider delivery :
  evolving (plain (close_need now to requester provider delivery)).
Proof.
  apply evolving_plain. intros current next Ho. unfold close_need. intros ([] & _ & Hn)%bind_Ok_inv.
  destruct (eq_str (oprop current "status") "matched") eqn:Hm; cbn [negb] in Hn;
    [|destruct (_ && _) in Hn; [by apply Ok_inj in Hn|done]].
  apply open_status in Hm; [|by left]. apply bind_Ok_inv in Hn as ([] & _ & Hn).
  apply bind_Ok_inv in Hn as (doc & Hd & [= <-]%Ok_inj).
  assert (is_object doc ∧ is_open doc = true ∧ evolves current doc) as (Hdo & Hdm & Hev).
  { repeat case_bool_decide; [| |by apply Ok_inj in Hd as ->];
      by destruct (append_evolves _ _ _ _ _ Ho Hm Hd) as (? & ? & _ & ?). }
  split; [assignable|]. etrans; [exact Hev|]. assigned.
Qed.

Lemma next_partial_evolves id provider n digest delivery : evolving (next_partial id provider n digest delivery).
Proof.
  intros x current x' next Ho. unfold next_partial. intros ([] & _ & Hn)%bind_Ok_inv.
  apply bind_Ok_inv in Hn as ([] & Hm%throw_if_Ok%negb_false_iff & Hn). apply open_status in Hm; [|by left].
  destruct (_ && _) in Hn; [by apply Ok_inj in Hn|]. cbv zeta in Hn.
  do 3 apply bind_Ok_inv in Hn as ([] & _ & Hn). apply bind_Ok_inv in Hn as (doc & Hd & Hn%Ok_inj).
  injection Hn as _ <-. destruct (append_evolves _ _ _ _ _ Ho Hm Hd) as (Hdo & Hdm & _ & Hev).
  split; [assignable|]. etrans; [exact Hev|]. assigned.
Qed.

Lemma end_effect_evolves now provider outcome tokens : evolving (plain (end_effect now provider outcome tokens)).
Proof.
  apply evolving_plain. intros current next Ho. unfold end_effect. intros ([] & _ & Hn)%bind_Ok_inv.
  destruct (eq_str (oprop current "status") "started") eqn:Hm; cbn [negb] in Hn; [|by apply Ok_inj in Hn].
  apply open_status in Hm; [|by right; left]. cbv zeta in Hn. apply Ok_inj in Hn as [= <-].
  assert (Hev : evolves current (set "terminalAt" (JStr now) (set "status" (JStr outcome) current))).
  { assigned. }
  destruct (strict_eq _ _); (split; [assignable|]); [exact Hev|].
  etrans; [exact Hev|]. apply evolves_set; assignable.
Qed.

Lemma acknowledge_evolves now eventId recipient : evolving (plain (acknowledge now eventId recipient)).
Proof.
  apply evolving_plain. intros current next Ho. unfold acknowledge.
  destruct (oprop current "deliveries") as [| | | | | |l|] eqn:Hl; try done.
  destruct (List.find _ l) as [d|] eqn:Hf; [|done]. intros ([] & _ & Hn)%bind_Ok_inv.
  destruct (truthy (oprop d "acknowledgedAt")) eqn:Ht; [by apply Ok_inj in Hn|]. apply Ok_inj in Hn as [= <-].
  split; [assignable|]. rewrite <- (app_nil_r (update_first _ _ l)). apply evolves_deliveries; [done| |by right].
  rewrite Hl. by eapply update_first_later, acknowledged_later.
Qed.

Lemma result_map_later (f : jval → result jval) l l' :
  (∀ d e, f d = Ok e → delivery_later d e) → result_map f l = Ok l' → Forall2 delivery_later l l'.
Proof.
  intros Hf. revert l'. induction l as [|d l IH]; cbn [result_map]; intros l' Hl; [by apply Ok_inj in Hl as <-|].
  apply bind_Ok_inv in Hl as (e & He & Hl). apply bind_Ok_inv in Hl as (es & Hes & <-%Ok_inj). auto.
Qed.

Lemma compact_need_evolves now requester : evolving (plain (compact_need now requester)).
Proof.
  apply evolving_plain. intros current next Ho. unfold compact_need. intros ([] & _ & Hn)%bind_Ok_inv.
  apply bind_Ok_inv in Hn as ([] & _ & Hn). destruct (oprop current "deliveries") as [| | | | | |l|] eqn:Hl; try done.
  apply bind_Ok_inv in Hn as (kept & Hk & Hn%Ok_inj). destruct (existsb _ _); [|done]. injection Hn as <-.
  split; [assignable|]. rewrite <- (app_nil_r kept). apply evolves_deliveries; [done| |by right].
  rewrite Hl. eapply result_map_later, Hk. apply compact_later.
Qed.

Lemma claim_slot_evolves id owner fingerprint : evolving (plain (claim_slot id owner fingerprint)).
Proof.
  apply evolving_plain. intros current next Ho. unfold claim_slot. intros ([] & _ & Hn)%bind_Ok_inv.
  destruct (slot_of _ _); apply bind_Ok_inv in Hn as ([] & _ & Hn%Ok_inj); [done|]. injection Hn as <-.
  split; [assignable|assigned].
Qed.

Lemma free_slot_evolves id fingerprint owner : evolving (plain (free_slot id fingerprint owner)).
Proof.
  apply evolving_plain. intros current next Ho. unfold free_slot. intros ([] & _ & Hn)%bind_Ok_inv.
  destruct (slot_of _ _); [|by apply Ok_inj in Hn]. apply bind_Ok_inv in Hn as ([] & _ & [= <-]%Ok_inj).
  split; [assignable|assigned].
Qed.

Lemma revoke_evolves owner : evolving (plain (revoke owner)).
Proof.
  apply evolving_plain. intros current next Ho. unfold revoke. intros ([] & _ & Hn)%bind_Ok_inv.
  destruct (truthy _) eqn:Ht; [by apply Ok_inj in Hn|]. apply Ok_inj in Hn as [= <-].
  split; [assignable|assigned].
Qed.

Lemma recover_need_evolves now need delivery provider digest record :
  evolving (plain (recover_need now need delivery provider digest record)).
Proof.
  apply evolving_plain. intros current next Ho. unfold recover_need. cbv zeta. intros ([] & _ & Hn)%bind_Ok_inv.
  apply bind_Ok_inv in Hn as (same & _ & Hn). apply bind_Ok_inv in Hn as ([] & _ & Hn).
  destruct (_ && _) in Hn.
  - apply bind_Ok_inv in Hn as (same' & _ & Hn). apply bind_Ok_inv in Hn as ([] & _ & Hn).
    destruct (of_kind _ _) as [|? []]; [done| |done]. apply bind_Ok_inv in Hn as (d & _ & Hn).
    by apply bind_Ok_inv in Hn as ([] & _ & Hn%Ok_inj).
  - apply bind_Ok_inv in Hn as ([] & Hm%throw_if_Ok%negb_false_iff & Hn). apply open_status in Hm; [|by left].
    apply bind_Ok_inv in Hn as ([] & _ & Hn). apply bind_Ok_inv in Hn as (doc & Hd & [= <-]%Ok_inj).
    destruct (append_evolves _ _ _ _ _ Ho Hm Hd) as (Hdo & Hdm & _ & Hev).
    split; [assignable|]. etrans; [exact Hev|]. assigned.
Qed.

(** ** Creation *)

Lemma post_may_write now kind id data doc h :
  packed (document now kind id data) = Ok doc → may_write (Post (partitionId kind id) doc) h.
Proof.
  intros ->%packed_same h1 h2 _ _ (etag & Hl & -> & Hf). exists (Change (partitionId kind id) (document now kind id data) etag).
  split; [done|]. split; [|done]. unfold legal. cbn [c_key c_doc]. by rewrite Hl.
Qed.

Lemma safe_lift {A} (r : result A) : safe (lift_result r).
Proof. apply safe_id. Qed.

(** Every continuation of a [safe] computation. *)
Ltac safely :=
  repeat match goal with
    | |- safe (mbind _ _) => apply safe_bind; [|intros ?]
    | |- safe (catch_with _ _) => apply safe_catch; [|intros ?]
    | |- safe (guard_throw _ _) => apply safe_guard
    | |- safe (lift_result _) => apply safe_lift
    | |- safe (get_doc _ _) => apply safe_get
    | |- safe (mret _) => apply safe_id
    | |- safe (throw _) => apply safe_id
    | |- safe (match ?x with _ => _ end) => destruct x
    | |- safe _ => progress cbv zeta
    end.

Lemma safe_reserve_capacity kind id : safe (reserveCreationCapacity kind id).
Proof. unfold reserveCreationCapacity. safely. apply safe_mutate_plain, take_ticket_evolves. Qed.

Lemma safe_create now kind id data : safe (create now kind id data).
Proof.
  unfold create. intros w. unfold lift_result at 1. unfold mbind at 1, M_bind at 1.
  destruct (packed _) as [doc|e] eqn:Hp; [|by intros ?].
  revert w. change (safe (_ ← reserveCreationCapacity kind id;
                          r ← api (Post (partitionId kind id) doc);
                          _ ← guard_throw (bool_decide (p_status r = 409)%Z) (fault 409 (duplicate_code kind));
                          _ ← guard_throw (negb (bool_decide (p_status r = 201)%Z) && negb (bool_decide (p_status r = 200)%Z)) unavailable;
                          mret (js_or (p_doc r) doc))).
  safely; [apply safe_reserve_capacity|]. intros w. apply api_keeps. intros _. by eapply post_may_write.
Qed.

(** ** The operations *)

Inductive operation :=
| ReserveNeed (now : string) (a : need_args)
| TransitionNeed (now id : string) (requester provider : option string) (to : string) (delivery : jval)
| AcceptPartial (id provider : string) (sequence digest delivery : jval)
| BeginEffect (now id requester provider fingerprint : string)
| FinishEffect (now id provider outcome : string) (observedTokens : jval)
| AcknowledgeDelivery (now eventId recipient : string)
| CompactNeed (now id requester : string)
| ReserveOffer (now id owner fingerprint : string) (envelope : jval)
| RevokeOffer (id owner : string)
| CommitRecoveredResult (now : string) (need delivery : jval) (provider : string) (receiptDigest : jval)
| PendingDeliveries (recipient : string) (limit : Z)
| GetNeed (id : string) | GetOffer (id : string) | GetEffect (id : string)
| VerifyCapacityContract.

(** Runs an operation; a failure is reported to its caller only. *)
Definition run_op (o : operation) : W → W :=
  match o with
  | ReserveNeed now a => λ w, (reserveNeed now a w).1
  | TransitionNeed now id requester provider to delivery => λ w, (transitionNeed now id requester provider to delivery w).1
  | AcceptPartial id provider sequence digest delivery => λ w, (acceptPartial id provider sequence digest delivery w).1
  | BeginEffect now id requester provider fingerprint => λ w, (beginEffect now id requester provider fingerprint w).1
  | FinishEffect now id provider outcome tokens => λ w, (finishEffect now id provider outcome tokens w).1
  | AcknowledgeDelivery now eventId recipient => λ w, (acknowledgeDelivery now eventId recipient w).1
  | CompactNeed now id requester => λ w, (compactNeed now id requester w).1
  | ReserveOffer now id owner fingerprint envelope => λ w, (reserveOffer now id owner fingerprint envelope w).1
  | RevokeOffer id owner => λ w, (revokeOffer id owner w).1
  | CommitRecoveredResult now need delivery provider receiptDigest =>
      λ w, (commitRecoveredResult now need delivery provider receiptDigest w).1
  | PendingDeliveries recipient limit => λ w, (pendingDeliveries recipient limit w).1
  | GetNeed id => λ w, (getNeed id w).1
  | GetOffer id => λ w, (getOffer id w).1
  | GetEffect id => λ w, (getEffect id w).1
  | VerifyCapacityContract => λ w, (verifyCapacityContract w).1
  end.

Lemma safe_claim now id owner fingerprint : safe (claimOfferSlot now id owner fingerprint).
Proof. unfold claimOfferSlot. safely; first [apply safe_create|apply safe_mutate_plain, claim_slot_evolves]. Qed.

Lemma safe_release id owner fingerprint : safe (releaseOfferClaim id owner fingerprint).
Proof. unfold releaseOfferClaim. safely. apply safe_mutate_plain, free_slot_evolves. Qed.

Lemma safe_collect pages recipient limit c out : safe (collect_pages pages recipient limit c out).
Proof.
  revert c out. induction pages as [|n IH]; intros c out; cbn [collect_pages]; [apply safe_id|].
  apply safe_bind; [by apply safe_read|intros ?]. safely. apply IH.
Qed.

Ltac as_safe := match goal with |- keeps ?w (fst (?m ?w)) => let Hsafe := fresh in enough (safe m) as Hsafe by exact (Hsafe w) end.

Lemma run_op_keeps o w : keeps w (run_op o w).
Proof.
  destruct o; cbn [run_op]; as_safe.
  - unfold reserveNeed. safely. apply safe_create.
  - unfold transitionNeed. safely. apply safe_mutate_plain, close_need_evolves.
  - unfold acceptPartial. safely. apply safe_cas, next_partial_evolves.
  - unfold beginEffect. safely. apply safe_create.
  - unfold finishEffect. safely. apply safe_mutate_plain, end_effect_evolves.
  - unfold acknowledgeDelivery. safely. apply safe_mutate_plain, acknowledge_evolves.
  - unfold compactNeed. safely. apply safe_mutate_plain, compact_need_evolves.
  - unfold reserveOffer. safely; first [apply safe_claim|apply safe_release|apply safe_create].
  - unfold revokeOffer, releaseRevokedOfferSlot. safely; apply safe_mutate_plain; auto using revoke_evolves, free_slot_evolves.
  - unfold commitRecoveredResult. safely. apply safe_mutate_plain, recover_need_evolves.
  - unfold pendingDeliveries. safely. apply safe_collect.
  - unfold getNeed. safely.
  - apply safe_get.
  - apply safe_get.
  - unfold verifyCapacityContract. safely.
Qed.

Definition run_ops (os : list operation) (w : W) : W := foldl (λ w o, run_op o w) w os.

Lemma run_ops_keeps os w : keeps w (run_ops os w).
Proof.
  revert w. induction os as [|o os IH]; intros w; [by intros Hg|]. cbn.
  eapply keeps_trans; [apply run_op_keeps|apply IH].
Qed.

(** ** What good histories promise *)

Lemma good_prefix h l : good (h ++ l) → good h.
Proof.
  induction l as [|c l IH] using rev_ind; [by rewrite app_nil_r|]. rewrite (assoc_L (++)). intros Hg. apply IH.
  inversion Hg as [Hnil|h' d Hg' _ _ Heq]; [by destruct (h ++ l)|]. by apply app_inj_tail in Heq as [<- _].
Qed.

Lemma latest_evolves key h l c :
  good (h ++ l) → latest key h = Some c → ∃ c', latest key (h ++ l) = Some c' ∧ evolves (c_doc c) (c_doc c').
Proof.
  intros Hg Hl. revert Hg. induction l as [|d l IH] using rev_ind; [rewrite app_nil_r; by eauto using evolves_refl|].
  rewrite (assoc_L (++)). intros Hg. destruct IH as (c' & Hc' & Hev); [by apply good_prefix in Hg|].
  rewrite latest_snoc. destruct (String.eqb_spec (c_key d) key) as [Hk|]; [|by eauto]. exists d. split; [done|].
  inversion Hg as [Hnil|h' d' Hg' Hleg _ Heq]; [by destruct (h ++ l)|]. apply app_inj_tail in Heq as [-> ->].
  unfold legal in Hleg. rewrite Hk, Hc' in Hleg. destruct Hleg as [_ Hd]. by etrans.
Qed.

(** Every version of a document evolves from its first. *)
Lemma versions_evolve h l c0 c :
  good (h ++ [c0] ++ l) → latest (c_key c0) h = None → c ∈ h ++ [c0] ++ l → c_key c = c_key c0 →
  evolves (c_doc c0) (c_doc c).
Proof.
  intros Hg Hn Hc Hk. apply elem_of_app in Hc as [Hc|[Hc|Hc]%elem_of_app].
  - assert (Hs : is_Some (latest (c_key c0) h)); [|rewrite Hn in Hs; by destruct Hs].
    clear -Hc Hk. induction h as [|d h IH] using rev_ind; [by apply elem_of_nil in Hc|].
    rewrite latest_snoc. destruct (String.eqb_spec (c_key d) (c_key c0)); [done|].
    apply elem_of_app in Hc as [Hc|Hc%list_elem_of_singleton]; [auto|congruence].
  - apply list_elem_of_singleton in Hc as ->. apply evolves_refl.
  - apply list_elem_of_split in Hc as (l1 & l2 & ->).
    assert (Hg1 : good ((h ++ [c0]) ++ (l1 ++ [c]))).
    { apply (good_prefix _ l2). rewrite <- !app_assoc. exact Hg. }
    destruct (latest_evolves (c_key c0) _ _ c0 Hg1) as (c' & Hc' & Hev).
    { by rewrite latest_snoc, String.eqb_refl. }
    rewrite (assoc_L (++)), latest_snoc, Hk, String.eqb_refl in Hc'. by injection Hc' as <-.
Qed.

Lemma latest_stays key h h' : h `prefix_of` h' → is_Some (latest key h) → is_Some (latest key h').
Proof.
  intros [l ->]. induction l as [|d l IH] using rev_ind; [by rewrite app_nil_r|]. intros Hs.
  rewrite (assoc_L (++)), latest_snoc. destruct (String.eqb _ _); [done|auto].
Qed.

Lemma classify_status resp r : classify resp = Ok r → p_status r = r_status resp.
Proof.
  unfold classify. intros Hc. do 3 apply bind_Ok_inv in Hc as ([] & _ & Hc). cbn [existsb] in Hc.
  destruct (r_status resp =? 404)%Z eqn:H404; cbn [orb] in Hc.
  - destruct (bool_decide _); [done|]. apply Ok_inj in Hc as <-. cbn. lia.
  - by apply bind_Ok_inv in Hc as (doc & _ & <-%Ok_inj).
Qed.

(** A confirmed write took place at one point between the request and the
    answer, on top of whatever the other hosts had written by then. *)
Lemma write_confirmed q w w' r :
  good (log w) → may_write q (log w) → api q w = (w', Ok r) →
  match q with Post _ _ | Put _ _ _ => True | _ => False end → p_status r = 200%Z ∨ p_status r = 201%Z →
  ∃ h1 h2, log w `prefix_of` h1 ∧ good h1 ∧ committed q h1 h2 ∧ h2 `prefix_of` log w'.
Proof.
  intros Hg Hmay Ha Hq Hst. unfold api in Ha. apply M_bind_Ok_inv in Ha as (w1 & u & Hgd & Ha).
  apply guard_passed in Hgd as [-> _]. destruct (store_serves q w) as (h1 & h2 & H1 & Hs & H2).
  unfold call in Ha. destruct (fetch q w) as [w2 [resp|e]]; [|done]. injection Ha as <- Hcl. cbn in Hs, H2.
  rewrite (classify_status _ _ Hcl) in Hst. rewrite bool_decide_true in Hs by done.
  destruct (good_writes _ _ H1 Hg) as [Hg1 Hp1]. exists h1, h2.
  assert (Hc : committed q h1 h2) by (by destruct q). split; [done|]. split; [done|]. split; [done|].
  destruct (good_write h1 h2) as [Hg2 _]; [done|by apply Hmay|]. by destruct (good_writes _ _ H2 Hg2).
Qed.

(** A document that is created confirmed was absent, and what was sent is its
    first version. *)
Lemma create_posted now kind id data w w' doc :
  good (log w) → create now kind id data w = (w', Ok doc) →
  ∃ h etag, log w `prefix_of` h ∧ latest (partitionId kind id) h = None ∧
    h ++ [Change (partitionId kind id) (document now kind id data) etag] `prefix_of` log w'.
Proof.
  intros Hg Hc. unfold create in Hc. apply M_bind_Ok_inv in Hc as (w1 & d & Hp & Hc). injection Hp as <- Hp.
  apply M_bind_Ok_inv in Hc as (w2 & u & Hr & Hc). pose proof (safe_reserve_capacity kind id w Hg) as Hk.
  rewrite Hr in Hk. destruct Hk as [Hg2 Hp2]. cbn [fst] in *. apply M_bind_Ok_inv in Hc as (w3 & r & Ha & Hc).
  apply M_bind_Ok_inv in Hc as (w4 & u1 & Hgd & Hc). apply guard_passed in Hgd as [-> H409].
  apply M_bind_Ok_inv in Hc as (w5 & u2 & Hgd & Hc). apply guard_passed in Hgd as [-> H20]. injection Hc as <- _.
  destruct (write_confirmed _ _ _ _ Hg2 (post_may_write _ _ _ _ _ _ Hp) Ha I) as (h1 & h2 & H1 & Hg1 & (etag & Hn & -> & _) & H2).
  { apply andb_false_iff in H20 as [?%negb_false_iff%bool_decide_eq_true|?%negb_false_iff%bool_decide_eq_true]; auto. }
  apply packed_same in Hp as ->. exists h1, etag. split; [by etrans|]. split; [done|done].
Qed.

(** A document that is created confirmed was absent, and is there afterwards. *)
Lemma create_fresh now kind id data w w' doc :
  good (log w) → create now kind id data w = (w', Ok doc) →
  latest (partitionId kind id) (log w) = None ∧ is_Some (latest (partitionId kind id) (log w')).
Proof.
  intros Hg Hc. destruct (create_posted _ _ _ _ _ _ _ Hg Hc) as (h & etag & Hp & Hn & H2). split.
  - apply eq_None_not_Some. intros Hs. apply (latest_stays _ _ h Hp) in Hs. rewrite Hn in Hs. by destruct Hs.
  - eapply latest_stays; [exact H2|]. rewrite latest_snoc. cbn [c_key]. by rewrite String.eqb_refl.
Qed.

(** Whatever was read of a document after its confirmed creation descends from
    what its creation sent. *)
Lemma created_reads now kind id data w w1 doc w2 w3 current :
  good (log w) → create now kind id data w = (w1, Ok doc) → log w1 `prefix_of` log w2 → good (log w2) →
  get_doc kind id w2 = (w3, Ok (Some current)) →
  is_object current ∧ ∃ v, evolves (document now kind id data) v ∧ reads_as current v.
Proof.
  intros Hg Hc Hp2 Hg2 Hr. destruct (create_posted _ _ _ _ _ _ _ Hg Hc) as (h & etag & _ & Hn & Hp1).
  pose proof (safe_get kind id w2 Hg2) as Hk. rewrite Hr in Hk. destruct Hk as [Hg3 Hp3]. cbn [fst] in *.
  apply get_doc_read in Hr; [|done]. destruct Hr as [(c & Hin & Hck & _ & Hrd) Ho _]. split; [done|].
  exists (c_doc c). split; [|done]. assert (Hp : h ++ [Change (partitionId kind id) (document now kind id data) etag] `prefix_of` log w3).
  { do 2 (etrans; [eassumption|]). done. }
  destruct Hp as [l Hl]. rewrite <- (assoc_L (++)) in Hl. rewrite Hl in Hg3, Hin.
  by apply (versions_evolve h l (Change (partitionId kind id) (document now kind id data) etag) c).
Qed.

Lemma begun_effect now id requester provider fingerprint w w' :
  good (log w) → beginEffect now id requester provider fingerprint w = (w', Ok None) →
  latest (partitionId "effect" id) (log w) = None ∧ is_Some (latest (partitionId "effect" id) (log w')).
Proof.
  intros Hg Hb. unfold beginEffect in Hb. apply M_bind_Ok_inv in Hb as (w1 & u & Hgd & Hb). apply guard_passed in Hgd as [-> _].
  unfold catch_with in Hb. unfold mbind at 1, M_bind at 1 in Hb.
  destruct (create _ _ _ _ w) as [w1 [doc|e]] eqn:Hc; [injection Hb as <-; by eapply create_fresh|].
  cbn [fst snd] in Hb. destruct (negb _) in Hb; [done|].
  apply M_bind_Ok_inv in Hb as (w2 & [doc|] & _ & Hb); [|done]. by apply M_bind_Ok_inv in Hb as (w3 & [] & _ & Hb).
Qed.

(** A mutation that is reported as done was applied to the version that was
    the latest when it was committed. *)
Lemma cas_applied {X} attempts kind id (f : callback X) x w w' x' row :
  evolving f → good (log w) → cas_loop attempts kind id f x w = (w', Ok (x', true, row)) →
  ∃ x0 current next c etag h,
    f x0 current = Ok (x', Some next) ∧ log w `prefix_of` h ∧ latest (partitionId kind id) h = Some c ∧
    reads_as current (c_doc c) ∧ h ++ [Change (partitionId kind id) (successor_of current next) etag] `prefix_of` log w'.
Proof.
  intros Hf. revert w x. induction attempts as [|n IH]; intros w x Hg Hc; [done|]. cbn [cas_loop] in Hc.
  apply M_bind_Ok_inv in Hc as (w1 & current & Hread & Hc). pose proof (safe_get kind id w Hg) as Hk.
  rewrite Hread in Hk. destruct Hk as [Hg1 Hp1]. cbn [fst] in *. destruct current as [current|]; [|done].
  apply get_doc_read in Hread; [|done]. apply M_bind_Ok_inv in Hc as (w2 & [x1 next] & Hcall & Hc).
  injection Hcall as <- Hcall. destruct next as [next|]; [|done].
  apply M_bind_Ok_inv in Hc as (w2 & body & Hpk & Hc). injection Hpk as <- Hpk. apply packed_same in Hpk as ->.
  destruct (Hf _ _ _ _ (rd_object _ _ _ Hread) Hcall) as [Hobj Hev].
  pose proof (put_may_write _ _ _ _ Hg1 Hread Hobj Hev) as Hmay.
  apply M_bind_Ok_inv in Hc as (w2 & r & Ha & Hc). pose proof (api_keeps _ w1 (λ _, Hmay) Hg1) as Hk. rewrite Ha in Hk.
  destruct Hk as [Hg2 Hp2]. cbn [fst] in *. case_bool_decide as H412.
  - destruct (IH w2 x1 Hg2 Hc) as (x0 & cur & nx & c & etag & h & Hcall' & Hp & Hrest).
    exists x0, cur, nx, c, etag, h. split; [done|]. split; [|done]. do 2 (etrans; [eassumption|]). done.
  - apply M_bind_Ok_inv in Hc as (w3 & u & Hgd & Hc). apply guard_passed in Hgd as [-> Hst%negb_false_iff%bool_decide_eq_true].
    injection Hc as <- <- _.
    destruct (write_confirmed _ _ _ _ Hg1 Hmay Ha I) as (h1 & h2 & H1 & Hgh & (etag & p & Hl & Hpe & -> & _) & H2); [by left|].
    destruct Hread as [(c & Hin & Hck & Hce & Hr) _ _]. exists x, current, next, p, etag, h1.
    split; [done|]. split; [by etrans|]. split; [done|]. split; [|done].
    destruct (latest_in _ _ _ Hl) as [Hpin Hpk].
    assert (p = c) as ->; [|done]. apply (good_etags h1); [done|done| |congruence|congruence].
    destruct H1 as [l ->]. rewrite elem_of_app. by left.
Qed.

(** * Properties *)

(** C4: while other hosts write, and whatever replies are lost, a sequence of
    operations only appends legal versions to the shared history. *)
Theorem operations_legal os w :
  good (log w) → good (log (run_ops os w)) ∧ log w `prefix_of` log (run_ops os w).
Proof. apply run_ops_keeps. Qed.

(** A need or effect that is closed keeps its status, and its outbox keeps its
    items and their acknowledgements and gets no new ones, through any
    sequence of operations of this host and of others. *)
Theorem closed_is_final os w key c :
  good (log w) → latest key (log w) = Some c → is_open (c_doc c) = false →
  ∃ c', latest key (log (run_ops os w)) = Some c' ∧ same_member (c_doc c') (c_doc c) "status" ∧
    Forall2 delivery_later (elements_of (oprop (c_doc c) "deliveries")) (elements_of (oprop (c_doc c') "deliveries")).
Proof.
  intros Hg Hl Ho. destruct (run_ops_keeps os w Hg) as [Hg' [l Hp]]. rewrite Hp in Hg' |- *.
  destruct (latest_evolves _ _ _ _ Hg' Hl) as (c' & Hl' & [_ _ Hc _ (kept & extra & He & Hk & Hx)]).
  exists c'. split; [done|]. split; [by apply Hc|]. rewrite He, (Hx Ho), app_nil_r. done.
Qed.

(** An effect is granted to one caller: once a call acquired it, no call of
    any host acquires it again. *)
Theorem shared_effect_once now id requester provider fingerprint w w' now2 requester2 provider2 fingerprint2 w2 :
  good (log w) → beginEffect now id requester provider fingerprint w = (w', Ok None) →
  log w' `prefix_of` log w2 → good (log w2) →
  (beginEffect now2 id requester2 provider2 fingerprint2 w2).2 ≠ Ok None.
Proof.
  intros Hg Hb Hp Hg2 Hb2. destruct (begun_effect _ _ _ _ _ _ _ Hg Hb) as [_ Hs].
  destruct (beginEffect now2 _ _ _ _ w2) as [w2' r] eqn:E. cbn in Hb2. subst r.
  destruct (begun_effect _ _ _ _ _ _ _ Hg2 E) as [Hn _].
  apply (latest_stays _ _ _ Hp) in Hs. rewrite Hn in Hs. by destruct Hs.
Qed.

(** C19: no lost update: a transition that is reported as done was computed from
    the version of the need that was the latest at the moment it was committed,
    and that version was open. *)
Theorem transition_linearizes now id requester provider to delivery w w' row :
  good (log w) → transitionNeed now id requester provider to delivery w = (w', Ok (true, row)) →
  ∃ current next c etag h,
    close_need now to requester provider delivery current = Ok (Some next) ∧ log w `prefix_of` h ∧
    latest (partitionId "need" id) h = Some c ∧ reads_as current (c_doc c) ∧ is_open (c_doc c) = true ∧
    h ++ [Change (partitionId "need" id) (successor_of current next) etag] `prefix_of` log w'.
Proof.
  intros Hg Ht. unfold transitionNeed in Ht. apply M_bind_Ok_inv in Ht as (w1 & u & Hgd & Ht). apply guard_passed in Hgd as [-> _].
  unfold mutate_plain in Ht. apply M_bind_Ok_inv in Ht as (w1 & [[x' changed] row'] & Hc & Ht). injection Ht as -> -> _.
  destruct (cas_applied _ _ _ _ _ _ _ _ _ (close_need_evolves _ _ _ _ _) Hg Hc)
    as (x0 & current & next & c & etag & h & Hf & Hp & Hl & Hr & Hw).
  unfold plain in Hf. apply bind_Ok_inv in Hf as (n & Hn & [= _ ->]%Ok_inj).
  exists current, next, c, etag, h. repeat (split; [done|]). split; [|done].
  rewrite <- (same_open current); [|apply Hr; by apply not_listed].
  revert Hn. unfold close_need. intros ([] & _ & Hn)%bind_Ok_inv.
  destruct (eq_str (oprop current "status") "matched") eqn:Hm; [by eapply open_status; [exact Hm|left]|].
  cbn [negb] in Hn. by destruct (_ && _) in Hn.
Qed.

End shared.

(** ** A concrete store *)

(** A store used by one host: a request is served on the history itself. *)
Definition etag_number (v : jval) : Z := match v with JNum (JInt n) => n | _ => 0 end.
Definition next_etag (h : list change) : jval := JNum (JInt (1 + foldr Z.max 0%Z (map (λ c, etag_number (c_etag c)) h))%Z).

Definition toy_fetch : request → list change → list change * result response := λ r h,
  let answer status body := Ok (Response status "" JUndef body JUndef) in
  match r with
  | Get key =>
      match latest key h with
      | Some (Change _ doc (JNum (JInt (Zpos n)))) => (h, Ok (Response 200 "" (JNum (JInt (Zpos n))) (Some doc) JUndef))
      | _ => (h, answer 404%Z None)
      end
  | Post key body =>
      match latest key h with
      | Some _ => (h, answer 409%Z (Some JNull))
      | None => (h ++ [Change key body (next_etag h)], answer 201%Z (Some body))
      end
  | Put key match_ body =>
      match latest key h, match_ with
      | Some (Change _ _ (JNum (JInt n))), JNum (JInt m) =>
          if decide (m = n) then (h ++ [Change key body (next_etag h)], answer 200%Z (Some body))
          else (h, answer 412%Z (Some JNull))
      | _, _ => (h, answer 412%Z (Some JNull))
      end
  | Query _ _ _ => (h, answer 200%Z (Some (JObj [("Documents", JArr [])])))
  end.

#[export] Instance toy_remote : Remote (list change) := toy_fetch.
#[export] Instance toy_config : config := Config 1000000 64 3 None "https://store".

Lemma reads_as_refl doc : reads_as doc doc.
Proof. split; [done|]. split; [done|]. induction (elements_of _); constructor; done. Qed.

Lemma next_etag_fresh h key body : fresh h (Change key body (next_etag h)).
Proof.
  intros c Hc _ He. cbn in He. unfold next_etag in He.
  assert (Hle : (etag_number (c_etag c) ≤ foldr Z.max 0%Z (map (λ c, etag_number (c_etag c)) h))%Z).
  { clear He. induction h as [|d h IH]; [by apply elem_of_nil in Hc|]. cbn.
    apply elem_of_cons in Hc as [->|Hc]; [lia|]. specialize (IH Hc). lia. }
  rewrite He in Hle. cbn in Hle. lia.
Qed.

#[export] Instance toy_store : Store (λ h : list change, h).
Proof.
  intros r h. exists h, (fetch r h).1. split; [done|]. split; [|done]. unfold fetch, toy_remote, toy_fetch, served.
  destruct r as [key|key body|key m body|text recipient c].
  - destruct (latest key h) as [[k doc e]|] eqn:Hl; [|by left]. destruct (latest_in _ _ _ Hl) as [Hin Hk].
    destruct e as [| | | |[[|n|n]| | |]| | |]; try by left. split; [done|]. intros _.
    exists (Change k doc (JNum (JInt (Zpos n)))), doc. repeat (split; [done|]). apply reads_as_refl.
  - destruct (latest key h) eqn:Hl; [done|]. exists (next_etag h). split; [done|]. split; [done|]. apply next_etag_fresh.
  - destruct (latest key h) as [[k doc [| | | |[n| | |]| | |]]|] eqn:Hl; try done.
    destruct m as [| | | |[m| | |]| | |]; try done. destruct (decide (m = n)) as [->|]; [|done].
    exists (next_etag h), (Change k doc (JNum (JInt n))). repeat (split; [done|]). apply next_etag_fresh.
  - done.
Qed.

(** A need, its completion, a second completion, and an effect begun twice. *)
Definition toy_need : need_args :=
  NeedArgs "n1" "alice" "bob" "f" "translate" "legacy" "alice" "policy" JNull JNull.

Definition toy_result : jval :=
  JObj [("kind", JStr "RESULT"); ("recipient", JStr "alice"); ("event", JObj [("kind", JStr "RESULT")])].

Definition toy_ops : list operation :=
  [ReserveNeed "t0" toy_need; BeginEffect "t1" "n1" "alice" "bob" "f"].

Definition toy_world : list change := run_ops (H := Toy.host) toy_ops [].

Definition toy_complete : operation := TransitionNeed "t2" "n1" (Some "alice") (Some "bob") "completed" toy_result.

Lemma operations_legal_witness :
  length (run_ops (H := Toy.host) (toy_ops ++ [toy_complete; toy_complete]) []) = 3 ∧
  good (run_ops (H := Toy.host) (toy_ops ++ [toy_complete; toy_complete]) []).
Proof.
  split; [by vm_compute|].
  apply (operations_legal (H := Toy.host) (λ h : list change, h) (toy_ops ++ [toy_complete; toy_complete]) []).
  constructor.
Defined.

Lemma toy_good os : good (run_ops (H := Toy.host) os []).
Proof. apply (run_ops_keeps (H := Toy.host) (λ h : list change, h) os []). constructor. Qed.

Definition toy_closed : list change := run_ops (H := Toy.host) (toy_ops ++ [toy_complete]) [].
Definition toy_key : string := partitionId (H := Toy.host) "need" "n1".

(** After the completion: an acknowledgement, a cancellation that is refused,
    and a compaction. *)
Definition toy_later : list operation :=
  [AcknowledgeDelivery "t3" "result:n1" "alice"; TransitionNeed "t4" "n1" (Some "alice") None "cancelled" JNull;
   CompactNeed "t5" "n1" "alice"].

Lemma closed_is_final_witness :
  ∃ c c', latest toy_key toy_closed = Some c ∧ is_open (c_doc c) = false ∧
    latest toy_key (run_ops (H := Toy.host) toy_later toy_closed) = Some c' ∧
    same_member (c_doc c') (c_doc c) "status" ∧
    Forall2 delivery_later (elements_of (oprop (c_doc c) "deliveries")) (elements_of (oprop (c_doc c') "deliveries")).
Proof.
  destruct (latest toy_key toy_closed) as [c|] eqn:Hl; [|by vm_compute in Hl].
  assert (Ho : is_open (c_doc c) = false) by (vm_compute in Hl; injection Hl as <-; by vm_compute).
  destruct (closed_is_final (H := Toy.host) (λ h : list change, h) toy_later toy_closed toy_key c (toy_good _) Hl Ho)
    as (c' & Hl' & Hs & Hd).
  exists c, c'. exact (conj eq_refl (conj Ho (conj Hl' (conj Hs Hd)))).
Defined.

Lemma shared_effect_once_witness :
  (beginEffect (H := Toy.host) "t1" "n1" "alice" "bob" "f" []).2 = Ok None ∧
  (beginEffect (H := Toy.host) "t9" "n1" "alice" "carol" "f" (run_ops (H := Toy.host) [toy_complete] toy_world)).2 ≠ Ok None.
Proof.
  split; [by vm_compute|]. set (w := (run_op (H := Toy.host) (ReserveNeed "t0" toy_need) [])).
  assert (Hb : beginEffect (H := Toy.host) "t1" "n1" "alice" "bob" "f" w = (toy_world, Ok None)) by (vm_compute; reflexivity).
  apply (shared_effect_once (H := Toy.host) (λ h : list change, h) "t1" "n1" "alice" "bob" "f" w toy_world
           "t9" "alice" "carol" "f" (run_ops (H := Toy.host) [toy_complete] toy_world)).
  - apply (toy_good [ReserveNeed "t0" toy_need]).
  - exact Hb.
  - apply (run_ops_keeps (H := Toy.host) (λ h : list change, h)). apply toy_good.
  - apply (toy_good (toy_ops ++ [toy_complete])).
Defined.

Lemma transition_linearizes_witness :
  ∃ w' row current next,
    transitionNeed (H := Toy.host) "t2" "n1" (Some "alice") (Some "bob") "completed" toy_result toy_world = (w', Ok (true, row)) ∧
    close_need "t2" "completed" (Some "alice") (Some "bob") toy_result current = Ok (Some next) ∧
    ∃ c, latest toy_key toy_world = Some c ∧ is_open (c_doc c) = true.
Proof.
  destruct (transitionNeed (H := Toy.host) "t2" "n1" (Some "alice") (Some "bob") "completed" toy_result toy_world)
    as [w' [[[] row]|e]] eqn:Ht; [|by vm_compute in Ht|by vm_compute in Ht].
  destruct (transition_linearizes (H := Toy.host) (λ h : list change, h) "t2" "n1" (Some "alice") (Some "bob")
              "completed" toy_result toy_world w' row (toy_good toy_ops) Ht) as (current & next & c & etag & h & Hn & _).
  exists w', row, current, next. split; [reflexivity|]. split; [exact Hn|].
  destruct (latest toy_key toy_world) as [d|] eqn:Hl; [|by vm_compute in Hl]. exists d. split; [reflexivity|].
  vm_compute in Hl. injection Hl as <-. by vm_compute.
Defined.

End SharedHistory.
