(* ===== verification/Sessions.v ===== *)
(** * Authenticated peer sessions

    Models network/sessions/authenticated-session.js: the signed HELLO and
    ACCEPT two peers exchange over a fresh transport, the negotiation they
    carry, the identifier of the session, and the cache that refuses a repeated
    HELLO. *)
From S2P Require Import Prelude JSValue JsonPrint Dates Host Text Protocol Negotiation.
Import Text Canonical Keys Envelope Negotiate.

Module Sessions.

Definition PEER_SESSION_PROTOCOL : string := "truyn-peer-session-v1".
Definition DEFAULT_MAX_SKEW_MS : Z := 30000.

(** ** Advertisements *)

(** The callback of [values.some]: a hole of a sparse array is skipped. *)
Definition advertisable (v : jval) : bool :=
  match v with JHole => true | JStr s => nonempty_str (trim s) | _ => false end.

Definition well_advertised (v : jval) : bool :=
  match v with JArr l => forallb advertisable l | _ => false end.

(** [[...new Set(values)].sort()]; [undefined] is sorted last. *)
Definition sorted_set (l : list jval) : list jval :=
  map JStr (sort_strings (uniq (omap (λ v, match v with JStr s => Some s | _ => None end) l))) ++
  (if existsb nullish l then [JUndef] else []).

Definition advertised (values : jval) (name : string) : result jval :=
  _ ← throw_if (negb (well_advertised values)) (error ("invalid " +:+ name));
  Ok (JArr (sorted_set (elements_of values))).

(** [...new Set(l)] *)
Definition set_of (l : list jval) : list jval := foldl (λ s v, if set_has s v then s else s ++ [v]) [] l.

(** What a peer supports, and what it asks of the other side. *)
Record settings := Settings {
  localProtocols : jval;
  localSemantics : jval;
  localRequiredSemantics : list jval
}.

Definition default_settings : settings := Settings (JArr [JStr PROTOCOL]) (JArr []) [].

(** What a call returns: [{ ok: true, ... }], or [{ ok: false, code, reason }]. *)
Inductive checked (A : Type) :=
| Verified (a : A)
| Refused (code : option string) (reason : string).
Arguments Verified {A} _.
Arguments Refused {A} _ _.

Definition thrown {A} (r : result (checked A)) : checked A :=
  match r with Ok c => c | Throw e => Refused None (e_message e) end.

Record agreed_hello := AgreedHello {
  h_nodeId : jval; h_publicKey : jval; h_replayKey : string; h_protocol : string; h_semantics : list string
}.
Record agreed_accept := AgreedAccept {
  a_nodeId : jval; a_publicKey : jval; a_protocol : string; a_semantics : list string
}.

Definition mismatch {A} (reason : string) : checked A := Refused (Some "version_mismatch") reason.

(** The refusals of a negotiation. *)
Definition refusal {A} (o : outcome) : checked A :=
  match o with
  | NoOverlap => mismatch "no_protocol_overlap"
  | InvalidAdvertisement => mismatch "invalid_semantic_advertisement"
  | MissingSemantics _ _ => mismatch "required_semantic_unavailable"
  | Agreed _ _ => mismatch ""
  end.

Definition members_of (v : jval) : list (string * jval) := match v with JObj kvs => kvs | _ => [] end.
Definition unsignedHello (hello : jval) : jval := JObj (remove_key "signature" (members_of hello)).

(** [const { publicKey, signature, ...body } = v] *)
Definition signed_body (v : jval) : jval := JObj (remove_key "signature" (remove_key "publicKey" (members_of v))).

(** ** The replay cache *)

Record cache := Cache { maxEntries : nat; entries : list string }.
Definition new_cache (max : nat) : cache := Cache max [].
Definition has (value : string) (c : cache) : bool := bool_decide (value ∈ entries c).
Definition add (value : string) (c : cache) : cache :=
  let all := if has value c then entries c else entries c ++ [value] in
  Cache (maxEntries c) (drop (length all - maxEntries c) all).

Section sessions.
Context `{Host} `{Coercions}.

Definition digest (value : jval) : result string := text ← canonicalize value; Ok (sha256_hex text).

Definition assertIdentity (identity : jval) : result unit :=
  _ ← throw_if (negb (truthy (oprop identity "nodeId")) || negb (truthy (oprop identity "publicKeyPem")) ||
                negb (truthy (oprop identity "privateKeyPem")))
        (error "peer identity is required");
  nodeId ← nodeIdFromPublicKey (oprop identity "publicKeyPem");
  throw_if (negb (eq_str (oprop identity "nodeId") nodeId)) (error "peer identity key mismatch").

Definition validateTimestamp (value : jval) (now maxSkewMs : Z) : bool :=
  match Date_parse (to_string value) with
  | Some time => bool_decide (Z.abs (now - time) ≤ maxSkewMs)%Z
  | None => false
  end.

Definition decideSessionProtocol (hello : jval) (local : settings) : outcome + unit :=
  if existsb (λ key, match oprop hello key with
                     | JUndef => false
                     | v => negb (well_advertised v)
                     end) ["protocols"; "semantics"; "requiredSemantics"]
  then inr tt
  else inl (negotiateProtocol
    (NegotiationArgs (localProtocols local) (js_coalesce (oprop hello "protocols") (JArr [JStr PROTOCOL]))
       (localSemantics local) (js_coalesce (oprop hello "semantics") (JArr []))
       (JArr (set_of (elements_of (oprop hello "requiredSemantics") ++ localRequiredSemantics local)))
       JUndef JUndef)).

(** ** HELLO *)

Record hello_args := HelloArgs {
  g_identity : jval; g_transport : jval; g_endpoints : list jval;
  g_protocols : jval; g_semantics : jval; g_requiredSemantics : jval; g_issuedAt : jval; g_nonce : string
}.

(** [...(v === undefined ? {} : { name: advertised(v, name) })] *)
Definition advertisement (v : jval) (name : string) : result (list (string * jval)) :=
  match v with JUndef => Ok [] | _ => list ← advertised v name; Ok [(name, list)] end.

Definition hello_body (a : hello_args) (now : Z) (protocols semantics required : list (string * jval))
    : list (string * jval) :=
  [("protocol", JStr PEER_SESSION_PROTOCOL); ("kind", JStr "HELLO"); ("nodeId", oprop (g_identity a) "nodeId");
   ("transport", with_default (g_transport a) (JStr "quic"));
   ("endpoints", JArr (map JStr (sort_strings (uniq (omap trimmed (g_endpoints a))))));
   ("nonce", JStr (g_nonce a)); ("issuedAt", with_default (g_issuedAt a) (JStr (toISOString now)))] ++
  protocols ++ semantics ++ required.

Definition signed (identity : jval) (body : list (string * jval)) : result (list (string * jval)) :=
  signature ← signValue (JObj body) (string_or_empty (oprop identity "privateKeyPem"));
  Ok (body ++ [("publicKey", oprop identity "publicKeyPem"); ("signature", JStr signature)]).

(** [now] is the clock behind the default [issuedAt]; the nonce is an argument. *)
Definition createSessionHello (now : Z) (a : hello_args) : result (list (string * jval)) :=
  _ ← assertIdentity (g_identity a);
  protocols ← advertisement (g_protocols a) "protocols";
  semantics ← advertisement (g_semantics a) "semantics";
  required ← advertisement (g_requiredSemantics a) "requiredSemantics";
  signed (g_identity a) (hello_body a now protocols semantics required).

Definition is_hello (hello : jval) : bool :=
  truthy hello && eq_str (oprop hello "protocol") PEER_SESSION_PROTOCOL && eq_str (oprop hello "kind") "HELLO".

Definition sessionHandshakeBinding (hello : jval) : result string :=
  _ ← throw_if (negb (is_hello hello) || negb (truthy (oprop hello "nodeId")) || negb (truthy (oprop hello "nonce")))
        (error "session hello is required for handshake binding");
  d ← digest (unsignedHello hello); Ok ("quic:hello:" +:+ d).

(** The checks before the replay cache; [replayKey] if they pass. *)
Definition check_hello (now maxSkewMs : Z) (hello : jval) : result string :=
  _ ← throw_if (negb (is_hello hello)) (error "session_hello_protocol");
  _ ← throw_if (existsb (λ k, negb (truthy (oprop hello k))) ["nodeId"; "publicKey"; "signature"; "nonce"; "issuedAt"])
        (error "session_hello_missing");
  nodeId ← nodeIdFromPublicKey (oprop hello "publicKey");
  _ ← throw_if (negb (eq_str (oprop hello "nodeId") nodeId)) (error "session_hello_key_mismatch");
  _ ← throw_if (negb (validateTimestamp (oprop hello "issuedAt") now maxSkewMs)) (error "session_hello_stale");
  ok ← verifyValue (signed_body hello) (oprop hello "signature") (oprop hello "publicKey");
  _ ← throw_if (negb ok) (error "session_hello_signature");
  Ok (to_string (oprop hello "nodeId") +:+ ":" +:+ to_string (oprop hello "nonce")).

(** The cache, if there is one, is the state. *)
Definition verifySessionHello (now maxSkewMs : Z) (local : settings) (hello : jval) (replayCache : option cache)
    : option cache * checked agreed_hello :=
  match check_hello now maxSkewMs hello with
  | Throw e => (replayCache, Refused None (e_message e))
  | Ok replayKey =>
      if match replayCache with Some c => has replayKey c | None => false end
      then (replayCache, Refused None "session_hello_replay")
      else match decideSessionProtocol hello local with
           | inr tt => (replayCache, mismatch "invalid_advertisement")
           | inl (Agreed protocol semantics) =>
               (add replayKey <$> replayCache,
                Verified (AgreedHello (oprop hello "nodeId") (oprop hello "publicKey") replayKey protocol semantics))
           | inl refused => (replayCache, refusal refused)
           end
  end.

(** ** ACCEPT *)

Definition accept_body (identity hello : jval) (helloDigest nonce transportBinding : string)
    (issuedAt : jval) (protocols semantics : jval) (protocol : string) (negotiated : list string)
    : list (string * jval) :=
  [("protocol", JStr PEER_SESSION_PROTOCOL); ("kind", JStr "ACCEPT"); ("nodeId", oprop identity "nodeId");
   ("peerNodeId", oprop hello "nodeId"); ("helloDigest", JStr helloDigest); ("helloNonce", oprop hello "nonce");
   ("nonce", JStr nonce); ("transport", oprop hello "transport"); ("transportBinding", JStr transportBinding);
   ("issuedAt", issuedAt); ("supportedProtocols", protocols); ("supportedSemantics", semantics);
   ("negotiatedProtocol", JStr protocol); ("negotiatedSemantics", JArr (map JStr negotiated))].

Definition createSessionAccept (now : Z) (identity hello transportBinding : jval) (local : settings)
    (issuedAt : jval) (nonce : string) : result (list (string * jval)) :=
  _ ← assertIdentity identity;
  match (verifySessionHello now DEFAULT_MAX_SKEW_MS local hello None).2 with
  | Refused _ reason => Throw (error ("invalid session hello: " +:+ reason))
  | Verified v =>
      _ ← throw_if (negb (truthy transportBinding) || negb (is_string transportBinding))
            (error "transportBinding is required");
      helloDigest ← digest (unsignedHello hello);
      protocols ← advertised (localProtocols local) "localProtocols";
      semantics ← advertised (localSemantics local) "localSemantics";
      signed identity (accept_body identity hello helloDigest nonce (string_or_empty transportBinding)
        (with_default issuedAt (JStr (toISOString now))) protocols semantics (h_protocol v) (h_semantics v))
  end.

(** [/^TRUYN[/][0-9]+$/] *)
Definition protocol_name (v : jval) : bool :=
  match v with
  | JStr s => bool_decide (str_take 6 s = "TRUYN/") && nonempty_str (str_drop 6 s) && str_forall is_digit (str_drop 6 s)
  | _ => false
  end.

(** [v?.length] *)
Definition length_of (v : jval) : jval :=
  match v with
  | JArr l => JNum (JInt (Z.of_nat (length l)))
  | JStr s => JNum (JInt (Z.of_nat (String.length s)))
  | _ => oprop v "length"
  end.

(** The checks of the signed statement. *)
Definition check_accept (now maxSkewMs : Z) (expectedTransportBinding : option string) (accept hello : jval) : result unit :=
  _ ← throw_if (negb (truthy accept) || negb (eq_str (oprop accept "protocol") PEER_SESSION_PROTOCOL) ||
                negb (eq_str (oprop accept "kind") "ACCEPT")) (error "session_accept_protocol");
  _ ← throw_if (existsb (λ k, negb (truthy (oprop accept k))) ["nodeId"; "peerNodeId"; "publicKey"; "signature"])
        (error "session_accept_missing");
  nodeId ← nodeIdFromPublicKey (oprop accept "publicKey");
  _ ← throw_if (negb (eq_str (oprop accept "nodeId") nodeId)) (error "session_accept_key_mismatch");
  own ← get hello "nodeId";
  _ ← throw_if (negb (strict_eq (oprop accept "peerNodeId") own) ||
                negb (strict_eq (oprop accept "helloNonce") (oprop hello "nonce"))) (error "session_accept_hello_mismatch");
  helloDigest ← digest (unsignedHello hello);
  _ ← throw_if (negb (eq_str (oprop accept "helloDigest") helloDigest)) (error "session_accept_digest_mismatch");
  _ ← match expectedTransportBinding with
      | Some expected => throw_if (nonempty_str expected && negb (eq_str (oprop accept "transportBinding") expected))
                           (error "session_accept_transport_binding")
      | None => Ok tt
      end;
  _ ← throw_if (negb (validateTimestamp (oprop accept "issuedAt") now maxSkewMs)) (error "session_accept_stale");
  ok ← verifyValue (signed_body accept) (oprop accept "signature") (oprop accept "publicKey");
  throw_if (negb ok) (error "session_accept_signature").

(** The negotiation the accept carries, checked against one's own. *)
Definition check_negotiation (local : settings) (accept hello : jval) : checked agreed_accept :=
  let carried := ["supportedProtocols"; "supportedSemantics"; "negotiatedSemantics"] in
  if existsb (λ key, has_own accept key && negb (well_advertised (oprop accept key))) carried ||
     has_own accept "negotiatedProtocol" && negb (protocol_name (oprop accept "negotiatedProtocol"))
  then mismatch "invalid_advertisement"
  else
    match negotiateProtocol
            (NegotiationArgs (localProtocols local) (js_coalesce (oprop accept "supportedProtocols") (JArr [JStr PROTOCOL]))
               (localSemantics local) (js_coalesce (oprop accept "supportedSemantics") (JArr []))
               (js_coalesce (oprop hello "requiredSemantics") (JArr [])) JUndef JUndef) with
    | Agreed protocol semantics =>
        let ok := Verified (AgreedAccept (oprop accept "nodeId") (oprop accept "publicKey") protocol semantics) in
        match oprop accept "negotiatedProtocol" with
        | JUndef =>
            match (if negb (bool_decide (protocol = PROTOCOL)) || negb (bool_decide (semantics = [])) then Ok true
                   else js_gt (js_coalesce (length_of (oprop hello "requiredSemantics")) (JNum (JInt 0))) (JNum (JInt 0))) with
            | Ok more => if more || existsb (has_own accept) carried then mismatch "missing_negotiation" else ok
            | Throw e => Refused None (e_message e)
            end
        | negotiated =>
            if negb (eq_str negotiated protocol) ||
               negb (bool_decide (stringify (oprop accept "negotiatedSemantics") = stringify (JArr (map JStr semantics))))
            then mismatch "negotiation_mismatch" else ok
        end
    | refused => refusal refused
    end.

Definition verifySessionAccept (now maxSkewMs : Z) (local : settings) (expectedTransportBinding : option string)
    (accept hello : jval) : checked agreed_accept :=
  thrown (_ ← check_accept now maxSkewMs expectedTransportBinding accept hello;
          Ok (check_negotiation local accept hello)).

Definition sessionId (hello accept : jval) : result string :=
  d ← digest (JObj [("helloNodeId", oprop hello "nodeId"); ("acceptNodeId", oprop accept "nodeId");
                    ("helloNonce", oprop hello "nonce"); ("acceptNonce", oprop accept "nonce");
                    ("transportBinding", oprop accept "transportBinding")]);
  Ok ("truyn:session:" +:+ d).

(** ** Advertisements as sets *)

Lemma elem_of_uniqueStrings t l : t ∈ uniqueStrings (JArr l) ↔ ∃ v, v ∈ l ∧ trimmed v = Some t.
Proof. cbn [uniqueStrings]. rewrite elem_of_uniq, list_elem_of_omap. done. Qed.

Lemma sorted_set_same v : same_strings (JArr (sorted_set (elements_of v))) (JArr (elements_of v)).
Proof.
  intros t. rewrite !elem_of_uniqueStrings. unfold sorted_set. set (l := elements_of v). split.
  - intros (x & [Hx|Hx]%elem_of_app & Ht).
    + apply list_elem_of_fmap in Hx as (s & -> & Hs). unfold sort_strings in Hs.
      rewrite elem_of_sort_by, elem_of_uniq, list_elem_of_omap in Hs. destruct Hs as (y & Hy & Hys).
      exists y. split; [done|]. destruct y; try done. by injection Hys as ->.
    + destruct (existsb nullish l); [|by apply elem_of_nil in Hx]. apply list_elem_of_singleton in Hx as ->. done.
  - intros (x & Hx & Ht). exists x. split; [|done]. destruct x as [| | | | |s| |]; try done.
    apply elem_of_app. left. apply list_elem_of_fmap. exists s. split; [done|]. unfold sort_strings.
    rewrite elem_of_sort_by, elem_of_uniq, list_elem_of_omap. by exists (JStr s).
Qed.

Lemma set_of_keeps l s t : JStr t ∈ s ∨ JStr t ∈ l → JStr t ∈ foldl (λ s v, if set_has s v then s else s ++ [v]) s l.
Proof.
  revert s. induction l as [|v l IH]; intros s; cbn [foldl]; [by intros [?|?%elem_of_nil]|].
  intros Hin. apply IH. destruct Hin as [Hs|[<-|Hl]%elem_of_cons]; [|destruct (set_has s (JStr t)) eqn:Hh|by right].
  - left. destruct (set_has s v); [done|]. apply elem_of_app. by left.
  - left. unfold set_has in Hh. apply existsb_exists in Hh as (x & Hx & Hk). apply list_elem_of_In in Hx.
    unfold same_key in Hk. apply orb_prop in Hk as [Hk|Hk]; [|by destruct x as [| | | |[]| | |]].
    apply eq_str_true in Hk. by subst x.
  - left. apply elem_of_app. right. by apply list_elem_of_singleton.
Qed.

Lemma set_of_required hello local s :
  s ∈ uniqueStrings (js_coalesce (oprop hello "requiredSemantics") (JArr [])) →
  s ∈ uniqueStrings (JArr (set_of (elements_of (oprop hello "requiredSemantics") ++ local))).
Proof.
  intros Hs. apply elem_of_uniqueStrings.
  assert (Hv : ∃ v, v ∈ elements_of (oprop hello "requiredSemantics") ∧ trimmed v = Some s).
  { destruct (oprop hello "requiredSemantics") as [| | | | | |l|]; try by apply elem_of_nil in Hs.
    by apply elem_of_uniqueStrings. }
  destruct Hv as (v & Hv & Ht). exists v. split; [|done]. destruct v as [| | | | |t| |]; try done.
  apply set_of_keeps. right. rewrite elem_of_app. by left.
Qed.

Lemma same_strings_refl v : same_strings v v.
Proof. by intros s. Qed.

(** What is advertised, as the other side reads it. *)
Definition told (v : jval) : jval := match v with JUndef => JUndef | _ => JArr (sorted_set (elements_of v)) end.

Lemma advertisement_members v name l : advertisement v name = Ok l → l = match v with JUndef => [] | _ => [(name, told v)] end.
Proof.
  unfold advertisement. destruct v eqn:Hv; intros Ha; [by apply Ok_inj in Ha as <-|..];
    apply bind_Ok_inv in Ha as (x & Hx & <-%Ok_inj); by apply bind_Ok_inv in Hx as ([] & _ & <-%Ok_inj).
Qed.

Lemma told_same v d : same_strings (js_coalesce (told v) d) (match v with JUndef => d | _ => JArr (elements_of v) end).
Proof. destruct v; cbn [told js_coalesce nullish]; first [apply same_strings_refl|apply sorted_set_same]. Qed.

Lemma elements_same v : same_strings (JArr (elements_of v)) v.
Proof. intros s. by destruct v. Qed.

(** The members of a hello that the other side reads. *)
Lemma created_hello now a hello :
  createSessionHello now a = Ok hello →
  (∃ nodeId, nodeIdFromPublicKey (oprop (g_identity a) "publicKeyPem") = Ok nodeId ∧ oprop (JObj hello) "nodeId" = JStr nodeId) ∧
  oprop (JObj hello) "nonce" = JStr (g_nonce a) ∧
  oprop (JObj hello) "protocols" = told (g_protocols a) ∧
  oprop (JObj hello) "semantics" = told (g_semantics a) ∧
  oprop (JObj hello) "requiredSemantics" = told (g_requiredSemantics a).
Proof.
  unfold createSessionHello. intros ([] & Hid & Hc)%bind_Ok_inv.
  apply bind_Ok_inv in Hc as (ps & ->%advertisement_members & Hc).
  apply bind_Ok_inv in Hc as (ss & ->%advertisement_members & Hc).
  apply bind_Ok_inv in Hc as (rs & ->%advertisement_members & Hc).
  apply bind_Ok_inv in Hc as (sig & _ & <-%Ok_inj).
  unfold assertIdentity in Hid. apply bind_Ok_inv in Hid as ([] & _ & Hid).
  apply bind_Ok_inv in Hid as (nodeId & Hn & Hid). rewrite throw_if_Ok, negb_false_iff in Hid.
  split; [exists nodeId; split; [done|by apply eq_str_true]|]. split; [done|].
  assert (Hm : ∀ v (name : string), (match v with JUndef => [] | _ => [(name, told v)] end = ([] : list (string * jval)) ∧ told v = JUndef) ∨
                         match v with JUndef => [] | _ => [(name, told v)] end = [(name, told v)])
    by (intros [] name; auto).
  destruct (Hm (g_protocols a) "protocols") as [[-> ->]| ->], (Hm (g_semantics a) "semantics") as [[-> ->]| ->],
    (Hm (g_requiredSemantics a) "requiredSemantics") as [[-> ->]| ->]; done.
Qed.

(** ** The accept of a hello *)

Lemma generation_name p : (0 < protocolGeneration p)%Z → protocol_name (JStr p) = true.
Proof.
  unfold protocolGeneration, generation_digits, protocol_name. case_bool_decide; [|lia].
  destruct (str_drop 6 p) as [|c s]; [lia|]. destruct (is_digit c && _ && _) eqn:Hd; [|lia]. intros _. bool_hyps.
  cbn [str_forall andb nonempty_str]. by repeat match goal with H : _ = true |- _ => rewrite H end.
Qed.

Lemma unique_advertised s v : s ∈ uniqueStrings v → nonempty_str (trim s) = true.
Proof.
  destruct v as [| | | | | |l|]; try by intros ?%elem_of_nil. intros ([| | | | |t| |] & _ & Ht)%elem_of_uniqueStrings; try done.
  cbn [trimmed] in Ht. destruct (nonempty_str (trim t)) eqn:Hn; [|done]. injection Ht as <-. by rewrite trim_idem.
Qed.

(** What was signed is free of [undefined]: the lists of an accept are well
    formed advertisements. *)
Lemma signed_advertised identity kvs sig k v :
  signed identity kvs = Ok sig → (k, JArr (sorted_set (elements_of v))) ∈ kvs → well_advertised v = true →
  well_advertised (JArr (sorted_set (elements_of v))) = true.
Proof.
  unfold signed, signValue. intros (g & (text & Ht & _)%bind_Ok_inv & _)%bind_Ok_inv Hin Hw.
  destruct (canonicalize_member _ _ _ Ht Hin) as (t & ([] & Hc & _)%bind_Ok_inv).
  cbn [well_advertised]. apply forallb_forall. intros x Hx%list_elem_of_In.
  pose proof (canonical_elements _ Hc x Hx) as Hcx. unfold sorted_set in Hx. apply elem_of_app in Hx as [Hx|Hx].
  - apply list_elem_of_fmap in Hx as (s & -> & Hs). unfold sort_strings in Hs.
    rewrite elem_of_sort_by, elem_of_uniq, list_elem_of_omap in Hs. destruct Hs as (y & Hy & Hys).
    destruct v as [| | | | | |l|]; try by apply elem_of_nil in Hy. cbn in Hw. rewrite forallb_forall in Hw.
    apply list_elem_of_In, Hw in Hy. destruct y; try done. by injection Hys as ->.
  - destruct (existsb _ _); [|by apply elem_of_nil in Hx]. by apply list_elem_of_singleton in Hx as ->.
Qed.

Lemma sorted_set_read v : same_strings (JArr (sorted_set (elements_of v))) v.
Proof. intros s. by rewrite (sorted_set_same v s), (elements_same v s). Qed.

Lemma same_strings_sym v w : same_strings v w → same_strings w v.
Proof. intros Hs s. by rewrite (Hs s). Qed.

Lemma told_read v d : same_strings (js_coalesce (told v) d) (with_default v d).
Proof. destruct v; cbn [told js_coalesce nullish with_default]; first [apply same_strings_refl|apply sorted_set_read]. Qed.

(** What the responder decided, and what the initiator reads of the accept, is
    one exchange seen from both sides. *)
Lemma decided_agrees now a hello local p sems :
  createSessionHello now a = Ok hello → decideSessionProtocol (JObj hello) local = inl (Agreed p sems) →
  negotiateProtocol
    (NegotiationArgs (with_default (g_protocols a) (JArr [JStr PROTOCOL])) (JArr (sorted_set (elements_of (localProtocols local))))
       (with_default (g_semantics a) (JArr [])) (JArr (sorted_set (elements_of (localSemantics local))))
       (js_coalesce (oprop (JObj hello) "requiredSemantics") (JArr [])) JUndef JUndef) = Agreed p sems.
Proof.
  intros (_ & _ & Hp & Hs & _)%created_hello Hd. set (h := JObj hello) in *. clearbody h. unfold decideSessionProtocol in Hd.
  destruct (existsb _ _); [done|]. injection Hd as Hd. rewrite <- negotiate_swap in Hd.
  unfold swap in Hd. cbn [Negotiate.localProtocols Negotiate.remoteProtocols Negotiate.localSemantics
    Negotiate.remoteSemantics Negotiate.requiredSemantics localSemanticsByProtocol remoteSemanticsByProtocol] in Hd.
  rewrite Hp, Hs in Hd. eapply agreed_same_strings; [..|exact Hd].
  - apply told_read.
  - apply same_strings_sym, sorted_set_read.
  - apply told_read.
  - apply same_strings_sym, sorted_set_read.
  - intros s. apply set_of_required.
Qed.

(** An agreed generation and its semantics are well formed advertisements. *)
Lemma agreed_names a p sems :
  negotiateProtocol a = Agreed p sems →
  protocol_name (JStr p) = true ∧ well_advertised (JArr (map JStr sems)) = true.
Proof.
  unfold negotiateProtocol. destruct (commonProtocols _ _) as [|selected cs] eqn:Hc; [done|].
  destruct (_ && _); [done|]. destruct (filter _ _); [|done]. intros [= <- <-]. split.
  - apply generation_name. eapply (elem_of_commonProtocols selected). rewrite Hc. by left.
  - cbn [well_advertised]. apply forallb_forall. intros x (s & <- & Hs)%in_map_iff.
    apply list_elem_of_In in Hs. unfold sort_strings in Hs. rewrite elem_of_sort_by, list_elem_of_filter in Hs.
    by apply (unique_advertised s _ (proj2 Hs)).
Qed.

(** The negotiation of a created accept is one's own. *)
Lemma created_negotiation localA identity hello digest nonce binding issued vp vs p sems pk sig :
  well_advertised (JArr (sorted_set (elements_of vp))) = true →
  well_advertised (JArr (sorted_set (elements_of vs))) = true →
  negotiateProtocol
    (NegotiationArgs (localProtocols localA) (JArr (sorted_set (elements_of vp))) (localSemantics localA)
       (JArr (sorted_set (elements_of vs))) (js_coalesce (oprop hello "requiredSemantics") (JArr [])) JUndef JUndef) = Agreed p sems →
  check_negotiation localA
    (JObj (accept_body identity hello digest nonce binding issued (JArr (sorted_set (elements_of vp)))
             (JArr (sorted_set (elements_of vs))) p sems ++ [("publicKey", pk); ("signature", JStr sig)])) hello =
  Verified (AgreedAccept (oprop identity "nodeId") pk p sems).
Proof.
  intros Hp Hs Hn. destruct (agreed_names _ _ _ Hn) as [Hname Hsems]. unfold check_negotiation.
  set (accept := JObj _).
  assert (Hf : oprop accept "supportedProtocols" = JArr (sorted_set (elements_of vp)) ∧
               oprop accept "supportedSemantics" = JArr (sorted_set (elements_of vs)) ∧
               oprop accept "negotiatedSemantics" = JArr (map JStr sems) ∧
               oprop accept "negotiatedProtocol" = JStr p ∧ oprop accept "nodeId" = oprop identity "nodeId" ∧
               oprop accept "publicKey" = pk) by done.
  destruct Hf as (E1 & E2 & E3 & E4 & E5 & E6). cbn [existsb]. rewrite E1, E2, E3, E4, E5, E6, Hp, Hs, Hsems, Hname.
  cbn [negb orb js_coalesce nullish]. rewrite !andb_false_r, !orb_false_l. rewrite Hn.
  unfold eq_str. cbn [strict_eq]. by rewrite !bool_decide_true.
Qed.

(** ** Agreement of the two peers *)

Lemma assertIdentity_inv identity :
  assertIdentity identity = Ok tt →
  truthy (oprop identity "publicKeyPem") = true ∧
  ∃ nodeId, nodeIdFromPublicKey (oprop identity "publicKeyPem") = Ok nodeId ∧
    oprop identity "nodeId" = JStr nodeId ∧ truthy (JStr nodeId) = true.
Proof.
  unfold assertIdentity. intros ([] & Hm & Hc)%bind_Ok_inv. apply bind_Ok_inv in Hc as (nodeId & Hn & Hc).
  rewrite throw_if_Ok in Hc, Hm. bool_hyps.
  match goal with E : eq_str _ _ = true |- _ => apply eq_str_true in E; rewrite E in * end. by eauto 10.
Qed.

(** The accept a peer creates passes the checks of the peer whose hello it answers. *)
Lemma created_accept (HL : Base64Laws _) pub priv (HK : KeyPair _ pub priv)
    now skew identity hello nodeId n helloDigest nonce binding issued vp vs p sems accept :
  oprop identity "publicKeyPem" = JStr pub → oprop identity "privateKeyPem" = JStr priv →
  assertIdentity identity = Ok tt →
  oprop hello "nodeId" = JStr nodeId → nonempty_str nodeId = true → oprop hello "nonce" = JStr n →
  digest (unsignedHello hello) = Ok helloDigest → validateTimestamp issued now skew = true →
  signed identity (accept_body identity hello helloDigest nonce binding issued vp vs p sems) = Ok accept →
  check_accept now skew (Some binding) (JObj accept) hello = Ok tt.
Proof.
  intros Hpub Hpriv Hid Hhn Hne Hnonce Hd Ht Hsg. unfold signed in Hsg. apply bind_Ok_inv in Hsg as (sig & Hsig & <-%Ok_inj).
  rewrite Hpriv in Hsig. cbn [string_or_empty] in Hsig.
  destruct (assertIdentity_inv _ Hid) as (Hpk & idB & Hn & Hnode & Hnt). rewrite Hpub in *.
  set (body := accept_body _ _ _ _ _ _ _ _ _ _) in *.
  assert (Hv : verifyValue (JObj body) (JStr sig) (JStr pub) = Ok true) by (by apply (verifyValue_signValue pub priv)).
  assert (Hsne : truthy (JStr sig) = true).
  { cbn. by eapply nonempty_str_true, (signValue_nonempty pub priv HK HL), Hsig. }
  set (x := JObj (body ++ _)).
  assert (Hf : oprop x "nodeId" = oprop identity "nodeId" ∧ oprop x "peerNodeId" = oprop hello "nodeId" ∧
               oprop x "publicKey" = JStr pub ∧ oprop x "signature" = JStr sig ∧ oprop x "helloNonce" = oprop hello "nonce" ∧
               oprop x "helloDigest" = JStr helloDigest ∧ oprop x "transportBinding" = JStr binding ∧
               oprop x "issuedAt" = issued ∧ signed_body x = JObj body ∧
               eq_str (oprop x "protocol") PEER_SESSION_PROTOCOL = true ∧ eq_str (oprop x "kind") "ACCEPT" = true ∧
               truthy x = true) by (split_and!; reflexivity).
  destruct Hf as (E1 & E2 & E3 & E4 & E5 & E6 & E7 & E8 & E9 & E10 & E11 & E12). clearbody x.
  unfold check_accept. cbn [existsb].
  assert (Hget : get hello "nodeId" = Ok (JStr nodeId)) by (unfold get; rewrite <- Hhn; by destruct hello).
  rewrite E1, E2, E3, E4, E5, E6, E7, E8, E9, E10, E11, E12, Hhn, Hnonce, Hnode, Hnt, Hpk, Hsne, Ht.
  cbn [truthy negb orb throw_if]. rewrite Hne. cbn [negb orb throw_if].
  repeat (rewrite (bind_step _ _ tt) by reflexivity). rewrite (bind_step _ _ idB) by done.
  rewrite (bind_step _ _ tt) by (by rewrite throw_if_Ok, negb_false_iff; apply bool_decide_eq_true).
  rewrite (bind_step _ _ (JStr nodeId)) by done.
  rewrite (bind_step _ _ tt) by (rewrite throw_if_Ok; cbn [strict_eq]; by rewrite !bool_decide_true).
  rewrite (bind_step _ _ helloDigest) by done.
  do 2 rewrite (bind_step _ _ tt) by (rewrite throw_if_Ok; unfold eq_str; cbn [strict_eq]; rewrite bool_decide_true by done; by rewrite ?andb_false_r).
  rewrite (bind_step _ _ tt) by done. by rewrite (bind_step _ _ true).
Qed.

(** What a verified hello establishes. *)
Lemma verified_hello now skew local hello c c' v :
  verifySessionHello now skew local hello c = (c', Verified v) →
  ∃ p s, check_hello now skew hello = Ok (h_replayKey v) ∧ (∀ d, c = Some d → h_replayKey v ∉ entries d) ∧
    decideSessionProtocol hello local = inl (Agreed p s) ∧ h_protocol v = p ∧ h_semantics v = s ∧
    h_nodeId v = oprop hello "nodeId" ∧ c' = add (h_replayKey v) <$> c.
Proof.
  unfold verifySessionHello. destruct (check_hello now skew hello) as [k|e]; [|done].
  destruct (match c with Some d => has k d | None => false end) eqn:Hh; [done|].
  destruct (decideSessionProtocol hello local) as [o|[]]; [|done]. destruct o as [p s| | |]; try done.
  intros [= <- <-]. exists p, s. cbn. split; [done|]. split; [|done].
  intros d ->. unfold has in Hh. by apply bool_decide_eq_false in Hh.
Qed.

(** C24: both peers of a handshake agree: the accept a responder creates for a hello
    passes the verification of the initiator that offered it, with the
    transport binding both see, and the two come to the same protocol
    generation and the same semantics in the same order. *)
Theorem session_agreement (HL : Base64Laws _) pub priv (HK : KeyPair _ pub priv)
    now a hello now' identity local binding issuedAt nonce accept now'' :
  createSessionHello now a = Ok hello →
  oprop identity "publicKeyPem" = JStr pub → oprop identity "privateKeyPem" = JStr priv →
  createSessionAccept now' identity (JObj hello) (JStr binding) local issuedAt nonce = Ok accept →
  validateTimestamp (with_default issuedAt (JStr (toISOString now'))) now'' DEFAULT_MAX_SKEW_MS = true →
  let own := Settings (with_default (g_protocols a) (JArr [JStr PROTOCOL])) (with_default (g_semantics a) (JArr [])) [] in
  ∃ seen, (verifySessionHello now' DEFAULT_MAX_SKEW_MS local (JObj hello) None).2 = Verified seen ∧
    verifySessionAccept now'' DEFAULT_MAX_SKEW_MS own (Some binding) (JObj accept) (JObj hello) =
      Verified (AgreedAccept (oprop identity "nodeId") (JStr pub) (h_protocol seen) (h_semantics seen)).
Proof.
  intros Hh Hpub Hpriv Ha Ht own. unfold createSessionAccept in Ha. apply bind_Ok_inv in Ha as ([] & Hid & Ha).
  destruct (verifySessionHello _ _ _ _ None) as [c' [seen|code reason]] eqn:Hv; cbn [snd] in Ha |- *; [|done].
  exists seen. split; [done|]. apply verified_hello in Hv as (p & s & _ & _ & Hd & <- & <- & _).
  apply bind_Ok_inv in Ha as ([] & _ & Ha). apply bind_Ok_inv in Ha as (d & Hdig & Ha).
  apply bind_Ok_inv in Ha as (ps & Hps & Ha). apply bind_Ok_inv in Ha as (ss & Hss & Hsg).
  apply bind_Ok_inv in Hps as ([] & Hwp%throw_if_Ok%negb_false_iff & <-%Ok_inj).
  apply bind_Ok_inv in Hss as ([] & Hws%throw_if_Ok%negb_false_iff & <-%Ok_inj).
  pose proof (decided_agrees _ _ _ _ _ _ Hh Hd) as Hn.
  destruct (created_hello _ _ _ Hh) as ((nodeId & Hnode & Hhn) & Hnonce & _). cbn [string_or_empty] in Hsg.
  assert (Hc : check_accept now'' DEFAULT_MAX_SKEW_MS (Some binding) (JObj accept) (JObj hello) = Ok tt).
  { eapply (created_accept HL pub priv HK); [done|done|done|exact Hhn| |exact Hnonce|exact Hdig|exact Ht|exact Hsg].
    unfold nodeIdFromPublicKey in Hnode. by apply bind_Ok_inv in Hnode as (fp & _ & <-%Ok_inj). }
  unfold verifySessionAccept. rewrite Hc.
  pose proof (signed_advertised _ _ _ "supportedProtocols" (localProtocols local) Hsg) as Hap.
  pose proof (signed_advertised _ _ _ "supportedSemantics" (localSemantics local) Hsg) as Has.
  unfold signed in Hsg. apply bind_Ok_inv in Hsg as (sig & _ & <-%Ok_inj). unfold mbind, result_bind, thrown. rewrite Hpub.
  apply created_negotiation; [| |exact Hn].
  - apply Hap; [|done]. unfold accept_body. repeat constructor.
  - apply Has; [|done]. unfold accept_body. repeat constructor.
Qed.

(** ** One session per hello *)

Record hello_call := HelloCall { k_now : Z; k_skew : Z; k_local : settings; k_hello : jval }.

(** A run of verifications that share a replay cache; the keys of the hellos
    that were accepted, in order. *)
Fixpoint run_hellos (calls : list hello_call) (c : cache) : cache * list string :=
  match calls with
  | [] => (c, [])
  | k :: calls =>
      match verifySessionHello (k_now k) (k_skew k) (k_local k) (k_hello k) (Some c) with
      | (Some c', Verified v) => let '(c2, keys) := run_hellos calls c' in (c2, h_replayKey v :: keys)
      | _ => run_hellos calls c
      end
  end.

(** The cache is the most recent accepted keys. *)
Definition recent (max : nat) (keys : list string) (c : cache) : Prop :=
  maxEntries c = max ∧ entries c = drop (length keys - max) keys.

Lemma add_recent max keys c k :
  recent max keys c → k ∉ entries c → recent max (keys ++ [k]) (add k c).
Proof.
  intros [Hm He] Hk. split; [done|]. unfold add, has. rewrite bool_decide_false by done. cbn [entries].
  rewrite Hm, He, !length_app, length_drop. cbn [length].
  rewrite <- (drop_app_le keys [k]) by lia. rewrite drop_drop. f_equal. lia.
Qed.

Lemma NoDup_drop_list {A} n (l : list A) : NoDup l → NoDup (drop n l).
Proof. intros Hl. rewrite <- (take_drop n l) in Hl. by apply NoDup_app in Hl as (_ & _ & ?). Qed.

Lemma run_recent max calls c keys :
  recent max keys c → NoDup (entries c) →
  let '(c', keys') := run_hellos calls c in
  recent max (keys ++ keys') c' ∧ NoDup (entries c').
Proof.
  revert c keys. induction calls as [|k calls IH]; intros c keys Hr Hnd; cbn [run_hellos]; [by rewrite app_nil_r|].
  destruct (verifySessionHello _ _ _ _ (Some c)) as [[c1|] [v|code reason]] eqn:Hv; try by apply IH.
  apply verified_hello in Hv as (p & s & _ & Hnew & _ & _ & _ & _ & [= ->]). specialize (Hnew c eq_refl).
  pose proof (add_recent _ _ _ _ Hr Hnew) as Hr1.
  assert (Hnd1 : NoDup (entries (add (h_replayKey v) c))).
  { unfold add, has. rewrite bool_decide_false by done. cbn [entries]. 
    apply NoDup_drop_list, NoDup_app. split; [done|]. split; [|apply NoDup_singleton].
    by intros x Hx ->%list_elem_of_singleton. }
  specialize (IH _ _ Hr1 Hnd1). destruct (run_hellos calls _) as [c2 keys2]. by rewrite <- (assoc_L (++)) in IH.
Qed.

(** A hello is accepted once: in a run of verifications that share a replay
    cache, no two accepted hellos within the capacity of the cache have the same
    node and nonce, and the cache never holds more entries than its capacity. *)
Theorem hello_accepted_once max calls :
  let '(c, keys) := run_hellos calls (new_cache max) in
  NoDup (drop (length keys - max) keys) ∧ length (entries c) ≤ max.
Proof.
  pose proof (run_recent max calls (new_cache max) []) as Hr.
  destruct (run_hellos calls _) as [c keys]. destruct Hr as [[_ He] Hnd]; [done|constructor|].
  cbn [app] in He. rewrite He in Hnd |- *. split; [done|]. rewrite length_drop. lia.
Qed.

Lemma check_accept_facts now skew binding accept hello :
  check_accept now skew binding accept hello = Ok tt →
  (∃ d, digest (unsignedHello hello) = Ok d ∧ oprop accept "helloDigest" = JStr d) ∧
  (∀ b, binding = Some b → b ≠ "" → oprop accept "transportBinding" = JStr b) ∧
  (∃ n, nodeIdFromPublicKey (oprop accept "publicKey") = Ok n ∧ oprop accept "nodeId" = JStr n) ∧
  verifyValue (signed_body accept) (oprop accept "signature") (oprop accept "publicKey") = Ok true.
Proof.
  unfold check_accept. intros ([] & _ & Hc)%bind_Ok_inv. apply bind_Ok_inv in Hc as ([] & _ & Hc).
  apply bind_Ok_inv in Hc as (n & Hn & Hc). apply bind_Ok_inv in Hc as ([] & Hne & Hc).
  apply bind_Ok_inv in Hc as (own & _ & Hc). apply bind_Ok_inv in Hc as ([] & _ & Hc).
  apply bind_Ok_inv in Hc as (d & Hd & Hc). apply bind_Ok_inv in Hc as ([] & Hde & Hc).
  apply bind_Ok_inv in Hc as ([] & Hb & Hc). apply bind_Ok_inv in Hc as ([] & _ & Hc).
  apply bind_Ok_inv in Hc as (ok & Hv & Hok). rewrite throw_if_Ok, negb_false_iff in *. subst ok.
  split; [exists d; split; [done|by apply eq_str_true]|]. split; [|split; [exists n; split; [done|by apply eq_str_true]|done]].
  intros b -> Hbe. rewrite throw_if_Ok in Hb. apply andb_false_iff in Hb as [Hb|Hb%negb_false_iff]; [|by apply eq_str_true].
  by apply nonempty_str_true in Hbe; rewrite Hb in Hbe.
Qed.

(** An accept is bound to one hello and one transport: if it passes against two
    hellos whose texts do not collide under the digest, they are the same value
    up to the order of members, and the transport binding it signed is the one
    both verifications expect. *)
Theorem accept_answers_one_hello (texts : string → Prop) now1 now2 skew1 skew2 l1 l2 b1 b2 accept h1 h2 v1 v2 :
  collision_free texts → json_int (unsignedHello h1) = true → json_int (unsignedHello h2) = true →
  (∀ t, canonicalize (unsignedHello h1) = Ok t ∨ canonicalize (unsignedHello h2) = Ok t → texts t) →
  b1 ≠ "" → b2 ≠ "" →
  verifySessionAccept now1 skew1 l1 (Some b1) accept h1 = Verified v1 →
  verifySessionAccept now2 skew2 l2 (Some b2) accept h2 = Verified v2 →
  same_json (unsignedHello h1) (unsignedHello h2) ∧ b1 = b2.
Proof.
  intros Hcf Hj1 Hj2 Ht Hb1 Hb2 H1 H2. unfold verifySessionAccept in H1, H2.
  destruct (check_accept now1 _ _ _ _) as [[]|] eqn:C1; [|done]. destruct (check_accept now2 _ _ _ _) as [[]|] eqn:C2; [|done].
  apply check_accept_facts in C1 as ((d1 & (t1 & T1 & <-%Ok_inj)%bind_Ok_inv & E1) & B1 & _).
  apply check_accept_facts in C2 as ((d2 & (t2 & T2 & <-%Ok_inj)%bind_Ok_inv & E2) & B2 & _).
  split; [|specialize (B1 b1 eq_refl Hb1); specialize (B2 b2 eq_refl Hb2); congruence].
  apply canonicalize_inj; [done..|]. rewrite T1, T2. f_equal. apply Hcf; [apply Ht; auto..|congruence].
Qed.

End sessions.

(** ** A concrete handshake *)

#[local] Existing Instance toy_coercions.

Definition toy_identity (pem : string) : jval :=
  JObj [("nodeId", JStr (ok_or "" (nodeIdFromPublicKey (H := Toy.host) (JStr pem)))); ("publicKeyPem", JStr pem);
        ("privateKeyPem", JStr "priv")].

Definition toy_time : Z := 1791894600000.
Definition toy_args : hello_args :=
  HelloArgs (toy_identity "a") JUndef [JStr " host:1 "] (JArr [JStr "TRUYN/2"; JStr "TRUYN/1"])
    (JArr [JStr "stream"; JStr "resume"]) JUndef JUndef "n1".
Definition toy_local : settings := Settings (JArr [JStr "TRUYN/1"; JStr "TRUYN/2"]) (JArr [JStr "resume"; JStr "x"]) [JStr "resume"].

Definition toy_hello : list (string * jval) := ok_or [] (createSessionHello (H := Toy.host) toy_time toy_args).
Definition toy_accept : list (string * jval) :=
  ok_or [] (createSessionAccept (H := Toy.host) toy_time (toy_identity "b") (JObj toy_hello) (JStr "quic:1") toy_local JUndef "n2").

Definition toy_own : settings :=
  Settings (JArr [JStr "TRUYN/2"; JStr "TRUYN/1"]) (JArr [JStr "stream"; JStr "resume"]) [].

Lemma session_agreement_witness :
  verifySessionAccept (H := Toy.host) toy_time 30000 toy_own (Some "quic:1") (JObj toy_accept) (JObj toy_hello) =
    Verified (AgreedAccept (oprop (toy_identity "b") "nodeId") (JStr "b") "TRUYN/2" ["resume"]).
Proof.
  assert (Hh : createSessionHello (H := Toy.host) toy_time toy_args = Ok toy_hello) by (vm_compute; reflexivity).
  assert (Ha : createSessionAccept (H := Toy.host) toy_time (toy_identity "b") (JObj toy_hello) (JStr "quic:1") toy_local JUndef "n2" = Ok toy_accept)
    by (vm_compute; reflexivity).
  destruct (session_agreement (H := Toy.host) _ "b" "priv" _ toy_time toy_args toy_hello toy_time (toy_identity "b")
              toy_local "quic:1" JUndef "n2" toy_accept toy_time Hh eq_refl eq_refl Ha) as (seen & Hs & Hv).
  - vm_compute. reflexivity.
  - vm_compute in Hs. injection Hs as <-. exact Hv.
Defined.

Lemma accept_answers_one_hello_witness :
  same_json (unsignedHello (JObj toy_hello)) (unsignedHello (JObj toy_hello)) ∧ "quic:1" = "quic:1".
Proof.
  set (v := AgreedAccept (oprop (toy_identity "b") "nodeId") (JStr "b") "TRUYN/2" ["resume"]).
  assert (Hv : verifySessionAccept (H := Toy.host) toy_time 30000 toy_own (Some "quic:1") (JObj toy_accept) (JObj toy_hello) = Verified v)
    by (vm_compute; reflexivity).
  apply (accept_answers_one_hello (H := Toy.host)
           (λ t, canonicalize (unsignedHello (JObj toy_hello)) = Ok t)
           toy_time toy_time 30000 30000 toy_own toy_own "quic:1" "quic:1" (JObj toy_accept) (JObj toy_hello) (JObj toy_hello) v v).
  - intros a b Ha Hb _. congruence.
  - vm_compute. reflexivity.
  - vm_compute. reflexivity.
  - by intros t [].
  - done.
  - done.
  - exact Hv.
  - exact Hv.
Defined.

Example hello_replayed :
  (run_hellos (H := Toy.host) (replicate 2 (HelloCall toy_time 30000 toy_local (JObj toy_hello))) (new_cache 10)).2 =
  [ok_or "" (check_hello (H := Toy.host) toy_time 30000 (JObj toy_hello))].
Proof. vm_compute. reflexivity. Qed.

End Sessions.
