(* ===== verification/Identity.v ===== *)
(** * Durable identities

    Models core/identity/storage.js, rotation.js, revocation.js, migration.js and
    recovery-bundle.js: the stored form of a node identity and what reads it
    back, its explicit replacement, the key-free record that retires the old
    one, and the encrypted bundle it is recovered from. *)
From S2P Require Import Prelude JSValue JsonPrint JsonParse Dates Host Protocol.
Import JsonParse Keys.

Module Identity.

Definition DURABLE_IDENTITY_SCHEMA : string := "truyn.node-identity/v1".
Definition DURABLE_IDENTITY_VERSION : Z := 1.
Definition IDENTITY_ROTATION_AUDIT_SCHEMA : string := "truyn.identity-rotation/v1".
Definition IDENTITY_ROTATION_CONFIRMATION : string := "ROTATE_NODE_IDENTITY".
Definition IDENTITY_REVOCATION_SCHEMA : string := "truyn.identity-revocation/v1".
Definition LEGACY_IDENTITY_MIGRATION : string := "truyn.legacy-identity/v1-to-durable/v1".
Definition IDENTITY_RECOVERY_SCHEMA : string := "truyn.identity-recovery/v1".
Definition IDENTITY_RECOVERY_VERSION : Z := 1.

(** What the sources take from node:crypto here. *)
Class Vault := {
  (** [createPublicKey(privateKeyPem).export({ type: 'spki', format: 'pem' })] *)
  public_pem_of : string → result string;
  (** [scryptSync(secret, salt, 32)] *)
  scrypt : string → string → string;
  (** AES-256-GCM: the ciphertext and its tag; the text, or a failure *)
  seal : string → string → string → string * string;
  unseal : string → string → string → string → result string
}.

(** Decryption inverts encryption under the same key and initialisation
    vector; the tag is never empty, and a ciphertext is as long as its text. *)
Class VaultLaws (V : Vault) := {
  unseal_seal key iv text : unseal key iv (seal key iv text).2 (seal key iv text).1 = Ok text;
  sealed_length key iv text : String.length (seal key iv text).1 = String.length text;
  tag_nonempty key iv text : (seal key iv text).2 ≠ ""
}.

Definition nonempty (v : jval) : bool := match v with JStr s => nonempty_str s | _ => false end.

(** The first field that is not a non-empty string. *)
Definition first_missing (v : jval) (fields : list string) : option string :=
  List.find (λ k, negb (nonempty (oprop v k))) fields.

Section identity.
Context `{Host} `{NumberText} `{Vault}.

(** ** Storage *)

Definition requireString (value : jval) (field : string) : result string :=
  match value with
  | JStr s => if nonempty_str s then Ok s
              else Throw (error ("Invalid durable identity: " +:+ field +:+ " must be a non-empty string"))
  | _ => Throw (error ("Invalid durable identity: " +:+ field +:+ " must be a non-empty string"))
  end.

Definition normalizeProfile (profile : jval) : result jval :=
  if nullish profile then Ok JNull
  else if nonempty profile then Ok profile
  else Throw (error "Invalid durable identity: profile must be null or a non-empty string").

Definition assertKeyPairMatches (publicKeyPem privateKeyPem : string) : result unit :=
  match public_pem_of privateKeyPem with
  | Throw _ => Throw (error "Invalid durable identity: private key is unreadable")
  | Ok derived => throw_if (negb (bool_decide (derived = publicKeyPem)))
                    (error "Invalid durable identity: private key does not match public key")
  end.

(** The stored record. *)
Record durable := Durable {
  d_nodeId : string; d_algorithm : string; d_publicKeyPem : string; d_privateKeyPem : string;
  d_network : string; d_profile : jval
}.

Definition record_of (d : durable) : jval :=
  JObj [("schema", JStr DURABLE_IDENTITY_SCHEMA); ("version", JNum (JInt DURABLE_IDENTITY_VERSION));
        ("identity", JObj [("nodeId", JStr (d_nodeId d)); ("algorithm", JStr (d_algorithm d));
                           ("publicKeyPem", JStr (d_publicKeyPem d)); ("privateKeyPem", JStr (d_privateKeyPem d))]);
        ("network", JStr (d_network d)); ("profile", d_profile d)].

(** The checks the writer and the reader share. *)
Definition read_identity (identity network profile : jval) : result durable :=
  publicKeyPem ← requireString (oprop identity "publicKeyPem") "publicKeyPem";
  privateKeyPem ← requireString (oprop identity "privateKeyPem") "privateKeyPem";
  nodeId ← requireString (oprop identity "nodeId") "nodeId";
  algorithm ← requireString (oprop identity "algorithm") "algorithm";
  network ← requireString network "network";
  profile ← normalizeProfile profile;
  derivedNodeId ← nodeIdFromPublicKey (JStr publicKeyPem);
  _ ← throw_if (negb (bool_decide (derivedNodeId = nodeId)))
        (error "Invalid durable identity: nodeId does not match public key");
  _ ← assertKeyPairMatches publicKeyPem privateKeyPem;
  Ok (Durable nodeId algorithm publicKeyPem privateKeyPem network profile).

Definition json_text (v : jval) : string := default "undefined" (stringify v).

Definition serializeDurableIdentity (identity network profile : jval) : result string :=
  _ ← throw_if (negb (truthy identity) || negb (is_typeof_object identity))
        (error "Invalid durable identity: identity is required");
  d ← read_identity identity network profile;
  Ok (json_text (record_of d)).

(** [typeof v === 'string' ? JSON.parse(v) : v] *)
Definition parsed (v : jval) : result jval := match v with JStr s => parse s | _ => Ok v end.

Definition parseDurableIdentity (serialized : jval) : result durable :=
  record ← parsed serialized;
  _ ← throw_if (negb (is_record record)) (error "Invalid durable identity record");
  _ ← throw_if (negb (eq_str (oprop record "schema") DURABLE_IDENTITY_SCHEMA) ||
                negb (eq_int (oprop record "version") DURABLE_IDENTITY_VERSION))
        (error "Unsupported durable identity schema/version");
  _ ← throw_if (negb (is_record (oprop record "identity")))
        (error "Invalid durable identity: identity object is required");
  read_identity (oprop record "identity") (oprop record "network") (oprop record "profile").

(** ** Rotation *)

Definition audit_record (old new rotatedAt : string) (reason : jval) : jval :=
  JObj [("schema", JStr IDENTITY_ROTATION_AUDIT_SCHEMA); ("oldNodeId", JStr old); ("newNodeId", JStr new);
        ("rotatedAt", JStr rotatedAt); ("reason", if nonempty reason then reason else JNull); ("explicit", JBool true)].

(** [replacement] is what [createNewIdentity] returns, [now] the clock. *)
Definition rotateDurableIdentity (serializedIdentity confirmation reason replacement : jval) (now : Z)
    : result (string * jval) :=
  _ ← throw_if (negb (eq_str confirmation IDENTITY_ROTATION_CONFIRMATION))
        (error ("Identity rotation requires explicit confirmation: " +:+ IDENTITY_ROTATION_CONFIRMATION));
  current ← parseDurableIdentity serializedIdentity;
  _ ← throw_if (negb (truthy replacement) || eq_str (oprop replacement "nodeId") (d_nodeId current))
        (error "Identity rotation failed: replacement nodeId must differ from current nodeId");
  rotatedAt ← date_toISOString (Some now);
  rotatedIdentity ← serializeDurableIdentity replacement (JStr (d_network current)) (d_profile current);
  Ok (rotatedIdentity, audit_record (d_nodeId current) (string_or_empty (oprop replacement "nodeId")) rotatedAt reason).

(** ** Revocation *)

Definition requireNodeId (value : jval) (field : string) : result string :=
  match value with
  | JStr s => if nonempty_str s then Ok s else Throw (error ("Identity revocation requires " +:+ field))
  | _ => Throw (error ("Identity revocation requires " +:+ field))
  end.

Definition createIdentityRevocation (rotationAudit : jval) (now : Z) : result jval :=
  _ ← throw_if (negb (truthy rotationAudit) || negb (strict_eq (oprop rotationAudit "explicit") (JBool true)))
        (error "Identity revocation requires an explicit rotation audit");
  revokedNodeId ← requireNodeId (oprop rotationAudit "oldNodeId") "oldNodeId";
  replacementNodeId ← requireNodeId (oprop rotationAudit "newNodeId") "newNodeId";
  _ ← throw_if (bool_decide (revokedNodeId = replacementNodeId))
        (error "Identity revocation requires distinct old/new node IDs");
  revokedAt ← date_toISOString (Some now);
  Ok (JObj [("schema", JStr IDENTITY_REVOCATION_SCHEMA); ("status", JStr "revoked");
            ("revokedNodeId", JStr revokedNodeId); ("replacementNodeId", JStr replacementNodeId);
            ("revokedAt", JStr revokedAt); ("reason", JStr "identity-replaced")]).

Definition parseIdentityRevocation (value : jval) : result jval :=
  record ← parsed value;
  _ ← throw_if (negb (truthy record) || negb (eq_str (oprop record "schema") IDENTITY_REVOCATION_SCHEMA) ||
                negb (eq_str (oprop record "status") "revoked")) (error "Invalid identity revocation record");
  revokedNodeId ← requireNodeId (oprop record "revokedNodeId") "revokedNodeId";
  replacementNodeId ← requireNodeId (oprop record "replacementNodeId") "replacementNodeId";
  _ ← throw_if (bool_decide (revokedNodeId = replacementNodeId) || negb (is_string (oprop record "revokedAt")))
        (error "Invalid identity revocation boundary");
  Ok record.

Definition identity_revoked (nodeId : string) (record : jval) : jerror :=
  error_code "TRUYN_IDENTITY_REVOKED"
    ("Node identity " +:+ nodeId +:+ " is revoked and was replaced by " +:+ to_string (oprop record "replacementNodeId")).

Fixpoint check_revocations (nodeId : string) (revocations : list jval) : result unit :=
  match revocations with
  | [] => Ok tt
  | candidate :: revocations =>
      record ← parseIdentityRevocation candidate;
      if eq_str (oprop record "revokedNodeId") nodeId then Throw (identity_revoked nodeId record)
      else check_revocations nodeId revocations
  end.

Definition assertIdentityNotRevoked (nodeId : jval) (revocations : list jval) : result unit :=
  nodeId ← requireNodeId nodeId "nodeId";
  check_revocations nodeId revocations.

Definition serializeIdentityRevocation (record : jval) : result string :=
  record ← parseIdentityRevocation record;
  Ok (json_text (JObj (map (λ k, (k, oprop record k))
        ["schema"; "status"; "revokedNodeId"; "replacementNodeId"; "revokedAt"; "reason"]))).

(** ** Migration *)

Definition requiredLegacyIdentity (value : jval) : result unit :=
  _ ← throw_if (negb (is_record value)) (error "Legacy identity must be an object");
  match first_missing value ["nodeId"; "algorithm"; "publicKeyPem"; "privateKeyPem"] with
  | Some field => Throw (error ("Legacy identity " +:+ field +:+ " must be a non-empty string"))
  | None => Ok tt
  end.

Definition optionalString (value fallback : jval) : jval := if nonempty value then value else fallback.

Definition migrateLegacyIdentity (identity session network profile : jval) : result (durable * string) :=
  _ ← requiredLegacyIdentity identity;
  let sessionRecord := if is_record session then session else JObj [] in
  let resolvedNetwork := optionalString network (optionalString (oprop sessionRecord "network") (JStr "mainnet")) in
  let resolvedProfile := optionalString profile (optionalString (oprop sessionRecord "profile") JNull) in
  serialized ← serializeDurableIdentity identity resolvedNetwork resolvedProfile;
  d ← parseDurableIdentity (JStr serialized);
  _ ← throw_if (negb (eq_str (oprop identity "nodeId") (d_nodeId d)) ||
                negb (eq_str (oprop identity "privateKeyPem") (d_privateKeyPem d)))
        (error "Legacy identity migration changed identity key material");
  Ok (d, serialized).

(** ** Recovery *)

Definition requirePassphrase (passphrase : jval) : result string :=
  match passphrase with
  | JStr s => if bool_decide (12 ≤ String.length s) then Ok s
              else Throw (error "Recovery passphrase must be at least 12 characters")
  | _ => Throw (error "Recovery passphrase must be at least 12 characters")
  end.

Definition parseRecoveryBundle (serialized : jval) : result jval :=
  bundle ← parsed serialized;
  _ ← throw_if (negb (is_record bundle)) (error "Invalid identity recovery bundle");
  _ ← throw_if (negb (eq_str (oprop bundle "schema") IDENTITY_RECOVERY_SCHEMA) ||
                negb (eq_int (oprop bundle "version") IDENTITY_RECOVERY_VERSION))
        (error "Unsupported identity recovery schema/version");
  _ ← throw_if (negb (nonempty (oprop bundle "nodeId"))) (error "Invalid identity recovery bundle: nodeId is required");
  let encryption := oprop bundle "encryption" in
  _ ← throw_if (negb (eq_str (oprop encryption "algorithm") "aes-256-gcm") ||
                negb (eq_str (oprop encryption "kdf") "scrypt")) (error "Unsupported identity recovery encryption");
  _ ← match first_missing encryption ["salt"; "iv"; "tag"] with
      | Some field => Throw (error ("Invalid identity recovery bundle: " +:+ field +:+ " is required"))
      | None => Ok tt
      end;
  _ ← throw_if (negb (nonempty (oprop bundle "ciphertext")))
        (error "Invalid identity recovery bundle: ciphertext is required");
  Ok bundle.

Definition bundle_record (nodeId salt iv tag ciphertext : string) : jval :=
  JObj [("schema", JStr IDENTITY_RECOVERY_SCHEMA); ("version", JNum (JInt IDENTITY_RECOVERY_VERSION));
        ("nodeId", JStr nodeId);
        ("encryption", JObj [("algorithm", JStr "aes-256-gcm"); ("kdf", JStr "scrypt"); ("salt", JStr (base64_encode salt));
                             ("iv", JStr (base64_encode iv)); ("tag", JStr (base64_encode tag))]);
        ("ciphertext", JStr (base64_encode ciphertext))].

(** [salt] and [iv] are the random bytes drawn. *)
Definition exportIdentityRecoveryBundle (serializedIdentity passphrase : jval) (salt iv : string)
    : result (string * string) :=
  record ← parseDurableIdentity serializedIdentity;
  secret ← requirePassphrase passphrase;
  let '(ciphertext, tag) := seal (scrypt secret salt) iv (json_text (record_of record)) in
  Ok (d_nodeId record, json_text (bundle_record (d_nodeId record) salt iv tag ciphertext)).

Definition importIdentityRecoveryBundle (serializedBundle passphrase : jval) : result (string * string) :=
  bundle ← parseRecoveryBundle serializedBundle;
  secret ← requirePassphrase passphrase;
  let encryption := oprop bundle "encryption" in
  let bytes v := base64_decode (string_or_empty v) in
  plaintext ← match unseal (scrypt secret (bytes (oprop encryption "salt"))) (bytes (oprop encryption "iv"))
                      (bytes (oprop encryption "tag")) (bytes (oprop bundle "ciphertext")) with
              | Ok text => Ok text
              | Throw _ => Throw (error "Identity recovery bundle integrity check failed")
              end;
  record ← parseDurableIdentity (JStr plaintext);
  _ ← throw_if (negb (eq_str (oprop bundle "nodeId") (d_nodeId record)))
        (error "Identity recovery bundle nodeId mismatch");
  Ok (d_nodeId record, json_text (record_of record)).

(** ** What is stored is read back *)

Lemma requireString_inv v field s : requireString v field = Ok s → v = JStr s ∧ nonempty_str s = true.
Proof. destruct v; try done. cbn. destruct (nonempty_str s0) eqn:Hn; [|done]. by intros [= ->]. Qed.

Lemma requireString_Ok field s : nonempty_str s = true → requireString (JStr s) field = Ok s.
Proof. cbn. by intros ->. Qed.

Lemma normalizeProfile_inv p q : normalizeProfile p = Ok q → normalizeProfile q = Ok q ∧ (q = JNull ∨ ∃ s, q = JStr s).
Proof.
  unfold normalizeProfile. destruct (nullish p); [by intros <-%Ok_inj; auto|].
  destruct (nonempty p) eqn:Hn; [|done]. intros <-%Ok_inj. destruct p; try done. cbn in Hn |- *. rewrite Hn. eauto.
Qed.

(** What the checks establish. *)
Record durable_facts (identity network : jval) (d : durable) : Prop := {
  df_public : oprop identity "publicKeyPem" = JStr (d_publicKeyPem d);
  df_private : oprop identity "privateKeyPem" = JStr (d_privateKeyPem d);
  df_node : oprop identity "nodeId" = JStr (d_nodeId d);
  df_algorithm : oprop identity "algorithm" = JStr (d_algorithm d);
  df_network : network = JStr (d_network d);
  df_nonempty : forallb nonempty_str [d_publicKeyPem d; d_privateKeyPem d; d_nodeId d; d_algorithm d; d_network d] = true;
  df_profile : normalizeProfile (d_profile d) = Ok (d_profile d) ∧ (d_profile d = JNull ∨ ∃ s, d_profile d = JStr s);
  df_derived : nodeIdFromPublicKey (JStr (d_publicKeyPem d)) = Ok (d_nodeId d);
  df_pair : assertKeyPairMatches (d_publicKeyPem d) (d_privateKeyPem d) = Ok tt
}.

Lemma read_identity_facts identity network profile d :
  read_identity identity network profile = Ok d →
  durable_facts identity network d ∧ normalizeProfile profile = Ok (d_profile d).
Proof.
  unfold read_identity. intros (pk & [Hpk Epk]%requireString_inv & Hr)%bind_Ok_inv.
  apply bind_Ok_inv in Hr as (sk & [Hsk Esk]%requireString_inv & Hr).
  apply bind_Ok_inv in Hr as (node & [Hn En]%requireString_inv & Hr).
  apply bind_Ok_inv in Hr as (alg & [Ha Ea]%requireString_inv & Hr).
  apply bind_Ok_inv in Hr as (net & [Hw Ew]%requireString_inv & Hr).
  apply bind_Ok_inv in Hr as (p & Hp & Hr). apply bind_Ok_inv in Hr as (dn & Hd & Hr).
  apply bind_Ok_inv in Hr as ([] & Hde%throw_if_Ok%negb_false_iff%bool_decide_eq_true & Hr). subst dn.
  apply bind_Ok_inv in Hr as ([] & Hk & <-%Ok_inj). split; [|done].
  split; cbn; try done; [by rewrite Epk, Esk, En, Ea, Ew|by eapply normalizeProfile_inv].
Qed.

Lemma facts_read identity network profile d :
  durable_facts identity network d → normalizeProfile profile = Ok (d_profile d) →
  read_identity identity network profile = Ok d.
Proof.
  intros [Hpk Hsk Hn Ha Hw He Hp Hd Hk] Hpr. cbn in He. bool_hyps. unfold read_identity. rewrite Hpk, Hsk, Hn, Ha, Hw.
  rewrite (bind_step _ _ (d_publicKeyPem d)) by (by apply requireString_Ok).
  rewrite (bind_step _ _ (d_privateKeyPem d)) by (by apply requireString_Ok).
  rewrite (bind_step _ _ (d_nodeId d)) by (by apply requireString_Ok).
  rewrite (bind_step _ _ (d_algorithm d)) by (by apply requireString_Ok).
  rewrite (bind_step _ _ (d_network d)) by (by apply requireString_Ok).
  rewrite (bind_step _ _ _ Hpr), (bind_step _ _ _ Hd), (bind_step _ _ tt), (bind_step _ _ _ Hk); [by destruct d|].
  by apply throw_if_Ok, negb_false_iff, bool_decide_eq_true.
Qed.

Lemma record_facts identity network d : durable_facts identity network d →
  durable_facts (oprop (record_of d) "identity") (oprop (record_of d) "network") d.
Proof. by intros []; split. Qed.

Lemma record_carried identity network d : durable_facts identity network d → carried (record_of d) = true.
Proof. intros [_ _ _ _ _ _ [_ [Hp|[s Hp]]] _ _]; unfold record_of; rewrite Hp; reflexivity. Qed.

Lemma parse_text v : carried v = true → parsed (JStr (json_text v)) = Ok v.
Proof. intros Hc. destruct (parse_stringify v Hc) as [(s & Hs & Hp) _]. unfold json_text. by rewrite Hs. Qed.

(** The text of a record is read back as the record. *)
Lemma parse_record identity network d :
  durable_facts identity network d → parseDurableIdentity (JStr (json_text (record_of d))) = Ok d.
Proof.
  intros Hf. unfold parseDurableIdentity. rewrite (bind_step _ _ _ (parse_text _ (record_carried _ _ _ Hf))).
  do 3 (rewrite (bind_step _ _ tt) by done). destruct (df_profile _ _ _ Hf) as [Hp _].
  by apply facts_read; [eapply record_facts|].
Qed.

Lemma parseDurableIdentity_facts v d : parseDurableIdentity v = Ok d → ∃ identity network, durable_facts identity network d.
Proof.
  unfold parseDurableIdentity. intros (r & _ & Hr)%bind_Ok_inv. do 3 apply bind_Ok_inv in Hr as ([] & _ & Hr).
  apply read_identity_facts in Hr as [Hr _]. by eexists _, _.
Qed.

Lemma serialize_facts identity network profile s :
  serializeDurableIdentity identity network profile = Ok s →
  ∃ d, durable_facts identity network d ∧ normalizeProfile profile = Ok (d_profile d) ∧ s = json_text (record_of d).
Proof.
  unfold serializeDurableIdentity. intros ([] & _ & Hs)%bind_Ok_inv. apply bind_Ok_inv in Hs as (d & Hd & <-%Ok_inj).
  apply read_identity_facts in Hd as [Hf Hp]. by exists d.
Qed.

(** A stored identity is read back with the keys it was stored with, and reading
    and storing it again gives the same text. *)
Theorem stored_identity_round_trip identity network profile s :
  serializeDurableIdentity identity network profile = Ok s →
  ∃ d, parseDurableIdentity (JStr s) = Ok d ∧
    oprop identity "nodeId" = JStr (d_nodeId d) ∧ oprop identity "publicKeyPem" = JStr (d_publicKeyPem d) ∧
    oprop identity "privateKeyPem" = JStr (d_privateKeyPem d) ∧ network = JStr (d_network d) ∧
    nodeIdFromPublicKey (JStr (d_publicKeyPem d)) = Ok (d_nodeId d) ∧
    serializeDurableIdentity (oprop (record_of d) "identity") (JStr (d_network d)) (d_profile d) = Ok s.
Proof.
  intros (d & Hf & Hp & ->)%serialize_facts. exists d. split; [by eapply parse_record|].
  split_and!; try apply Hf. unfold serializeDurableIdentity. rewrite (bind_step _ _ tt) by done.
  rewrite (facts_read _ _ _ d); [done|by apply (record_facts identity network)|by apply Hf].
Qed.

(** ** A rotation retires the old identity *)

Lemma requireNodeId_Ok s field : nonempty_str s = true → requireNodeId (JStr s) field = Ok s.
Proof. cbn. by intros ->. Qed.

Lemma eq_str_neq s t : s ≠ t → eq_str (JStr s) t = false.
Proof. intros. by apply bool_decide_eq_false. Qed.

Definition revocation_record (old new at_ : string) : jval :=
  JObj [("schema", JStr IDENTITY_REVOCATION_SCHEMA); ("status", JStr "revoked"); ("revokedNodeId", JStr old);
        ("replacementNodeId", JStr new); ("revokedAt", JStr at_); ("reason", JStr "identity-replaced")].

Lemma parse_revocation old new at_ v :
  nonempty_str old = true → nonempty_str new = true → old ≠ new →
  parsed v = Ok (revocation_record old new at_) → parseIdentityRevocation v = Ok (revocation_record old new at_).
Proof.
  intros Ho Hn Hne Hv. unfold parseIdentityRevocation. rewrite (bind_step _ _ _ Hv). rewrite (bind_step _ _ tt) by done.
  rewrite (bind_step _ _ old) by (by apply requireNodeId_Ok). rewrite (bind_step _ _ new) by (by apply requireNodeId_Ok).
  rewrite (bind_step _ _ tt); [done|]. by apply throw_if_Ok, orb_false_iff; split; [apply bool_decide_eq_false|].
Qed.

(** Rotation retires: after an explicit rotation the new text holds another
    identity in the same network and profile, a revocation can be made from the
    audit, and its text stops the old identity and only the old one. *)
Theorem rotation_retires serialized confirmation reason replacement now now' s audit :
  rotateDurableIdentity serialized confirmation reason replacement now = Ok (s, audit) →
  (Z.abs now' ≤ 8640000000000000)%Z →
  ∃ old new r text,
    parseDurableIdentity serialized = Ok old ∧ parseDurableIdentity (JStr s) = Ok new ∧
    d_nodeId old ≠ d_nodeId new ∧ d_network new = d_network old ∧ d_profile new = d_profile old ∧
    createIdentityRevocation audit now' = Ok r ∧ serializeIdentityRevocation r = Ok text ∧
    assertIdentityNotRevoked (JStr (d_nodeId old)) [JStr text] = Throw (identity_revoked (d_nodeId old) r) ∧
    assertIdentityNotRevoked (JStr (d_nodeId new)) [JStr text] = Ok tt.
Proof.
  unfold rotateDurableIdentity. intros ([] & _ & Hr)%bind_Ok_inv Hnow. apply bind_Ok_inv in Hr as (old & Hold & Hr).
  apply bind_Ok_inv in Hr as ([] & Hd & Hr). apply bind_Ok_inv in Hr as (at_ & _ & Hr).
  apply bind_Ok_inv in Hr as (s' & Hs & [= <- <-]%Ok_inj). apply serialize_facts in Hs as (new & Hf & Hp & ->).
  destruct (parseDurableIdentity_facts _ _ Hold) as (i & n & Hfo).
  assert (Hne : d_nodeId old ≠ d_nodeId new).
  { apply throw_if_Ok, orb_false_iff in Hd as [_ Hd]. rewrite (df_node _ _ _ Hf) in Hd.
    intros E. rewrite E in Hd. unfold eq_str in Hd. cbn in Hd. by apply bool_decide_eq_false in Hd. }
  pose proof (df_nonempty _ _ _ Hf) as Hn1. pose proof (df_nonempty _ _ _ Hfo) as Hn2. cbn in Hn1, Hn2. bool_hyps.
  rewrite (df_node _ _ _ Hf). cbn [string_or_empty].
  set (r := revocation_record (d_nodeId old) (d_nodeId new) (toISOString now')).
  exists old, new, r, (json_text r). split; [done|]. split; [by eapply parse_record|]. split; [done|].
  assert (Hpr : parsed (JStr (json_text r)) = Ok r) by (by apply parse_text).
  assert (Hself : parseIdentityRevocation r = Ok r) by (by apply parse_revocation).
  assert (Htext : parseIdentityRevocation (JStr (json_text r)) = Ok r) by (by apply parse_revocation).
  split; [pose proof (df_network _ _ _ Hf); congruence|].
  split; [destruct (df_profile _ _ _ Hfo) as [Hpo _]; rewrite Hp in Hpo; congruence|].
  split.
  { unfold createIdentityRevocation. rewrite (bind_step _ _ tt) by done.
    rewrite (bind_step _ _ (d_nodeId old)) by (by apply requireNodeId_Ok).
    rewrite (bind_step _ _ (d_nodeId new)) by (by apply requireNodeId_Ok).
    rewrite (bind_step _ _ tt) by (by apply throw_if_Ok, bool_decide_eq_false).
    unfold date_toISOString. by rewrite bool_decide_true. }
  split; [unfold serializeIdentityRevocation; by rewrite Hself|].
  unfold assertIdentityNotRevoked. split.
  - rewrite requireNodeId_Ok by done. cbn [mbind result_bind]. unfold mbind, result_bind. cbn [check_revocations].
    rewrite (bind_step _ _ _ Htext). change (oprop r "revokedNodeId") with (JStr (d_nodeId old)).
    unfold eq_str. cbn [strict_eq]. by rewrite bool_decide_true.
  - rewrite requireNodeId_Ok by done. unfold mbind, result_bind. cbn [check_revocations].
    rewrite (bind_step _ _ _ Htext). change (oprop r "revokedNodeId") with (JStr (d_nodeId old)).
    by rewrite eq_str_neq.
Qed.

(** ** Recovery *)

Lemma nonempty_JStr s : s ≠ "" → nonempty (JStr s) = true.
Proof. by destruct s. Qed.

Lemma encoded_nonempty `{!Base64Laws H} b :
  base64_decode "" = "" → b ≠ "" → nonempty (JStr (base64_encode b)) = true.
Proof.
  intros He Hb. apply nonempty_JStr. intros E. apply Hb. by rewrite <- (base64_round_trip b), E.
Qed.

Lemma first_missing_None v fields :
  forallb (λ k, nonempty (oprop v k)) fields = true → first_missing v fields = None.
Proof.
  intros Hf. unfold first_missing. destruct (List.find _ fields) as [k|] eqn:E; [|done].
  apply find_some in E as [Hin Hk]. rewrite forallb_forall in Hf. by rewrite (Hf k Hin) in Hk.
Qed.

(** A bundle is accepted as the record it was written from. *)
Lemma parse_bundle node salt iv tag ct :
  nonempty (JStr node) = true → nonempty (JStr (base64_encode salt)) = true →
  nonempty (JStr (base64_encode iv)) = true → nonempty (JStr (base64_encode tag)) = true →
  nonempty (JStr (base64_encode ct)) = true →
  parseRecoveryBundle (JStr (json_text (bundle_record node salt iv tag ct))) = Ok (bundle_record node salt iv tag ct).
Proof.
  intros Hn Hs Hi Ht Hc. unfold parseRecoveryBundle. rewrite (bind_step _ _ _ (parse_text (bundle_record node salt iv tag ct) eq_refl)).
  do 2 (rewrite (bind_step _ _ tt) by done).
  rewrite (bind_step _ _ tt) by (apply throw_if_Ok, negb_false_iff; exact Hn). rewrite (bind_step _ _ tt) by done.
  rewrite (bind_step _ _ tt).
  2:{ rewrite first_missing_None by (cbn [forallb]; rewrite !andb_true_iff; split_and!; [exact Hs|exact Hi|exact Ht|done]). done. }
  rewrite (bind_step _ _ tt); [done|]. apply throw_if_Ok, negb_false_iff. exact Hc.
Qed.

(** C36: recovery: what was exported under a passphrase is imported under it, with
    any salt and initialisation vector drawn, as the same identity. *)
Theorem recovery_round_trip `{!Base64Laws H, !VaultLaws H1} serialized passphrase salt iv node bundle :
  exportIdentityRecoveryBundle serialized passphrase salt iv = Ok (node, bundle) →
  base64_decode "" = "" → salt ≠ "" → iv ≠ "" →
  ∃ d text, parseDurableIdentity serialized = Ok d ∧ d_nodeId d = node ∧
    importIdentityRecoveryBundle (JStr bundle) passphrase = Ok (node, text) ∧
    parseDurableIdentity (JStr text) = Ok d.
Proof.
  unfold exportIdentityRecoveryBundle. intros (d & Hd & He)%bind_Ok_inv H64 Hsalt Hiv.
  apply bind_Ok_inv in He as (secret & Hp & He). set (key := scrypt secret salt) in *. set (text := json_text (record_of d)) in *.
  destruct (seal key iv text) as [ct tag] eqn:Es. apply Ok_inj in He as [= <- <-].
  destruct (parseDurableIdentity_facts _ _ Hd) as (i & n & Hf). pose proof (parse_record _ _ _ Hf) as Hback.
  pose proof (unseal_seal key iv text) as Hu. pose proof (sealed_length key iv text) as Hl.
  pose proof (tag_nonempty key iv text) as Ht. rewrite Es in Hu, Hl, Ht. cbn in Hu, Hl, Ht.
  exists d, text. split_and!; [done|done| |done].
  assert (Hct : ct ≠ "").
  { intros ->. clearbody text. by destruct text. }
  unfold importIdentityRecoveryBundle. rewrite (bind_step _ _ (bundle_record (d_nodeId d) salt iv tag ct)).
  2:{ apply parse_bundle; try by apply encoded_nonempty. pose proof (df_nonempty _ _ _ Hf) as Hn. cbn in Hn. by bool_hyps. }
  rewrite (bind_step _ _ _ Hp). cbv zeta. rewrite (bind_step _ _ text).
  2:{ change (match unseal (scrypt secret (base64_decode (base64_encode salt))) (base64_decode (base64_encode iv))
                      (base64_decode (base64_encode tag)) (base64_decode (base64_encode ct)) with
              | Ok t => Ok t
              | Throw _ => Throw (error "Identity recovery bundle integrity check failed")
              end = Ok text). rewrite !base64_round_trip. fold key. by rewrite Hu. }
  rewrite (bind_step _ _ _ Hback), (bind_step _ _ tt); [done|].
  by apply throw_if_Ok, negb_false_iff, bool_decide_eq_true.
Qed.

(** Migration keeps the keys of a legacy identity and stores it durably. *)
Theorem migration_keeps_keys identity session network profile d s :
  migrateLegacyIdentity identity session network profile = Ok (d, s) →
  oprop identity "nodeId" = JStr (d_nodeId d) ∧ oprop identity "privateKeyPem" = JStr (d_privateKeyPem d) ∧
  oprop identity "publicKeyPem" = JStr (d_publicKeyPem d) ∧ parseDurableIdentity (JStr s) = Ok d.
Proof.
  unfold migrateLegacyIdentity. intros ([] & _ & Hm)%bind_Ok_inv. apply bind_Ok_inv in Hm as (t & Ht & Hm).
  apply bind_Ok_inv in Hm as (d' & Hd & Hm). apply bind_Ok_inv in Hm as ([] & _ & [= <- <-]%Ok_inj).
  apply serialize_facts in Ht as (d0 & Hf & _ & ->). pose proof (parse_record _ _ _ Hf) as Hd0. rewrite Hd in Hd0.
  apply Ok_inj in Hd0 as ->. by split_and!; try apply Hf.
Qed.

End identity.

(** ** A concrete vault *)

(** A private key is its public key after a mark; the tag is the key. *)
#[export] Instance toy_vault : Vault := {|
  public_pem_of s := match s with String "!" s => Ok s | _ => Throw (error "unreadable") end;
  scrypt secret salt := secret +:+ "/" +:+ salt;
  seal key iv text := (text, String "T" (key +:+ iv));
  unseal key iv tag text := if bool_decide (tag = String "T" (key +:+ iv)) then Ok text else Throw (error "auth")
|}.

#[export] Instance toy_vault_laws : VaultLaws toy_vault.
Proof. constructor; [|done|done]. intros. cbn. by rewrite bool_decide_true. Qed.

Definition toy_identity (key : string) : jval :=
  JObj [("nodeId", JStr (match nodeIdFromPublicKey (H := Toy.host) (JStr key) with Ok s => s | Throw _ => "" end));
        ("algorithm", JStr "ed25519"); ("publicKeyPem", JStr key); ("privateKeyPem", JStr (String "!" key))].

Definition toy_stored (key : string) : string :=
  match serializeDurableIdentity (H := Toy.host) (toy_identity key) (JStr "mainnet") JNull with Ok s => s | Throw _ => "" end.

Lemma stored_identity_round_trip_witness :
  ∃ d, parseDurableIdentity (H := Toy.host) (H0 := toy_number) (JStr (toy_stored "pem")) = Ok d ∧ d_publicKeyPem d = "pem".
Proof.
  assert (E : serializeDurableIdentity (H := Toy.host) (toy_identity "pem") (JStr "mainnet") JNull = Ok (toy_stored "pem"))
    by (vm_compute; reflexivity).
  destruct (stored_identity_round_trip (H := Toy.host) (H0 := toy_number) _ _ _ _ E) as (d & Hd & _ & Hp & _).
  injection Hp as Hp. exists d. split; [exact Hd|exact (eq_sym Hp)].
Defined.

Definition toy_rotation : string * jval :=
  match rotateDurableIdentity (H := Toy.host) (H0 := toy_number) (JStr (toy_stored "pem")) (JStr IDENTITY_ROTATION_CONFIRMATION)
          JNull (toy_identity "new") 0 with Ok r => r | Throw _ => ("", JNull) end.

Lemma rotation_retires_witness :
  ∃ old r, parseDurableIdentity (H := Toy.host) (H0 := toy_number) (JStr (toy_stored "pem")) = Ok old ∧
    createIdentityRevocation toy_rotation.2 5 = Ok r.
Proof.
  assert (E : rotateDurableIdentity (H := Toy.host) (H0 := toy_number) (JStr (toy_stored "pem"))
                (JStr IDENTITY_ROTATION_CONFIRMATION) JNull (toy_identity "new") 0 = Ok (toy_rotation.1, toy_rotation.2))
    by (vm_compute; reflexivity).
  destruct (rotation_retires (H := Toy.host) (H0 := toy_number) _ _ _ _ 0 5 _ _ E ltac:(lia))
    as (old & new & r & text & H1 & _ & _ & _ & _ & H2 & _).
  exists old, r. split; [exact H1|exact H2].
Defined.

Definition toy_bundle : string * string :=
  match exportIdentityRecoveryBundle (H := Toy.host) (H0 := toy_number) (JStr (toy_stored "pem"))
          (JStr "correct horse battery") "salt" "iv" with Ok r => r | Throw _ => ("", "") end.

Lemma recovery_round_trip_witness :
  ∃ text, importIdentityRecoveryBundle (H := Toy.host) (H0 := toy_number) (JStr toy_bundle.2)
            (JStr "correct horse battery") = Ok (toy_bundle.1, text).
Proof.
  assert (E : exportIdentityRecoveryBundle (H := Toy.host) (H0 := toy_number) (JStr (toy_stored "pem"))
                (JStr "correct horse battery") "salt" "iv" = Ok (toy_bundle.1, toy_bundle.2)) by (vm_compute; reflexivity).
  destruct (recovery_round_trip (H := Toy.host) (H0 := toy_number) _ _ "salt" "iv" _ _ E eq_refl ltac:(done) ltac:(done))
    as (d & text & _ & _ & Hi & _).
  exists text. exact Hi.
Defined.

(** Another passphrase does not open it. *)
Example wrong_passphrase :
  importIdentityRecoveryBundle (H := Toy.host) (H0 := toy_number) (JStr toy_bundle.2) (JStr "correct horse battery!") =
  Throw (error "Identity recovery bundle integrity check failed").
Proof. vm_compute. reflexivity. Qed.

End Identity.
