(* ===== verification/Security.v ===== *)
(** * Who may use a provider, and who pays

    Models core/security/provider-access.js, provider-billing.js,
    node-backchannel.js, relay-provider-policy.js and paid-need-admission.js:
    the policy of one provider process, the relay's decision which requester an
    offer is for, and the authorisation of a paid request, which the relay
    commits to the shared ledger of [Cosmos] and the provider reads there. *)
From S2P Require Import Prelude JSValue Dates Host Protocol Cosmos SharedHistory.
Import Canonical Keys Envelope Cosmos SharedHistory.

Module Security.

(** [parseIds(value)]: holes of an array stay out *)
Definition parseIds (value : jval) : list string :=
  match value with
  | JArr l => List.filter nonempty_str (omap (λ v, match v with JHole => None | _ => Some (trim (to_string v)) end) l)
  | JStr s => List.filter nonempty_str (map trim (split_on "," s))
  | _ => []
  end.

Definition defaulted (value fallback : jval) : jval := match value with JUndef | JHole => fallback | _ => value end.

(** [set.has(v)] for a set of strings *)
Definition has (l : list string) (v : jval) : bool := existsb (eq_str v) l.

Definition allowed_with (mode : string) (rest : list (string * jval)) : jval :=
  JObj ([("ok", JBool true); ("mode", JStr mode)] ++ rest).
Definition refused_with (mode reason : string) : jval :=
  JObj [("ok", JBool false); ("mode", JStr mode); ("reason", JStr reason)].
Definition is_allowed (decision : jval) : bool := strict_eq (oprop decision "ok") (JBool true).

(** [need?.from || null] *)
Definition requester_of (need : jval) : jval := js_or (oprop need "from") JNull.

(** ** The access policy of a provider *)

Record access_policy := AccessPolicy { ap_mode : string; ap_allowed : list string }.

(** [envMode] and [envIds] are the values of the environment variables. *)
Definition createProviderAccessPolicy (mode allowedRequesterIds envMode envIds : jval) : result access_policy :=
  let mode := defaulted mode (js_or envMode (JStr "owner-only")) in
  let ids := defaulted allowedRequesterIds (js_or envIds (JStr "")) in
  let normalizedMode := to_lower (trim (to_string mode)) in
  let allowed := uniq (parseIds ids) in
  if bool_decide (normalizedMode ∈ ["public"; "owner-only"]) then Ok (AccessPolicy normalizedMode allowed)
  else Throw (error ("Unsupported provider access mode: " +:+ to_string mode)).

Definition authorize_access (p : access_policy) (need : jval) : jval :=
  let mode := ap_mode p in
  if bool_decide (mode = "public") then allowed_with mode []
  else
    let requesterId := requester_of need in
    if negb (truthy requesterId) then refused_with mode "missing_requester_identity"
    else if bool_decide (length (ap_allowed p) = 0) then refused_with mode "no_allowed_requesters"
    else if negb (has (ap_allowed p) requesterId) then refused_with mode "requester_not_allowed"
    else allowed_with mode [("requesterId", requesterId)].

(** ** Billing *)

Definition PUBLIC_MODES : list string := ["byok"; "owner-funded"].

Record billing_policy := BillingPolicy { bp_mode : string }.

Definition createProviderBillingPolicy (mode : jval) : result billing_policy :=
  let mode := defaulted mode (JStr "owner-funded") in
  let normalizedMode := to_lower (trim (to_string mode)) in
  if bool_decide (normalizedMode ∈ PUBLIC_MODES) then Ok (BillingPolicy normalizedMode)
  else Throw (error ("Unsupported public provider billing mode: " +:+ to_string mode +:+
                     "; non-public commercial modes require a compatible managed platform")).

Definition authorize_billing (b : billing_policy) (need : jval) (accessPolicy : option access_policy) : jval :=
  let mode := bp_mode b in
  let requesterId := requester_of need in
  if negb (truthy requesterId) then refused_with mode "missing_requester_identity"
  else match accessPolicy with
       | None => refused_with mode "missing_access_policy"
       | Some accessPolicy =>
           let access := authorize_access accessPolicy need in
           if negb (truthy (oprop access "ok")) then refused_with mode "provider_access_denied"
           else if bool_decide (mode = "byok") && negb (bool_decide (ap_mode accessPolicy = "owner-only"))
           then refused_with mode "byok_provider_must_be_private"
           else if bool_decide (mode = "owner-funded") && negb (bool_decide (ap_mode accessPolicy = "owner-only"))
           then refused_with mode "owner_paid_external_access_disabled"
           else allowed_with mode [("requesterId", requesterId); ("billingResponsibility", JStr "provider-owner")]
       end.

(** ** The backchannel of protected nodes *)

Definition PROVIDER_BACKCHANNEL_HEADER : string := "x-truyn-provider-backchannel-token".

(** UTF-8 is injective: the buffers are equal when the strings are. *)
Definition constantTimeEqual (left right : jval) : bool :=
  let a := to_string (js_or left (JStr "")) in
  let b := to_string (js_or right (JStr "")) in
  if negb (bool_decide (byte_length a = byte_length b)) || bool_decide (byte_length a = 0%Z) then false
  else bool_decide (a = b).

Record backchannel := Backchannel { protectedNodes : list string; expectedToken : string }.

Definition createNodeBackchannelPolicy (protectedNodeIds token : jval) : result backchannel :=
  let protectedNodes := uniq (parseIds protectedNodeIds) in
  let expectedToken := trim (to_string (js_or token (JStr ""))) in
  _ ← throw_if (bool_decide (0 < length protectedNodes) && negb (nonempty_str expectedToken))
        (error "Protected provider node IDs require a backchannel token");
  _ ← throw_if (bool_decide (length protectedNodes = 0) && nonempty_str expectedToken)
        (error "Provider backchannel token requires protected provider node IDs");
  Ok (Backchannel protectedNodes expectedToken).

Definition requiresProof (b : backchannel) (nodeId : jval) : bool := truthy nodeId && has (protectedNodes b) nodeId.

Definition authorize_node (b : backchannel) (nodeId presentedToken : jval) : jval :=
  if negb (truthy nodeId) then
    JObj [("ok", JBool false); ("protected", JBool false); ("reason", JStr "missing_node_identity")]
  else if negb (requiresProof b nodeId) then JObj [("ok", JBool true); ("protected", JBool false)]
  else if negb (constantTimeEqual presentedToken (JStr (expectedToken b))) then
    JObj [("ok", JBool false); ("protected", JBool true); ("reason", JStr "provider_backchannel_denied")]
  else JObj [("ok", JBool true); ("protected", JBool true)].

(** ** The relay's policy for an offer *)

(** The authorities a server injects; a method is [None] when the object has no
    such function. *)
Record tenant_authority := TenantAuthority {
  resolveRequester : option (jval → result jval);
  resolveProvider : option (jval → result jval)
}.

Record grant_authority := GrantAuthority {
  ga_durable : jval;
  ga_revision : jval;
  (** the provider, the requester and the capability *)
  ga_authorize : option (jval → jval → jval → result jval);
  ga_getProviderPolicy : option (jval → result jval)
}.

Definition not_a_function {A} : result A := Throw (error "is not a function").
Definition call1 (f : option (jval → result jval)) (v : jval) : result jval :=
  match f with Some f => f v | None => not_a_function end.

(** The two variables of the module. *)
Record authorities := Authorities { configuredTenant : option tenant_authority; configuredGrant : option grant_authority }.

Definition is_some {A} (o : option A) : bool := match o with Some _ => true | None => false end.

Definition configureRelayAccountTenantAuthority (authority : option tenant_authority)
    : M authorities (option tenant_authority) :=
  _ ← guard_throw (match authority with
                   | Some a => negb (is_some (resolveRequester a)) || negb (is_some (resolveProvider a))
                   | None => false
                   end) (error "account tenant authority must expose resolveRequester() and resolveProvider()");
  s ← get_state;
  _ ← put_state (Authorities authority (configuredGrant s));
  mret (configuredTenant s).

Definition configureRelayProviderGrantAuthority (authority : option grant_authority)
    : M authorities (option grant_authority) :=
  _ ← guard_throw (match authority with
                   | Some a => negb (strict_eq (ga_durable a) (JBool true)) || negb (is_some (ga_authorize a)) ||
                               negb (is_some (ga_getProviderPolicy a))
                   | None => false
                   end) (error "provider grant authority must be durable and expose authorize() / getProviderPolicy()");
  s ← get_state;
  _ ← put_state (Authorities (configuredTenant s) authority);
  mret (configuredGrant s).

Definition normalizeIds (value : jval) : list string :=
  match value with
  | JArr l => uniq (List.filter nonempty_str (omap (λ v, match v with JStr s => Some (trim s) | _ => None end) l))
  | _ => []
  end.

Definition normalizedAccessMode (value : jval) : string :=
  if bool_decide (to_lower (trim (to_string (js_or value (JStr "owner-only")))) = "public") then "public" else "owner-only".

Record provider_policy := ProviderPolicy {
  providerNodeId : string; ownerNodeId : string; capability : jval; accessMode : string; visibility : string;
  allowedRequesterIds : list string; tenantAuthority : option tenant_authority; grantAuthority : option grant_authority
}.

(** [payload?.capability?.name || payload?.capability] *)
Definition capability_of (envelope : jval) : jval :=
  let capability := oprop (oprop envelope "payload") "capability" in js_or (oprop capability "name") capability.

Definition providerPolicyFromOffer (s : authorities) (envelope : jval) : result provider_policy :=
  match oprop envelope "from" with
  | JStr providerNodeId =>
      if negb (nonempty_str providerNodeId) then Throw (error "Provider OFFER requires a signed provider identity")
      else
        let given := oprop (oprop envelope "payload") "metadata" in
        let metadata := if truthy given && is_typeof_object given then given else JObj [] in
        let durableAuthorityEnabled := is_some (configuredGrant s) in
        let legacyAccessMode := normalizedAccessMode (oprop metadata "accessMode") in
        Ok (ProviderPolicy providerNodeId providerNodeId (js_or (capability_of envelope) (JStr "*"))
              (if durableAuthorityEnabled then "authority" else legacyAccessMode)
              (if durableAuthorityEnabled then "authority"
               else if bool_decide (legacyAccessMode = "public") then "network" else "private")
              (if durableAuthorityEnabled then []
               else if bool_decide (legacyAccessMode = "owner-only")
               then normalizeIds (oprop metadata "allowedRequesterIds") else [])
              (configuredTenant s) (configuredGrant s))
  | _ => Throw (error "Provider OFFER requires a signed provider identity")
  end.

(** [None] when no authority is configured, [Some None] for [{ ok: false }] *)
Definition authoritativeContexts (policy : provider_policy) (requesterNodeId : jval) : option (option (jval * jval)) :=
  match tenantAuthority policy with
  | None => None
  | Some authority =>
      Some (match (requester ← call1 (resolveRequester authority) requesterNodeId;
                   provider ← call1 (resolveProvider authority) (JStr (providerNodeId policy));
                   Ok (requester, provider)) with
            | Throw _ => None
            | Ok (requester, provider) =>
                if negb (truthy (oprop requester "ok")) || negb (truthy (oprop provider "ok")) then None
                else Some (requester, provider)
            end)
  end.

Definition providerPolicyAllowsRequester (policy : option provider_policy) (requesterNodeId trustedRequesterNodeIds : jval)
    : bool :=
  match policy, requesterNodeId with
  | Some policy, JStr requester =>
      if negb (nonempty_str requester) then false
      else match grantAuthority policy with
      | Some authority =>
          match (match ga_authorize authority with
                 | Some authorize => authorize (JStr (providerNodeId policy)) requesterNodeId (js_or (capability policy) (JStr "*"))
                 | None => not_a_function
                 end) with
          | Ok decision => is_allowed decision
          | Throw _ => false
          end
      | None =>
          if (match authoritativeContexts policy requesterNodeId with Some None => true | _ => false end) then false
          else if bool_decide (accessMode policy = "public") then true
          else if negb (bool_decide (accessMode policy = "owner-only")) then false
          else
            let allowed := normalizeIds (JArr (map JStr (allowedRequesterIds policy))) in
            let trusted := normalizeIds trustedRequesterNodeIds in
            bool_decide (requester ∈ allowed) || bool_decide (requester ∈ trusted)
      end
  | _, _ => false
  end.

Definition providerPolicyVisibleToRequester := providerPolicyAllowsRequester.

Definition publicProviderPolicy (policy : option provider_policy) : jval :=
  match policy with
  | None => JNull
  | Some policy =>
      match grantAuthority policy with
      | Some authority =>
          match call1 (ga_getProviderPolicy authority) (JStr (providerNodeId policy)) with
          | Ok durablePolicy =>
              if negb (truthy durablePolicy)
              then JObj [("accessMode", JStr "authority"); ("visibility", JStr "unconfigured")]
              else JObj [("accessMode", oprop durablePolicy "mode"); ("visibility", oprop durablePolicy "mode");
                         ("authorityRevision", ga_revision authority)]
          | Throw _ => JObj [("accessMode", JStr "authority"); ("visibility", JStr "unavailable")]
          end
      | None => JObj [("accessMode", JStr (accessMode policy)); ("visibility", JStr (visibility policy))]
      end
  end.

(** ** Paid requests *)

Definition PAID_NEED_CONTRACT : string := "truyn.paid.need/1".

Definition validId (v : jval) : bool :=
  match v with JStr s => bool_decide (0 < String.length s) && bool_decide (String.length s ≤ 4096) | _ => false end.

(** [Number.isSafeInteger(v) && v >= 0] *)
Definition revision_ok (v : jval) : bool :=
  match is_safe_integer v with Some n => bool_decide (0 ≤ n)%Z | None => false end.

Definition authorizePaidNeedAtRelay (policy : option provider_policy) (requesterNodeId capability : jval) : result jval :=
  let required := fault 403 "paid_need_authority_required" in
  match policy with
  | None => Throw required
  | Some policy =>
      let providerNodeId := JStr (providerNodeId policy) in
      match grantAuthority policy with
      | Some (GrantAuthority durable revision (Some authorize) (Some getProviderPolicy)) =>
          _ ← throw_if (negb (validId providerNodeId) || negb (validId requesterNodeId) || negb (validId capability) ||
                        negb (strict_eq durable (JBool true))) required;
          '(decision, providerPolicy) ←
            match (decision ← authorize providerNodeId requesterNodeId capability;
                   providerPolicy ← getProviderPolicy providerNodeId;
                   Ok (decision, providerPolicy)) with
            | Ok r => Ok r
            | Throw _ => Throw (fault 503 "paid_need_authority_unavailable")
            end;
          _ ← throw_if (negb (strict_eq (oprop decision "ok") (JBool true)) ||
                        negb (eq_str (oprop providerPolicy "status") "active") ||
                        negb (has ["self"; "private"; "shared"] (oprop decision "mode")) ||
                        negb (strict_eq (oprop providerPolicy "mode") (oprop decision "mode")) ||
                        (eq_str (oprop decision "mode") "shared" && negb (validId (oprop decision "grantId"))))
                (fault 403 "paid_need_denied");
          _ ← throw_if (negb (revision_ok revision)) (fault 503 "paid_need_authority_unconfirmed");
          Ok (JObj [("contract", JStr PAID_NEED_CONTRACT); ("status", JStr "authorized");
                    ("requesterNodeId", requesterNodeId); ("providerNodeId", providerNodeId); ("capability", capability);
                    ("payerNodeId", providerNodeId); ("billingResponsibility", JStr "provider-owner");
                    ("authorityRevision", revision);
                    ("grantId", if validId (oprop decision "grantId") then oprop decision "grantId" else JNull)])
      | _ => Throw required
      end
  end.

(** [/^[a-f0-9]{64}$/.test(v || '')] *)
Definition fingerprint_shape (v : jval) : bool :=
  let s := to_string (js_or v (JStr "")) in
  bool_decide (String.length s = 64) && str_forall is_hex_digit s.

(** The ledger handed to a provider: its kind and which of its methods are
    functions. *)
Record ledger_handle (W : Type) := LedgerHandle {
  lh_kind : jval; lh_getNeed : option (string → M W (option jval)); lh_beginEffect : bool; lh_finishEffect : bool
}.
Arguments LedgerHandle {W} _ _ _ _.
Arguments lh_kind {W} _.
Arguments lh_getNeed {W} _.
Arguments lh_beginEffect {W} _.
Arguments lh_finishEffect {W} _.

Section paid.
Context `{Host} {W : Type}.

(** [Date.parse(v)] *)
Definition parse_date (v : jval) : option Z := Date_parse (to_string v).

(** The comparison of the record with the request and the authorisation. *)
Definition record_matches (record need : jval) (providerNodeId capability : jval) : bool :=
  let authorization := oprop record "paidAuthorization" in
  truthy record && eq_str (oprop record "status") "matched" &&
  strict_eq (oprop record "requester") (oprop need "from") && strict_eq (oprop record "provider") providerNodeId &&
  strict_eq (oprop record "capability") capability &&
  fingerprint_shape (oprop need "paidFingerprint") &&
  strict_eq (oprop record "fingerprint") (oprop need "paidFingerprint") &&
  eq_str (oprop authorization "contract") PAID_NEED_CONTRACT && eq_str (oprop authorization "status") "authorized" &&
  strict_eq (oprop authorization "requesterNodeId") (oprop need "from") &&
  strict_eq (oprop authorization "providerNodeId") providerNodeId &&
  strict_eq (oprop authorization "capability") capability &&
  strict_eq (oprop authorization "payerNodeId") providerNodeId &&
  eq_str (oprop authorization "billingResponsibility") "provider-owner" &&
  revision_ok (oprop authorization "authorityRevision").

Definition within_age (created : option Z) (maxAgeMs : jval) (now : Z) : bool :=
  match created, is_safe_integer maxAgeMs with
  | Some created, Some maxAgeMs =>
      bool_decide (1 ≤ maxAgeMs)%Z && negb (bool_decide (now < created)%Z) && negb (bool_decide (maxAgeMs < now - created)%Z)
  | _, _ => false
  end.

Definition verifyPaidNeedAtProvider (ledger : option (ledger_handle W)) (need providerNodeId maxAgeMs : jval) (now : Z)
    : M W jval :=
  let shared := fault 503 "paid_need_shared_ledger_required" in
  let unverified := fault 403 "paid_need_unverified" in
  match ledger with
  | Some (LedgerHandle kind (Some getNeed) true true) =>
      _ ← guard_throw (negb (eq_str kind "cosmos-multi-host-v1")) shared;
      _ ← guard_throw (negb (validId (oprop need "id")) || negb (validId (oprop need "from")) ||
                       negb (validId providerNodeId) || truthy (oprop need "chain")) unverified;
      let capability := capability_of need in
      record ← catch_with (getNeed (to_string (oprop need "id"))) (λ _, throw (fault 503 "paid_need_ledger_unavailable"));
      let record := default JNull record in
      _ ← guard_throw (negb (record_matches record need providerNodeId capability)) unverified;
      _ ← guard_throw (negb (within_age (parse_date (oprop record "createdAt")) maxAgeMs now))
            (fault 403 "paid_need_authorization_expired");
      mret (oprop record "paidAuthorization")
  | _ => throw shared
  end.

End paid.

(** ** Access and billing *)

Lemma has_iff l v : has l v = true ↔ ∃ s, v = JStr s ∧ s ∈ l.
Proof.
  unfold has. rewrite existsb_exists. split.
  - intros (s & Hin & Hv). exists s. split; [|by apply list_elem_of_In].
    by apply eq_str_true.
  - intros (s & -> & Hin). exists s. split; [by apply list_elem_of_In|]. by apply bool_decide_eq_true.
Qed.

Lemma parseIds_nonempty v s : s ∈ parseIds v → s ≠ "".
Proof.
  destruct v; cbn [parseIds]; intros Hin%list_elem_of_In; try done;
    apply filter_In in Hin as [_ Hn]; by apply nonempty_str_true.
Qed.

Lemma requester_string need s : s ≠ "" → oprop need "from" = JStr s → requester_of need = JStr s.
Proof.
  intros Hs E. unfold requester_of, js_or. rewrite E. cbn [truthy]. by rewrite (proj2 (nonempty_str_true s) Hs).
Qed.

Lemma requester_from need s : requester_of need = JStr s → oprop need "from" = JStr s.
Proof. unfold requester_of, js_or. by destruct (truthy (oprop need "from")). Qed.

(** A provider that pays, or lends its own key, serves only the requesters its
    owner named, in the private mode. *)
Theorem billing_private mode ids envMode envIds billing p b need :
  createProviderAccessPolicy mode ids envMode envIds = Ok p → createProviderBillingPolicy billing = Ok b →
  is_allowed (authorize_billing b need (Some p)) = true ↔
  ap_mode p = "owner-only" ∧ ∃ s, oprop need "from" = JStr s ∧ s ∈ ap_allowed p.
Proof.
  intros Hp Hb. unfold createProviderAccessPolicy in Hp. cbv zeta in Hp. case_bool_decide as Hm; [|done].
  apply Ok_inj in Hp as <-. cbn [ap_mode ap_allowed]. set (m := to_lower _) in *. set (l := uniq _).
  assert (Hl : ∀ s, s ∈ l → s ≠ "").
  { intros s Hs. apply (proj1 (elem_of_uniq _ _)) in Hs. by eapply parseIds_nonempty. }
  unfold createProviderBillingPolicy in Hb. cbv zeta in Hb. case_bool_decide as Hbm; [|done]. apply Ok_inj in Hb as <-.
  set (bm := to_lower _) in *. unfold authorize_billing, authorize_access. cbn [bp_mode ap_mode ap_allowed].
  clearbody m bm l. assert (Hno : ∀ s, s ∈ l → length l ≠ 0) by (intros s Hs Hlen; destruct l; [by apply elem_of_nil in Hs|done]).
  split.
  - destruct (truthy (requester_of need)) eqn:Ht; [|done]. cbn [negb].
    destruct (decide (m = "public")) as [->|Hpub].
    + cbn. apply list_elem_of_In in Hbm as [<-|[<-|[]] ]; done.
    + rewrite (bool_decide_eq_false_2 (m = "public")) by done.
      case_bool_decide; [done|]. destruct (has l (requester_of need)) eqn:Hh; [|done].
      apply has_iff in Hh as (s & E & Hs). intros _. split; [|exists s; split; [by apply requester_from|done] ].
      apply list_elem_of_In in Hm as [<-|[<-|[]] ]; done.
  - intros (Ho & s & E & Hs). rewrite Ho. rewrite (requester_string _ _ (Hl s Hs) E). cbn [truthy].
    rewrite (proj2 (nonempty_str_true s) (Hl s Hs)). cbn [negb].
    rewrite (bool_decide_eq_false_2 (length l = 0)) by (by eapply Hno).
    rewrite (proj2 (has_iff l (JStr s))) by eauto. cbn. by rewrite !andb_false_r.
Qed.

(** ** The backchannel *)

Lemma constantTimeEqual_iff v t : t ≠ "" → constantTimeEqual v (JStr t) = true ↔ to_string (js_or v (JStr "")) = t.
Proof.
  intros Ht. assert (Hj : js_or (JStr t) (JStr "") = JStr t) by (unfold js_or; cbn; by rewrite (proj2 (nonempty_str_true t) Ht)).
  assert (Hlen : (byte_length t ≠ 0)%Z).
  { destruct t as [|c t]; [done|]. cbn [byte_length]. assert (∀ u, 0 ≤ byte_length u)%Z.
    { induction u as [|d u IH]; cbn [byte_length]; [lia|]. case_bool_decide; lia. }
    specialize (H t). case_bool_decide; lia. }
  unfold constantTimeEqual. rewrite Hj. cbn [to_string]. set (a := to_string _). split.
  - destruct (_ || _); [done|]. by intros ?%bool_decide_eq_true.
  - intros ->. rewrite bool_decide_true, (bool_decide_eq_false_2 (byte_length t = 0%Z)) by done. by rewrite bool_decide_true.
Qed.

(** A protected node is let in with the token and only with it. *)
Theorem backchannel_guarded ids token b nodeId presented :
  createNodeBackchannelPolicy ids token = Ok b →
  is_allowed (authorize_node b nodeId presented) = true ↔
  truthy nodeId = true ∧
  (∀ s, nodeId = JStr s → s ∈ protectedNodes b →
   expectedToken b ≠ "" ∧ to_string (js_or presented (JStr "")) = expectedToken b).
Proof.
  unfold createNodeBackchannelPolicy. cbv zeta. intros ([] & H1%throw_if_Ok & Hb)%bind_Ok_inv.
  apply bind_Ok_inv in Hb as ([] & _ & <-%Ok_inj). cbn [protectedNodes expectedToken].
  set (l := uniq _) in *. set (t := trim _) in *.
  assert (Ht : ∀ s, s ∈ l → t ≠ "").
  { intros s Hs. apply andb_false_iff in H1 as [H1|H1]; [|by apply negb_false_iff, nonempty_str_true in H1].
    apply bool_decide_eq_false in H1. destruct l; [by apply elem_of_nil in Hs|]. cbn in H1. lia. }
  unfold authorize_node, requiresProof. cbn [protectedNodes expectedToken].
  destruct (truthy nodeId); [|by split; [|intros [? _] ] ]. cbn [negb andb].
  destruct (has l nodeId) eqn:Hh; cbn [negb].
  - apply has_iff in Hh as (s & -> & Hs). pose proof (Ht s Hs) as Hne. pose proof (constantTimeEqual_iff presented t Hne) as Hc.
    destruct (constantTimeEqual _ _); cbn; split.
    + intros _. split; [done|]. intros. split; [done|by apply Hc].
    + done.
    + done.
    + intros (_ & Hx). destruct (Hx s eq_refl Hs) as [_ ?%Hc]. done.
  - split; [|done]. intros _. split; [done|]. intros s -> Hs. exfalso.
    by rewrite (proj2 (has_iff l (JStr s))) in Hh by eauto.
Qed.

(** ** The relay's policy *)

(** Once a durable grant authority is configured, whom an offer serves is the
    authority's decision on the signed provider, the requester and the
    capability: nothing else in the offer, no trusted list and no tenant
    authority can broaden or narrow it. *)
Theorem grants_decide s g envelope policy :
  configuredGrant s = Some g → providerPolicyFromOffer s envelope = Ok policy →
  ∃ provider, oprop envelope "from" = JStr provider ∧
  ∀ requester trusted,
    providerPolicyAllowsRequester (Some policy) requester trusted = true ↔
    ∃ r authorize decision, requester = JStr r ∧ r ≠ "" ∧ ga_authorize g = Some authorize ∧
      authorize (JStr provider) (JStr r) (js_or (capability_of envelope) (JStr "*")) = Ok decision ∧
      oprop decision "ok" = JBool true.
Proof.
  intros Hg Hp. unfold providerPolicyFromOffer in Hp. rewrite Hg in Hp.
  destruct (oprop envelope "from") as [| | | | |provider| |]; try done. destruct (nonempty_str provider); [|done].
  apply Ok_inj in Hp as <-. exists provider. split; [done|]. intros requester trusted.
  assert (Hjj : ∀ v, js_or (js_or v (JStr "*")) (JStr "*") = js_or v (JStr "*")).
  { intros v. unfold js_or. destruct (truthy v) eqn:E; [by rewrite E|done]. }
  assert (Hok : ∀ v, strict_eq v (JBool true) = true ↔ v = JBool true).
  { intros v. split; [|by intros ->]. destruct v as [| | |[]|n| | |]; try done. by destruct n. }
  split.
  - destruct requester as [| | | | |r| |]; try done. cbn -[js_or capability_of]. destruct (nonempty_str r) eqn:Hn; [|done].
    cbn -[js_or capability_of]. rewrite Hjj. destruct (ga_authorize g) as [f|]; [|done].
    destruct (f _ _ _) as [d|] eqn:Hd; [|done]. intros Ha%Hok. exists r, f, d. split_and!; try done. by apply nonempty_str_true.
  - intros (r & f & d & -> & Hr & Hf & Hd & Hk). cbn -[js_or capability_of]. rewrite (proj2 (nonempty_str_true r) Hr).
    cbn -[js_or capability_of]. rewrite Hjj, Hf, Hd. by apply Hok.
Qed.

(** ** A paid request from the relay to the provider *)

Definition authorization (p : provider_policy) (r c : string) (revision grant : jval) : jval :=
  JObj [("contract", JStr PAID_NEED_CONTRACT); ("status", JStr "authorized");
        ("requesterNodeId", JStr r); ("providerNodeId", JStr (providerNodeId p)); ("capability", JStr c);
        ("payerNodeId", JStr (providerNodeId p)); ("billingResponsibility", JStr "provider-owner");
        ("authorityRevision", revision); ("grantId", grant)].

Definition primitive (v : jval) : Prop := match v with JArr _ | JObj _ => False | _ => True end.

(** The code compares a primitive as a whole. *)
Lemma primitive_scalar v w : scalar v = scalar w → primitive w → v = w.
Proof. by destruct v, w. Qed.

Lemma revision_primitive v : revision_ok v = true → primitive v.
Proof. by destruct v. Qed.

Lemma authorization_primitive p r c revision grant k :
  primitive revision → primitive grant → primitive (oprop (authorization p r c revision grant) k).
Proof. intros Hr Hg. unfold authorization. cbn [oprop lookup_key]. by repeat case_decide. Qed.

Lemma authorized_inv p r c auth :
  authorizePaidNeedAtRelay (Some p) (JStr r) (JStr c) = Ok auth →
  ∃ revision grant, auth = authorization p r c revision grant ∧ revision_ok revision = true ∧
    validId (JStr r) = true ∧ validId (JStr (providerNodeId p)) = true ∧ primitive grant.
Proof.
  unfold authorizePaidNeedAtRelay. cbv zeta. destruct (grantAuthority p) as [[d rev [f|] [g|] ]|]; try done.
  intros ([] & H1%throw_if_Ok & Ha)%bind_Ok_inv. apply bind_Ok_inv in Ha as ([dec pol] & _ & Ha).
  apply bind_Ok_inv in Ha as ([] & _ & Ha). apply bind_Ok_inv in Ha as ([] & Hrev%throw_if_Ok & <-%Ok_inj).
  eexists _, _. split; [reflexivity|]. bool_hyps. split_and!; try done.
  destruct (validId (oprop dec "grantId")) eqn:Hv; [|done]. by destruct (oprop dec "grantId").
Qed.

Lemma eq_str_same v : eq_str (JStr v) v = true.
Proof. by apply bool_decide_eq_true. Qed.

(** The relay's authorisation is the one the ledger's reservation asks for. *)
Lemma authorized_paid_valid p r c revision grant a :
  revision_ok revision = true → n_requester a = r → n_provider a = providerNodeId p → n_capability a = c →
  n_paidAuthorization a = authorization p r c revision grant → paid_valid a = true.
Proof.
  intros Hrev Hr Hp Hc Ha. unfold paid_valid. cbv zeta. rewrite Ha, Hr, Hp, Hc.
  apply orb_true_iff. right. rewrite !andb_true_iff. split_and!; [apply eq_str_same..|exact Hrev].
Qed.

(** Which of the records that carry the relay's authorisation a provider takes
    for a request of the same requester and capability. *)
Lemma record_matches_reserved record need p r c revision grant fingerprint provider :
  truthy record = true → oprop record "requester" = JStr r →
  oprop record "provider" = JStr (providerNodeId p) → oprop record "capability" = JStr c →
  oprop record "fingerprint" = JStr fingerprint →
  (∀ k, oprop (oprop record "paidAuthorization") k = oprop (authorization p r c revision grant) k) →
  revision_ok revision = true →
  oprop need "paidFingerprint" = JStr fingerprint → fingerprint_shape (JStr fingerprint) = true →
  oprop need "from" = JStr r →
  record_matches record need (JStr provider) (JStr c) =
  bool_decide (providerNodeId p = provider) && eq_str (oprop record "status") "matched".
Proof.
  intros Ht Hr Hp Hc Hf Ha Hrev Hpf Hshape Hfrom. unfold record_matches. cbv zeta.
  rewrite !Ha, Ht, Hr, Hp, Hc, Hf, Hpf, Hfrom. cbn [andb].
  destruct (eq_str (oprop record "status") "matched"); cbn [andb]; [|by rewrite andb_false_r].
  rewrite andb_true_r. case_bool_decide as Hd.
  - rewrite <- Hd, !andb_true_iff. split_and!; try exact (eq_str_same _); done.
  - apply not_true_iff_false. intros Hm. rewrite !andb_true_iff in Hm. destruct_and! Hm.
    match goal with E : strict_eq (JStr (providerNodeId p)) (JStr provider) = true |- _ => by apply bool_decide_eq_true in E end.
Qed.

(** A request as its provider receives it. *)
Record asks (need : jval) (a : need_args) : Prop := {
  ask_id : oprop need "id" = JStr (n_id a);
  ask_from : oprop need "from" = JStr (n_requester a);
  ask_capability : capability_of need = JStr (n_capability a);
  ask_fingerprint : oprop need "paidFingerprint" = JStr (n_fingerprint a);
  ask_chain : truthy (oprop need "chain") = false
}.

Section end_to_end.
Context `{Host} {W : Type} `{!Remote W} {cfg : config} (log : W → list change) `{!Store log}.

(** A reservation creates the document of its arguments, having checked them. *)
Lemma reserved_created now a (w w' : W) doc :
  reserveNeed now a w = (w', Ok doc) →
  validId (JStr (n_id a)) = true ∧ paid_valid a = true ∧
  ∃ deliveries, create now "need" (n_id a) (need_data a deliveries) w = (w', Ok doc).
Proof.
  unfold reserveNeed. intros (w1 & [] & H1 & Hr)%M_bind_Ok_inv. injection H1 as <- H1.
  destruct (negb (validNeedId (n_id a)) || _) eqn:Hg; [done|]. apply orb_false_iff in Hg as [Hid%negb_false_iff _].
  apply M_bind_Ok_inv in Hr as (w2 & [] & H2 & Hr). injection H2 as <- H2. destruct (paid_valid a); [|done].
  cbv zeta in Hr. apply M_bind_Ok_inv in Hr as (w3 & d & H3 & Hr). injection H3 as <- _.
  split_and!; [|done|by eexists].
  unfold validNeedId, nonempty in Hid. bool_hyps. cbn. apply andb_true_iff. split; apply bool_decide_eq_true; [|lia].
  destruct (n_id a); [done|cbn; lia].
Qed.

(** [getNeed] hides no member of the document. *)
Lemma need_fields_member doc k :
  k ∉ ["created_at"; "terminal_at"; "partial_sequence"; "partial_digest"] → oprop (need_fields doc) k = oprop doc k.
Proof.
  intros Hk. destruct doc as [| | | | | | |kvs]; try done. unfold need_fields.
  generalize (oprop (JObj kvs) "createdAt") (oprop (JObj kvs) "terminalAt") (oprop (JObj kvs) "partialSequence")
    (oprop (JObj kvs) "partialDigest"). intros v1 v2 v3 v4. cbn [oprop].
  induction kvs as [|[j v] kvs IH]; cbn [app lookup_key].
  - rewrite !not_elem_of_cons in Hk. destruct_and! Hk. by rewrite !decide_False by done.
  - destruct (decide (k = j)); [done|apply IH].
Qed.

(** What a provider compares of a reservation. *)
Definition reserved_members (now : string) (a : need_args) : list (string * string) :=
  [("requester", n_requester a); ("provider", n_provider a); ("capability", n_capability a);
   ("fingerprint", n_fingerprint a); ("createdAt", now)].

Lemma reserved_member now a k v deliveries :
  (k, v) ∈ reserved_members now a →
  k ∉ ["created_at"; "terminal_at"; "partial_sequence"; "partial_digest"] ∧ k ∉ system_members ∧ k ∈ immutable ∧
  oprop (document now "need" (n_id a) (need_data a deliveries)) k = JStr v.
Proof.
  intros Hin%list_elem_of_In. cbn in Hin. destruct Hin as [[= <- <-]|[[= <- <-]|[[= <- <-]|[[= <- <-]|[[= <- <-]|[]]]]]];
    (split; [by apply not_listed|split; [by apply not_listed|split; [unfold immutable; set_solver|done]]]).
Qed.

(** What the ledger's reader returns of a reservation, however often hosts
    have changed the document since. *)
Lemma reserved_reads now a (w0 w1 : W) doc w w' record :
  good (log w0) → reserveNeed now a w0 = (w1, Ok doc) → log w1 `prefix_of` log w → good (log w) →
  getNeed (n_id a) w = (w', Ok (Some record)) →
  truthy record = true ∧
  (∀ k v, (k, v) ∈ reserved_members now a → oprop record k = JStr v) ∧
  ∀ k, scalar (oprop (oprop record "paidAuthorization") k) = scalar (oprop (n_paidAuthorization a) k).
Proof.
  intros Hg (Hid & _ & deliveries & Hc)%reserved_created Hp Hgw Hget.
  unfold getNeed in Hget. apply M_bind_Ok_inv in Hget as (w2 & [current|] & Hread & Hm); [|done].
  injection Hm as -> <-. destruct (created_reads log _ _ _ _ _ _ _ _ _ _ Hg Hc Hp Hgw Hread) as (Ho & v & [Hi Hpd _ _ _] & Hr & Hpr & _).
  split; [by destruct current|]. split.
  - intros k s (Hf & Hs & Him & Hd)%(reserved_member _ _ _ _ deliveries). rewrite need_fields_member by done.
    apply primitive_scalar; [|done]. etrans; [by apply Hr|]. etrans; [by apply Hi|]. by rewrite Hd.
  - intros k. rewrite need_fields_member by by apply not_listed. etrans; [apply Hpr|]. etrans; [apply Hpd|]. done.
Qed.

(** C26: a paid request from the relay to the provider, through the shared
    ledger both use.  Once the relay authorised a request for a provider and
    reserved it, a provider that looks it up later, after any changes the hosts
    have made to the store meanwhile, decides by what the ledger's reader
    returns: no record or a store that fails is a refusal; with a record, the
    provider it was authorised for accepts while the request is still open and
    young enough, and what it gets are the members of the relay's own
    authorisation; every other provider refuses. *)
Theorem paid_need_end_to_end policy a L (w0 w1 : W) doc w need provider maxAgeMs t :
  good (log w0) →
  authorizePaidNeedAtRelay (Some policy) (JStr (n_requester a)) (JStr (n_capability a)) = Ok (n_paidAuthorization a) →
  n_provider a = providerNodeId policy → reserveNeed (toISOString L) a w0 = (w1, Ok doc) → representable L →
  log w1 `prefix_of` log w → good (log w) →
  asks need a → fingerprint_shape (JStr (n_fingerprint a)) = true → validId (JStr provider) = true →
  verifyPaidNeedAtProvider (Some (LedgerHandle (JStr "cosmos-multi-host-v1") (Some getNeed) true true))
    need (JStr provider) maxAgeMs t w =
  ((getNeed (n_id a) w).1,
   match (getNeed (n_id a) w).2 with
   | Throw _ => Throw (fault 503 "paid_need_ledger_unavailable")
   | Ok None => Throw (fault 403 "paid_need_unverified")
   | Ok (Some record) =>
       if negb (bool_decide (providerNodeId policy = provider) && eq_str (oprop record "status") "matched")
       then Throw (fault 403 "paid_need_unverified")
       else if within_age (Some L) maxAgeMs t then Ok (oprop record "paidAuthorization")
       else Throw (fault 403 "paid_need_authorization_expired")
   end) ∧
  ∀ record, (getNeed (n_id a) w).2 = Ok (Some record) →
    ∀ k, oprop (oprop record "paidAuthorization") k = oprop (n_paidAuthorization a) k.
Proof.
  intros Hg Hauth Hprov Hres HL Hp Hgw [Qid Qfrom Qcap Qfp Qchain] Hshape Hpid.
  destruct (authorized_inv _ _ _ _ Hauth) as (rev & grant & Ha & Hrev & Hrid & _ & Hgr).
  destruct (reserved_created _ _ _ _ _ Hres) as (Hid & _).
  assert (Hread : ∀ record, (getNeed (n_id a) w).2 = Ok (Some record) →
    truthy record = true ∧
    (∀ k v, (k, v) ∈ reserved_members (toISOString L) a → oprop record k = JStr v) ∧
    ∀ k, oprop (oprop record "paidAuthorization") k = oprop (n_paidAuthorization a) k).
  { intros record Hr. destruct (reserved_reads (toISOString L) a w0 w1 doc w (getNeed (n_id a) w).1 record) as (Ht & Hm & Hpa); try done.
    { by rewrite <- Hr, <- surjective_pairing. }
    split; [done|]. split; [done|]. intros k. apply primitive_scalar; [apply Hpa|].
    rewrite Ha. apply authorization_primitive; [by apply revision_primitive|done]. }
  split; [|intros record Hr; by apply Hread].
  unfold verifyPaidNeedAtProvider. cbv zeta.
  rewrite (M_bind_step _ _ _ w tt) by done. rewrite (M_bind_step _ _ _ w tt).
  2:{ unfold guard_throw. by rewrite Qid, Hid, Qfrom, Hrid, Hpid, Qchain. }
  rewrite Qcap, Qid. cbn [to_string]. unfold mbind at 1, M_bind at 1, catch_with.
  destruct (getNeed (n_id a) w) as [w' [[record|]|e]]; [|done|done]. cbn [fst snd] in *. change (default JNull (Some record)) with record.
  destruct (Hread record eq_refl) as (Ht & Hm & Hpa).
  assert (oprop record "requester" = JStr (n_requester a) ∧ oprop record "provider" = JStr (providerNodeId policy) ∧
          oprop record "capability" = JStr (n_capability a) ∧ oprop record "fingerprint" = JStr (n_fingerprint a) ∧
          oprop record "createdAt" = JStr (toISOString L)) as (Er & Ep & Ec & Ef & Ed).
  { rewrite <- Hprov. split_and!; apply Hm; unfold reserved_members; repeat constructor. }
  unfold guard_throw.
  rewrite (record_matches_reserved record need policy (n_requester a) (n_capability a) rev grant (n_fingerprint a));
    try assumption; [|intros k; by rewrite Hpa, Ha].
  destruct (_ && _); [|done]. cbn [negb].
  rewrite (M_bind_step _ _ _ w' tt) by done.
  assert (Hdate : parse_date (oprop record "createdAt") = Some L).
  { rewrite Ed. unfold parse_date. cbn. by apply Date_parse_toISOString. }
  rewrite Hdate. by destruct (within_age _ _ _).
Qed.

End end_to_end.

(** ** Concrete policies *)

Lemma billing_private_witness :
  is_allowed (authorize_billing (BillingPolicy "byok") (JObj [("from", JStr "alice")])
                (Some (AccessPolicy "owner-only" ["alice"; "bob"]))) = true.
Proof.
  apply (billing_private JUndef (JStr " alice, bob,") (JStr "Owner-Only") JUndef (JStr "BYOK")
           (AccessPolicy "owner-only" ["alice"; "bob"]) (BillingPolicy "byok") (JObj [("from", JStr "alice")]));
    [reflexivity|reflexivity|].
  split; [reflexivity|]. exists "alice". split; [reflexivity|repeat constructor].
Defined.

Lemma backchannel_guarded_witness :
  is_allowed (authorize_node (Backchannel ["n1"] "secret") (JStr "n1") (JStr "secret")) = true.
Proof.
  apply (backchannel_guarded (JArr [JStr "n1"; JStr " n1 "]) (JStr " secret ") (Backchannel ["n1"] "secret")
           (JStr "n1") (JStr "secret")); [reflexivity|].
  split; [reflexivity|]. intros s _ _. split; [by intros [=]|reflexivity].
Defined.

(** An authority that grants one requester, and holds an active policy. *)
Definition toy_grants : grant_authority :=
  GrantAuthority (JBool true) (JNum (JInt 4))
    (Some (λ _ requester _, Ok (JObj [("ok", JBool (eq_str requester "alice")); ("mode", JStr "private")])))
    (Some (λ _, Ok (JObj [("status", JStr "active"); ("mode", JStr "private")]))).

Definition toy_authorities : authorities := Authorities None (Some toy_grants).

(** The offer claims to be public. *)
Definition toy_offer : jval :=
  JObj [("from", JStr "prov"); ("payload", JObj [("capability", JStr "sum"); ("metadata", JObj [("accessMode", JStr "public")])])].

Definition toy_policy : provider_policy :=
  ProviderPolicy "prov" "prov" (JStr "sum") "authority" "authority" [] None (Some toy_grants).

Lemma grants_decide_witness : providerPolicyAllowsRequester (Some toy_policy) (JStr "mallory") (JArr [JStr "mallory"]) ≠ true.
Proof.
  destruct (grants_decide toy_authorities toy_grants toy_offer toy_policy eq_refl eq_refl) as (prov & _ & Hd).
  intros (r & f & d & [= <-] & _ & Hf & Hok & Hk)%Hd. injection Hf as <-. injection Hok as <-. by cbn in Hk.
Defined.

Definition toy_fingerprint : string := Toy.hex 64 7.

Definition toy_args : need_args :=
  NeedArgs "need-1" "alice" "prov" toy_fingerprint "sum" "legacy" "alice" "digest" JNull
    (authorization toy_policy "alice" "sum" (JNum (JInt 4)) JNull).

Definition toy_need : jval :=
  JObj [("id", JStr "need-1"); ("from", JStr "alice"); ("payload", JObj [("capability", JStr "sum")]);
        ("paidFingerprint", JStr toy_fingerprint)].

(** The store after the reservation, and after another host began the effect. *)
Definition toy_reserved : list change := (reserveNeed (H := Toy.host) (toISOString 1000) toy_args []).1.
Definition toy_later : list change :=
  run_ops (H := Toy.host) [BeginEffect "t1" "need-1" "alice" "prov" "f"] toy_reserved.

Lemma toy_representable : representable 1000.
Proof. exists 1970%Z, 1%Z, 1%Z. split; [reflexivity|lia]. Qed.

Lemma paid_need_end_to_end_witness :
  verifyPaidNeedAtProvider (H := Toy.host)
    (Some (LedgerHandle (JStr "cosmos-multi-host-v1") (Some (getNeed (H := Toy.host))) true true))
    toy_need (JStr "prov") (JNum (JInt 900000)) 2000 toy_later = (toy_later, Ok (n_paidAuthorization toy_args)).
Proof.
  assert (Hres : ∃ doc, reserveNeed (H := Toy.host) (toISOString 1000) toy_args [] = (toy_reserved, Ok doc)).
  { eexists. vm_compute. reflexivity. }
  destruct Hres as [doc Hres].
  assert (Hg : good (run_ops (H := Toy.host) [] [])) by constructor.
  assert (Hg1 : good toy_reserved) by apply (SharedHistory.toy_good [ReserveNeed (toISOString 1000) toy_args]).
  destruct (run_ops_keeps (H := Toy.host) (λ h : list change, h) [BeginEffect "t1" "need-1" "alice" "prov" "f"] toy_reserved Hg1)
    as [Hg2 Hp].
  assert (Hread : getNeed (H := Toy.host) (n_id toy_args) toy_later = (toy_later, (getNeed (H := Toy.host) (n_id toy_args) toy_later).2)
                  ∧ match (getNeed (H := Toy.host) (n_id toy_args) toy_later).2 with
                    | Ok (Some record) => eq_str (oprop record "status") "matched" = true ∧
                                          oprop record "paidAuthorization" = n_paidAuthorization toy_args
                    | _ => False
                    end) by (vm_compute; repeat split; reflexivity).
  destruct (paid_need_end_to_end (H := Toy.host) (λ h : list change, h) toy_policy toy_args 1000 [] toy_reserved doc toy_later
              toy_need "prov" (JNum (JInt 900000)) 2000) as [Hv _];
    [exact Hg|reflexivity|reflexivity|exact Hres|apply toy_representable|exact Hp|exact Hg2|by split
    |vm_compute; reflexivity|reflexivity|].
  rewrite Hv. clear Hv. destruct Hread as [-> Hm]. cbn [fst snd].
  destruct (getNeed (H := Toy.host) (n_id toy_args) toy_later).2 as [[record|]|e]; [|destruct Hm|destruct Hm].
  destruct Hm as [-> ->]. reflexivity.
Defined.

End Security.
