(* ===== verification/DurableStore.v ===== *)
(** * The durable JSON store

    Models core/security/durable-json-store.js: a JSON file that several
    processes change by transactions under a lock file.  Every call into the
    file system is one step of a transition system, so the processes interleave
    and crash between any two of them. *)
From S2P Require Import Prelude JSValue JsonPrint JsonParse Dates Host.
Import JsonParse.

Module DurableStore.

Definition durableStateError (code : string) : jerror := error_code code code.

(** A state is an object; a mutator changes the draft it is given and answers. *)
Notation members := (list (string * jval)).
Definition mutator : Type := members → result (members * jval).

Record options := Options { defaultState : members; lockTimeoutMs : jnum; staleLockMs : jnum }.

Definition num_lt (a b : jnum) : bool := match num_compare_num a b with Some Lt => true | _ => false end.
Definition num_geq (a b : jnum) : bool := match num_compare_num a b with Some (Gt | Eq) => true | _ => false end.

(** The options of [createDurableJsonStore], validated. *)
Definition createDurableJsonStore (filePath : jval) (defaultState : members) (lockTimeoutMs staleLockMs : jval)
    : result options :=
  _ ← throw_if (match filePath with JStr s => negb (nonempty_str (trim s)) | _ => true end)
        (error "durable store filePath is required");
  timeout ← match lockTimeoutMs with
            | JNum n => if negb (js_finite n) || num_lt n (JInt 1) then Throw (error "lockTimeoutMs must be positive") else Ok n
            | _ => Throw (error "lockTimeoutMs must be positive")
            end;
  stale ← match staleLockMs with
          | JNum n => if negb (js_finite n) || num_lt n timeout
                      then Throw (error "staleLockMs must be >= lockTimeoutMs") else Ok n
          | _ => Throw (error "staleLockMs must be >= lockTimeoutMs")
          end;
  Ok (Options defaultState timeout stale).

(** ** The shared files *)

(** A lock file is known by the token of its creator; its record is written
    after it was created. *)
Record lockfile := Lockfile { l_owner : string; l_pid : option nat; l_mtime : Z }.

(** What [JSON.parse] makes of the state file. *)
Notation content := (option (result jval)).

Section store.
Context `{NumberText} (options : options).

(** Indentation and the final newline do not change what is parsed. *)
Definition reread (state : members) : result jval :=
  match stringify (JObj state) with Some text => parse text | None => Throw (error "undefined") end.

Definition readUnlocked (file : content) : result members :=
  match file with
  | None => Ok (defaultState options)
  | Some (Ok (JObj state)) => Ok state
  | Some _ => Throw (durableStateError "durable_state_corrupt")
  end.

Definition revision_of (state : members) : Z :=
  match is_safe_integer (oprop (JObj state) "revision") with
  | Some n => if bool_decide (0 ≤ n)%Z then n else 0%Z
  | None => 0%Z
  end.

(** The draft a transaction persists, and its answer. *)
Definition mutation (f : mutator) (current : members) (now : Z) : result (members * jval) :=
  '(draft, answer) ← f current;
  updatedAt ← date_toISOString (Some now);
  Ok (set_key "updatedAt" (JStr updatedAt) (set_key "revision" (JNum (JInt (revision_of current + 1))) draft), answer).

(** ** Processes *)

(** Where a process is between two calls into the file system.  [owner] is the
    random token of the transaction. *)
Notation outcome := (result (jval * members)).

Inductive pc :=
| Idle
| Opening (owner : string) (f : mutator) (startedAt : Z)
| Recording (owner : string) (f : mutator)
| Stating (owner : string) (f : mutator) (startedAt : Z)
| Judging (owner : string) (f : mutator) (startedAt : Z)
| Breaking (owner : string) (f : mutator) (startedAt : Z)
| Checking (owner : string) (f : mutator) (startedAt : Z)
| Reading (owner : string) (f : mutator)
| Renaming (owner : string) (f : mutator) (now : Z) (draft : members) (answer : jval)
| Syncing (owner : string) (draft : members) (answer : jval)
| Releasing (owner : string) (r : outcome)
| Unlinking (owner : string) (r : outcome)
| Finished (r : outcome).

Record world := World { file : content; lock : option lockfile; procs : gmap nat pc }.

(** One step: the process, the clock, whether a call that can fail does not,
    the token drawn and the mutator when a transaction is begun, and whether
    the process dies instead. *)
Record event := Event {
  e_pid : nat; e_now : Z; e_io : bool; e_owner : string; e_mutator : mutator; e_crash : bool
}.

Definition lock_unavailable : outcome := Throw (durableStateError "durable_lock_unavailable").
Definition write_failed : outcome := Throw (durableStateError "durable_write_failed").

(** [openSync(lockPath, 'wx')] *)
Definition open_lock (e : event) (owner : string) (f : mutator) (startedAt : Z) (l : option lockfile)
    : option lockfile * pc :=
  match l with
  | Some _ => (l, Stating owner f startedAt)
  | None => if e_io e then (Some (Lockfile owner None (e_now e)), Recording owner f) else (l, Finished lock_unavailable)
  end.

(** The record is written through the descriptor: into the file this process
    created, which may have been unlinked. *)
Definition write_record (e : event) (owner : string) (f : mutator) (l : option lockfile) : option lockfile * pc :=
  if e_io e then
    (match l with
     | Some file => if bool_decide (l_owner file = owner) then Some (Lockfile owner (Some (e_pid e)) (e_now e)) else l
     | None => None
     end, Reading owner f)
  else (l, Finished lock_unavailable).

Definition stat_lock (e : event) (owner : string) (f : mutator) (startedAt : Z) (l : option lockfile) : pc :=
  match l with
  | None => Opening owner f startedAt
  | Some file =>
      if negb (e_io e) then Finished lock_unavailable
      else if num_geq (JInt (e_now e - l_mtime file)) (staleLockMs options) then Judging owner f startedAt
      else Checking owner f startedAt
  end.

(** [readLockRecord()], [None] for null *)
Definition readLockRecord (e : event) (l : option lockfile) : option (nat * string) :=
  match l with
  | Some (Lockfile owner (Some pid) _) => if e_io e then Some (pid, owner) else None
  | _ => None
  end.

Definition judge_lock (e : event) (alive : nat → bool) (owner : string) (f : mutator) (startedAt : Z)
    (l : option lockfile) : pc :=
  match readLockRecord e l with
  | Some (pid, _) => if alive pid then Checking owner f startedAt else Breaking owner f startedAt
  | None => Breaking owner f startedAt
  end.

Definition break_lock (e : event) (owner : string) (f : mutator) (startedAt : Z) (l : option lockfile)
    : option lockfile * pc :=
  match l with
  | None => (None, Opening owner f startedAt)
  | Some _ => if e_io e then (None, Opening owner f startedAt) else (l, Finished lock_unavailable)
  end.

Definition check_timeout (e : event) (owner : string) (f : mutator) (startedAt : Z) : pc :=
  if num_geq (JInt (e_now e - startedAt)) (lockTimeoutMs options)
  then Finished (Throw (durableStateError "durable_lock_timeout")) else Opening owner f startedAt.

(** The body of the transaction up to the temporary file. *)
Definition mutate_state (e : event) (owner : string) (f : mutator) (file : content) : pc :=
  match (current ← (if e_io e then readUnlocked file
                    else match file with
                         | None => readUnlocked file
                         | Some _ => Throw (durableStateError "durable_state_corrupt")
                         end);
         mutation f current (e_now e)) with
  | Ok (draft, answer) => Renaming owner f (e_now e) draft answer
  | Throw e => Releasing owner (Throw e)
  end.

Definition release_lock (e : event) (owner : string) (r : outcome) (l : option lockfile) : pc :=
  match readLockRecord e l with
  | Some (_, recorded) => if bool_decide (recorded = owner) then Unlinking owner r else Finished r
  | None => Finished r
  end.

Definition unlink_lock (e : event) (r : outcome) (l : option lockfile) : option lockfile * pc :=
  match l with
  | None => (None, Finished r)
  | Some _ => if e_io e then (None, Finished r) else (l, Finished (Throw (error "unlink")))
  end.

Definition advance (e : event) (alive : nat → bool) (c : pc) (file : content) (l : option lockfile)
    : content * (option lockfile * pc) :=
  match c with
  | Idle | Finished _ => (file, (l, Opening (e_owner e) (e_mutator e) (e_now e)))
  | Opening owner f startedAt => (file, open_lock e owner f startedAt l)
  | Recording owner f => (file, write_record e owner f l)
  | Stating owner f startedAt => (file, (l, stat_lock e owner f startedAt l))
  | Judging owner f startedAt => (file, (l, judge_lock e alive owner f startedAt l))
  | Breaking owner f startedAt => (file, break_lock e owner f startedAt l)
  | Checking owner f startedAt => (file, (l, check_timeout e owner f startedAt))
  | Reading owner f => (file, (l, mutate_state e owner f file))
  | Renaming owner f now draft answer =>
      if e_io e then (Some (reread draft), (l, Syncing owner draft answer)) else (file, (l, Releasing owner write_failed))
  | Syncing owner draft answer => (file, (l, Releasing owner (if e_io e then Ok (answer, draft) else write_failed)))
  | Releasing owner r => (file, (l, release_lock e owner r l))
  | Unlinking owner r => (file, unlink_lock e r l)
  end.

(** [process.kill(pid, 0)] finds the process while it runs. *)
Definition running (w : world) (pid : nat) : bool := bool_decide (is_Some (procs w !! pid)).

Definition step (e : event) (w : world) : world :=
  match procs w !! e_pid e with
  | None => w
  | Some c =>
      if e_crash e then World (file w) (lock w) (delete (e_pid e) (procs w))
      else let '(file', (lock', c')) := advance e (running w) c (file w) (lock w) in
           World file' lock' (<[e_pid e := c']> (procs w))
  end.

(** [read()] *)
Definition read (w : world) : result members := readUnlocked (file w).

(** ** Mutual exclusion *)

(** The token of the transaction a process runs, and of the one in which it
    holds the lock. *)
Definition owner_of (c : pc) : option string :=
  match c with
  | Idle | Finished _ => None
  | Opening o _ _ | Recording o _ | Stating o _ _ | Judging o _ _ | Breaking o _ _ | Checking o _ _ | Reading o _
  | Renaming o _ _ _ _ | Syncing o _ _ | Releasing o _ | Unlinking o _ => Some o
  end.

Definition holds (c : pc) : option string :=
  match c with
  | Recording o _ | Reading o _ | Renaming o _ _ _ _ | Syncing o _ _ | Releasing o _ | Unlinking o _ => Some o
  | _ => None
  end.

(** The assumptions on a step: a drawn token is not in use, and a lock file is
    broken only when its creator no longer holds it. *)
Definition admissible (e : event) (w : world) : Prop :=
  (∀ c q d, procs w !! e_pid e = Some c → owner_of c = None → procs w !! q = Some d → owner_of d ≠ Some (e_owner e)) ∧
  (∀ o f s l q c, procs w !! e_pid e = Some (Breaking o f s) → lock w = Some l → procs w !! q = Some c →
     holds c ≠ Some (l_owner l)).

(** The update a step commits, if it does. *)
Definition commit : Type := mutator * Z.
Definition committed (e : event) (w : world) : list commit :=
  match procs w !! e_pid e with
  | Some (Renaming _ f now _ _) => if e_crash e || negb (e_io e) then [] else [(f, now)]
  | _ => []
  end.

Inductive reach (file0 : content) : world → list commit → Prop :=
| reach_start procs : (∀ p c, procs !! p = Some c → c = Idle) → reach file0 (World file0 None procs) []
| reach_step w cs e : reach file0 w cs → admissible e w → reach file0 (step e w) (cs ++ committed e w).

(** The content after one more update, one at a time. *)
Definition apply_commit (file : content) (c : commit) : content :=
  match (current ← readUnlocked file; mutation c.1 current c.2) with
  | Ok (draft, _) => Some (reread draft)
  | Throw _ => file
  end.

(** *** One step *)

#[local] Arguments reread : simpl never.
#[local] Arguments mutation : simpl never.
#[local] Arguments readUnlocked : simpl never.

Lemma holds_owner c o : holds c = Some o → owner_of c = Some o.
Proof. by destruct c. Qed.

Ltac files_of_step :=
  cbn; unfold open_lock, write_record, stat_lock, judge_lock, break_lock, check_timeout, release_lock, unlink_lock;
  intros; repeat case_match; simplify_eq/=; bool_hyps.
Ltac cases_of_step := unfold advance, mutate_state; files_of_step.

Lemma advance_owner e alive c f l f' l' c' o :
  advance e alive c f l = (f', (l', c')) → owner_of c' = Some o →
  owner_of c = Some o ∨ owner_of c = None ∧ o = e_owner e.
Proof.
  destruct c; cases_of_step; naive_solver.
Qed.

Lemma advance_holds e alive c f l f' l' c' o :
  advance e alive c f l = (f', (l', c')) → holds c' = Some o →
  holds c = Some o ∧ l_owner <$> l' = l_owner <$> l ∨ l = None ∧ l_owner <$> l' = Some o.
Proof.
  destruct c; cases_of_step; naive_solver.
Qed.

Lemma advance_lock e alive c f l f' l' c' :
  advance e alive c f l = (f', (l', c')) →
  l_owner <$> l' = l_owner <$> l ∨ l = None ∨ (∃ o r, c = Unlinking o r) ∨ ∃ o g s, c = Breaking o g s.
Proof.
  destruct c; cases_of_step; naive_solver.
Qed.

Lemma advance_renaming e alive c f l f' l' o g now draft answer :
  advance e alive c f l = (f', (l', Renaming o g now draft answer)) →
  f' = f ∧ ∃ current, readUnlocked f = Ok current ∧ mutation g current now = Ok (draft, answer).
Proof.
  intros Ha. assert (c = Reading o g ∧ f' = f ∧ mutate_state e o g f = Renaming o g now draft answer) as (-> & -> & Hr).
  { revert Ha. destruct c; files_of_step; try naive_solver.
    match goal with Hm : mutate_state _ _ _ _ = _ |- _ => pose proof Hm as Hm'; unfold mutate_state in Hm' end.
    destruct (_ ≫= _) as [[d a]|]; naive_solver. }
  split; [done|]. unfold mutate_state in Hr. destruct (_ ≫= _) as [[d a]|] eqn:E; [|done]. simplify_eq.
  apply bind_Ok_inv in E as (current & Hc & Hm). exists current. split; [|done].
  destruct (e_io e); [done|]. by destruct f.
Qed.

Lemma advance_file e alive c f l f' l' c' :
  advance e alive c f l = (f', (l', c')) →
  f' = f ∨ ∃ o g now draft answer, c = Renaming o g now draft answer ∧ e_io e = true ∧ f' = Some (reread draft) ∧
    c' = Syncing o draft answer.
Proof. destruct c; cases_of_step; naive_solver. Qed.

(** A step of the world: nothing, a crash, or an advance of one process. *)
Lemma step_cases e w :
  step e w = w ∧ committed e w = [] ∨
  (step e w = World (file w) (lock w) (delete (e_pid e) (procs w)) ∧ committed e w = []) ∨
  ∃ c f' l' c', procs w !! e_pid e = Some c ∧ advance e (running w) c (file w) (lock w) = (f', (l', c')) ∧
    step e w = World f' l' (<[e_pid e := c']> (procs w)) ∧
    committed e w = match c with Renaming _ f now _ _ => if e_io e then [(f, now)] else [] | _ => [] end.
Proof.
  unfold step, committed. destruct (procs w !! e_pid e) as [c|]; [|by left].
  destruct (e_crash e); [right; left; by destruct c|]. right. right.
  destruct (advance _ _ _ _ _) as (f' & l' & c') eqn:Ha. eexists _, _, _, _. split_and!; try done.
  by destruct c; try done; destruct (e_io e).
Qed.

(** *** The lock excludes *)

Record exclusive (w : world) : Prop := {
  ex_owners : ∀ p q c d o, procs w !! p = Some c → procs w !! q = Some d → owner_of c = Some o → owner_of d = Some o → p = q;
  ex_lock : ∀ p c o, procs w !! p = Some c → holds c = Some o → l_owner <$> lock w = Some o;
  ex_draft : ∀ p o f now draft answer, procs w !! p = Some (Renaming o f now draft answer) →
    ∃ current, readUnlocked (file w) = Ok current ∧ mutation f current now = Ok (draft, answer)
}.

(** Two processes never hold the lock together. *)
Lemma exclusive_holds w p q c d o o' :
  exclusive w → procs w !! p = Some c → procs w !! q = Some d → holds c = Some o → holds d = Some o' → p = q.
Proof.
  intros [Ho Hl _] Hp Hq Hc Hd. pose proof (Hl _ _ _ Hp Hc) as E. rewrite (Hl _ _ _ Hq Hd) in E. injection E as ->.
  by eapply Ho; eauto using holds_owner.
Qed.

Lemma exclusive_step e w : exclusive w → admissible e w → exclusive (step e w).
Proof.
  intros Hx [Hfresh Hbreak]. destruct (step_cases e w) as [[-> _]|[[-> _]|(c & f' & l' & c' & Hc & Ha & -> & _)] ]; [done| |].
  - destruct Hx as [Ho Hl Hd]. split; cbn; intros *; rewrite !lookup_delete_Some; naive_solver.
  - set (p := e_pid e) in *. split; cbn.
    + assert (Hnew : ∀ o q d, owner_of c' = Some o → procs w !! q = Some d → owner_of d = Some o → p = q).
      { intros o q d Hc' Hq Hd. destruct (advance_owner _ _ _ _ _ _ _ _ _ Ha Hc') as [E|[E ->] ];
          [by eapply (ex_owners _ Hx)|by destruct (Hfresh c q d Hc E Hq)]. }
      intros p1 q1 c1 d1 o H1 H2. apply lookup_insert_Some in H1 as [[<- <-]|[? H1] ], H2 as [[<- <-]|[? H2] ]; intros Ho1 Ho2;
        [done|by eapply Hnew|symmetry; by eapply Hnew|by eapply (ex_owners _ Hx)].
    + assert (Hkept : ∀ q d o, p ≠ q → procs w !! q = Some d → holds d = Some o → l_owner <$> l' = Some o).
      { intros q d o Hpq Hq Hd. pose proof (ex_lock _ Hx _ _ _ Hq Hd) as Hl.
        destruct (advance_lock _ _ _ _ _ _ _ _ Ha) as [->|[Hn|[(o1 & r & ->)|(o1 & g & s & ->)] ] ]; [done| | |].
        - by rewrite Hn in Hl.
        - destruct Hpq. by eapply (exclusive_holds w); [done|exact Hc|exact Hq|done|done].
        - destruct (lock w) as [k|] eqn:El; [|done]. destruct (Hbreak _ _ _ k q d Hc eq_refl Hq). by injection Hl as ->. }
      intros q d o Hq Hd. apply lookup_insert_Some in Hq as [[<- <-]|[Hpq Hq] ]; [|by eapply Hkept].
      destruct (advance_holds _ _ _ _ _ _ _ _ _ Ha Hd) as [[E ->]|[_ ?] ]; [by eapply (ex_lock _ Hx)|done].
    + intros q o g now draft answer Hq. apply lookup_insert_Some in Hq as [[<- ->]|[Hpq Hq] ].
      * apply advance_renaming in Ha as [-> Hd]. exact Hd.
      * destruct (advance_file _ _ _ _ _ _ _ _ Ha) as [->|(o1 & g1 & n1 & d1 & a1 & -> & _)]; [by eapply (ex_draft _ Hx)|].
        destruct Hpq. by eapply (exclusive_holds w); [done|exact Hc|exact Hq|done|done].
Qed.

(** *** The history *)

(** What a process past its commit answers. *)
Definition result_of (c : pc) : option (jval * members) :=
  match c with
  | Syncing _ draft answer => Some (answer, draft)
  | Releasing _ (Ok r) | Unlinking _ (Ok r) | Finished (Ok r) => Some r
  | _ => None
  end.

Lemma advance_result e alive c f l f' l' c' r :
  advance e alive c f l = (f', (l', c')) → result_of c' = Some r →
  result_of c = Some r ∨ ∃ o g now, c = Renaming o g now r.2 r.1 ∧ e_io e = true.
Proof. destruct r. destruct c; cases_of_step; naive_solver. Qed.

(** The update that gave an answer, at its place in the history. *)
Definition answered (file0 : content) (cs : list commit) (r : jval * members) : Prop :=
  ∃ before f now after current, cs = before ++ (f, now) :: after ∧
    readUnlocked (foldl apply_commit file0 before) = Ok current ∧ mutation f current now = Ok (r.2, r.1).

Lemma answered_app file0 cs cs' r : answered file0 cs r → answered file0 (cs ++ cs') r.
Proof.
  intros (b & f & now & a & cur & -> & H1). exists b, f, now, (a ++ cs'), cur. by rewrite <- app_assoc.
Qed.

Record history (file0 : content) (w : world) (cs : list commit) : Prop := {
  hi_file : file w = foldl apply_commit file0 cs;
  hi_answers : ∀ p c r, procs w !! p = Some c → result_of c = Some r → answered file0 cs r
}.

Lemma history_step file0 e w cs :
  exclusive w → history file0 w cs → history file0 (step e w) (cs ++ committed e w).
Proof.
  intros Hx [Hf Hr]. destruct (step_cases e w) as [[-> ->]|[[-> ->]|(c & f' & l' & c' & Hc & Ha & -> & Hcm)] ].
  - by rewrite app_nil_r.
  - rewrite app_nil_r. split; cbn; [done|]. intros p c r. rewrite lookup_delete_Some. naive_solver.
  - split; cbn.
    + rewrite foldl_app, <- Hf. destruct (advance_file _ _ _ _ _ _ _ _ Ha) as [->|(o & g & now & d & a & -> & Hio & -> & _)].
      * destruct c as [| | | | | | | |o g now d a| | | |]; rewrite Hcm; try done. destruct (e_io e) eqn:Hio; [|done].
        cbn. destruct (ex_draft _ Hx _ _ _ _ _ _ Hc) as (cur & Hcur & Hm). unfold apply_commit. cbn [fst snd].
        rewrite (bind_step _ _ _ Hcur), Hm. cbn in Ha. rewrite Hio in Ha. by injection Ha as <- _ _.
      * rewrite Hcm, Hio. cbn. destruct (ex_draft _ Hx _ _ _ _ _ _ Hc) as (cur & Hcur & Hm). unfold apply_commit. cbn [fst snd].
        by rewrite (bind_step _ _ _ Hcur), Hm.
    + intros p d r Hp Hd. apply lookup_insert_Some in Hp as [[<- <-]|[_ Hp] ]; [|by eapply answered_app, Hr].
      destruct (advance_result _ _ _ _ _ _ _ _ _ Ha Hd) as [E|(o & g & now & -> & Hio)]; [by eapply answered_app, Hr|].
      rewrite Hcm, Hio. destruct (ex_draft _ Hx _ _ _ _ _ _ Hc) as (cur & Hcur & Hm).
      exists cs, g, now, [], cur. by rewrite <- Hf.
Qed.

Lemma reach_exclusive file0 w cs : reach file0 w cs → exclusive w ∧ history file0 w cs.
Proof.
  induction 1 as [ps Hidle|w cs e _ [Hx Hh] Ha]; [|by split; [apply exclusive_step|apply history_step] ].
  split; split; cbn; try done; intros *; naive_solver.
Qed.

(** C20: transactions of any number of processes, interleaved at every call and
    crashing anywhere, exclude one another and are serialised: the file is the
    result of applying the committed updates one after the other, each to the
    content left by the one before, and what a transaction answered is what its
    update gave at its place. *)
Theorem transactions_serialize file0 w cs :
  reach file0 w cs →
  (∀ p q c d, procs w !! p = Some c → procs w !! q = Some d → is_Some (holds c) → is_Some (holds d) → p = q) ∧
  file w = foldl apply_commit file0 cs ∧
  ∀ p answer state, procs w !! p = Some (Finished (Ok (answer, state))) →
    ∃ before f now after current, cs = before ++ (f, now) :: after ∧
      readUnlocked (foldl apply_commit file0 before) = Ok current ∧ mutation f current now = Ok (state, answer).
Proof.
  intros [Hx Hh]%reach_exclusive. split_and!; [|apply Hh|].
  - intros p q c d Hp Hq [o Hc] [o' Hd]. by eapply (exclusive_holds w).
  - intros p answer state Hp. by apply (hi_answers _ _ _ Hh p _ (answer, state) Hp).
Qed.

(** ** Executions *)

Definition admissible_b (e : event) (w : world) : bool :=
  forallb (λ qc, negb (bool_decide (owner_of <$> procs w !! e_pid e = Some None) &&
                       bool_decide (owner_of qc.2 = Some (e_owner e))) &&
                 match procs w !! e_pid e, lock w with
                 | Some (Breaking _ _ _), Some l => negb (bool_decide (holds qc.2 = Some (l_owner l)))
                 | _, _ => true
                 end) (map_to_list (procs w)).

Lemma admissible_b_ok e w : admissible_b e w = true → admissible e w.
Proof.
  unfold admissible_b. rewrite forallb_forall. intros Hall.
  assert (Hq : ∀ q c, procs w !! q = Some c → _) by (intros q c Hc; exact (Hall (q, c) (proj1 (list_elem_of_In _ _) (proj2 (elem_of_map_to_list _ _ _) Hc)))).
  split.
  - intros c q d Hc Ho Hd. specialize (Hq q d Hd). rewrite Hc in Hq. cbn in Hq. rewrite Ho, bool_decide_true in Hq by done.
    apply andb_true_iff in Hq as [Hq _]. cbn in Hq. by bool_hyps.
  - intros o f s l q c Hp Hl Hc. specialize (Hq q c Hc). rewrite Hp, Hl in Hq. cbn in Hq. by bool_hyps.
Qed.

Fixpoint run_from (w : world) (cs : list commit) (es : list event) : option (world * list commit) :=
  match es with
  | [] => Some (w, cs)
  | e :: es => if admissible_b e w then run_from (step e w) (cs ++ committed e w) es else None
  end.

Lemma run_reach file0 es w cs w' cs' :
  reach file0 w cs → run_from w cs es = Some (w', cs') → reach file0 w' cs'.
Proof.
  revert w cs. induction es as [|e es IH]; intros w cs Hr; cbn; [by intros [= <- <-]|].
  destruct (admissible_b e w) eqn:Ha; [|done]. apply IH. by constructor; [|apply admissible_b_ok].
Qed.

End store.

Definition toy_options : options := Options [("version", JNum (JInt 1)); ("revision", JNum (JInt 0))] (JInt 5000) (JInt 30000).
Definition toy_world : world := World None None (list_to_map [(1, Idle); (2, Idle); (3, Idle)]).

(** A transaction that appends its process to a list. *)
Definition toy_mutator (pid : nat) : mutator := λ state,
  let l := elements_of (oprop (JObj state) "log") in
  Ok (set_key "log" (JArr (l ++ [JNum (JInt (Z.of_nat pid))])) state, JNum (JInt (Z.of_nat (length l)))).

Definition owner_name (pid : nat) : string := "owner" +:+ Z_to_string (Z.of_nat pid).
(** [n] steps of a process *)
Definition steps_of (n pid : nat) (now : Z) : list event :=
  repeat (Event pid now true (owner_name pid) (toy_mutator pid) false) n.
Definition crash_of (pid : nat) (now : Z) : event := Event pid now true (owner_name pid) (toy_mutator pid) true.

(** Process 2 waits for process 1; both commit. *)
Definition toy_run : list event :=
  steps_of 4 1 0 ++ steps_of 4 2 10 ++ steps_of 4 1 20 ++ steps_of 8 2 30.

Definition toy_end : world * list commit :=
  match run_from (H := toy_number) toy_options toy_world [] toy_run with Some r => r | None => (toy_world, []) end.

Lemma transactions_serialize_witness :
  file toy_end.1 = foldl (apply_commit (H := toy_number) toy_options) None toy_end.2 ∧ length toy_end.2 = 2.
Proof.
  assert (E : run_from (H := toy_number) toy_options toy_world [] toy_run = Some (toy_end.1, toy_end.2)) by (vm_compute; reflexivity).
  assert (Hr : reach (H := toy_number) toy_options None toy_end.1 toy_end.2).
  { apply (run_reach toy_options None toy_run toy_world [] _ _); [|exact E]. apply reach_start.
    intros p c Hc. apply elem_of_list_to_map_2 in Hc. apply list_elem_of_In in Hc. cbn in Hc.
    destruct Hc as [Hc|[Hc|[Hc|[] ] ] ]; injection Hc as _ <-; reflexivity. }
  destruct (transactions_serialize toy_options None _ _ Hr) as (_ & Hf & _).
  split; [exact Hf|vm_compute; reflexivity].
Defined.

(** The staleness of a lock is judged before it is unlinked.  Process 1 dies in
    its transaction; 2 and 3 both find its lock stale; 2 breaks it and takes the
    lock; 3 then breaks the lock of 2.  Both commit revision 1, and the update
    of 2 is lost. *)
Definition stale_race : list event :=
  steps_of 3 1 0 ++ [crash_of 1 0] ++ steps_of 4 2 40000 ++ steps_of 4 3 40000 ++
  steps_of 4 2 40001 ++ steps_of 4 3 40002 ++ steps_of 3 2 40003 ++ steps_of 4 3 40004.

Definition committed_revision (w : world) (pid : nat) : option Z :=
  match procs w !! pid with Some (Finished (Ok (_, state))) => Some (revision_of state) | _ => None end.

Example stale_lock_race :
  let w := fold_left (λ w e, step (H := toy_number) toy_options e w) stale_race toy_world in
  committed_revision w 2 = Some 1%Z ∧ committed_revision w 3 = Some 1%Z ∧
  match file w with Some (Ok v) => oprop v "log" = JArr [JNum (JInt 3)] | _ => False end.
Proof. vm_compute. split_and!; reflexivity. Qed.
End DurableStore.
