(* ===== verification/Objects.v ===== *)
(** * Referenced objects

    Models core/object/integrity.js: the reference to an object with its exact
    size and digest, in either of two spellings, and the check of the bytes an
    application materialised for it. *)
From S2P Require Import Prelude JSValue Text Host.

Module Objects.

Definition OBJECT_REFERENCE_PROFILE : string := "truyn.object-reference-integrity/1".
Definition DEFAULT_OBJECT_MAX_BYTES : Z := 16 * 1024 * 1024.

(** [createHash('sha256').update(bytes).digest('hex')] on a buffer, a byte per
    character. *)
Class ByteHash := sha256_bytes : string → string.

(** The bytes of an object: a buffer or a view of one, or anything else. *)
Inductive chunk := Bytes (b : string) | NotBytes.
Inductive source := Whole (c : chunk) | Chunks (l : list chunk).

Definition reject {A} (code reason : string) : result A := Throw (error_code code reason).
Definition reject_if (b : bool) (code reason : string) : result unit := if b then reject code reason else Ok tt.

Definition boundedLimit (value : jval) : result Z :=
  match is_safe_integer value with
  | Some n => if bool_decide (n < 0)%Z
              then reject "OBJECT_INVALID_BOUND" "maxBytes must be a non-negative safe integer" else Ok n
  | None => reject "OBJECT_INVALID_BOUND" "maxBytes must be a non-negative safe integer"
  end.

Definition byteView (c : chunk) : result string :=
  match c with
  | Bytes b => Ok b
  | NotBytes => reject "OBJECT_INVALID_BYTES" "object bytes must be Buffer, Uint8Array or ArrayBuffer"
  end.

(** [/^[a-fA-F0-9]{64}$/] *)
Definition is_hex_any (c : Ascii.ascii) : bool :=
  let n := Ascii.N_of_ascii c in bool_decide ((48 ≤ n ∧ n ≤ 57) ∨ (65 ≤ n ∧ n ≤ 70) ∨ (97 ≤ n ∧ n ≤ 102))%N.
Definition SHA256 (s : string) : bool := bool_decide (String.length s = 64) && str_forall is_hex_any s.

Record reference := Reference { r_ref : string; r_bytes : Z; r_sha256 : string; r_mediaType : option string }.

Definition is_undefined (v : jval) : bool := match v with JUndef | JHole => true | _ => false end.
Definition blank (v : jval) : bool := match v with JStr s => negb (nonempty_str (trim s)) | _ => true end.

(** The checks of [normalizeVerifiedObjectReference], one after the other. *)
Definition check_ref (input : jval) : result string :=
  _ ← reject_if (negb (is_record input)) "OBJECT_INVALID_REFERENCE" "verified object reference must be an object";
  _ ← reject_if (blank (oprop input "ref")) "OBJECT_INVALID_REFERENCE" "non-empty opaque ref is required";
  _ ← reject_if (let kind := oprop input "kind" in
                 negb (is_undefined kind) && negb (eq_str kind "artifact") && negb (eq_str kind "object"))
        "OBJECT_INVALID_REFERENCE" "unsupported referenced object kind";
  Ok (to_string (oprop input "ref")).

Definition check_bytes (input : jval) : result Z :=
  let bytes := oprop input "bytes" in
  let sizeBytes := oprop input "sizeBytes" in
  _ ← reject_if (negb (is_undefined bytes) && negb (is_undefined sizeBytes) && negb (strict_eq bytes sizeBytes))
        "OBJECT_INVALID_REFERENCE" "conflicting byte-size aliases";
  match is_safe_integer (js_coalesce bytes sizeBytes) with
  | Some n => if bool_decide (n < 0)%Z
              then reject "OBJECT_INTEGRITY_REQUIRED" "exact non-negative byte size is required" else Ok n
  | None => reject "OBJECT_INTEGRITY_REQUIRED" "exact non-negative byte size is required"
  end.

Definition check_digest (input : jval) : result string :=
  let sha256 := oprop input "sha256" in
  let digest := oprop input "digest" in
  _ ← reject_if (negb (is_undefined sha256) && negb (is_undefined digest) &&
                 negb (bool_decide (to_lower (to_string sha256) = to_lower (to_string digest))))
        "OBJECT_INVALID_REFERENCE" "conflicting digest aliases";
  match js_coalesce sha256 digest with
  | JStr s => if SHA256 s then Ok s else reject "OBJECT_INTEGRITY_REQUIRED" "64-character SHA-256 digest is required"
  | _ => reject "OBJECT_INTEGRITY_REQUIRED" "64-character SHA-256 digest is required"
  end.

Definition check_media (input : jval) : result (option string) :=
  let mediaType := js_coalesce (oprop input "mediaType") (oprop input "contentType") in
  if is_undefined mediaType then Ok None
  else if blank mediaType then reject "OBJECT_INVALID_REFERENCE" "media type must be non-empty when present"
  else Ok (Some (to_string mediaType)).

Definition normalizeVerifiedObjectReference (input : jval) : result reference :=
  ref ← check_ref input;
  bytes ← check_bytes input;
  digest ← check_digest input;
  _ ← reject_if (let algorithm := oprop input "algorithm" in negb (is_undefined algorithm) && negb (eq_str algorithm "sha256"))
        "OBJECT_INVALID_REFERENCE" "unsupported digest algorithm";
  mediaType ← check_media input;
  Ok (Reference ref bytes (to_lower digest) mediaType).

(** The reference as the object value the function returns. *)
Definition reference_value (r : reference) : jval :=
  JObj ([("ref", JStr (r_ref r)); ("bytes", JNum (JInt (r_bytes r))); ("sha256", JStr (r_sha256 r))] ++
        match r_mediaType r with Some m => [("mediaType", JStr m)] | None => [] end).

Section verify.
Context {BH : ByteHash}.

Definition chunks_of (s : source) : list chunk := match s with Whole c => [c] | Chunks l => l end.

Fixpoint collect (bound total : Z) (l : list chunk) : result (Z * list string) :=
  match l with
  | [] => Ok (total, [])
  | c :: l =>
      part ← byteView c;
      let total := (total + Z.of_nat (String.length part))%Z in
      _ ← reject_if (bool_decide (max_safe < total)%Z || bool_decide (bound < total)%Z)
            "OBJECT_TOO_LARGE" "materialized object exceeds maxBytes";
      '(total, parts) ← collect bound total l;
      Ok (total, part :: parts)
  end.

(** Both digests are 64 hexadecimal digits, lower case, so that their bytes are
    equal when the texts are. *)
Definition verifyImmutableObjectBytes (input : jval) (s : source) (maxBytes : jval) : result (reference * string) :=
  bound ← boundedLimit maxBytes;
  claim ← normalizeVerifiedObjectReference input;
  _ ← reject_if (bool_decide (bound < r_bytes claim)%Z) "OBJECT_TOO_LARGE" "declared object exceeds maxBytes";
  '(total, parts) ← collect bound 0 (chunks_of s);
  _ ← reject_if (negb (bool_decide (total = r_bytes claim)))
        "OBJECT_INTEGRITY_MISMATCH" "materialized byte size differs from declared size";
  let bytes := String.concat "" parts in
  _ ← reject_if (negb (bool_decide (sha256_bytes bytes = r_sha256 claim)))
        "OBJECT_INTEGRITY_MISMATCH" "materialized SHA-256 differs from declared digest";
  Ok (claim, bytes).

(** What the injected resolver answers: the bytes, or an object whose member
    [bytes] holds them. *)
Inductive answer := Plain (s : source) | Wrapped (bytes : source).

Definition resolveVerifiedObjectReference (input : jval) (resolve : option (reference → Z → result answer)) (maxBytes : jval)
    : result (reference * string) :=
  bound ← boundedLimit maxBytes;
  claim ← normalizeVerifiedObjectReference input;
  _ ← reject_if (bool_decide (bound < r_bytes claim)%Z) "OBJECT_TOO_LARGE" "declared object exceeds maxBytes";
  match resolve with
  | None => reject "OBJECT_RESOLVER_REQUIRED" "explicit authorized object resolver is required"
  | Some resolve =>
      result ← resolve claim bound;
      let raw := match result with Plain s => s | Wrapped s => s end in
      verifyImmutableObjectBytes (reference_value claim) raw (JNum (JInt bound))
  end.

(** ** References *)

Lemma reject_if_Ok b code reason u : reject_if b code reason = Ok u → b = false.
Proof. by destruct b. Qed.

Lemma is_hex_lower c : is_hex_any c = true → is_hex_any (lower_char c) = true.
Proof. destruct c as [[] [] [] [] [] [] [] []]; intros Hc; first [exact Hc|exact eq_refl|discriminate Hc]. Qed.

Lemma SHA256_lower d : SHA256 d = true → SHA256 (to_lower d) = true.
Proof.
  unfold SHA256. rewrite !andb_true_iff, !bool_decide_eq_true, Text.to_lower_length. intros [Hl Hc]. split; [done|].
  clear Hl. induction d as [|c d IH]; [done|]. cbn in *. bool_hyps. by rewrite is_hex_lower, IH.
Qed.

(** What a normalised reference looks like. *)
Record normalized (r : reference) : Prop := {
  nr_ref : nonempty_str (trim (r_ref r)) = true;
  nr_bytes : (0 ≤ r_bytes r ≤ max_safe)%Z;
  nr_digest : SHA256 (r_sha256 r) = true ∧ to_lower (r_sha256 r) = r_sha256 r;
  nr_media : match r_mediaType r with Some m => nonempty_str (trim m) = true | None => True end
}.

Lemma check_digest_Ok input d : check_digest input = Ok d → SHA256 d = true.
Proof.
  unfold check_digest. cbv zeta. intros (u & _ & Hd)%bind_Ok_inv. destruct (js_coalesce _ _); try done.
  destruct (SHA256 s) eqn:E; [|done]. by apply Ok_inj in Hd as <-.
Qed.

Lemma check_bytes_Ok input n : check_bytes input = Ok n → (0 ≤ n ≤ max_safe)%Z.
Proof.
  unfold check_bytes. cbv zeta. intros (u & _ & Hn)%bind_Ok_inv. destruct (is_safe_integer _) as [m|] eqn:E; [|done].
  case_bool_decide; [done|]. apply Ok_inj in Hn as <-. unfold is_safe_integer in E.
  destruct (js_coalesce _ _) as [| | | |[]| | |]; try done. case_bool_decide; [|done]. injection E as <-. lia.
Qed.

Lemma blank_string v : blank v = false → ∃ s, v = JStr s ∧ nonempty_str (trim s) = true.
Proof. destruct v; try done. cbn. intros Hb. exists s. by bool_hyps. Qed.

Lemma normalize_normalized input r : normalizeVerifiedObjectReference input = Ok r → normalized r.
Proof.
  unfold normalizeVerifiedObjectReference. intros (ref & Hr & H)%bind_Ok_inv. apply bind_Ok_inv in H as (n & Hn & H).
  apply bind_Ok_inv in H as (d & Hd & H). apply bind_Ok_inv in H as (u & _ & H). apply bind_Ok_inv in H as (m & Hm & <-%Ok_inj).
  apply check_digest_Ok in Hd. apply check_bytes_Ok in Hn. split; cbn; [|done| |].
  - unfold check_ref in Hr. apply bind_Ok_inv in Hr as (u1 & _ & Hr). apply bind_Ok_inv in Hr as (u2 & H2%reject_if_Ok & Hr).
    apply bind_Ok_inv in Hr as (u3 & _ & <-%Ok_inj). by apply blank_string in H2 as (s & -> & ?).
  - by rewrite SHA256_lower, Text.to_lower_idem.
  - unfold check_media in Hm. destruct (is_undefined _); [by apply Ok_inj in Hm as <-|]. destruct (blank _) eqn:Hb; [done|].
    apply Ok_inj in Hm as <-. by apply blank_string in Hb as (s & -> & ?).
Qed.

Lemma safe_integer n : (0 ≤ n ≤ max_safe)%Z → is_safe_integer (JNum (JInt n)) = Some n.
Proof. intros Hn. unfold is_safe_integer. rewrite bool_decide_true; [done|lia]. Qed.

(** Normalising a normalised reference gives it back. *)
Lemma normalize_reference_value r : normalized r → normalizeVerifiedObjectReference (reference_value r) = Ok r.
Proof.
  intros [Hr Hn [Hd Hl] Hm]. set (v := reference_value r).
  assert (Href : oprop v "ref" = JStr (r_ref r)) by done.
  assert (Hbytes : oprop v "bytes" = JNum (JInt (r_bytes r))) by done.
  assert (Hsha : oprop v "sha256" = JStr (r_sha256 r)) by done.
  assert (Hmedia : oprop v "mediaType" = match r_mediaType r with Some m => JStr m | None => JUndef end)
    by (subst v; unfold reference_value; by destruct (r_mediaType r)).
  assert (Hnone : Forall (λ k, oprop v k = JUndef) ["kind"; "sizeBytes"; "digest"; "algorithm"; "contentType"])
    by (subst v; unfold reference_value; destruct (r_mediaType r); repeat constructor).
  assert (Hv : is_record v = true) by done. clearbody v.
  repeat match goal with Hf : Forall _ (_ :: _) |- _ => apply Forall_cons in Hf as [? Hf] end.
  unfold normalizeVerifiedObjectReference. rewrite (bind_step _ _ (r_ref r)).
  2:{ unfold check_ref. rewrite Hv, Href. cbn [blank]. rewrite Hr. cbv zeta. by rewrite H. }
  rewrite (bind_step _ _ (r_bytes r)).
  2:{ unfold check_bytes. cbv zeta. rewrite Hbytes, H0. cbn [js_coalesce nullish]. rewrite safe_integer by done.
      cbn. rewrite bool_decide_false by lia. done. }
  rewrite (bind_step _ _ (r_sha256 r)).
  2:{ unfold check_digest. cbv zeta. rewrite Hsha, H1. cbn [js_coalesce nullish]. by rewrite Hd. }
  rewrite (bind_step _ _ tt) by (cbv zeta; by rewrite H2).
  rewrite (bind_step _ _ (r_mediaType r)); [rewrite Hl; by destruct r|].
  unfold check_media. rewrite Hmedia, H3. destruct (r_mediaType r) as [m|]; [|done]. cbn. by rewrite Hm.
Qed.

(** ** Bytes *)

Notation len s := (Z.of_nat (String.length s)).

Lemma concat_cons b bs : String.concat "" (b :: bs) = b +:+ String.concat "" bs.
Proof. destruct bs; [by rewrite string_app_nil_r|done]. Qed.

Lemma len_app a b : len (a +:+ b) = (len a + len b)%Z.
Proof. induction a as [|c a IH]; [done|].
  change (String c a +:+ b) with (String c (a +:+ b)). cbn [String.length]. lia.
Qed.

(** All chunks are bytes and what they amount to stays within the bound. *)
Lemma collect_iff bound t l total parts :
  (0 ≤ t)%Z →
  collect bound t l = Ok (total, parts) ↔
  l = map Bytes parts ∧ total = (t + len (String.concat "" parts))%Z ∧
  (parts ≠ [] → (total ≤ bound)%Z ∧ (total ≤ max_safe)%Z).
Proof.
  revert t total parts. induction l as [|c l IH]; intros t total parts Ht; cbn [collect].
  - split; [intros [= <- <-]%Ok_inj; cbn; split_and!; [done|lia|done]|].
    intros (Hl & -> & _). destruct parts; [|done]. cbn. by rewrite Z.add_0_r.
  - split.
    + intros (part & Hp & H)%bind_Ok_inv. destruct c as [b|]; [|done]. apply Ok_inj in Hp as <-.
      apply bind_Ok_inv in H as (u & Hb%reject_if_Ok & H). apply bind_Ok_inv in H as ([t2 ps] & H & [= <- <-]%Ok_inj).
      apply IH in H as (-> & -> & Hbound); [|lia]. bool_hyps. rewrite concat_cons, len_app.
      split_and!; [done|lia|]. intros _. destruct ps as [|p ps]; [cbn; lia|]. apply Hbound. done.
    + intros (Hl & -> & Hb). destruct parts as [|b parts]; [done|]. injection Hl as -> ->. specialize (Hb ltac:(done)) as [Hb1 Hb2].
      rewrite concat_cons, len_app in *. rewrite (bind_step _ _ b) by done. cbv zeta.
      rewrite (bind_step _ _ tt) by (unfold reject_if; by rewrite !bool_decide_false by lia).
      rewrite (bind_step _ _ (t + len b + len (String.concat "" parts), parts)%Z); [by rewrite Z.add_assoc|].
      apply IH; [lia|]. split_and!; [done|done|lia].
Qed.

(** Bytes are accepted exactly when they are as long as the reference says,
    within the bound, and have its digest, however they are cut into chunks. *)
Theorem object_verified_iff input s maxBytes claim b :
  verifyImmutableObjectBytes input s maxBytes = Ok (claim, b) ↔
  normalizeVerifiedObjectReference input = Ok claim ∧
  (∃ parts, chunks_of s = map Bytes parts ∧ b = String.concat "" parts) ∧
  (∃ bound, boundedLimit maxBytes = Ok bound ∧ (r_bytes claim ≤ bound)%Z) ∧
  len b = r_bytes claim ∧ sha256_bytes b = r_sha256 claim.
Proof.
  unfold verifyImmutableObjectBytes. split.
  - intros (bound & Hbd & H)%bind_Ok_inv. apply bind_Ok_inv in H as (c & Hc & H).
    apply bind_Ok_inv in H as (u1 & H1%reject_if_Ok & H). apply bind_Ok_inv in H as ([total parts] & Hcol & H).
    apply bind_Ok_inv in H as (u2 & H2%reject_if_Ok & H). apply bind_Ok_inv in H as (u3 & H3%reject_if_Ok & [= <- <-]%Ok_inj).
    apply collect_iff in Hcol as (Hl & -> & _); [|lia]. bool_hyps.
    split_and!; [done|by eexists|exists bound; split; [done|lia]|lia|done].
  - intros (Hc & (parts & Hl & ->) & (bound & Hbd & Hle) & Hlen & Hsha).
    pose proof (nr_bytes _ (normalize_normalized _ _ Hc)) as Hrange.
    rewrite (bind_step _ _ _ Hbd), (bind_step _ _ _ Hc). rewrite (bind_step _ _ tt).
    2:{ unfold reject_if. by rewrite bool_decide_false by lia. }
    rewrite (bind_step _ _ (r_bytes claim, parts)).
    2:{ apply collect_iff; [lia|]. split_and!; [done|lia|lia]. }
    rewrite (bind_step _ _ tt) by (unfold reject_if; by rewrite bool_decide_true). cbv zeta.
    rewrite (bind_step _ _ tt); [done|]. unfold reject_if. by rewrite bool_decide_true.
Qed.

(** What a resolver brings is accepted only as the bytes of the reference it
    was asked for. *)
Theorem resolved_object_verified input resolve maxBytes claim b :
  resolveVerifiedObjectReference input resolve maxBytes = Ok (claim, b) →
  ∃ s, verifyImmutableObjectBytes input s maxBytes = Ok (claim, b).
Proof.
  unfold resolveVerifiedObjectReference. intros (bound & Hbd & H)%bind_Ok_inv. apply bind_Ok_inv in H as (c & Hc & H).
  apply bind_Ok_inv in H as (u1 & H1%reject_if_Ok & H). destruct resolve as [f|]; [|done].
  apply bind_Ok_inv in H as (ans & _ & H). cbv zeta in H. set (s := match ans with Plain s | Wrapped s => s end) in *.
  exists s. revert H. unfold verifyImmutableObjectBytes.
  rewrite (normalize_reference_value c) by (by eapply normalize_normalized).
  assert (Hb2 : boundedLimit (JNum (JInt bound)) = Ok bound).
  { assert (maxBytes = JNum (JInt bound)) as <-; [|done]. unfold boundedLimit in Hbd.
    destruct (is_safe_integer maxBytes) as [m|] eqn:E; [|done]. destruct (bool_decide (m < 0)%Z); [done|]. apply Ok_inj in Hbd as ->.
    unfold is_safe_integer in E. destruct maxBytes as [| | | |[]| | |]; try done. destruct (bool_decide _); [|done].
    by injection E as ->. }
  rewrite Hb2, Hbd, Hc. done.
Qed.

End verify.

(** ** A concrete object *)

Definition toy_hash : ByteHash := λ b, Toy.hex 64 (Toy.hash b 1).

Definition toy_reference : jval :=
  JObj [("ref", JStr "cas:1"); ("sizeBytes", JNum (JInt 5)); ("digest", JStr (toy_hash "hello")); ("kind", JStr "object")].

Lemma resolved_object_verified_witness :
  ∃ s, verifyImmutableObjectBytes (BH := toy_hash) toy_reference s (JNum (JInt 100)) =
       Ok (Reference "cas:1" 5 (toy_hash "hello") None, "hello").
Proof.
  apply (resolved_object_verified (BH := toy_hash) toy_reference
           (Some (λ _ _, Ok (Wrapped (Chunks [Bytes "hel"; Bytes "lo"])))) (JNum (JInt 100))).
  vm_compute. reflexivity.
Defined.

End Objects.
