(* ===== verification/Replicas.v ===== *)
(** * Replication of transparency logs

    Models network/replication/transparency-replication.js and
    network/transport/json-stream.js over [Transparency]: what a replica answers
    to its peers and how it brings its log and theirs to the same head.  The
    network is an interface, so the theorems hold for peers that lie, fail or
    stay silent; the honest network is another replica behind JSON messages of
    bounded size, delivered in time. *)
From S2P Require Import Prelude JSValue JsonPrint JsonParse Dates Host Protocol Transparency Cosmos.
Import Canonical Keys JsonParse Transparency.Log.

Module Replicas.

Definition TRANSPARENCY_REPLICATION_PROTOCOL : string := "/truyn/transparency/2.0.0".

(** [v + 1] for [v] not an integer number, rounded up as the bound of a sequence
    number; [None] for NaN. *)
Class Additions := coerced_next : jval → option Z.

Definition next_sequence `{Additions} (v : jval) : option Z :=
  match v with JNum (JInt n) => Some (n + 1)%Z | _ => coerced_next v end.

(** The network of a world [W]: a request and its answer of a bounded size,
    publication of this replica, and the replicas found. *)
Class Network (W : Type) := {
  ask : string → Z → jval → M W jval;
  provide : M W unit;
  findProviders : M W (list string)
}.

Record service := Service { s_log : log; started : bool; advertisingEnabled : bool; maxMessageBytes : Z }.

Definition DEFAULT_MAX_MESSAGE_BYTES : Z := 4194304.
Definition MAX_HEAD_BYTES : Z := 64000.

Section replicas.
Context `{Host} `{Coercions} `{Additions}.

(** ** Answering *)

Definition head_value (h : log_head) : jval :=
  JObj [("protocol", JStr "truyn-transparency-head-v2"); ("version", JNum (JInt TRANSPARENCY_LOG_VERSION));
        ("logId", JStr (h_logId h)); ("sourceOwnerId", JStr (h_sourceOwnerId h)); ("sequence", h_sequence h);
        ("headHash", h_headHash h); ("revocationStateDigest", JStr (h_revocationStateDigest h))].

Definition ok_response (rest : list (string * jval)) : jval := JObj (("ok", JBool true) :: rest).
Definition error_response (e : jval) : jval := JObj [("ok", JBool false); ("error", e)].

(** [error.code || error.message] *)
Definition code_or_message (e : jerror) : jval :=
  js_or (match e_code e with Some c => JStr c | None => JUndef end) (JStr (e_message e)).

(** [log.ingest(entries)], and the log's own check of its argument *)
Definition ingest_value (entries : jval) : M log log_head :=
  match entries with
  | JArr batch => ingest batch true
  | _ => throw (error "transparency entries must be an array")
  end.

Definition first_sequence (v : jval) : Z :=
  match is_integer v with Some n => if bool_decide (0 < n)%Z then n else 1%Z | None => 1%Z end.

(** The handler that [start] registers. *)
Definition serve (request : jval) : M log jval :=
  let type := oprop request "type" in
  catch_with
    (l ← get_state;
     if negb (eq_str (oprop request "logId") (logId l)) then mret (error_response (JStr "transparency_log_not_found"))
     else if eq_str type "HEAD" then
       h ← lift_result (head l); mret (ok_response [("head", head_value h)])
     else if eq_str type "PULL" then
       h ← lift_result (head l);
       mret (ok_response [("head", head_value h);
                          ("entries", JArr (list_entries (first_sequence (oprop request "fromSequence")) l))])
     else if eq_str type "PUSH" then
       _ ← ingest_value (js_or (oprop request "entries") (JArr []));
       l ← get_state;
       h ← lift_result (head l);
       mret (ok_response [("head", head_value h)])
     else mret (error_response (JStr "transparency_operation_unsupported")))
    (λ e, mret (error_response (code_or_message e))).

(** ** Asking *)

Section client.
Context {W : Type} `{!Network W} (self : string).

Definition on_log {A} (m : M log A) : M (service * W) A := λ s,
  let '(l, r) := m (s_log s.1) in ((Service l (started s.1) (advertisingEnabled s.1) (maxMessageBytes s.1), s.2), r).
Definition on_net {A} (m : M W A) : M (service * W) A := λ s, let '(w, r) := m s.2 in ((s.1, w), r).

Definition local_head : M (service * W) log_head := on_log (l ← get_state; lift_result (head l)).

Definition advertise : M (service * W) unit :=
  _ ← on_net provide;
  modify (λ s, (Service (s_log s.1) (started s.1) true (maxMessageBytes s.1), s.2)).

Definition response_error (response : jval) (fallback : string) : jerror :=
  error (to_string (js_or (oprop response "error") (JStr fallback))).

Definition request_of (type logId : string) (rest : list (string * jval)) : jval :=
  JObj ([("type", JStr type); ("logId", JStr logId)] ++ rest).

Definition headFor (peerId logId : string) : M (service * W) jval :=
  response ← on_net (ask peerId MAX_HEAD_BYTES (request_of "HEAD" logId []));
  _ ← guard_throw (negb (truthy (oprop response "ok")) || negb (truthy (oprop response "head")))
        (response_error response "transparency_peer_head_failed");
  mret (oprop response "head").

Inductive direction := Pulled | Pushed | Level.

Definition syncWithPeer (peerId : string) : M (service * W) (direction * log_head) :=
  s ← get_state;
  let id := logId (s_log s.1) in
  remote ← headFor peerId id;
  local ← local_head;
  let sequence := oprop remote "sequence" in
  _ ← guard_throw (strict_eq sequence (h_sequence local) && negb (strict_eq (oprop remote "headHash") (h_headHash local)))
        fork_detected;
  ahead ← lift_result (js_gt sequence (h_sequence local));
  behind ← (if ahead : bool then mret false else lift_result (js_gt (h_sequence local) sequence));
  if ahead : bool then
    response ← on_net (ask peerId (maxMessageBytes s.1) (request_of "PULL" id [("fromSequence", successor (h_sequence local))]));
    _ ← guard_throw (negb (truthy (oprop response "ok"))) (response_error response "transparency_pull_failed");
    _ ← on_log (ingest_value (js_or (oprop response "entries") (JArr [])));
    local ← local_head;
    _ ← guard_throw (negb (strict_eq (oprop (oprop response "head") "headHash") (h_headHash local)))
          (error "transparency_pull_head_mismatch");
    s ← get_state;
    filled ← (if advertisingEnabled s.1 then mret false else lift_result (js_gt (h_sequence local) (JNum (JInt 0))));
    _ ← (if filled : bool then advertise else mret tt);
    mret (Pulled, local)
  else if behind : bool then
    s ← get_state;
    response ← on_net (ask peerId (maxMessageBytes s.1) (request_of "PUSH" id
                 [("entries", JArr (match next_sequence sequence with
                                    | Some from => list_entries from (s_log s.1)
                                    | None => []
                                    end))]));
    _ ← guard_throw (negb (truthy (oprop response "ok"))) (response_error response "transparency_push_failed");
    _ ← guard_throw (negb (strict_eq (oprop (oprop response "head") "headHash") (h_headHash local)))
          (error "transparency_push_head_mismatch");
    mret (Pushed, local)
  else mret (Level, local).

(** ** Over the whole network *)

(** The peers in the order they are found, without this one, each once: the
    loop stops when [limit] are held. *)
Fixpoint distinct_peers (limit : nat) (seen : list string) (found : list string) : list string :=
  match found with
  | [] => []
  | peerId :: found =>
      if bool_decide (peerId = self) || bool_decide (peerId ∈ seen) then distinct_peers limit seen found
      else if bool_decide (limit ≤ S (length seen)) then [peerId]
      else peerId :: distinct_peers limit (peerId :: seen) found
  end.

Definition discoverReplicaPeers (limit : nat) : M (service * W) (list string) :=
  found ← on_net findProviders; mret (distinct_peers limit [] found).

Record network_result := NetworkResult {
  peers : nat; successful : nat; results : list (string * result (direction * log_head)); result_head : log_head
}.

Definition try_peer (peerId : string) : M (service * W) (string * result (direction * log_head)) :=
  catch_with (r ← syncWithPeer peerId; mret (peerId, Ok r)) (λ e, mret (peerId, Throw e)).

Fixpoint sync_all (l : list string) : M (service * W) (list (string * result (direction * log_head))) :=
  match l with
  | [] => mret []
  | peerId :: l => r ← try_peer peerId; rs ← sync_all l; mret (r :: rs)
  end.

Definition syncNetwork (limit : nat) : M (service * W) network_result :=
  found ← discoverReplicaPeers limit;
  rs ← sync_all found;
  h ← local_head;
  mret (NetworkResult (length found) (length (List.filter (λ r, is_ok r.2) rs)) rs h).

(** [start] on an opened log *)
Definition start (advertised : bool) : M (service * W) log_head :=
  _ ← modify (λ s, (Service (s_log s.1) true (advertisingEnabled s.1) (maxMessageBytes s.1), s.2));
  _ ← (if advertised
       then catch_with advertise
              (λ e, h ← local_head; filled ← lift_result (js_gt (h_sequence h) (JNum (JInt 0)));
                    if filled : bool then throw e else mret tt)
       else mret tt);
  local_head.

Definition recoverAndAdvertise (limit : nat) : M (service * W) network_result :=
  s ← get_state;
  _ ← (if started s.1 then mret tt else _ ← start false; mret tt);
  recovered ← syncNetwork limit;
  h ← local_head;
  _ ← guard_throw (eq_int (h_sequence h) 0 || bool_decide (successful recovered = 0))
        (error_code "transparency_recovery_source_not_found" "transparency_recovery_source_not_found");
  s ← get_state;
  _ ← (if advertisingEnabled s.1 then mret tt else advertise);
  h ← local_head;
  mret (NetworkResult (peers recovered) (successful recovered) (results recovered) h).

Definition replicate (minAcks limit : nat) : M (service * W) network_result :=
  _ ← advertise;
  result ← syncNetwork limit;
  _ ← guard_throw (bool_decide (successful result < minAcks))
        (error_code "transparency_replication_quorum_not_met" "transparency_replication_quorum_not_met");
  mret result.

(** ** The log only grows *)

Create HintDb growing.

Definition grows (s s' : service * W) : Prop :=
  log_ok (s_log s.1) →
  log_ok (s_log s'.1) ∧ logId (s_log s'.1) = logId (s_log s.1) ∧ sourceOwnerId (s_log s'.1) = sourceOwnerId (s_log s.1) ∧
  entries (s_log s.1) `prefix_of` entries (s_log s'.1).
Definition growing {A} (m : M (service * W) A) : Prop := ∀ s, grows s (m s).1.

#[local] Instance grows_refl : Reflexive grows.
Proof. by intros s Hok. Qed.
#[local] Instance grows_trans : Transitive grows.
Proof.
  intros s1 s2 s3 H12 H23 Hok. destruct (H12 Hok) as (Hok2 & Hi2 & Ho2 & Hp2). destruct (H23 Hok2) as (Hok3 & Hi3 & Ho3 & Hp3).
  split_and!; [done|congruence..|by etrans].
Qed.

Lemma growing_pure {A} (r : result A) : growing (λ s, (s, r)).
Proof. by intros s. Qed.

Lemma growing_bind {A B} (m : M (service * W) A) (f : A → M (service * W) B) :
  growing m → (∀ a, growing (f a)) → growing (x ← m; f x).
Proof.
  intros Hm Hf s. unfold mbind, M_bind. specialize (Hm s). destruct (m s) as [s1 [a|e] ]; cbn in *; [|done].
  etrans; [exact Hm|apply Hf].
Qed.

Lemma growing_catch {A} (m : M (service * W) A) (h : jerror → M (service * W) A) :
  growing m → (∀ e, growing (h e)) → growing (catch_with m h).
Proof.
  intros Hm Hh s. unfold catch_with. specialize (Hm s). destruct (m s) as [s1 [a|e] ]; cbn in *; [done|].
  etrans; [exact Hm|apply Hh].
Qed.

Lemma growing_net {A} (m : M W A) : growing (on_net m).
Proof. intros s. unfold on_net. by destruct (m s.2). Qed.

Lemma growing_head : growing local_head.
Proof. by intros [[l st ad mx] w]. Qed.

Lemma growing_lift {A} (r : result A) : growing (lift_result r).
Proof. by intros s. Qed.

Lemma growing_guard b e : growing (guard_throw b e).
Proof. by intros s. Qed.

Lemma growing_ingest v : growing (on_log (ingest_value v)).
Proof.
  intros [[l st ad mx] w] Hok. unfold on_log. cbn [s_log fst snd]. destruct v; try done. cbn [ingest_value].
  pose proof (ingest_all_ok true l0 l Hok) as Ha. rewrite <- ingest_fst in Ha.
  destruct (ingest l0 true l) as [l' r]. cbn in *. destruct Ha as (? & ? & ? & ?). done.
Qed.

Lemma growing_flags f g : growing (modify (λ s, (Service (s_log s.1) (f s) (g s) (maxMessageBytes s.1), s.2))).
Proof. by intros [[l st ad mx] w]. Qed.

#[local] Hint Resolve growing_net growing_lift growing_head growing_guard growing_ingest growing_flags : growing.

(** Builds the proof from the operations a computation is made of. *)
Ltac growing :=
  repeat first
    [ solve [auto 1 with growing nocore]
    | apply growing_bind; [|intros ?; cbv zeta]
    | apply growing_catch; [|intros ?]
    | match goal with |- growing (if ?b then _ else _) => destruct b end
    | match goal with |- growing (let '(_, _) := ?x in _) => destruct x end
    | apply growing_pure ].

Lemma growing_advertise : growing advertise.
Proof. unfold advertise. growing. Qed.
#[local] Hint Resolve growing_advertise : growing.

Lemma growing_sync peerId : growing (syncWithPeer peerId).
Proof. unfold syncWithPeer, headFor. growing. Qed.
#[local] Hint Resolve growing_sync : growing.

Lemma growing_all l : growing (sync_all l).
Proof. induction l as [|p l IH]; [apply growing_pure|]. cbn [sync_all]. unfold try_peer. growing; exact IH. Qed.
#[local] Hint Resolve growing_all : growing.

Lemma growing_network limit : growing (syncNetwork limit).
Proof. unfold syncNetwork, discoverReplicaPeers. growing. Qed.
#[local] Hint Resolve growing_network : growing.

Lemma growing_start b : growing (start b).
Proof. unfold start. growing. Qed.
#[local] Hint Resolve growing_start : growing.

Lemma growing_recover limit : growing (recoverAndAdvertise limit).
Proof. unfold recoverAndAdvertise. growing. Qed.

Lemma growing_replicate minAcks limit : growing (replicate minAcks limit).
Proof. unfold replicate. growing. Qed.

End client.

Lemma serve_grows request l :
  log_ok l →
  log_ok (serve request l).1 ∧ logId (serve request l).1 = logId l ∧ sourceOwnerId (serve request l).1 = sourceOwnerId l ∧
  entries l `prefix_of` entries (serve request l).1.
Proof.
  intros Hok. unfold serve, catch_with. erewrite M_bind_step by reflexivity.
  repeat (destruct (eq_str _ _); cbn [negb]; try done).
  1,2: destruct (head l); done.
  destruct (js_or _ _) as [| | | | | |batch|]; try done. cbn [ingest_value].
  pose proof (ingest_all_ok true batch l Hok) as Ha. rewrite <- ingest_fst in Ha. cbn zeta in Ha.
  destruct (ingest batch true l) as [l' [h|e] ] eqn:Hi; cbn [fst] in Ha.
  - erewrite M_bind_step by done. erewrite M_bind_step by reflexivity. destruct (head l') eqn:Hh; cbn; rewrite ?Hh; cbn; naive_solver.
  - erewrite M_bind_throw by done. cbn. naive_solver.
Qed.

(** Whatever peers send, answer or withhold, a replica's log stays a verified
    chain and only grows, in every operation and in every request served. *)
Theorem replication_append_only {W} `{!Network W} self s request :
  log_ok (s_log s.1) →
  let outcomes peerId limit minAcks :=
    [s_log (syncWithPeer peerId s).1.1; s_log (syncNetwork self limit s).1.1; s_log (recoverAndAdvertise self limit s).1.1;
     s_log (replicate self minAcks limit s).1.1; (serve request (s_log s.1)).1] in
  ∀ peerId limit minAcks l, l ∈ outcomes peerId limit minAcks →
    log_ok l ∧ logId l = logId (s_log s.1) ∧ entries (s_log s.1) `prefix_of` entries l.
Proof.
  intros Hok outcomes peerId limit minAcks l Hl. unfold outcomes in Hl.
  assert (Hg : ∀ s', grows s s' → log_ok (s_log s'.1) ∧ logId (s_log s'.1) = logId (s_log s.1) ∧
    entries (s_log s.1) `prefix_of` entries (s_log s'.1)) by (intros s' Hs; destruct (Hs Hok) as (? & ? & _ & ?); done).
  rewrite !elem_of_cons, elem_of_nil in Hl. destruct Hl as [->|[->|[->|[->|[->|[] ] ] ] ] ].
  - apply Hg, growing_sync.
  - apply Hg, growing_network.
  - apply Hg, growing_recover.
  - apply Hg, growing_replicate.
  - destruct (serve_grows request (s_log s.1) Hok) as (? & ? & _ & ?). done.
Qed.

(** ** Two honest replicas *)

Context `{NumberText}.

Definition too_large : jerror := error "truyn_stream_message_too_large".

(** [readJsonStream] of a stream that carries [text], strings being code units
    below 256 in UTF-8. *)
Definition readJsonStream (maxBytes : Z) (text : string) : result jval :=
  if bool_decide (maxBytes < Cosmos.byte_length text)%Z then Throw too_large
  else if bool_decide (text = "") then Ok JNull else parse text.

(** The text [writeJsonStream] sends; [encode(undefined)] is empty. *)
Definition writeJsonStream (v : jval) : string := default "" (stringify v).

(** A message as the other end reads it. *)
Definition wire (maxBytes : Z) (v : jval) : result jval := readJsonStream maxBytes (writeJsonStream v).

(** Whether a message is within a limit. *)
Definition fits (maxBytes : Z) (v : jval) : bool :=
  bool_decide (Cosmos.byte_length (writeJsonStream v) ≤ maxBytes)%Z.

(** The network of one other replica, which reads requests up to a limit of its
    own outside the try block of its handler; it then aborts the stream, and
    [aborted] is what this replica's read of the answer throws. *)
#[local] Instance replica_network (remoteMax : Z) (aborted : jerror) : Network log := {|
  ask _ maxBytes request := λ r,
    match wire remoteMax request with
    | Ok request => let '(r, response) := serve request r in (r, response ≫= wire maxBytes)
    | Throw _ => (r, Throw aborted)
    end;
  provide := mret tt;
  findProviders := mret []
|}.

Lemma wire_carried maxBytes v :
  carried v = true → wire maxBytes v = if fits maxBytes v then Ok v else Throw too_large.
Proof.
  intros Hc. destruct (parse_stringify v Hc) as [(text & Hs & Hp) _]. unfold wire, fits, readJsonStream, writeJsonStream. rewrite Hs.
  cbn [default from_option]. rewrite (bool_decide_eq_false_2 (text = "")); [|by intros ->].
  do 2 case_bool_decide; cbn in *; try lia; done.
Qed.

Lemma num_ge_int a b : num_ge (JInt a) b = bool_decide (b ≤ a)%Z.
Proof. unfold num_ge. cbn. destruct (Z.compare_spec a b); case_bool_decide; try done; lia. Qed.

(** The entries from a position of a chain on. *)
Lemma filter_from es k n :
  (∀ i e, es !! i = Some e → oprop e "sequence" = JNum (JInt (Z.of_nat (k + i) + 1))) →
  List.filter (λ e, match oprop e "sequence" with JNum m => num_ge m (Z.of_nat n + 1) | _ => false end) es = drop (n - k) es.
Proof.
  revert k. induction es as [|e es IH]; intros k Hs; [by rewrite drop_nil|]. cbn [List.filter].
  rewrite (Hs 0 e eq_refl). rewrite (IH (S k)).
  2:{ intros i e' Hi. rewrite (Hs (S i) e' Hi). do 3 f_equal. lia. }
  rewrite num_ge_int. case_bool_decide as Hd.
  - replace (n - k) with 0 by lia. replace (n - S k) with 0 by lia. done.
  - replace (n - k) with (S (n - S k)) by lia. done.
Qed.

Lemma list_entries_drop l n : log_ok l → list_entries (Z.of_nat n + 1) l = drop n (entries l).
Proof.
  intros Hok. unfold list_entries. replace (drop n (entries l)) with (drop (n - 0) (entries l)) by (by rewrite Nat.sub_0_r).
  apply filter_from.
  intros i e Hi. by destruct (Hok i e Hi) as (_ & Hs & _).
Qed.

Lemma head_sequence l h : log_ok l → head l = Ok h → h_sequence h = JNum (JInt (Z.of_nat (length (entries l)))).
Proof. intros Hok. unfold head. intros (d & _ & <-%Ok_inj)%bind_Ok_inv. by eapply last_sequence. Qed.

(** The head depends on the entries and the owner alone. *)
Lemma head_same l l' : logId l' = logId l → sourceOwnerId l' = sourceOwnerId l → entries l' = entries l → head l' = head l.
Proof. intros Hi Ho He. unfold head, stateDigest. by rewrite Hi, Ho, He. Qed.

(** *** Answers of an honest replica *)

Lemma head_value_carried h : (∃ n, h_sequence h = JNum (JInt n) ∧ (Z.abs n ≤ max_safe)%Z) → (∃ t, h_headHash h = JStr t) →
  carried (head_value h) = true.
Proof.
  intros (n & Hs & Hn) (t & Ht). unfold head_value. rewrite Hs, Ht. cbn [carried forallb snd].
  rewrite (bool_decide_true (Z.abs n ≤ max_safe)%Z) by done. rewrite (bool_decide_true (Z.abs TRANSPARENCY_LOG_VERSION ≤ max_safe)%Z) by done.
  reflexivity.
Qed.

(** What is asked for the theorem on two replicas. *)
Record honest (l : log) (h : log_head) : Prop := {
  ho_ok : log_ok l;
  ho_head : head l = Ok h;
  ho_carried : forallb carried (entries l) = true;
  ho_length : (Z.of_nat (length (entries l)) < max_safe)%Z;
  ho_writes : writes_ok true l;
  ho_id : logId l ≠ ""
}.

Lemma honest_head_carried l h : honest l h → carried (head_value h) = true.
Proof.
  intros Hh. pose proof (head_sequence _ _ (ho_ok _ _ Hh) (ho_head _ _ Hh)) as Hs. pose proof (ho_length _ _ Hh).
  apply head_value_carried; [eexists; split; [exact Hs|lia]|].
  pose proof (ho_head _ _ Hh) as E. unfold head in E. apply bind_Ok_inv in E as (d & _ & <-%Ok_inj). cbn.
  by eapply last_hash_string, ho_ok.
Qed.

(** The three requests of a synchronisation. *)
Lemma eq_str_self t : eq_str (JStr t) t = true.
Proof. by apply bool_decide_eq_true. Qed.

Lemma serve_head request l h :
  oprop request "logId" = JStr (logId l) → oprop request "type" = JStr "HEAD" → head l = Ok h →
  serve request l = (l, Ok (ok_response [("head", head_value h)])).
Proof.
  intros Hid Ht Hh. unfold serve, catch_with. erewrite M_bind_step by reflexivity. rewrite Hid, Ht, eq_str_self. cbn [negb].
  rewrite (eq_str_self "HEAD"). erewrite M_bind_step by (unfold lift_result; by rewrite Hh). done.
Qed.

Lemma serve_pull request l h n :
  oprop request "logId" = JStr (logId l) → oprop request "type" = JStr "PULL" →
  oprop request "fromSequence" = JNum (JInt (Z.of_nat n + 1)) → head l = Ok h → log_ok l →
  serve request l = (l, Ok (ok_response [("head", head_value h); ("entries", JArr (drop n (entries l)))])).
Proof.
  intros Hid Ht Hf Hh Hok. unfold serve, catch_with. erewrite M_bind_step by reflexivity.
  rewrite Hid, Ht, Hf, eq_str_self. cbn [negb]. change (eq_str (JStr "PULL") "HEAD") with false.
  rewrite (eq_str_self "PULL"). erewrite M_bind_step by (unfold lift_result; by rewrite Hh).
  unfold first_sequence. cbn [is_integer]. rewrite bool_decide_true by lia. by rewrite list_entries_drop.
Qed.

Lemma serve_push request l l' h batch :
  oprop request "logId" = JStr (logId l) → oprop request "type" = JStr "PUSH" →
  oprop request "entries" = JArr batch → ingest batch true l = (l', Ok h) →
  serve request l = (l', Ok (ok_response [("head", head_value h)])).
Proof.
  intros Hid Ht He Hi. unfold serve, catch_with. erewrite M_bind_step by reflexivity.
  rewrite Hid, Ht, He, eq_str_self. cbn [negb]. change (eq_str (JStr "PUSH") "HEAD") with false.
  change (eq_str (JStr "PUSH") "PULL") with false. rewrite (eq_str_self "PUSH").
  change (js_or (JArr batch) (JArr [])) with (JArr batch). cbn [ingest_value]. erewrite M_bind_step by exact Hi.
  erewrite M_bind_step by reflexivity. unfold ingest in Hi. apply M_bind_Ok_inv in Hi as (l1 & u & _ & Hi).
  erewrite M_bind_step in Hi by reflexivity. injection Hi as <- Hh. erewrite M_bind_step by (unfold lift_result; by rewrite Hh).
  done.
Qed.

(** A log given the rest of another: the ingestion returns and the logs agree. *)
Lemma ingest_rest l h r :
  honest l h → logId r = logId l → sourceOwnerId r = sourceOwnerId l → entries r `prefix_of` entries l → writes_ok true r →
  ∃ r', ingest (drop (length (entries r)) (entries l)) true r = (r', Ok h) ∧ entries r' = entries l ∧ head r' = Ok h.
Proof.
  intros Hh Hid Ho [rest Hp] Hw. set (n := length (entries r)).
  destruct (ingest_suffix true (entries l) n n r) as (Hr & He & Hi & Hs).
  - rewrite Hid, Ho. apply (ho_ok _ _ Hh).
  - rewrite Hp. unfold n. by rewrite take_app_length.
  - rewrite Hp, length_app. unfold n. lia.
  - done.
  - destruct (for_each _ _ r) as [r' res] eqn:Hf. cbn [fst snd] in *. subst res. exists r'.
    assert (Hr' : head r' = Ok h) by (rewrite (head_same l r') by congruence; apply (ho_head _ _ Hh)).
    split_and!; [|done|done]. unfold ingest. erewrite M_bind_step by exact Hf. erewrite M_bind_step by reflexivity.
    unfold lift_result. by rewrite Hr'.
Qed.

Lemma carried_int z : (Z.abs z ≤ max_safe)%Z → carried (JNum (JInt z)) = true.
Proof. intros Hz. by apply bool_decide_eq_true. Qed.

Lemma forallb_drop {A} (f : A → bool) n l : forallb f l = true → forallb f (drop n l) = true.
Proof. rewrite !forallb_forall. intros Hl x Hx. apply Hl. rewrite <- (take_drop n l). apply in_app_iff. by right. Qed.

Lemma on_net_step {W A} (m : M W A) (v : service) (w w' : W) a :
  m w = (w', Ok a) → on_net m (v, w) = ((v, w'), Ok a).
Proof. intros Hm. unfold on_net. cbn. by rewrite Hm. Qed.

(** *** The requests, over the wire *)

(** A request and its answer: what happens depends on the size of both. *)
Lemma asked peerId maxBytes rmax aborted request response (v : service) l l' :
  carried request = true → carried response = true → serve request l = (l', Ok response) →
  on_net (ask (Network := replica_network rmax aborted) peerId maxBytes request) (v, l) =
  if fits rmax request then ((v, l'), if fits maxBytes response then Ok response else Throw too_large)
  else ((v, l), Throw aborted).
Proof.
  intros Hq Hr Hs. unfold on_net. cbn [ask replica_network fst snd]. rewrite (wire_carried _ _ Hq).
  destruct (fits rmax request); [|done]. rewrite Hs. cbn. by rewrite (wire_carried _ _ Hr).
Qed.

(** The messages of a synchronisation, each with its limit: the requests with
    that of the replica asked, the answers with that of the one that asks. *)
Definition head_messages (r : log) (hr : log_head) (rmax : Z) : list (Z * jval) :=
  [(rmax, request_of "HEAD" (logId r) []); (MAX_HEAD_BYTES, ok_response [("head", head_value hr)])].

Definition pull_messages (n : nat) (r : log) (hr : log_head) (max rmax : Z) : list (Z * jval) :=
  [(rmax, request_of "PULL" (logId r) [("fromSequence", JNum (JInt (Z.of_nat n + 1)))]);
   (max, ok_response [("head", head_value hr); ("entries", JArr (drop n (entries r)))])].

Definition push_messages (n : nat) (l : log) (hl : log_head) (max rmax : Z) : list (Z * jval) :=
  [(rmax, request_of "PUSH" (logId l) [("entries", JArr (drop n (entries l)))]); (max, ok_response [("head", head_value hl)])].

(** What a request that does not get through throws. *)
Definition lost (rmax : Z) (aborted : jerror) (request : jval) : jerror := if fits rmax request then too_large else aborted.

Definition all_fit (l : list (Z * jval)) : bool := forallb (λ m, fits m.1 m.2) l.

Definition sync_messages (l : log) (hl : log_head) (r : log) (hr : log_head) (max rmax : Z) : list (Z * jval) :=
  let n := length (entries l) in
  let k := length (entries r) in
  head_messages r hr rmax ++
  (if bool_decide (n < k) then pull_messages n r hr max rmax
   else if bool_decide (k < n) then push_messages k l hl max rmax else []).

Lemma headFor_honest peerId rmax aborted v r h :
  honest r h →
  headFor (Network0 := replica_network rmax aborted) peerId (logId r) (v, r) =
  ((v, r), if all_fit (head_messages r h rmax) then Ok (head_value h)
           else Throw (lost rmax aborted (request_of "HEAD" (logId r) []))).
Proof.
  intros Hh. unfold headFor, all_fit, head_messages, lost. cbn [forallb fst snd]. unfold mbind at 1, M_bind at 1.
  rewrite (asked peerId MAX_HEAD_BYTES rmax aborted _ (ok_response [("head", head_value h)]) v r r); [|reflexivity| |].
  - destruct (fits rmax _), (fits MAX_HEAD_BYTES _); done.
  - cbn [carried ok_response forallb snd]. by rewrite (honest_head_carried _ _ Hh).
  - apply serve_head; [done..|apply (ho_head _ _ Hh)].
Qed.

Lemma pull_honest peerId max rmax aborted v r h n :
  honest r h → (Z.of_nat n < max_safe)%Z →
  on_net (ask (Network := replica_network rmax aborted) peerId max (request_of "PULL" (logId r) [("fromSequence", JNum (JInt (Z.of_nat n + 1)))])) (v, r) =
  ((v, r), if all_fit (pull_messages n r h max rmax)
           then Ok (ok_response [("head", head_value h); ("entries", JArr (drop n (entries r)))])
           else Throw (lost rmax aborted (request_of "PULL" (logId r) [("fromSequence", JNum (JInt (Z.of_nat n + 1)))]))).
Proof.
  intros Hh Hn. unfold all_fit, pull_messages, lost. cbn [forallb fst snd].
  rewrite (asked peerId max rmax aborted _ (ok_response [("head", head_value h); ("entries", JArr (drop n (entries r)))]) v r r).
  - destruct (fits rmax _); [|done]. by destruct (fits max _).
  - unfold request_of. cbn [carried forallb snd app]. rewrite bool_decide_true by lia. reflexivity.
  - cbn [carried ok_response forallb snd]. rewrite (honest_head_carried _ _ Hh).
    change (carried (JArr ?x)) with (forallb carried x). by rewrite (forallb_drop _ _ _ (ho_carried _ _ Hh)).
  - apply serve_pull; [reflexivity..|apply (ho_head _ _ Hh)|apply (ho_ok _ _ Hh)].
Qed.

Lemma push_honest peerId max rmax aborted v l h r hr :
  honest l h → honest r hr → logId r = logId l → sourceOwnerId r = sourceOwnerId l → entries r `prefix_of` entries l →
  ∃ r' e, on_net (ask (Network := replica_network rmax aborted) peerId max
                  (request_of "PUSH" (logId l) [("entries", JArr (drop (length (entries r)) (entries l)))])) (v, r) =
        ((v, r'), if all_fit (push_messages (length (entries r)) l h max rmax) then Ok (ok_response [("head", head_value h)])
                  else Throw e) ∧
    (all_fit (push_messages (length (entries r)) l h max rmax) = true → entries r' = entries l).
Proof.
  intros Hh Hr Hid Ho Hp. destruct (ingest_rest l h r Hh Hid Ho Hp (ho_writes _ _ Hr)) as (r' & Hi & He & _).
  unfold all_fit, push_messages. cbn [forallb fst snd].
  rewrite (asked peerId max rmax aborted _ (ok_response [("head", head_value h)]) v r r').
  - destruct (fits rmax _); [|by eexists _, _]. exists r', too_large. split; [|done]. by destruct (fits max _).
  - unfold request_of. cbn [carried forallb snd app]. by rewrite (forallb_drop _ _ _ (ho_carried _ _ Hh)).
  - cbn [carried ok_response forallb snd]. by rewrite (honest_head_carried _ _ Hh).
  - eapply serve_push; [by rewrite Hid|reflexivity|reflexivity|exact Hi].
Qed.

Lemma js_gt_integers a b : js_gt (JNum (JInt a)) (JNum (JInt b)) = Ok (bool_decide (b < a)%Z).
Proof. cbn. destruct (Z.compare_spec b a); case_bool_decide; cbn; try done; lia. Qed.

Lemma head_hash_string l h : log_ok l → head l = Ok h → ∃ t, h_headHash h = JStr t.
Proof. intros Hok. unfold head. intros (d & _ & <-%Ok_inj)%bind_Ok_inv. by eapply last_hash_string. Qed.

Lemma local_head_step {W} l st ad mx (w : W) h :
  head l = Ok h → local_head (Service l st ad mx, w) = ((Service l st ad mx, w), Ok h).
Proof. intros Hh. unfold local_head, on_log. cbn [s_log fst snd]. erewrite M_bind_step by reflexivity. unfold lift_result. by rewrite Hh. Qed.

Lemma differ_pass {S} n m b e (s : S) :
  n ≠ m → guard_throw (strict_eq (JNum (JInt (Z.of_nat n))) (JNum (JInt (Z.of_nat m))) && b) e s = (s, Ok tt).
Proof. intros Hn. unfold guard_throw. cbn [strict_eq]. by rewrite bool_decide_false by (intros [= ?]; lia). Qed.

Lemma same_pass {S} rest h t e (s : S) :
  h_headHash h = JStr t →
  guard_throw (negb (strict_eq (oprop (oprop (ok_response (("head", head_value h) :: rest)) "head") "headHash")
    (h_headHash h))) e s = (s, Ok tt).
Proof.
  intros Ht. unfold guard_throw. change (oprop (oprop _ "head") "headHash") with (h_headHash h). by rewrite Ht, strict_eq_str.
Qed.

(** C28: two honest replicas, one of which holds a prefix of the other's entries,
    over a network that delivers messages up to the limits of their readers.  If
    every message of the synchronisation is within its limit, they hold the same
    entries, those of the longer log, whichever of them began; otherwise the call
    throws and leaves the log of the replica that began as it was, so a gap larger
    than a message is never closed. *)
Theorem replicas_converge peerId l hl st ad max r hr rmax aborted :
  honest l hl → honest r hr → logId r = logId l → sourceOwnerId r = sourceOwnerId l →
  entries l `prefix_of` entries r ∨ entries r `prefix_of` entries l →
  ∃ s' out, syncWithPeer (Network0 := replica_network rmax aborted) peerId (Service l st ad max, r) = (s', out) ∧
    if all_fit (sync_messages l hl r hr max rmax) then
      is_ok out = true ∧ entries (s_log s'.1) = entries s'.2 ∧
      entries s'.2 = (if bool_decide (length (entries l) < length (entries r)) then entries r else entries l)
    else is_ok out = false ∧ s_log s'.1 = l.
Proof.
  intros Hl Hr Hid Ho Hp. unfold syncWithPeer. erewrite M_bind_step by reflexivity. cbn [fst s_log].
  unfold sync_messages, all_fit. rewrite forallb_app. fold (all_fit (head_messages r hr rmax)).
  pose proof (headFor_honest peerId rmax aborted (Service l st ad max) r hr Hr) as Hhead. rewrite Hid in Hhead.
  destruct (all_fit (head_messages r hr rmax)); cbn [andb].
  2: { erewrite M_bind_throw by exact Hhead. by eexists _, _. }
  erewrite M_bind_step by exact Hhead. clear Hhead.
  erewrite M_bind_step by (apply local_head_step, (ho_head _ _ Hl)).
  pose proof (head_sequence _ _ (ho_ok _ _ Hl) (ho_head _ _ Hl)) as Hsl.
  pose proof (head_sequence _ _ (ho_ok _ _ Hr) (ho_head _ _ Hr)) as Hsr.
  change (oprop (head_value hr) "sequence") with (h_sequence hr). change (oprop (head_value hr) "headHash") with (h_headHash hr).
  cbv zeta. rewrite Hsl, Hsr, !js_gt_integers.
  destruct (head_hash_string _ _ (ho_ok _ _ Hr) (ho_head _ _ Hr)) as [t Ht].
  destruct (Nat.lt_total (length (entries l)) (length (entries r))) as [Hlt|[He|Hgt] ].
  - assert (Hpl : entries l `prefix_of` entries r) by (destruct Hp as [|Hp]; [done|by apply prefix_length in Hp; lia]).
    rewrite (bool_decide_true (Z.of_nat (length (entries l)) < _)%Z) by lia. rewrite (bool_decide_true (_ < _)) by done.
    erewrite M_bind_step by (apply differ_pass; lia). do 2 erewrite M_bind_step by reflexivity.
    fold (all_fit (pull_messages (length (entries l)) r hr max rmax)).
    pose proof (pull_honest peerId max rmax aborted (Service l st ad max) r hr (length (entries l)) Hr ltac:(by pose proof (ho_length _ _ Hl))) as Hpull.
    rewrite Hid in Hpull. destruct (all_fit (pull_messages _ _ _ _ _)).
    2: { erewrite M_bind_throw by exact Hpull. by eexists _, _. }
    erewrite M_bind_step by exact Hpull. erewrite M_bind_step by reflexivity.
    destruct (ingest_rest r hr l Hr (eq_sym Hid) (eq_sym Ho) Hpl (ho_writes _ _ Hl)) as (l' & Hi & He & Hh').
    rewrite (M_bind_step _ _ _ (Service l' st ad max, r) hr) by (unfold on_log; cbn [s_log fst]; change (js_or _ _) with (JArr (drop (length (entries l)) (entries r))); cbn [ingest_value]; by rewrite Hi).
    erewrite M_bind_step by (apply local_head_step, Hh').
    erewrite M_bind_step by (eapply same_pass; exact Ht). erewrite M_bind_step by reflexivity. cbn [fst advertisingEnabled].
    rewrite Hsr, js_gt_integers. destruct ad; (erewrite M_bind_step by reflexivity).
    + eexists (Service l' st true max, r), _. split; [reflexivity|]. done.
    + destruct (bool_decide _); eexists (Service l' st _ max, r), _; (split; [reflexivity|]); done.
  - assert (Hsame : entries l = entries r).
    { destruct Hp as [Hp|Hp]; [|symmetry]; apply (prefix_length_eq _ _ Hp); lia. }
    assert (hr = hl) as ->.
    { pose proof (head_same l r Hid Ho (eq_sym Hsame)) as E. rewrite (ho_head _ _ Hl), (ho_head _ _ Hr) in E. by injection E. }
    rewrite !(bool_decide_false (_ < _)%Z), !(bool_decide_false (_ < _)) by lia. erewrite M_bind_step.
    2:{ unfold guard_throw. rewrite Ht, strict_eq_str, andb_false_r. done. }
    do 2 erewrite M_bind_step by reflexivity. eexists _, _. split; [reflexivity|]. done.
  - assert (Hpr : entries r `prefix_of` entries l) by (destruct Hp as [Hp|]; [by apply prefix_length in Hp; lia|done]).
    rewrite (bool_decide_false (Z.of_nat (length (entries l)) < _)%Z), (bool_decide_true (_ < _)%Z) by lia.
    rewrite (bool_decide_false (length (entries l) < _)), (bool_decide_true (_ < _)) by lia. erewrite M_bind_step by (apply differ_pass; lia).
    do 2 erewrite M_bind_step by reflexivity. cbv iota. erewrite M_bind_step by reflexivity. cbn [next_sequence fst s_log maxMessageBytes]. rewrite list_entries_drop by apply (ho_ok _ _ Hl).
    fold (all_fit (push_messages (length (entries r)) l hl max rmax)).
    destruct (push_honest peerId max rmax aborted (Service l st ad max) l hl r hr Hl Hr Hid Ho Hpr) as (r' & e & Hpush & He).
    destruct (all_fit (push_messages _ _ _ _ _)).
    2: { erewrite M_bind_throw by exact Hpush. by eexists _, _. }
    erewrite M_bind_step by exact Hpush. erewrite M_bind_step by reflexivity.
    destruct (head_hash_string _ _ (ho_ok _ _ Hl) (ho_head _ _ Hl)) as [t' Ht'].
    erewrite M_bind_step by (eapply same_pass; exact Ht').
    eexists (_, r'), _. split; [reflexivity|]. split; [done|]. cbn [s_log fst snd]. by rewrite He by done.
Qed.

End replicas.

(** ** Concrete replicas *)

Definition toy_additions : Additions := λ _, None.

Definition toy_short : log := toy_log [] [toy_e1].
Definition toy_long : log := toy_log [] [toy_e1; toy_e2; toy_e3].

Definition toy_head (l : log) : log_head :=
  match head (H := Toy.host) (H0 := toy_coercions) l with Ok h => h | Throw _ => LogHead "" "" JUndef JUndef "" end.

Lemma toy_honest l : l = toy_short ∨ l = toy_long → honest (H := Toy.host) (H0 := toy_coercions) l (toy_head l).
Proof.
  assert (Hok : ∀ n, chain (H := Toy.host) (logId (toy_empty [])) "owner" (take n [toy_e1; toy_e2; toy_e3]))
    by (intros n; apply chain_prefix, toy_chain).
  intros [->| ->]; split; try reflexivity; try (right; constructor); try (by intros E; vm_compute in E).
  - exact (Hok 1).
  - exact (Hok 3).
Qed.

Definition toy_aborted : jerror := error "stream reset".

#[local] Notation toy_sync max rmax :=
  (syncWithPeer (H := Toy.host) (H0 := toy_coercions) (H1 := toy_additions)
     (Network0 := replica_network (H := Toy.host) (H0 := toy_coercions) (H2 := toy_number) rmax toy_aborted)
     "peer" (Service toy_short true false max, toy_long)).

Lemma replicas_converge_witness :
  ∃ s' out, toy_sync DEFAULT_MAX_MESSAGE_BYTES DEFAULT_MAX_MESSAGE_BYTES = (s', out) ∧ is_ok out = true ∧
    entries (s_log s'.1) = entries s'.2 ∧ entries s'.2 = [toy_e1; toy_e2; toy_e3].
Proof.
  destruct (replicas_converge (H := Toy.host) (H0 := toy_coercions) (H1 := toy_additions) (H2 := toy_number) "peer"
              toy_short (toy_head toy_short) true false DEFAULT_MAX_MESSAGE_BYTES toy_long (toy_head toy_long) DEFAULT_MAX_MESSAGE_BYTES toy_aborted
              (toy_honest _ (or_introl eq_refl)) (toy_honest _ (or_intror eq_refl)) eq_refl eq_refl)
    as (s' & out & Hs & Hc).
  - left. by exists [toy_e2; toy_e3].
  - assert (E : all_fit (sync_messages toy_short (toy_head toy_short) toy_long (toy_head toy_long)
                  DEFAULT_MAX_MESSAGE_BYTES DEFAULT_MAX_MESSAGE_BYTES) = true) by (vm_compute; reflexivity).
    rewrite E in Hc. clear E. exists s', out. exact (conj Hs Hc).
Defined.

(** Where the source has no pages: the two replicas with a limit below the
    entries that are missing. *)
Example gap_too_large : toy_sync 1000 DEFAULT_MAX_MESSAGE_BYTES = ((Service toy_short true false 1000, toy_long), Throw too_large).
Proof. vm_compute. reflexivity. Qed.

Lemma replication_append_only_witness :
  [toy_e1] `prefix_of` entries (serve (H := Toy.host) (H0 := toy_coercions) (JStr "garbage") toy_short).1.
Proof.
  apply (replication_append_only (H := Toy.host) (H0 := toy_coercions) (H1 := toy_additions)
           (Network0 := replica_network (H := Toy.host) (H0 := toy_coercions) (H2 := toy_number) DEFAULT_MAX_MESSAGE_BYTES toy_aborted) "self"
           (Service toy_short true false DEFAULT_MAX_MESSAGE_BYTES, toy_long) (JStr "garbage")
           (ho_ok _ _ (toy_honest _ (or_introl eq_refl))) "peer" 1 1 _).
  do 4 right. left.
Defined.

End Replicas.
