(* ===== verification/DhtReplication.v ===== *)
(** * Replication of records in the overlay

    Models network/replication/dht-replication.js over the record store of
    [DhtRecords]: the iterative read over a bounded frontier, and the quorum
    write whose placements run concurrently.  The overlay (routing, walks and
    requests to peers) is an interface; its peers carry verified node
    identifiers, as network/discovery/quic-rpc.js checks every hint. *)
From S2P Require Import Prelude JSMap JSValue Dates Host Protocol Kademlia DhtRecords.
Import Canonical Keys Kademlia.Ids DhtRecords.Records.

Module DhtReplication.

Record peer := Peer { nodeId : string; endpoints : list jval; publicKey : jval }.

(** What the manager uses of [discovery] and [rpc]. *)
Class Overlay (W : Type) := {
  self_id : string;
  alpha : Z;
  closest : string → Z → M W (list peer);
  known : string → M W (option peer);
  walk : option (string → Z → M W (list string * Z * Z));
  findValue : peer → jval → jval → M W (list jval * list peer)
}.

Record manager := Manager { replicationFactor : Z; writeQuorum : Z; writeTimeoutMs : Z; quorumGraceMs : Z }.

Definition within (v : jval) (lo hi : Z) (message : string) : result Z :=
  match is_integer v with
  | Some n => if bool_decide (n < lo)%Z || bool_decide (hi < n)%Z then Throw (error message) else Ok n
  | None => Throw (error message)
  end.

Definition at_least (v : jval) (lo : Z) (message : string) : result Z :=
  match is_integer v with
  | Some n => if bool_decide (n < lo)%Z then Throw (error message) else Ok n
  | None => Throw (error message)
  end.

Definition new_manager (replicationFactor writeQuorum writeTimeoutMs quorumGraceMs : jval) : result manager :=
  rf ← at_least replicationFactor 1 "replicationFactor must be >= 1";
  quorum ← within writeQuorum 1 rf "writeQuorum must be within replicationFactor";
  timeout ← within writeTimeoutMs 100 120000 "writeTimeoutMs must be between 100 and 120000";
  grace ← within quorumGraceMs 0 10000 "quorumGraceMs must be between 0 and 10000";
  Ok (Manager rf quorum timeout grace).

Record manager_ok (m : manager) : Prop := {
  mo_factor : (1 ≤ replicationFactor m)%Z;
  mo_quorum : (1 ≤ writeQuorum m ≤ replicationFactor m)%Z;
  mo_timeout : (100 ≤ writeTimeoutMs m ≤ 120000)%Z;
  mo_grace : (0 ≤ quorumGraceMs m ≤ 10000)%Z
}.

Lemma within_ok v lo hi message n : within v lo hi message = Ok n → (lo ≤ n ≤ hi)%Z.
Proof.
  unfold within. destruct (is_integer v) as [k|]; [|done]. destruct (_ || _) eqn:E; [done|]. intros <-%Ok_inj. bool_hyps. lia.
Qed.

Lemma new_manager_ok rf quorum timeout grace m : new_manager rf quorum timeout grace = Ok m → manager_ok m.
Proof.
  unfold new_manager. intros (a & Ha & Hm)%bind_Ok_inv. apply bind_Ok_inv in Hm as (b & Hb%within_ok & Hm).
  apply bind_Ok_inv in Hm as (c & Hc%within_ok & Hm). apply bind_Ok_inv in Hm as (d & Hd%within_ok & <-%Ok_inj).
  unfold at_least in Ha. destruct (is_integer rf) as [k|]; [|done]. destruct (bool_decide (k < 1)%Z) eqn:E; [done|].
  apply Ok_inj in Ha as <-. bool_hyps. split; cbn; lia.
Qed.

(** [Number(v)] for [v] not a number *)
Class Numbers := number_of : jval → jnum.
Definition js_number `{Numbers} (v : jval) : jnum := match v with JNum n => n | _ => number_of v end.

Definition lookupRounds `{Numbers} (value : jval) (fallback : Z) : result Z :=
  match (if nullish value then JInt fallback else js_number value) with
  | JInt n => if bool_decide (n < 0)%Z || bool_decide (64 < n)%Z
              then Throw (error "lookupRounds must be between 0 and 64") else Ok n
  | _ => Throw (error "lookupRounds must be between 0 and 64")
  end.

Definition keyspaceTarget (namespace key : jval) : string := to_string namespace +:+ ":" +:+ to_string key.

Fixpoint uniquePeers_from (seen : list string) (peers : list peer) : list peer :=
  match peers with
  | [] => []
  | p :: peers =>
      if nonempty_str (nodeId p) && negb (bool_decide (nodeId p ∈ seen))
      then p :: uniquePeers_from (nodeId p :: seen) peers else uniquePeers_from seen peers
  end.
Definition uniquePeers (peers : list peer) : list peer := uniquePeers_from [] peers.

(** The comparator of [rankPending], at most zero. *)
Definition nearer `{Host} (target : string) (a b : peer) : bool :=
  let left := xorDistance (nodeId a) target in
  let right := xorDistance (nodeId b) target in
  if bool_decide (left < right)%Z then true
  else if bool_decide (right < left)%Z then false
  else bool_decide (localeCompare (nodeId a) (nodeId b) ≤ 0)%Z.

Record lookup_result := LookupResult {
  attempted : bool; l_queried : list string; l_rounds : Z; l_responses : Z; l_error : option string
}.

(** The state of a read: the peers not yet queried, those ever queued and
    queried, the records found, and the counts. *)
Record frontier := Frontier {
  pending : list peer; queued : list string; queried : list string; byId : jsmap string jval;
  failures : list (string * string); foundAt : list string; queries : nat; responses : nat; hintsAccepted : nat
}.

(** ** Concurrent placements *)

(** The state of the placements of one write: the candidates not yet asked,
    those asked and not answered, those whose answer was counted but whose slot
    is not yet free, and the variables of the closure. *)
Record placement := Placement {
  unasked : list string; waiting : list string; settling : list string; acknowledgements : nat;
  storedAt : list string; writeFailures : list (string * string); graceTimer : bool; placementTimedOut : bool;
  finished : bool
}.

Inductive reply := Stored | NotStored | Failed (message : string).

(** A promise of [rpc.store] settles, its [finally] runs, a timer fires. *)
Inductive placement_event := Settled (p : string) (r : reply) | Finally (p : string) | GraceFires | DeadlineFires.

Section placements.
Context (rf minAcks : nat).

Definition finish (s : placement) : placement :=
  Placement (unasked s) (waiting s) (settling s) (acknowledgements s) (storedAt s) (writeFailures s) (graceTimer s)
    (placementTimedOut s) true.

(** The loop that opens slots; [used] counts the other requests in flight and
    the nodes that stored. *)
Fixpoint fill (used : nat) (unasked waiting : list string) : list string * list string :=
  match unasked with
  | [] => ([], waiting)
  | p :: rest => if bool_decide (length waiting + used < rf) then fill used rest (waiting ++ [p]) else (unasked, waiting)
  end.

Definition pump (s : placement) : placement :=
  if finished s then s
  else if bool_decide (rf ≤ length (storedAt s)) then finish s
  else
    let grace := graceTimer s || bool_decide (minAcks ≤ acknowledgements s) in
    let '(unasked, waiting) := fill (length (settling s) + length (storedAt s)) (unasked s) (waiting s) in
    let s := Placement unasked waiting (settling s) (acknowledgements s) (storedAt s) (writeFailures s) grace
               (placementTimedOut s) (finished s) in
    if bool_decide (length waiting + length (settling s) = 0) && bool_decide (unasked = []) then finish s else s.

Definition settle_store (p : string) (r : reply) (s : placement) : placement :=
  let waiting := filter (λ q, q ≠ p) (waiting s) in
  let settling := p :: settling s in
  match r with
  | Stored => Placement (unasked s) waiting settling (S (acknowledgements s))
                (if bool_decide (p ∈ storedAt s) then storedAt s else storedAt s ++ [p]) (writeFailures s) (graceTimer s)
                (placementTimedOut s) (finished s)
  | NotStored => Placement (unasked s) waiting settling (acknowledgements s) (storedAt s)
                   (writeFailures s ++ [(p, "dht_store_not_stored")]) (graceTimer s) (placementTimedOut s) (finished s)
  | Failed message => Placement (unasked s) waiting settling (acknowledgements s) (storedAt s)
                        (writeFailures s ++ [(p, if nonempty_str message then message else "dht_store_failed")])
                        (graceTimer s) (placementTimedOut s) (finished s)
  end.

Definition step (e : placement_event) (s : placement) : placement :=
  match e with
  | Settled p r => if bool_decide (p ∈ waiting s) then settle_store p r s else s
  | Finally p =>
      if bool_decide (p ∈ settling s)
      then pump (Placement (unasked s) (waiting s) (filter (λ q, q ≠ p) (settling s)) (acknowledgements s) (storedAt s)
                   (writeFailures s) (graceTimer s) (placementTimedOut s) (finished s))
      else s
  | GraceFires => if graceTimer s && negb (finished s) then finish s else s
  | DeadlineFires =>
      if finished s then s
      else finish (Placement (unasked s) (waiting s) (settling s) (acknowledgements s) (storedAt s) (writeFailures s)
                     (graceTimer s) (placementTimedOut s || bool_decide (acknowledgements s < minAcks)) (finished s))
  end.

Definition start (self : string) (local : bool) (candidates : list string) : placement :=
  pump (Placement candidates [] [] (if local then 1 else 0) (if local then [self] else []) [] false false false).

Definition run (events : list placement_event) (s : placement) : placement := fold_left (λ s e, step e s) events s.

(** What holds at every point of a write: a node is asked once, at most as many
    hold or may come to hold the record as replicas are wanted, and no candidate
    is forgotten. *)
Record placed (nodes : list string) (s : placement) : Prop := {
  pl_once : NoDup (storedAt s ++ waiting s ++ unasked s);
  pl_nodes : storedAt s ++ waiting s ++ unasked s ⊆ nodes;
  pl_count : acknowledgements s = length (storedAt s);
  pl_slots : length (waiting s) + length (storedAt s) ≤ rf;
  pl_asked : ∀ p, p ∈ nodes → p ∈ storedAt s ++ waiting s ++ unasked s ∨ ∃ reason, (p, reason) ∈ writeFailures s;
  pl_grace : graceTimer s = true → minAcks ≤ acknowledgements s;
  pl_reason : finished s = true → minAcks ≤ acknowledgements s ∨ placementTimedOut s = true ∨
    waiting s = [] ∧ unasked s = []
}.

(** A write that goes on has a request in flight. *)
Definition going (s : placement) : Prop := finished s = false → waiting s ≠ [] ∨ settling s ≠ [].

Lemma fill_ok used unasked waiting unasked' waiting' :
  fill used unasked waiting = (unasked', waiting') →
  waiting' ++ unasked' = waiting ++ unasked ∧
  (waiting' = waiting ∨ length waiting' + used ≤ rf) ∧ (unasked' = [] ∨ rf ≤ length waiting' + used).
Proof.
  revert waiting. induction unasked as [|p rest IH]; intros waiting; cbn [fill]; [intros [= <- <-]; split_and!; [done|by left..]|].
  case_bool_decide as Hlt.
  - intros (E & Hs & Hr)%IH. split_and!; [by rewrite E, <- app_assoc| |done]. right.
    destruct Hs as [->|Hs]; [rewrite length_app; cbn; lia|done].
  - intros [= <- <-]. split_and!; [done|by left|right; lia].
Qed.

Lemma pump_placed nodes s : minAcks ≤ rf → placed nodes s → placed nodes (pump s) ∧ (finished s = false → going (pump s)).
Proof.
  intros Hmin Hp. unfold pump. destruct (finished s) eqn:Hf; [done|]. destruct Hp as [Ho Hn Hc Hs Ha Hg Hr].
  case_bool_decide as Hfull; [split; [split; cbn; try done; intros _; left; lia|done]|].
  destruct (fill _ _ _) as [unasked' waiting'] eqn:Hfill. apply fill_ok in Hfill as (E & Hs' & Hroom).
  set (g := graceTimer s || _).
  assert (Hg' : g = true → minAcks ≤ acknowledgements s).
  { unfold g. rewrite orb_true_iff, bool_decide_eq_true. intros [?|?]; auto. }
  assert (Hk : ∀ b, (b = true → waiting' = [] ∧ unasked' = []) → placed nodes (Placement unasked' waiting' (settling s) (acknowledgements s)
      (storedAt s) (writeFailures s) g (placementTimedOut s) b)).
  { intros b Hb. split; cbn; rewrite ?E; try done; [destruct Hs' as [->|Hs']; lia|]. intros ?%Hb. by right; right. }
  destruct (_ && _) eqn:Hend.
  - split; [|done]. apply (Hk true). intros _. bool_hyps. by destruct waiting'.
  - split; [by apply (Hk false)|]. intros _ _. cbn. destruct waiting' as [|p w]; [|by left]. destruct (settling s) as [|q l]; [|by right].
    destruct Hroom as [->|Hroom]; [|cbn in Hroom; lia]. by cbn in Hend.
Qed.

Lemma filter_out (p : string) l : NoDup l → p ∈ l → l ≡ₚ p :: filter (λ q, q ≠ p) l.
Proof.
  intros Hl Hp. apply NoDup_Permutation; [done|constructor; [rewrite list_elem_of_filter; naive_solver|by apply NoDup_filter]|].
  intros q. rewrite elem_of_cons, list_elem_of_filter. destruct (decide (q = p)) as [->|]; naive_solver.
Qed.

Lemma settle_placed nodes s p r : p ∈ waiting s → placed nodes s → placed nodes (settle_store p r s) ∧ going (settle_store p r s).
Proof.
  intros Hp [Ho Hn Hc Hs Ha Hg Hr].
  assert (Hw : NoDup (waiting s)) by (by apply NoDup_app in Ho as (_ & _ & Ho); apply NoDup_app in Ho as [Ho _]).
  pose proof (filter_out p (waiting s) Hw Hp) as Hperm. pose proof (Permutation_length Hperm) as Hlen. cbn [length] in Hlen.
  assert (Hreason : finished s = true → ∀ acks, acknowledgements s ≤ acks → minAcks ≤ acks ∨ placementTimedOut s = true ∨
    filter (λ q, q ≠ p) (waiting s) = [] ∧ unasked s = []).
  { intros [?|[?|[Hnil _]]]%Hr acks Hacks; [left; lia|by auto|]. rewrite Hnil in Hp. by apply elem_of_nil in Hp. }
  assert (Hperm' : storedAt s ++ waiting s ++ unasked s ≡ₚ p :: storedAt s ++ filter (λ q, q ≠ p) (waiting s) ++ unasked s)
    by (rewrite Hperm at 1; by rewrite Permutation_middle).
  assert (Hfail : ∀ reason, placed nodes (Placement (unasked s) (filter (λ q, q ≠ p) (waiting s)) (p :: settling s)
      (acknowledgements s) (storedAt s) (writeFailures s ++ [(p, reason)]) (graceTimer s) (placementTimedOut s) (finished s))).
  { intros reason. rewrite Hperm' in Ho. apply NoDup_cons in Ho as [_ Ho]. split; cbn; try done; [|lia| |eauto].
    - intros q Hq. apply Hn. rewrite Hperm'. by right.
    - intros q [Hq|[why Hq] ]%Ha; [|right; exists why; rewrite elem_of_app; by left]. rewrite Hperm' in Hq.
      apply elem_of_cons in Hq as [->|Hq]; [right; exists reason; set_solver|by left]. }
  destruct r; cbn [settle_store]; split; try apply Hfail; try (intros _; by right).
  rewrite bool_decide_false.
  2: { intros Hin. rewrite NoDup_app in Ho. destruct Ho as (_ & Ho & _). apply (Ho p Hin), elem_of_app. by left. }
  assert (Hsame : (storedAt s ++ [p]) ++ filter (λ q, q ≠ p) (waiting s) ++ unasked s ≡ₚ storedAt s ++ waiting s ++ unasked s)
    by (rewrite Hperm', <- app_assoc; symmetry; apply Permutation_middle).
  split; cbn; rewrite ?length_app; cbn [length].
  - by rewrite Hsame.
  - intros q. rewrite Hsame. apply Hn.
  - lia.
  - lia.
  - intros q Hq. rewrite Hsame. by apply Ha.
  - intros Hgr%Hg. lia.
  - intros Hf. apply Hreason; [done|lia].
Qed.

(** Every event of a write keeps it well placed, and a write that goes on never
    waits for nothing. *)
Lemma step_placed nodes e s : minAcks ≤ rf → placed nodes s → going s → placed nodes (step e s) ∧ going (step e s).
Proof.
  intros Hmin Hp Hgo. destruct e as [p r|p| |]; cbn [step].
  - case_bool_decide; [by apply settle_placed|done].
  - case_bool_decide as Hin; [|done]. set (s1 := Placement _ _ _ _ _ _ _ _ _).
    assert (Hp1 : placed nodes s1) by (destruct Hp; by split).
    destruct (pump_placed nodes s1 Hmin Hp1) as [? Hgo1]. split; [done|].
    destruct (finished s) eqn:Hf; [|by apply Hgo1].
    by unfold going, pump; cbn.
  - destruct (graceTimer s) eqn:Hg; [|done]. destruct (finished s) eqn:Hf; [done|]. split; [|done]. destruct Hp.
    split; cbn; auto.
  - destruct (finished s) eqn:Hf; [done|]. split; [|done]. destruct Hp. split; cbn; auto. intros _.
    destruct (decide (acknowledgements s < minAcks)); [right; left; rewrite bool_decide_true by done; apply orb_true_r|left; lia].
Qed.

Lemma run_placed nodes events s : minAcks ≤ rf → placed nodes s → going s → placed nodes (run events s) ∧ going (run events s).
Proof.
  intros Hmin. revert s. induction events as [|e events IH]; intros s Hp Hgo; [done|].
  destruct (step_placed nodes e s Hmin Hp Hgo). by apply IH.
Qed.

Definition holders (self : string) (local : bool) : list string := if local then [self] else [].

Lemma start_placed self local candidates :
  minAcks ≤ rf → 1 ≤ rf → NoDup (self :: candidates) →
  placed (holders self local ++ candidates) (start self local candidates) ∧ going (start self local candidates).
Proof.
  intros Hmin Hrf [Hself Hnd]%NoDup_cons. unfold start. set (s := Placement _ _ _ _ _ _ _ _ _).
  assert (Hs : placed (holders self local ++ candidates) s).
  { destruct local; split; cbn; try done; try lia; [by constructor|set_solver..]. }
  destruct (pump_placed _ _ Hmin Hs). split; [done|auto].
Qed.

(** ** Progress of a write *)

Definition enabled (e : placement_event) (s : placement) : Prop :=
  match e with
  | Settled p _ => p ∈ waiting s
  | Finally p => p ∈ settling s
  | GraceFires => graceTimer s = true ∧ finished s = false
  | DeadlineFires => finished s = false
  end.

Fixpoint happens (events : list placement_event) (s : placement) : Prop :=
  match events with [] => True | e :: events => enabled e s ∧ happens events (step e s) end.

(** What is left to happen. *)
Definition outstanding (s : placement) : nat :=
  3 * length (unasked s) + 2 * length (waiting s) + length (settling s) + (if finished s then 0 else 1).

Lemma fill_length used unasked waiting : length (fill used unasked waiting).1 ≤ length unasked.
Proof.
  revert waiting. induction unasked as [|p rest IH]; intros waiting; cbn [fill]; [done|].
  case_bool_decide; [|done]. etrans; [apply IH|cbn; lia].
Qed.

Lemma pump_outstanding s : outstanding (pump s) ≤ outstanding s.
Proof.
  unfold pump. destruct (finished s) eqn:Hf; [done|].
  case_bool_decide; [unfold outstanding, finish; cbn; rewrite Hf; lia|].
  pose proof (fill_length (length (settling s) + length (storedAt s)) (unasked s) (waiting s)) as Hl.
  destruct (fill _ _ _) as [unasked' waiting'] eqn:Hfill. apply fill_ok in Hfill as (E%(f_equal length) & _ & _).
  rewrite !length_app in E. cbn [fst] in Hl. unfold finish, outstanding. destruct (_ && _); cbn.
  all: rewrite Hf. all: lia.
Qed.

Lemma filter_shorter (p : string) l : p ∈ l → length (filter (λ q, q ≠ p) l) < length l.
Proof.
  induction l as [|q l IH]; [by intros ?%elem_of_nil|]. rewrite elem_of_cons, filter_cons. pose proof (length_filter (λ q, q ≠ p) l).
  destruct (decide (q ≠ p)) as [Hq|Hq]; cbn; [|lia]. intros [->|Hin]; [done|]. apply IH in Hin. lia.
Qed.

Lemma step_outstanding e s : enabled e s → outstanding (step e s) < outstanding s.
Proof.
  destruct e as [p r|p| |]; cbn [enabled step].
  - intros Hp. rewrite bool_decide_true by done. pose proof (filter_shorter _ _ Hp). destruct r; unfold outstanding; cbn; lia.
  - intros Hp. rewrite bool_decide_true by done. pose proof (filter_shorter _ _ Hp).
    eapply Nat.le_lt_trans; [apply pump_outstanding|]. unfold outstanding; cbn; lia.
  - intros [-> Hf]. rewrite Hf. unfold outstanding; cbn. rewrite Hf. lia.
  - intros Hf. rewrite Hf. unfold outstanding; cbn. rewrite Hf. lia.
Qed.

Lemma happens_bounded events s : happens events s → length events ≤ outstanding s.
Proof.
  revert s. induction events as [|e events IH]; intros s; cbn [length happens]; [lia|]. intros [He%step_outstanding Hs%IH]. lia.
Qed.

Lemma start_outstanding self local candidates : outstanding (start self local candidates) ≤ 3 * length candidates + 1.
Proof. unfold start. etrans; [apply pump_outstanding|]. unfold outstanding. cbn. lia. Qed.

Lemma pump_stored s : storedAt (pump s) = storedAt s.
Proof.
  unfold pump. destruct (finished s); [done|]. case_bool_decide; [done|]. destruct (fill _ _ _). by destruct (_ && _).
Qed.

(** A node counts as holding the record once it has answered so. *)
Lemma run_stored p events s : p ∈ storedAt (run events s) → p ∈ storedAt s ∨ Settled p Stored ∈ events.
Proof.
  revert s. induction events as [|e events IH]; intros s; [by left|]. intros [Hp|Hp]%IH; [|by right; right].
  destruct e as [q r|q| |]; cbn [step] in Hp.
  - case_bool_decide; [|by left]. destruct r; cbn in Hp; [|by left..]. case_bool_decide; [by left|].
    apply elem_of_app in Hp as [?| ->%list_elem_of_singleton]; [by left|right; left].
  - case_bool_decide; [rewrite pump_stored in Hp|]; by left.
  - destruct (_ && _); by left.
  - destruct (finished s); by left.
Qed.

End placements.

Section replication.
Context `{Host} `{Coercions} `{Numbers} {W : Type} `{!Overlay W} (m : manager).

Definition on_net {A} (c : M W A) : M (store * W) A := λ s, let '(w, r) := c s.2 in ((s.1, w), r).
Definition on_store {A} (c : M store A) : M (store * W) A := λ s, let '(st, r) := c s.1 in ((st, s.2), r).

Definition message_or (e : jerror) (fallback : string) : string :=
  if nonempty_str (e_message e) then e_message e else fallback.

Definition peerFromNodeId (id : string) : M (store * W) (option peer) :=
  if negb (nonempty_str id) || bool_decide (id = self_id) then mret None
  else
    found ← on_net (known id);
    mret (match found with
          | Some p => if negb (nonempty_str (nodeId p)) || bool_decide (length (endpoints p) = 0) then None else Some p
          | None => None
          end).

Fixpoint peers_of (ids : list string) : M (store * W) (list peer) :=
  match ids with
  | [] => mret []
  | id :: ids => p ← peerFromNodeId id; ps ← peers_of ids; mret (match p with Some p => p :: ps | None => ps end)
  end.

Definition candidates (namespace key : jval) (count : Z) : M (store * W) (list peer) :=
  found ← on_net (closest (keyspaceTarget namespace key) (Z.max count (replicationFactor m)));
  mret (uniquePeers found).

Definition expandKeyspace (namespace key maxRounds : jval) : M (store * W) lookup_result :=
  rounds ← lift_result (lookupRounds maxRounds 4);
  match walk with
  | None => mret (LookupResult false [] 0 0 None)
  | Some walk =>
      if bool_decide (rounds = 0)%Z then mret (LookupResult false [] 0 0 None)
      else catch_with
             ('(queried, walked, responses) ← on_net (walk (keyspaceTarget namespace key) rounds);
              mret (LookupResult true queried walked responses None))
             (λ e, mret (LookupResult true [] 0 0 (Some (message_or e "dht_keyspace_lookup_failed"))))
  end.

(** ** Reading *)

Definition rankPending (target : string) (f : frontier) : frontier :=
  Frontier (sort_by (nearer target) (pending f)) (queued f) (queried f) (byId f) (failures f) (foundAt f) (queries f)
    (responses f) (hintsAccepted f).

(** The next peers to query: the loop over the queue while the batch is short
    of [room]. *)
Fixpoint take_batch (room : nat) (queried : list string) (queue : list peer) : list peer * list string * list peer :=
  match queue with
  | [] => ([], queried, [])
  | p :: rest =>
      match room with
      | O => ([], queried, queue)
      | S room' =>
          if negb (nonempty_str (nodeId p)) || bool_decide (nodeId p ∈ queried) then take_batch room queried rest
          else let '(batch, queried, rest) := take_batch room' (nodeId p :: queried) rest in (p :: batch, queried, rest)
      end
  end.

Definition query (namespace key : jval) (p : peer) : M (store * W) (peer * result (list jval * list peer)) :=
  catch_with (r ← on_net (findValue p namespace key); mret (p, Ok r)) (λ e, mret (p, Throw e)).

Fixpoint query_all (namespace key : jval) (batch : list peer)
    : M (store * W) (list (peer * result (list jval * list peer))) :=
  match batch with
  | [] => mret []
  | p :: batch => r ← query namespace key p; rs ← query_all namespace key batch; mret (r :: rs)
  end.

(** The records of one answer: each verified, kept and offered to the store. *)
Fixpoint accept_records (now : Z) (records : list jval) (byId : jsmap string jval) (found : bool)
    : M (store * W) (jsmap string jval * bool) :=
  match records with
  | [] => mret (byId, found)
  | record :: records =>
      v ← on_store (verify now false record);
      if negb (accepted v) then accept_records now records byId found
      else
        _ ← on_store (put now false true record);
        accept_records now records (map_set (to_string (oprop record "recordId")) record byId) true
  end.

Fixpoint accept_hints (hints : list peer) (f : frontier) : frontier :=
  match hints with
  | [] => f
  | h :: hints =>
      if negb (nonempty_str (nodeId h)) || bool_decide (nodeId h ∈ queried f) || bool_decide (nodeId h ∈ queued f)
      then accept_hints hints f
      else accept_hints hints
             (Frontier (pending f ++ [h]) (nodeId h :: queued f) (queried f) (byId f) (failures f) (foundAt f) (queries f)
                (responses f) (S (hintsAccepted f)))
  end.

Definition settle_one (now : Z) (answer : peer * result (list jval * list peer)) (f : frontier)
    : M (store * W) frontier :=
  match answer with
  | (p, Throw e) =>
      mret (Frontier (pending f) (queued f) (queried f) (byId f)
              (failures f ++ [(nodeId p, message_or e "dht_find_value_failed")]) (foundAt f) (queries f) (responses f)
              (hintsAccepted f))
  | (p, Ok (records, hints)) =>
      '(byId', found) ← accept_records now records (byId f) false;
      mret (accept_hints hints
              (Frontier (pending f) (queued f) (queried f) byId' (failures f)
                 (if (found : bool) then foundAt f ++ [nodeId p] else foundAt f) (queries f) (S (responses f)) (hintsAccepted f)))
  end.

Fixpoint settle (now : Z) (answers : list (peer * result (list jval * list peer))) (f : frontier)
    : M (store * W) frontier :=
  match answers with
  | [] => mret f
  | a :: answers => f ← settle_one now a f; settle now answers f
  end.

(** The loop queries at least one peer per round, so [budget] rounds are
    enough. *)
Fixpoint read_loop (fuel : nat) (now : Z) (namespace key : jval) (concurrency budget : nat) (f : frontier)
    : M (store * W) frontier :=
  match fuel with
  | O => mret f
  | S fuel =>
      if bool_decide (pending f = []) || bool_decide (budget ≤ queries f) || negb (bool_decide (byId f = [])) then mret f
      else
        let f := rankPending (keyspaceTarget namespace key) f in
        let '(batch, queried', rest) := take_batch (Nat.min concurrency (budget - queries f)) (queried f) (pending f) in
        let f := Frontier rest (queued f) queried' (byId f) (failures f) (foundAt f) (queries f + length batch)
                   (responses f) (hintsAccepted f) in
        if bool_decide (batch = []) then mret f
        else
          answers ← query_all namespace key batch;
          f ← settle now answers f;
          read_loop fuel now namespace key concurrency budget f
  end.

Definition normalizedFanout (fanout : jval) : Z :=
  Z.max (replicationFactor m)
    (Z.min 64 (match js_number fanout with JInt n => n | _ => replicationFactor m + 4 end)%Z).

(** [Math.max(1, Math.min(8, Number(alpha) || 3))] *)
Definition concurrency : Z := Z.max 1 (Z.min 8 (if bool_decide (alpha = 0)%Z then 3 else alpha)).

Record read_result := ReadResult {
  r_records : list jval; r_failures : list (string * string); r_lookup : lookup_result; r_local : bool;
  r_budget : Z; r_frontier : option frontier
}.

Definition by_id (records : list jval) : jsmap string jval :=
  fold_left (λ found record, map_set (to_string (oprop record "recordId")) record found) records [].

Definition start_frontier (peers : list peer) : frontier :=
  let queue := uniquePeers peers in Frontier queue (map nodeId queue) [] [] [] [] 0 0 0.

Definition no_lookup : lookup_result := LookupResult false [] 0 0 None.

(** The counters of [telemetry] are left out. *)
Definition get (now : Z) (namespace key fanout rounds : jval) : M (store * W) read_result :=
  normalizedRounds ← lift_result (lookupRounds rounds 4);
  let fanout := normalizedFanout fanout in
  localRecords ← on_store (DhtRecords.Records.get namespace key now);
  if bool_decide (0 < length localRecords) then
    mret (ReadResult (map_values (by_id localRecords)) [] no_lookup true 0 None)
  else
    lookup ← expandKeyspace namespace key (JNum (JInt normalizedRounds));
    currentPeers ← candidates namespace key fanout;
    walkedPeers ← peers_of (l_queried lookup);
    let budget := Z.max fanout (Z.min 64 (fanout + normalizedRounds * concurrency)) in
    f ← read_loop (Z.to_nat budget) now namespace key (Z.to_nat concurrency) (Z.to_nat budget)
          (start_frontier (walkedPeers ++ currentPeers));
    _ ← guard_throw (sort_throws (λ r, oprop r "sequence") (map_values (byId f))) cannot_convert;
    mret (ReadResult (sort_by fresher (map_values (byId f))) (failures f) lookup false budget (Some f)).

(** ** Writing *)

Record begun := Begun {
  b_factor : nat; b_acks : nat; b_timeout : Z; b_deadline : Z; b_local : bool; b_remoteNeeded : Z;
  b_candidates : list peer; b_lookup : lookup_result
}.

Definition timeoutError (timeoutMs : Z) : jerror :=
  error_code "TRUYN_DHT_WRITE_TIMEOUT" ("TRUYN_DHT_WRITE_TIMEOUT:" +:+ Z_to_string timeoutMs).

Definition quorumError (acknowledgements minAcks : nat) : jerror :=
  error_code "TRUYN_DHT_WRITE_QUORUM"
    ("TRUYN_DHT_WRITE_QUORUM:" +:+ Z_to_string (Z.of_nat acknowledgements) +:+ "/" +:+ Z_to_string (Z.of_nat minAcks)).

(** [put] up to the placements; the clock is read when it starts and after the
    lookup.  [rpc.withDeadline] runs its argument with a deadline for the
    requests inside, which are the overlay's. *)
Definition begin_put (started looked : Z) (record replicationFactor minAcks rounds timeoutMs : jval) : M (store * W) begun :=
  v ← on_store (verify started false record);
  _ ← lift_result (match v with Accepted => Ok tt | Rejected reason => Throw (error ("invalid DHT record: " +:+ reason)) end);
  factor ← lift_result (at_least replicationFactor 1 "replicationFactor must be >= 1");
  acks ← lift_result (within minAcks 1 factor "minAcks must be within replicationFactor");
  timeout ← lift_result (within timeoutMs 100 120000 "timeoutMs must be between 100 and 120000");
  let deadlineAt := (started + timeout)%Z in
  lookup ← expandKeyspace (oprop record "namespace") (oprop record "key") rounds;
  _ ← guard_throw (bool_decide (deadlineAt ≤ looked)%Z) (timeoutError timeout);
  local ← on_store (put looked false true record);
  let stored := accepted local in
  found ← candidates (oprop record "namespace") (oprop record "key") (factor + 8);
  mret (Begun (Z.to_nat factor) (Z.to_nat acks) timeout deadlineAt stored
          (Z.max 0 (factor - if stored then 1 else 0)) (List.filter (λ p, negb (bool_decide (nodeId p = self_id))) found) lookup).

Definition placements := jsmap string (list string).

Record put_result := PutResult {
  w_recordId : jval; w_acknowledgements : nat; w_replicationFactor : nat; w_remoteNeeded : Z; w_storedAt : list string;
  w_failures : list (string * string); w_lookup : lookup_result; w_timeoutMs : Z; w_quorumGraceMs : Z
}.

(** [put] after the placements. *)
Definition conclude (now : Z) (record : jval) (b : begun) (s : placement) (placementByRecordId : placements)
    : placements * result put_result :=
  if bool_decide (acknowledgements s < b_acks b) then
    (placementByRecordId,
     Throw (if placementTimedOut s || bool_decide (b_deadline b ≤ now)%Z then timeoutError (b_timeout b)
            else quorumError (acknowledgements s) (b_acks b)))
  else
    let remoteStoredAt := List.filter (λ id, negb (bool_decide (id = self_id))) (storedAt s) in
    (map_set (to_string (oprop record "recordId")) (sort_by str_leb remoteStoredAt) placementByRecordId,
     Ok (PutResult (oprop record "recordId") (acknowledgements s) (b_factor b) (b_remoteNeeded b) (storedAt s)
           (writeFailures s) (b_lookup b) (b_timeout b) (quorumGraceMs m))).

Definition placing (b : begun) : placement := start (b_factor b) (b_acks b) self_id (b_local b) (nodeId <$> b_candidates b).

(** What happens during one write: the clock readings and the events. *)
Record schedule := Schedule { started : Z; looked : Z; concluded : Z; events : list placement_event }.

Definition on_rest {A} (c : M (store * W) A) : M (placements * (store * W)) A :=
  λ s, let '(r, a) := c s.2 in ((s.1, r), a).
Definition on_placements {A} (f : placements → placements * result A) : M (placements * (store * W)) A :=
  λ s, let '(p, a) := f s.1 in ((p, s.2), a).

(** [None]: after these events the write still goes on. *)
Definition put (h : schedule) (record replicationFactor minAcks rounds timeoutMs : jval)
    : M (placements * (store * W)) (option put_result) :=
  b ← on_rest (begin_put (started h) (looked h) record replicationFactor minAcks rounds timeoutMs);
  let s := run (b_factor b) (b_acks b) (events h) (placing b) in
  if negb (finished s) then mret None
  else r ← on_placements (conclude (concluded h) record b s); mret (Some r).

(** ** Repair *)

Fixpoint set_union (found : list string) (l : list string) : list string :=
  match l with [] => found | x :: l => set_union (if bool_decide (x ∈ found) then found else found ++ [x]) l end.

Definition previousHolders (placementByRecordId : placements) (records : list jval) : list string :=
  set_union [] (flat_map (λ r, default [] (map_get (to_string (oprop r "recordId")) placementByRecordId)) records).

(** [records.some(...)] of an answer: the first record that is expected and
    verified ends the search. *)
Fixpoint has_record (now : Z) (expected : list jval) (found : list jval) : M (store * W) bool :=
  match found with
  | [] => mret false
  | record :: found =>
      if negb (existsb (λ e, strict_eq (oprop e "recordId") (oprop record "recordId")) expected) then has_record now expected found
      else
        v ← on_store (verify now false record);
        if accepted v then mret true else has_record now expected found
  end.

Definition observe (now : Z) (namespace key : jval) (expected : list jval) (id : string)
    : M (store * W) (option (string * string)) :=
  found ← peerFromNodeId id;
  match found with
  | None => mret (Some (id, "dht_previous_holder_not_discoverable"))
  | Some peer =>
      '(p, answer) ← query namespace key peer;
      match answer with
      | Ok (records, _) =>
          has ← has_record now expected records;
          mret (if (has : bool) then None else Some (id, "dht_previous_holder_record_missing"))
      | Throw e => mret (Some (id, message_or e "dht_previous_holder_read_failed"))
      end
  end.

Fixpoint observe_all (now : Z) (namespace key : jval) (expected : list jval) (ids : list string)
    : M (store * W) (list (string * string)) :=
  match ids with
  | [] => mret []
  | id :: ids =>
      o ← observe now namespace key expected id;
      os ← observe_all now namespace key expected ids;
      mret (match o with Some o => o :: os | None => os end)
  end.

(** The writes of a repair run one after another; one that has not ended ends
    what these schedules determine. *)
Fixpoint repair_records (hs : list schedule) (records : list jval) (replicationFactor minAcks rounds : jval)
    : M (placements * (store * W)) (option (list put_result)) :=
  match records, hs with
  | [], _ => mret (Some [])
  | _ :: _, [] => mret None
  | record :: records, h :: hs =>
      r ← put h record replicationFactor minAcks rounds (JNum (JInt (writeTimeoutMs m)));
      match r with
      | None => mret None
      | Some r =>
          rs ← repair_records hs records replicationFactor minAcks rounds;
          mret (match rs with Some rs => Some (r :: rs) | None => None end)
      end
  end.

Record repair_result := RepairResult {
  p_records : nat; p_repairs : list put_result; p_readFailures : list (string * string); p_lookup : lookup_result
}.

Definition repair (now : Z) (hs : list schedule) (namespace key : jval) (replicationFactor minAcks : Z) (rounds : jval)
    : M (placements * (store * W)) (option repair_result) :=
  resolved ← on_rest (get now namespace key (JNum (JInt (replicationFactor + 8))) rounds);
  holders ← on_placements (λ p, (p, Ok (previousHolders p (r_records resolved))));
  observations ←
    (if r_local resolved && bool_decide (0 < length (r_records resolved))
     then on_rest (observe_all now namespace key (r_records resolved) holders) else mret []);
  repairs ← repair_records hs (r_records resolved) (JNum (JInt replicationFactor)) (JNum (JInt minAcks)) rounds;
  mret (match repairs with
        | Some repairs => Some (RepairResult (length (r_records resolved)) repairs (r_failures resolved ++ observations)
                                  (r_lookup resolved))
        | None => None
        end).

(** ** What a read returns *)

(** What holds of every value a computation returns. *)
Definition returns {A} (c : M (store * W) A) (P : A → Prop) : Prop := ∀ s s' a, c s = (s', Ok a) → P a.

Lemma returns_bind {A B} (c : M (store * W) A) (g : A → M (store * W) B) (P : A → Prop) (Q : B → Prop) :
  returns c P → (∀ a, P a → returns (g a) Q) → returns (x ← c; g x) Q.
Proof. intros Hc Hg s s' b (s1 & a & Ha & Hb)%M_bind_Ok_inv. by eapply Hg; [eapply Hc|]. Qed.

Lemma returns_ret {A} (a : A) (P : A → Prop) : P a → returns (mret a) P.
Proof. intros Ha s s' a' [= _ <-]. done. Qed.

Lemma returns_any {A} (c : M (store * W) A) : returns c (λ _, True).
Proof. done. Qed.

Definition verified_now (now : Z) (record : jval) : Prop :=
  ∃ memo, accepted (verifyDhtRecord now false record memo).2 = true.

Definition all_verified (now : Z) (found : jsmap string jval) : Prop := Forall (verified_now now) (map_values found).

Lemma map_set_values {V} (P : V → Prop) (k : string) v (found : jsmap string V) :
  P v → Forall P (map_values found) → Forall P (map_values (map_set k v found)).
Proof.
  intros Hv. unfold map_values. rewrite !Forall_fmap, !Forall_forall. intros Hf [k' v'] Hin.
  induction found as [|[j w] found IH]; cbn [map_set] in Hin.
  - by apply list_elem_of_singleton in Hin as [= -> ->].
  - destruct (decide (k = j)).
    + apply elem_of_cons in Hin as [[= -> ->]|Hin]; [done|]. apply Hf. by right.
    + apply elem_of_cons in Hin as [->|Hin]; [apply Hf; by left|]. apply IH; [|done]. intros x Hx. apply Hf. by right.
Qed.

Lemma accept_records_verified now records found b :
  all_verified now found → returns (accept_records now records found b) (λ r, all_verified now r.1).
Proof.
  revert found b. induction records as [|record records IH]; intros found b Hf; cbn [accept_records]; [by apply returns_ret|].
  apply (returns_bind _ _ (λ v, accepted v = true → verified_now now record)).
  - intros [st w] s' v. unfold on_store, verify. cbn [fst snd].
    destruct (verifyDhtRecord now false record (verified st)) as [memo v'] eqn:Hv. cbn. intros [= _ <-] Ha.
    exists (verified st). by rewrite Hv.
  - intros v Hv. destruct (accepted v); cbn [negb]; [|by apply IH].
    eapply returns_bind; [apply returns_any|]. intros _ _. apply IH. apply map_set_values; [by apply Hv|done].
Qed.

(** The invariant of the frontier: as many queries as distinct peers asked,
    within the budget, and only verified records. *)
Record reading (now : Z) (budget : nat) (f : frontier) : Prop := {
  rd_once : NoDup (queried f);
  rd_count : length (queried f) = queries f;
  rd_budget : queries f ≤ budget;
  rd_verified : all_verified now (byId f)
}.

Lemma accept_hints_keeps hints f :
  queried (accept_hints hints f) = queried f ∧ queries (accept_hints hints f) = queries f ∧ byId (accept_hints hints f) = byId f.
Proof.
  revert f. induction hints as [|h hints IH]; intros f; cbn [accept_hints]; [done|].
  destruct (_ || _); [apply IH|]. destruct (IH (Frontier (pending f ++ [h]) (nodeId h :: queued f) (queried f) (byId f)
    (failures f) (foundAt f) (queries f) (responses f) (S (hintsAccepted f)))) as (-> & -> & ->). done.
Qed.

Lemma settle_keeps now budget answers f :
  reading now budget f → returns (settle now answers f) (λ f', reading now budget f' ∧ queries f' = queries f).
Proof.
  revert f. induction answers as [|[p [[records hints]|e] ] answers IH]; intros f Hf; cbn [settle]; [by apply returns_ret| |].
  - apply (returns_bind _ _ (λ f', reading now budget f' ∧ queries f' = queries f)).
    + cbn [settle_one]. eapply returns_bind; [apply accept_records_verified, Hf|]. intros [byId' found] Hv. apply returns_ret.
      match goal with |- context [accept_hints ?hs ?g] => destruct (accept_hints_keeps hs g) as (E1 & E2 & E3) end.
      split; [|by rewrite E2]. destruct Hf. split; [by rewrite E1|by rewrite E1, E2|by rewrite E2|by rewrite E3].
    + intros f1 [Hf1 E1]. intros s s' f' Hs. destruct (IH f1 Hf1 s s' f' Hs) as [? E]. split; [done|congruence].
  - apply (returns_bind _ _ (λ f', reading now budget f' ∧ queries f' = queries f)).
    + cbn [settle_one]. apply returns_ret. by destruct Hf.
    + intros f1 [Hf1 E1]. intros s s' f' Hs. destruct (IH f1 Hf1 s s' f' Hs) as [? E]. split; [done|congruence].
Qed.

Lemma take_batch_ok room seen queue batch seen' rest :
  take_batch room seen queue = (batch, seen', rest) → NoDup seen →
  NoDup seen' ∧ length seen' = length seen + length batch ∧ length batch ≤ room ∧ (batch = [] → room = 0 ∨ rest = []).
Proof.
  revert room seen batch seen' rest. induction queue as [|p queue IH]; intros room seen batch seen' rest; cbn [take_batch].
  - intros [= <- <- <-] Hs. split_and!; [done|cbn; lia|cbn; lia|by right].
  - destruct room as [|room]; [intros [= <- <- <-] Hs; split_and!; [done|cbn; lia|cbn; lia|by left]|].
    destruct (negb (nonempty_str (nodeId p)) || bool_decide (nodeId p ∈ seen)) eqn:Hskip; [apply IH|].
    destruct (take_batch room (nodeId p :: seen) queue) as [[b q] r] eqn:Ht. intros [= <- <- <-] Hs.
    apply orb_false_iff in Hskip as [_ Hn%bool_decide_eq_false]. destruct (IH _ _ _ _ _ Ht) as (Hd & Hl & Hr & _); [by constructor|].
    cbn in *. split_and!; [done|lia|lia|done].
Qed.

(** Why a read stops. *)
Definition stopped (budget : nat) (f : frontier) : Prop := pending f = [] ∨ budget ≤ queries f ∨ byId f ≠ [].

Lemma read_loop_ok fuel now namespace key conc budget f :
  reading now budget f → budget ≤ queries f + fuel → 0 < conc →
  returns (read_loop fuel now namespace key conc budget f) (λ f', reading now budget f' ∧ stopped budget f').
Proof.
  revert f. induction fuel as [|fuel IH]; intros f Hf Hfuel Hc; cbn [read_loop].
  { apply returns_ret. split; [done|]. right. left. lia. }
  destruct (bool_decide (pending f = []) || _ || _) eqn:Hstop.
  { apply returns_ret. split; [done|]. unfold stopped. rewrite !orb_true_iff, !bool_decide_eq_true in Hstop.
    destruct Hstop as [[?|?]|?%negb_true_iff%bool_decide_eq_false]; auto. }
  apply orb_false_iff in Hstop as [[_ Hb%bool_decide_eq_false]%orb_false_iff _].
  cbn [rankPending pending queried queries byId queued failures foundAt responses hintsAccepted].
  destruct (take_batch _ _ _) as [[batch queried'] rest] eqn:Ht. destruct Hf as [Ho Hn Hbud Hv].
  destruct (take_batch_ok _ _ _ _ _ _ Ht Ho) as (Ho' & Hlen & Hroom & Hempty).
  set (g := Frontier _ _ _ _ _ _ _ _ _). assert (Hg : reading now budget g) by (split; cbn; [done|lia|lia|done]).
  destruct (decide (batch = [])) as [->|Hne].
  - rewrite bool_decide_true by done. apply returns_ret. split; [done|]. left. destruct (Hempty eq_refl); [lia|done].
  - rewrite bool_decide_false by done. eapply returns_bind; [apply returns_any|]. intros answers _.
    eapply returns_bind; [by apply settle_keeps|]. intros f1 [Hf1 E1]. apply IH; [done| |done].
    rewrite E1. cbn. destruct batch; [done|cbn; lia].
Qed.

(** A read ends: it asks at most its budget of distinct peers, each once,
    returns only records verified now, and stops because it found some, ran
    out of peers or spent the budget. *)
Theorem read_bounded now namespace key fanout rounds s s' r f :
  manager_ok m → get now namespace key fanout rounds s = (s', Ok r) → r_frontier r = Some f →
  NoDup (queried f) ∧ length (queried f) = queries f ∧ (Z.of_nat (queries f) ≤ r_budget r)%Z ∧ (0 ≤ r_budget r)%Z ∧
  stopped (Z.to_nat (r_budget r)) f ∧
  ∀ record, record ∈ r_records r → verified_now now record.
Proof.
  intros Hm Hget Hf. revert Hget. unfold get.
  intros (s1 & nr & _ & Hg)%M_bind_Ok_inv. cbv zeta in Hg. apply M_bind_Ok_inv in Hg as (s2 & local & _ & Hg).
  destruct (bool_decide _); [by injection Hg as _ <-|].
  apply M_bind_Ok_inv in Hg as (s3 & lk & _ & Hg). apply M_bind_Ok_inv in Hg as (s4 & cur & _ & Hg).
  apply M_bind_Ok_inv in Hg as (s5 & walked & _ & Hg). apply M_bind_Ok_inv in Hg as (s6 & f' & Hl & Hg).
  apply M_bind_Ok_inv in Hg as (s7 & [] & _ & Hg). injection Hg as _ <-. cbn [r_frontier r_budget r_records] in *. injection Hf as ->.
  set (budget := Z.max _ _) in *.
  assert (Hbud : (0 ≤ budget)%Z) by (destruct Hm; unfold budget, normalizedFanout; lia).
  assert (Hstart : reading now (Z.to_nat budget) (start_frontier (walked ++ cur))) by (split; cbn; [constructor|done|lia|constructor]).
  assert (Hconc : 0 < Z.to_nat concurrency) by (unfold concurrency; lia).
  destruct (read_loop_ok (Z.to_nat budget) now namespace key (Z.to_nat concurrency) (Z.to_nat budget) _ Hstart
              ltac:(cbn; lia) Hconc _ _ _ Hl) as [[Ho Hn Hb Hv] Hstop].
  split_and!; [done|done|lia|done|done|]. intros record Hin. apply elem_of_sort_by in Hin.
  unfold all_verified in Hv. rewrite Forall_forall in Hv. by apply Hv.
Qed.

(** ** What a write guarantees *)

Lemma uniquePeers_from_ok seen peers :
  NoDup (nodeId <$> uniquePeers_from seen peers) ∧ ∀ p, p ∈ uniquePeers_from seen peers → nodeId p ∉ seen.
Proof.
  revert seen. induction peers as [|p peers IH]; intros seen; cbn [uniquePeers_from]; [split; [constructor|by intros p ?%elem_of_nil]|].
  destruct (nonempty_str (nodeId p)); cbn [andb]; [|apply IH]. case_bool_decide as Hp; cbn [negb]; [apply IH|].
  destruct (IH (nodeId p :: seen)) as [Hd Hn]. split.
  - cbn. constructor; [|done]. intros (q & E & Hq)%list_elem_of_fmap. apply (Hn q Hq). rewrite E. by left.
  - intros q [->|Hq]%elem_of_cons; [done|]. intros Hin. apply (Hn q Hq). by right.
Qed.

Lemma filter_ids (P : peer → bool) peers : NoDup (nodeId <$> peers) → NoDup (nodeId <$> List.filter P peers).
Proof.
  induction peers as [|p peers IH]; [done|]. cbn. intros [Hp Hd]%NoDup_cons. destruct (P p); [|by apply IH].
  cbn. constructor; [|by apply IH]. intros (q & E & Hq)%list_elem_of_fmap. apply Hp. rewrite E. apply list_elem_of_fmap_2.
  by apply list_elem_of_In, filter_In, proj1, list_elem_of_In in Hq.
Qed.

(** A write that starts has an attainable quorum and distinct other nodes to
    ask. *)
Record begun_ok (minAcks : jval) (b : begun) : Prop := {
  bo_acks : is_integer minAcks = Some (Z.of_nat (b_acks b));
  bo_quorum : 1 ≤ b_acks b ≤ b_factor b;
  bo_nodes : NoDup (self_id :: (nodeId <$> b_candidates b))
}.

Lemma begin_put_ok started looked record rf minAcks rounds timeoutMs :
  returns (begin_put started looked record rf minAcks rounds timeoutMs) (begun_ok minAcks).
Proof.
  intros s s' b. unfold begin_put.
  intros (s1 & v & _ & Hb)%M_bind_Ok_inv. apply M_bind_Ok_inv in Hb as (s2 & _ & _ & Hb).
  apply M_bind_Ok_inv in Hb as (s3 & factor & _ & Hb). apply M_bind_Ok_inv in Hb as (s4 & acks & Hacks & Hb).
  apply M_bind_Ok_inv in Hb as (s5 & timeout & _ & Hb). cbv zeta in Hb. apply M_bind_Ok_inv in Hb as (s6 & lookup & _ & Hb).
  apply M_bind_Ok_inv in Hb as (s7 & _ & _ & Hb). apply M_bind_Ok_inv in Hb as (s8 & local & _ & Hb).
  apply M_bind_Ok_inv in Hb as (s9 & found & Hfound & Hb). injection Hb as _ <-.
  injection Hacks as _ Hacks. pose proof (within_ok _ _ _ _ _ Hacks) as Hrange.
  assert (Hint : is_integer minAcks = Some acks).
  { unfold within in Hacks. destruct (is_integer minAcks) as [k|]; [|done]. destruct (_ || _); [done|]. by apply Ok_inj in Hacks as ->. }
  assert (Hd : NoDup (nodeId <$> found)).
  { unfold candidates in Hfound. apply M_bind_Ok_inv in Hfound as (s10 & peers & _ & [= _ <-]). apply uniquePeers_from_ok. }
  split; cbn [b_acks b_factor b_candidates].
  - rewrite Z2Nat.id by lia. done.
  - lia.
  - constructor.
    + intros (p & E & Hp)%list_elem_of_fmap. apply list_elem_of_In, filter_In in Hp as [_ Hp]. bool_hyps. congruence.
    + by apply filter_ids.
Qed.

Definition nodes_of (b : begun) : list string := holders self_id (b_local b) ++ (nodeId <$> b_candidates b).

Lemma placing_placed minAcks b events :
  begun_ok minAcks b → let s := run (b_factor b) (b_acks b) events (placing b) in
  placed (b_factor b) (b_acks b) (nodes_of b) s ∧ going s.
Proof.
  intros [_ Hq Hn]. destruct (start_placed (b_factor b) (b_acks b) self_id (b_local b) (nodeId <$> b_candidates b)); [lia|lia|done|].
  apply run_placed; [lia|done|done].
Qed.

Lemma placing_answered minAcks b events id :
  begun_ok minAcks b → id ∈ storedAt (run (b_factor b) (b_acks b) events (placing b)) → id = self_id ∨ Settled id Stored ∈ events.
Proof.
  intros _ [Hin|?]%run_stored; [|by right]. left. unfold placing, start in Hin. rewrite pump_stored in Hin. cbn in Hin.
  destruct (b_local b); [by apply list_elem_of_singleton in Hin|by apply elem_of_nil in Hin].
Qed.

(** A successful [put]: enough distinct nodes confirmed the record, no more
    than were wanted, and the others among them are remembered as its holders. *)
Definition replicated (h : schedule) (record minAcks : jval) (p : placements) (r : put_result) : Prop :=
  (∃ n, is_integer minAcks = Some n ∧ (1 ≤ n ≤ Z.of_nat (length (w_storedAt r)))%Z) ∧
  NoDup (w_storedAt r) ∧ length (w_storedAt r) ≤ w_replicationFactor r ∧
  w_acknowledgements r = length (w_storedAt r) ∧
  (∀ id, id ∈ w_storedAt r → id = self_id ∨ Settled id Stored ∈ events h) ∧
  map_get (to_string (oprop record "recordId")) p =
    Some (sort_by str_leb (List.filter (λ id, negb (bool_decide (id = self_id))) (w_storedAt r))).

Lemma on_rest_inv {A} (c : M (store * W) A) st st' a : on_rest c st = (st', Ok a) → ∃ s', c st.2 = (s', Ok a) ∧ st' = (st.1, s').
Proof. unfold on_rest. destruct (c st.2) as [s' a']. intros [= <- ->]. eauto. Qed.

Lemma put_replicated h record rf minAcks rounds timeoutMs st st' r :
  put h record rf minAcks rounds timeoutMs st = (st', Ok (Some r)) → replicated h record minAcks st'.1 r.
Proof.
  unfold put. intros (st1 & b & (s1 & Hb%begin_put_ok & ->)%on_rest_inv & Hp)%M_bind_Ok_inv. cbv zeta in Hp.
  pose proof (placing_placed _ _ (events h) Hb) as [[Ho _ Hc Hs _ _ _] _].
  pose proof (λ id, placing_answered _ _ (events h) id Hb) as Hans.
  set (s := run _ _ _ _) in *. destruct (negb (finished s)); [done|].
  apply M_bind_Ok_inv in Hp as (st2 & r' & Hcon & [= <- <-]). unfold on_placements, conclude in Hcon.
  case_bool_decide as Hq; [done|]. injection Hcon as <- <-. destruct Hb as [Ha Hf _].
  split_and!; cbn [w_storedAt w_replicationFactor w_acknowledgements fst].
  - exists (Z.of_nat (b_acks b)). split; [done|lia].
  - by apply NoDup_app in Ho as [Ho _].
  - lia.
  - done.
  - done.
  - by rewrite map_get_set, decide_True.
Qed.

(** C22: a write that succeeds is replicated: at least [minAcks] and at most
    [replicationFactor] distinct nodes hold the record, each of them this node
    or one that answered so, and its remote holders are recorded. *)
Theorem quorum_write h record rf minAcks rounds timeoutMs st st' r :
  put h record rf minAcks rounds timeoutMs st = (st', Ok (Some r)) → replicated h record minAcks st'.1 r.
Proof. apply put_replicated. Qed.

(** C30: while a write runs it has a request in flight and at most
    [replicationFactor] nodes that hold or may come to hold the record; however
    the answers and timers interleave, at most three events per candidate and
    one more can happen. *)
Theorem write_ends started looked record rf minAcks rounds timeoutMs st st' b events :
  begin_put started looked record rf minAcks rounds timeoutMs st = (st', Ok b) →
  let s := run (b_factor b) (b_acks b) events (placing b) in
  length (waiting s ++ storedAt s) ≤ b_factor b ∧ NoDup (storedAt s ++ waiting s ++ unasked s) ∧
  (finished s = false → ∃ p, enabled (Settled p Stored) s ∨ enabled (Finally p) s) ∧
  (happens (b_factor b) (b_acks b) events (placing b) → length events ≤ 3 * length (b_candidates b) + 1).
Proof.
  intros Hb%begin_put_ok s. destruct (placing_placed _ _ events Hb) as [[Ho _ _ Hs _ _ _] Hgo]. fold s in Ho, Hs, Hgo.
  split_and!; [by rewrite length_app|done| |].
  - intros [Hw|Hw]%Hgo.
    + destruct (waiting s) as [|p w] eqn:E; [done|]. exists p. left. cbn. rewrite E. by left.
    + destruct (settling s) as [|p w] eqn:E; [done|]. exists p. right. cbn. rewrite E. by left.
  - intros Hh%happens_bounded. etrans; [done|]. etrans; [apply start_outstanding|]. by rewrite length_fmap.
Qed.

(** A write refused for want of a quorum, its deadline not reached, has asked
    every candidate, and each holds the record or is reported as failed. *)
Theorem quorum_refused started looked record rf minAcks rounds timeoutMs st st' b events now p :
  begin_put started looked record rf minAcks rounds timeoutMs st = (st', Ok b) →
  let s := run (b_factor b) (b_acks b) events (placing b) in
  finished s = true → (conclude now record b s p).2 = Throw (quorumError (acknowledgements s) (b_acks b)) →
  unasked s = [] ∧ waiting s = [] ∧ acknowledgements s < b_acks b ∧
  ∀ peer, peer ∈ b_candidates b → nodeId peer ∈ storedAt s ∨ ∃ reason, (nodeId peer, reason) ∈ writeFailures s.
Proof.
  intros Hb%begin_put_ok s Hfin Hcon. destruct (placing_placed _ _ events Hb) as [[_ _ _ _ Ha _ Hr] _]. fold s in Ha, Hr.
  unfold conclude in Hcon. case_bool_decide as Hlt; [|done]. cbn in Hcon. injection Hcon as Hcon.
  destruct (placementTimedOut s) eqn:Hto; [by cbn in Hcon|].
  destruct (Hr Hfin) as [?|[?|[Hw Hu] ] ]; [lia|done|]. split_and!; [done|done|done|].
  intros peer Hp. destruct (Ha (nodeId peer)) as [Hin|?]; [|rewrite Hw, Hu, app_nil_r in Hin; by left|by right].
  apply elem_of_app. right. by apply list_elem_of_fmap_2.
Qed.

Lemma repair_records_replicated hs records rf minAcks rounds st st' rs :
  repair_records hs records rf minAcks rounds st = (st', Ok (Some rs)) →
  length rs = length records ∧ length records ≤ length hs ∧
  Forall (λ hr, ∃ record p, record ∈ records ∧ replicated hr.1 record minAcks p hr.2) (zip hs rs).
Proof.
  revert hs st rs. induction records as [|record records IH]; intros [|h hs] st rs; cbn [repair_records]; try (intros [= _ <-]).
  1-2: split_and!; [done|cbn; lia|constructor].
  - intros (st1 & [r|] & Hput & Hr)%M_bind_Ok_inv; [|done].
    apply M_bind_Ok_inv in Hr as (st2 & [rs'|] & Hrs & Hr); [|done]. injection Hr as -> <-. destruct (IH _ _ _ Hrs) as (Hl & Hh & Hall).
    split_and!; [cbn; lia|cbn; lia|]. cbn. constructor.
    + exists record, st1.1. split; [by left|]. by eapply put_replicated.
    + eapply Forall_impl; [done|]. intros [h' r'] (rec & p & Hin & Hrep). exists rec, p. split; [by right|done].
Qed.

(** A repair that ends has written every record it resolved, in order, each
    with its quorum. *)
Theorem repair_replicates now hs namespace key rf minAcks rounds st st' r :
  repair now hs namespace key rf minAcks rounds st = (st', Ok (Some r)) →
  length (p_repairs r) = p_records r ∧
  Forall (λ hr, ∃ record p, replicated hr.1 record (JNum (JInt minAcks)) p hr.2) (zip hs (p_repairs r)).
Proof.
  unfold repair. intros (st1 & resolved & _ & Hr)%M_bind_Ok_inv. apply M_bind_Ok_inv in Hr as (st2 & holders & _ & Hr).
  apply M_bind_Ok_inv in Hr as (st3 & obs & _ & Hr). apply M_bind_Ok_inv in Hr as (st4 & [rs|] & Hrs & Hr); [|done].
  injection Hr as _ <-. apply repair_records_replicated in Hrs as (Hl & _ & Hall). split; [done|].
  eapply Forall_impl; [done|]. intros [h' r'] (rec & p & _ & Hrep). by exists rec, p.
Qed.

End replication.
(** ** Witnesses *)

Definition toy_peer (id : string) : peer := Peer id [JStr "quic://host:1"] JNull.

#[local] Existing Instance toy_coercions.

#[local] Instance toy_numbers : Numbers := λ _, JNaN.

(** Three nodes are known; the first does not answer, the second names a fourth,
    the others hold the record. *)
#[local] Instance toy_overlay : Overlay unit := {
  self_id := "self";
  alpha := 2;
  closest _ _ := mret (toy_peer <$> ["n1"; "n2"; "n3"; "n1"]);
  known _ := mret None;
  walk := None;
  findValue p _ _ :=
    if bool_decide (nodeId p = "n1") then throw (error "unreachable")
    else if bool_decide (nodeId p = "n2") then mret ([], [toy_peer "n4"; toy_peer "n3"])
    else mret ([JObj (toy_record 1)], [])
}.

Definition toy_manager : manager := Manager 3 2 30000 750.
Definition toy_schedule : schedule :=
  Schedule toy_clock toy_clock toy_clock
    [Settled "n2" (Failed "unreachable"); Finally "n2"; Settled "n1" Stored; Finally "n1"; GraceFires].

#[local] Notation toy_get :=
  (get (H := Toy.host) toy_manager toy_clock (JStr "ns") (JStr "k") JUndef JUndef (new_store, tt)).
#[local] Notation toy_put :=
  (put (H := Toy.host) toy_manager toy_schedule (JObj (toy_record 1)) (JNum (JInt 3)) (JNum (JInt 2)) JUndef
    (JNum (JInt 30000)) ([], (new_store, tt))).

Lemma toy_manager_ok : manager_ok toy_manager.
Proof. split; cbn; lia. Qed.

Lemma read_bounded_witness :
  ∃ r f, toy_get.2 = Ok r ∧ r_frontier r = Some f ∧ queries f ≤ 15 ∧ NoDup (queried f) ∧
         ∀ record, record ∈ r_records r → verified_now (H := Toy.host) toy_clock record.
Proof.
  assert (E : match toy_get with (_, Ok r) => match r_frontier r with Some _ => r_budget r | None => 0%Z end | _ => 0%Z end = 15%Z)
    by (vm_compute; reflexivity).
  destruct toy_get as [s' [r|e] ] eqn:Hget; [|discriminate E]. destruct (r_frontier r) as [f|] eqn:Hf; [|discriminate E].
  exists r, f. destruct (read_bounded (H := Toy.host) toy_manager toy_clock (JStr "ns") (JStr "k") JUndef JUndef (new_store, tt)
    s' r f toy_manager_ok Hget Hf) as (Ho & _ & Hq & _ & _ & Hv).
  rewrite E in Hq. split_and!; [reflexivity|exact Hf|lia|exact Ho|exact Hv].
Defined.

Lemma quorum_write_witness :
  ∃ r, toy_put.2 = Ok (Some r) ∧ w_storedAt r = ["self"; "n1"] ∧
    replicated toy_schedule (JObj (toy_record 1)) (JNum (JInt 2)) toy_put.1.1 r.
Proof.
  assert (E : match toy_put with (_, Ok (Some r)) => w_storedAt r | _ => [] end = ["self"; "n1"])
    by (vm_compute; reflexivity).
  destruct toy_put as [st' [ [r|]|e] ] eqn:Hput; [|discriminate E..].
  exists r. split; [reflexivity|]. split; [exact E|].
  exact (quorum_write (H := Toy.host) toy_manager toy_schedule (JObj (toy_record 1)) (JNum (JInt 3)) (JNum (JInt 2)) JUndef
           (JNum (JInt 30000)) ([], (new_store, tt)) st' r Hput).
Defined.

#[local] Notation toy_begin :=
  (begin_put (H := Toy.host) toy_manager toy_clock toy_clock (JObj (toy_record 1)) (JNum (JInt 3)) (JNum (JInt 2)) JUndef
    (JNum (JInt 30000)) (new_store, tt)).

Lemma write_ends_witness :
  ∃ b, toy_begin.2 = Ok b ∧ length (b_candidates b) = 3 ∧
    length (waiting (run (b_factor b) (b_acks b) [] (placing b)) ++ storedAt (run (b_factor b) (b_acks b) [] (placing b))) ≤ 3 ∧
    ∃ p, enabled (Settled p Stored) (run (b_factor b) (b_acks b) [] (placing b)) ∨
         enabled (Finally p) (run (b_factor b) (b_acks b) [] (placing b)).
Proof.
  assert (E : match toy_begin with
              | (_, Ok b) => (length (b_candidates b), b_factor b, finished (run (b_factor b) (b_acks b) [] (placing b)))
              | _ => (0, 0, true) end = (3, 3, false)) by (vm_compute; reflexivity).
  destruct toy_begin as [st' [b|e] ] eqn:Hb; [|discriminate E]. injection E as Hc Hf Hfin.
  exists b. destruct (write_ends (H := Toy.host) toy_manager toy_clock toy_clock (JObj (toy_record 1)) (JNum (JInt 3))
    (JNum (JInt 2)) JUndef (JNum (JInt 30000)) (new_store, tt) st' b [] Hb) as (Hl & _ & Hp & _).
  split_and!; [reflexivity|exact Hc| |exact (Hp Hfin)]. rewrite Hf in Hl. exact Hl.
Defined.

End DhtReplication.
