(* ===== verification/PeerRecords.v ===== *)
(** * Peer records and the store of discovery

    Models network/discovery/peer-discovery.js up to the walks: signed peer
    records with the memo of verified signatures, and the records [PeerDiscovery]
    keeps beside its routing table ([Kademlia.Routing]).  Records are untrusted
    values; inside [verifyPeerRecord] a refusal and a caught exception have the
    same effect, so both are thrown.  The memo belongs to the module; it is
    kept with the store.  Callbacks return. *)
From S2P Require Import Prelude JSMap JSValue Dates Host Protocol Kademlia DhtRecords.
Import Canonical Keys Ids Routing.

Module PeerRecords.

Definition PEER_RECORD_PROTOCOL : string := "truyn-peer-record-v1".
Definition VERIFIED_PEER_SIGNATURE_LIMIT : Z := 8192.
Definition RECORD_TRIM_SLACK : Z := 32.

#[local] Notation memo := (jsmap string bool).

Section records.
Context `{Host} `{Coercions}.

Definition assertIdentity (identity : jval) : result unit :=
  _ ← throw_if (negb (truthy (oprop identity "nodeId")) ||
                negb (truthy (oprop identity "publicKeyPem")) ||
                negb (truthy (oprop identity "privateKeyPem")))
        (error "peer identity is required");
  nodeId ← nodeIdFromPublicKey (oprop identity "publicKeyPem");
  throw_if (negb (eq_str (oprop identity "nodeId") nodeId)) (error "peer identity mismatch").

(** [[...new Set(l.filter(...).map((item) => item.trim()))].sort()] *)
Definition normalized_texts (l : list jval) : list string :=
  sort_strings (uniq (List.filter nonempty_str (omap (λ v, match v with JStr s => Some (trim s) | _ => None end) l))).

Definition array_or (v : jval) (d : list jval) : result (list jval) :=
  match v with JArr l => Ok l | _ => if truthy v then Throw (error "filter is not a function") else Ok d end.

Definition peer_body (nodeId : string) (endpoints capabilities : list string) (nat_ instanceId sequence issuedAt : jval)
    (expiresAt : string) : list (string * jval) :=
  [("protocol", JStr PEER_RECORD_PROTOCOL); ("nodeId", JStr nodeId); ("dhtId", JStr (dhtId nodeId));
   ("endpoints", JArr (map JStr endpoints)); ("capabilities", JArr (map JStr capabilities)); ("nat", nat_)] ++
  (if is_string instanceId && truthy instanceId then [("instanceId", instanceId)] else []) ++
  [("sequence", sequence); ("issuedAt", issuedAt); ("expiresAt", JStr expiresAt)].

Definition record_id (body : jval) : result string :=
  text ← canonicalize body; Ok ("truyn:peer:" +:+ sha256_hex text).

(** [ttlMs] is an integer; [now] is the clock behind the default [issuedAt]. *)
Definition createPeerRecord (identity endpoints sequence : jval) (ttlMs : Z) (capabilities nat_ instanceId issuedAt : jval)
    (now : Z) : result (list (string * jval)) :=
  let issuedAt := with_default issuedAt (JStr (toISOString now)) in
  _ ← assertIdentity identity;
  endpoints ← array_or endpoints [];
  let normalizedEndpoints := normalized_texts endpoints in
  _ ← throw_if (bool_decide (normalizedEndpoints = [])) (error "at least one peer endpoint is required");
  capabilities ← match with_default capabilities (JArr []) with
                 | JArr l => Ok l | _ => Throw (error "capabilities.filter is not a function") end;
  expiresAt ← date_toISOString ((λ t, t + ttlMs)%Z <$> Date_parse (to_string issuedAt));
  let body := peer_body (string_or_empty (oprop identity "nodeId")) normalizedEndpoints (normalized_texts capabilities)
                (with_default nat_ JNull) instanceId (with_default sequence (JNum (JInt 1))) issuedAt expiresAt in
  recordId ← record_id (JObj body);
  let signed := ("recordId", JStr recordId) :: body in
  signature ← signValue (JObj signed) (string_or_empty (oprop identity "privateKeyPem"));
  Ok (signed ++ [("publicKey", oprop identity "publicKeyPem"); ("signature", JStr signature)]).

(** ** Verification *)

(** The checks before the signature. *)
Definition check_peer (record : jval) (now : Z) (allowExpired : bool) : result unit :=
  _ ← throw_if (negb (truthy (oprop record "recordId")) ||
                negb (eq_str (oprop record "protocol") PEER_RECORD_PROTOCOL) || negb (truthy (oprop record "nodeId")) ||
                negb (truthy (oprop record "publicKey")) || negb (truthy (oprop record "signature")))
        (error "peer_record_missing");
  nodeId ← nodeIdFromPublicKey (oprop record "publicKey");
  _ ← throw_if (negb (eq_str (oprop record "nodeId") nodeId)) (error "peer_record_key_mismatch");
  _ ← throw_if (negb (eq_str (oprop record "dhtId") (dhtId (to_string (oprop record "nodeId"))))) (error "peer_record_dht_id");
  _ ← throw_if (match oprop record "endpoints" with JArr (_ :: _) => false | _ => true end) (error "peer_record_endpoints");
  _ ← throw_if (match Date_parse (to_string (oprop record "expiresAt")) with
                | Some expires => negb allowExpired && bool_decide (expires ≤ now)%Z
                | None => true
                end) (error "peer_record_expired");
  expectedId ← record_id (Records.body_of record);
  throw_if (negb (eq_str (oprop record "recordId") expectedId)) (error "peer_record_id").

(** The memo [verifiedPeerSignatures] in front of [verifyValue]. *)
Definition check_signature (record : jval) : M memo unit := λ verified,
  let signatureKey := Records.signature_key record in
  if map_has signatureKey verified then (verified, Ok tt)
  else match verifyValue (Records.signed_of record) (oprop record "signature") (oprop record "publicKey") with
       | Throw e => (verified, Throw e)
       | Ok false => (verified, Throw (error "peer_record_signature"))
       | Ok true => (Memo.remember VERIFIED_PEER_SIGNATURE_LIMIT verified signatureKey true, Ok tt)
       end.

Definition verifyPeerRecord (now : Z) (allowExpired : bool) (record : jval) (verified : memo) : memo * verdict :=
  let '(verified, r) := (_ ← lift_result (check_peer record now allowExpired); check_signature record) verified in
  (verified, match r with Ok _ => Accepted | Throw e => Rejected (e_message e) end).

(** [Date.parse(record?.expiresAt)] later than [now], or not a date. *)
Definition leaseLive (record : jval) (now : Z) : bool :=
  match Date_parse (to_string (oprop record "expiresAt")) with Some expires => bool_decide (now < expires)%Z | None => true end.

Definition sameEndpoints (a b : jval) : bool :=
  match a, b with
  | JArr a, JArr b => bool_decide (length a = length b) && forallb (λ '(x, y), strict_eq x y) (zip a b)
  | _, _ => false
  end.

(** ** The store *)

Record accepted_record := AcceptedRecord { a_nodeId : string; a_previous : option jval; a_record : jval }.

(** [PeerDiscovery], with the calls of [onRecordAccepted], of [onChange] and of
    [rpc.forget] it has made. *)
Record discovery := Discovery {
  self : string; d_k : Z; routing : table; verified : memo; records : jsmap string jval; maxCachedRecords : Z;
  recordEvictions : Z; ingestChanges : Z; onRecordAccepted : list accepted_record; onChange : nat; forgotten : list string
}.

Definition new_discovery (identity k maxCachedRecords : jval) : result discovery :=
  _ ← assertIdentity identity;
  max ← match is_integer (with_default maxCachedRecords (JNum (JInt 512))) with
        | Some n => if bool_decide (n < 0)%Z then Throw (error "maxCachedRecords must be a non-negative integer") else Ok n
        | None => Throw (error "maxCachedRecords must be a non-negative integer")
        end;
  let k := with_default k (JNum (JInt 20)) in
  let self := string_or_empty (oprop identity "nodeId") in
  routing ← new_table self k;
  Ok (Discovery self (default 0%Z (is_integer k)) routing [] [] max 0 0 [] 0 []).

Definition with_routing (t : table) (d : discovery) : discovery :=
  Discovery (self d) (d_k d) t (verified d) (records d) (maxCachedRecords d) (recordEvictions d) (ingestChanges d)
    (onRecordAccepted d) (onChange d) (forgotten d).
Definition with_verified (m : memo) (d : discovery) : discovery :=
  Discovery (self d) (d_k d) (routing d) m (records d) (maxCachedRecords d) (recordEvictions d) (ingestChanges d)
    (onRecordAccepted d) (onChange d) (forgotten d).
Definition with_records (rs : jsmap string jval) (d : discovery) : discovery :=
  Discovery (self d) (d_k d) (routing d) (verified d) rs (maxCachedRecords d) (recordEvictions d) (ingestChanges d)
    (onRecordAccepted d) (onChange d) (forgotten d).
Definition with_evictions (n : Z) (d : discovery) : discovery :=
  Discovery (self d) (d_k d) (routing d) (verified d) (records d) (maxCachedRecords d) n (ingestChanges d)
    (onRecordAccepted d) (onChange d) (forgotten d).
Definition count_change (d : discovery) : discovery :=
  Discovery (self d) (d_k d) (routing d) (verified d) (records d) (maxCachedRecords d) (recordEvictions d) (ingestChanges d + 1)
    (onRecordAccepted d) (onChange d) (forgotten d).
Definition notified (a : list accepted_record) (d : discovery) : discovery :=
  Discovery (self d) (d_k d) (routing d) (verified d) (records d) (maxCachedRecords d) (recordEvictions d) (ingestChanges d)
    (onRecordAccepted d ++ a) (S (onChange d)) (forgotten d).
Definition forget (n : string) (d : discovery) : discovery :=
  Discovery (self d) (d_k d) (routing d) (verified d) (records d) (maxCachedRecords d) (recordEvictions d) (ingestChanges d)
    (onRecordAccepted d) (onChange d) (forgotten d ++ [n]).

(** A computation on the routing table, a verification of a record. *)
Definition in_routing {A} (m : M table A) : M discovery A := λ d, let '(t, r) := m (routing d) in (with_routing t d, r).
Definition verify (now : Z) (allowExpired : bool) (record : jval) : M discovery verdict := λ d,
  let '(m, v) := verifyPeerRecord now allowExpired record (verified d) in (with_verified m d, Ok v).

(** The loop of [#trimRecordCache] over the keys in insertion order. *)
Fixpoint trim_loop (limit : Z) (t : table) (keys : list string) (rs : jsmap string jval) (evicted : Z)
    : jsmap string jval * Z :=
  match keys with
  | [] => (rs, evicted)
  | n :: keys =>
      if bool_decide (map_size rs ≤ limit)%Z then (rs, evicted)
      else if has n t then trim_loop limit t keys rs evicted
      else trim_loop limit t keys (map_delete n rs) (evicted + 1)
  end.

Definition trimRecordCache (d : discovery) : discovery :=
  let limit := (size (routing d) + maxCachedRecords d)%Z in
  if bool_decide (map_size (records d) ≤ limit + RECORD_TRIM_SLACK)%Z then d
  else let '(rs, n) := trim_loop limit (routing d) (map_keys (records d)) (records d) (recordEvictions d) in
       with_evictions n (with_records rs d).

Inductive ingested := Refused (reason : string) | Taken (nodeId : string) (updated unchanged novel : bool).

Definition is_taken (i : ingested) : bool := match i with Taken _ _ _ _ => true | Refused _ => false end.
Definition is_novel (i : ingested) : bool := match i with Taken _ _ _ novel => novel | Refused _ => false end.

(** The contact of a record, last seen at [seen]. *)
Definition contact (record : jval) (seen : string) : peer :=
  Peer (to_string (oprop record "nodeId")) seen
    [("endpoints", oprop record "endpoints"); ("publicKey", oprop record "publicKey")].

Definition same_record (existing : option jval) (record : jval) : bool :=
  match existing with Some e => strict_eq (oprop e "recordId") (oprop record "recordId") | None => false end.

(** [ingest] after its refusals. *)
Definition take (clock : Z) (notify : bool) (existing : option jval) (record : jval) : M discovery ingested :=
  let n := to_string (oprop record "nodeId") in
  let changed := negb (same_record existing record) in
  let novel := match existing with
               | None => true
               | Some e => negb (strict_eq (oprop e "instanceId") (oprop record "instanceId")) ||
                           negb (sameEndpoints (oprop e "endpoints") (oprop record "endpoints"))
               end in
  _ ← modify (λ d, if changed then count_change d else d);
  _ ← modify (λ d, with_records (map_set n (if changed then record else default record existing) (map_delete n (records d))) d);
  _ ← in_routing (upsert (toISOString clock) (Some (contact record (toISOString clock))));
  _ ← modify trimRecordCache;
  _ ← modify (λ d, if notify && changed then notified [AcceptedRecord n existing record] d else d);
  mret (Taken n (bool_decide (is_Some existing) && changed) (negb changed) novel).

(** The refusal of a verified record against the stored one, if the two can be
    compared. *)
Definition check_existing (existing : option jval) (record : jval) : result (option string) :=
  is_older ← Records.older existing record;
  Ok (match existing with
      | None => None
      | Some e =>
          if (is_older : bool) then Some "peer_record_older_sequence"
          else if strict_eq (oprop e "sequence") (oprop record "sequence") && negb (same_record existing record)
          then Some "peer_record_equivocation" else None
      end).

(** [now] is the clock of the verification, [clock] the one of [lastSeenAt]. *)
Definition ingest (now clock : Z) (allowExpired notify : bool) (record : jval) : M discovery ingested :=
  v ← verify now allowExpired record;
  match v with
  | Rejected reason => mret (Refused reason)
  | Accepted =>
      d ← get_state;
      let existing := map_get (to_string (oprop record "nodeId")) (records d) in
      refusal ← lift_result (check_existing existing record);
      match refusal with
      | Some reason => mret (Refused reason)
      | None => take clock notify existing record
      end
  end.

Definition routingRecords (d : discovery) : list jval :=
  omap (λ '(n, r), if negb (bool_decide (n = self d)) && has n (routing d) then Some r else None) (records d).

Definition get (n : string) (now : Z) (d : discovery) : option jval :=
  match map_get n (records d) with Some r => if leaseLive r now then Some r else None | None => None end.

Definition hint (n : string) (d : discovery) : option jval := map_get n (records d).

Fixpoint bootstrap (now clock : Z) (l : list jval) : M discovery (list ingested) :=
  match l with
  | [] => mret []
  | r :: l => i ← ingest now clock false true r; is_ ← bootstrap now clock l; mret (i :: is_)
  end.

Definition snapshot (now : Z) (d : discovery) : list jval := List.filter (λ r, leaseLive r now) (map_values (records d)).

Definition durableSnapshot (d : discovery) : list jval := map_values (records d).

(** One record of [restore]; an expired one comes back as a contact. *)
Definition restore_one (now clock : Z) (record : jval) : M discovery bool :=
  i ← ingest now clock false false record;
  if is_taken i then mret true
  else
    stale ← verify clock true record;
    current ← verify clock false record;
    match stale, current with
    | Accepted, Rejected reason =>
        if bool_decide (reason = "peer_record_expired") then
          let n := to_string (oprop record "nodeId") in
          _ ← modify (λ d, with_records (map_set n record (records d)) d);
          _ ← in_routing (upsert (toISOString clock)
                 (Some (contact record (to_string (js_or (oprop record "issuedAt") (JStr (toISOString 0)))))));
          mret false
        else mret false
    | _, _ => mret false
    end.

Fixpoint restore_all (now clock : Z) (l : list jval) : M discovery nat :=
  match l with
  | [] => mret 0
  | r :: l => ok ← restore_one now clock r; n ← restore_all now clock l; mret (if ok : bool then S n else n)
  end.

Definition restore (now clock : Z) (l : list jval) : M discovery nat :=
  n ← restore_all now clock l; _ ← modify trimRecordCache; mret n.

(** The loop of [sweep] over the entries it started with. *)
Fixpoint sweep_entries (now : Z) (es : list (string * jval)) : M discovery nat :=
  match es with
  | [] => mret 0
  | (n, r) :: es =>
      if leaseLive r now then sweep_entries now es
      else
        _ ← modify (λ d, with_records (map_delete n (records d)) d);
        _ ← in_routing (remove n);
        _ ← modify (forget n);
        removed ← sweep_entries now es;
        mret (S removed)
  end.

Definition sweep (now : Z) (notify : bool) : M discovery nat :=
  d ← get_state;
  removed ← sweep_entries now (records d);
  _ ← modify (λ d, if negb (bool_decide (removed = 0)) && notify then notified [] d else d);
  mret removed.

(** ** What an accepted record guarantees *)

(** The record names its node and its content truthfully. *)
Definition well_named (r : jval) : Prop :=
  ∃ id text, nodeIdFromPublicKey (oprop r "publicKey") = Ok id ∧ oprop r "nodeId" = JStr id ∧
    canonicalize (Records.body_of r) = Ok text ∧ oprop r "recordId" = JStr ("truyn:peer:" +:+ sha256_hex text).

(** Its signature was checked, or that of a record with the same identifier, key
    and signature. *)
Definition vouched (r : jval) : Prop :=
  ∃ q, well_named q ∧ Records.signature_key q = Records.signature_key r ∧
    verifyValue (Records.signed_of q) (oprop q "signature") (oprop q "publicKey") = Ok true.

Definition memo_ok (m : memo) : Prop :=
  map_wf m ∧ ∀ key, map_has key m = true → ∃ q, well_named q ∧ Records.signature_key q = key ∧
    verifyValue (Records.signed_of q) (oprop q "signature") (oprop q "publicKey") = Ok true.

Lemma check_peer_named r now ae : check_peer r now ae = Ok tt → well_named r.
Proof.
  unfold check_peer. intros Hr.
  apply bind_Ok_inv in Hr as ([] & _ & Hr). apply bind_Ok_inv in Hr as (nodeId & Hn & Hr).
  apply bind_Ok_inv in Hr as ([] & Hp & Hr). apply bind_Ok_inv in Hr as ([] & _ & Hr).
  apply bind_Ok_inv in Hr as ([] & _ & Hr). apply bind_Ok_inv in Hr as ([] & _ & Hr).
  apply bind_Ok_inv in Hr as (id & Hid & Hr). rewrite throw_if_Ok, negb_false_iff in Hp, Hr. apply eq_str_true in Hp, Hr.
  unfold record_id in Hid. apply bind_Ok_inv in Hid as (text & Ht & Heq%Ok_inj). subst id.
  exists nodeId, text. by split_and!.
Qed.

Lemma remember_ok m r :
  memo_ok m → well_named r →
  verifyValue (Records.signed_of r) (oprop r "signature") (oprop r "publicKey") = Ok true →
  memo_ok (Memo.remember VERIFIED_PEER_SIGNATURE_LIMIT m (Records.signature_key r) true).
Proof.
  intros [Hw Hm] Hr Hv. split; [by apply Memo.remember_wf|]. intros key. unfold Memo.remember.
  rewrite map_has_true, map_keys_set. set (m' := if bool_decide _ then _ else m).
  assert (Hsub : ∀ k, k ∈ map_keys m' → k ∈ map_keys m).
  { subst m'. case_bool_decide; [|done]. destruct m as [|e m]; [done|]. intros k Hk. by right. }
  intros Hin. assert (key ∈ map_keys m ∨ key = Records.signature_key r) as [Hk| ->].
  { case_decide; [auto|]. apply elem_of_app in Hin as [?|?%list_elem_of_singleton]; auto. }
  - by apply Hm, map_has_true.
  - eauto.
Qed.

Lemma verify_ok now ae r m :
  memo_ok m → memo_ok (verifyPeerRecord now ae r m).1 ∧
  ((verifyPeerRecord now ae r m).2 = Accepted → well_named r ∧ vouched r ∧ check_peer r now ae = Ok tt).
Proof.
  intros Hm. unfold verifyPeerRecord, check_signature, lift_result, mbind, M_bind.
  destruct (check_peer r now ae) as [ []|e] eqn:Hc; [|done]. pose proof (check_peer_named r now ae Hc) as Hn.
  destruct (map_has (Records.signature_key r) m) eqn:Hk.
  - split; [done|]. intros _. destruct Hm as [_ Hm]. destruct (Hm _ Hk) as (q & ? & ? & ?). split_and!; [done| |done]. exists q. by split_and!.
  - destruct (verifyValue _ _ _) as [ []|e] eqn:Hv; [|done..]. split; [by apply remember_ok|]. intros _.
    split_and!; [done| |done]. exists r. by split_and!.
Qed.

(** ** The invariant of the store *)

Record store_ok (d : discovery) : Prop := {
  so_wf : map_wf (records d);
  so_records : ∀ n r, map_get n (records d) = Some r → oprop r "nodeId" = JStr n ∧ well_named r ∧ vouched r;
  so_memo : memo_ok (verified d);
  so_routing : Routing.wf (routing d) ∧ localNodeId (routing d) = self d;
  so_max : (0 ≤ maxCachedRecords d)%Z
}.

Definition bounded (d : discovery) : Prop :=
  (map_size (records d) ≤ size (routing d) + maxCachedRecords d + RECORD_TRIM_SLACK)%Z.

Lemma size_in_routing (rs : jsmap string jval) t :
  map_wf rs → (∀ n, n ∈ map_keys rs → has n t = true) → (map_size rs ≤ size t)%Z.
Proof.
  intros Hwf Hin. unfold map_size, size. apply inj_le.
  assert (E : length rs = base.size (list_to_set (C := gset string) (map_keys rs))).
  { rewrite size_list_to_set by done. unfold map_keys. by rewrite length_fmap. }
  rewrite E. apply subseteq_size. intros n Hn%elem_of_list_to_set. specialize (Hin n Hn). unfold has in Hin.
  by apply bool_decide_eq_true in Hin.
Qed.

Lemma trim_loop_ok limit t keys rs ev :
  map_wf rs →
  let rs' := (trim_loop limit t keys rs ev).1 in
  map_wf rs' ∧ (∀ n r, map_get n rs' = Some r → map_get n rs = Some r) ∧
  (∀ n, has n t = true → map_get n rs' = map_get n rs) ∧
  ((map_size rs' ≤ limit)%Z ∨ ∀ n, n ∈ keys → n ∈ map_keys rs' → has n t = true).
Proof.
  revert rs ev. induction keys as [|n keys IH]; intros rs ev Hwf; cbn [trim_loop].
  { split_and!; try done. right. by intros n ?%elem_of_nil. }
  case_bool_decide; [split_and!; try done; by left|]. destruct (has n t) eqn:Hn.
  - destruct (IH rs ev Hwf) as (T1 & T2 & T3 & T4). split_and!; [done..|]. destruct T4 as [?|T4]; [by left|right].
    intros m [->|Hm]%elem_of_cons ?; [done|by apply T4].
  - destruct (IH (map_delete n rs) (ev + 1)%Z) as (T1 & T2 & T3 & T4); [by apply map_wf_delete|].
    assert (Hnot : n ∉ map_keys (trim_loop limit t keys (map_delete n rs) (ev + 1)).1).
    { apply map_get_None. destruct (map_get n _) as [r|] eqn:E; [|done]. apply T2 in E. rewrite map_get_delete in E.
      by rewrite decide_True in E. }
    split_and!; [done| | |].
    + intros m r Hm%T2. rewrite map_get_delete in Hm. by case_decide.
    + intros m Hm. rewrite T3, map_get_delete by done. rewrite decide_False; [done|]. intros ->. congruence.
    + destruct T4 as [?|T4]; [by left|right]. intros m [->|Hm]%elem_of_cons Hin; [done|by apply T4].
Qed.

(** Trimming keeps every routing contact and establishes the bound. *)
Lemma trim_ok d :
  store_ok d → store_ok (trimRecordCache d) ∧ bounded (trimRecordCache d) ∧
  routing (trimRecordCache d) = routing d ∧
  (∀ n r, map_get n (records (trimRecordCache d)) = Some r → map_get n (records d) = Some r) ∧
  (∀ n, has n (routing d) = true → map_get n (records (trimRecordCache d)) = map_get n (records d)).
Proof.
  intros Hok. unfold trimRecordCache. case_bool_decide as Hb; [split_and!; done|].
  pose proof (trim_loop_ok (size (routing d) + maxCachedRecords d) (routing d) (map_keys (records d)) (records d) (recordEvictions d)
    (so_wf d Hok)) as (T1 & T2 & T3 & T4).
  destruct (trim_loop _ _ _ _ _) as [rs n]. cbn [fst] in *. destruct Hok as [Hwf Hr Hm [Hrw Hl] Hmax].
  split_and!; [|unfold bounded; cbn|done|done|done].
  - split; cbn; [done| |done|done|done]. intros m r Hget. by apply Hr, T2.
  - unfold RECORD_TRIM_SLACK. destruct T4 as [?|T4]; [lia|].
    assert (map_size rs ≤ size (routing d))%Z; [|lia]. apply size_in_routing; [done|]. intros m Hin. apply T4; [|done].
    apply map_get_is_Some in Hin as [r Hin]. apply map_get_is_Some. exists r. by apply T2.
Qed.

(** ** Every operation keeps it *)

Context {HS : HashShape _}.

Lemma upsert_local now p t : localNodeId (upsert now p t).1 = localNodeId t.
Proof. unfold upsert. by repeat case_match. Qed.

Lemma remove_local id t : localNodeId (remove id t).1 = localNodeId t.
Proof. unfold remove. by repeat case_match. Qed.

Lemma remove_size id t : (size t - 1 ≤ size (remove id t).1)%Z.
Proof.
  unfold remove. destruct (bool_decide _); [cbn; lia|]. destruct (buckets t !! _) as [b|]; [|cbn; lia]. cbn [fst]. unfold size. cbn [members].
  destruct (negb _); [|lia]. assert (base.size (members t) ≤ 1 + base.size (members t ∖ {[id]})); [|lia].
  rewrite <- (size_singleton (C := gset string) id) at 1. rewrite <- size_union by set_solver. apply subseteq_size.
  intros x Hx. destruct (decide (x = id)); set_solver.
Qed.

(** A computation that keeps [P] and does not throw, unless [X], and then the
    TypeError of a comparison. *)
Definition throws_only (X : Prop) {A} (r : result A) : Prop :=
  match r with Ok _ => True | Throw e => X ∧ e = cannot_convert end.

Definition steady {A} (X : Prop) (P : discovery → Prop) (m : M discovery A) : Prop :=
  ∀ d, P d → throws_only X (m d).2 ∧ P (m d).1.

Lemma steady_bind {A B} X P (m : M discovery A) (f : A → M discovery B) :
  steady X P m → (∀ a, steady X P (f a)) → steady X P (x ← m; f x).
Proof.
  intros Hm Hf d Hd. destruct (Hm d Hd) as [Hok Hp]. unfold mbind, M_bind. destruct (m d) as [d1 [a|e] ]; [|done]. by apply Hf.
Qed.

Lemma steady_ret {A} X P (a : A) : steady X P (mret a).
Proof. by intros d Hd. Qed.

Lemma steady_modify X (P : discovery → Prop) f : (∀ d, P d → P (f d)) → steady X P (modify f).
Proof. intros Hf d Hd. split; [done|]. by apply Hf. Qed.

Lemma steady_upsert X now p : now ≠ "" → steady X store_ok (in_routing (upsert now (Some p))).
Proof.
  intros Hnow d Hd. unfold in_routing. pose proof (so_routing d Hd) as [Hw Hl].
  pose proof (upsert_wf now (Some p) (routing d) Hw Hnow) as [Hok Hw']. pose proof (upsert_local now (Some p) (routing d)) as Hl'.
  destruct (upsert now (Some p) (routing d)) as [t [r|e] ]; [|done]. cbn [fst snd] in *. split; [done|]. destruct Hd. split; cbn; try done.
  split; [done|congruence].
Qed.

Lemma steady_verify X now ae r : steady X store_ok (verify now ae r).
Proof.
  intros d Hd. unfold verify. pose proof (verify_ok now ae r (verified d) (so_memo d Hd)) as [Hm _].
  destruct (verifyPeerRecord now ae r (verified d)) as [m v]. split; [done|]. destruct Hd. by split.
Qed.

Lemma put_record_ok n r d :
  store_ok d → oprop r "nodeId" = JStr n → well_named r → vouched r →
  store_ok (with_records (map_set n r (map_delete n (records d))) d) ∧ store_ok (with_records (map_set n r (records d)) d).
Proof.
  intros [Hwf Hr Hm Hrt Hmax] Hn Hw Hv. split; (split; cbn; [|intros m q; rewrite map_get_set|done..]).
  - by apply map_wf_set, map_wf_delete.
  - case_decide; [by intros [= <-]; subst|]. rewrite map_get_delete. case_decide; [done|apply Hr].
  - by apply map_wf_set.
  - case_decide; [by intros [= <-]; subst|apply Hr].
Qed.

Lemma counters_ok d :
  store_ok d → store_ok (count_change d) ∧ (∀ a, store_ok (notified a d)) ∧ (∀ n, store_ok (forget n d)).
Proof. intros [ ]. by split_and!; intros; split. Qed.

(** What a verification that accepts tells about the record. *)
Lemma verify_accepted now ae r d d1 :
  store_ok d → verify now ae r d = (d1, Ok Accepted) →
  store_ok d1 ∧ records d1 = records d ∧ routing d1 = routing d ∧ well_named r ∧ vouched r.
Proof.
  intros Hd Hv. pose proof (proj2 (steady_verify False now ae r d Hd)) as Hd1. unfold verify in Hv, Hd1.
  pose proof (verify_ok now ae r (verified d) (so_memo d Hd)) as [_ Ha]. destruct (verifyPeerRecord now ae r (verified d)) as [m v].
  injection Hv as <- ->. destruct (Ha eq_refl) as (? & ? & _). by split_and!.
Qed.

Lemma verify_records now ae r d : records (verify now ae r d).1 = records d ∧ routing (verify now ae r d).1 = routing d.
Proof. unfold verify. by destruct (verifyPeerRecord now ae r (verified d)). Qed.

Lemma named_id r : well_named r → ∃ n, oprop r "nodeId" = JStr n ∧ to_string (oprop r "nodeId") = n.
Proof. intros (id & _ & _ & -> & _). by exists id. Qed.

(** The record [take] stores, its state before it trims, and its result. *)
Definition taken_value (existing : option jval) (r : jval) : jval :=
  if negb (same_record existing r) then r else default r existing.

Lemma take_run clock nt existing r n d :
  oprop r "nodeId" = JStr n → well_named r → vouched r → store_ok d →
  (∀ e, existing = Some e → oprop e "nodeId" = JStr n ∧ well_named e ∧ vouched e) →
  ∃ d2 updated novel, store_ok d2 ∧ records d2 = map_set n (taken_value existing r) (map_delete n (records d)) ∧
    take clock nt existing r d =
      (if nt && negb (same_record existing r) then notified [AcceptedRecord n existing r] (trimRecordCache d2) else trimRecordCache d2,
       Ok (Taken n updated (negb (negb (same_record existing r))) novel)).
Proof.
  intros Hid Hn Hv Hd He. unfold take, taken_value. rewrite Hid. cbn [to_string]. cbv zeta. set (ch := negb (same_record existing r)).
  set (v := if ch then r else default r existing).
  assert (Hp : ∀ d1, store_ok d1 → store_ok (with_records (map_set n v (map_delete n (records d1))) d1)).
  { intros d1 Hd1. subst v ch. destruct (same_record existing r) eqn:E; cbn [negb]; [|by apply put_record_ok].
    destruct existing as [e|]; [|done]. destruct (He e eq_refl) as (? & ? & ?). by apply put_record_ok. }
  unfold mbind, M_bind, modify. cbn [fst snd].
  set (d1 := if ch then count_change d else d). assert (Hd1 : store_ok d1) by (subst d1; destruct ch; [by apply counters_ok|done]).
  assert (records d1 = records d) as <- by (subst d1; by destruct ch).
  destruct (steady_upsert False (toISOString clock) (contact r (toISOString clock)) (toISOString_nonempty clock) _ (Hp d1 Hd1)) as [Hok Hd2].
  unfold in_routing in *. destruct (upsert _ _ _) as [t [b|e] ]; [|by destruct Hok]. cbn [fst snd] in *.
  eexists _, _, _. split_and!; [exact Hd2|done|]. reflexivity.
Qed.

(** Whether the sequence of a value can be compared. *)
Definition orderable (r : jval) : Prop := no_primitive (oprop r "sequence") = false.

(** Why [ingest] throws: the node has a record already and one of the two
    sequences is an object without a primitive value. *)
Definition incomparable (d : discovery) (r : jval) : Prop :=
  ∃ n e, oprop r "nodeId" = JStr n ∧ map_get n (records d) = Some e ∧ ¬ (orderable e ∧ orderable r).

Lemma check_existing_Throw existing r e :
  check_existing existing r = Throw e → e = cannot_convert ∧ ∃ q, existing = Some q ∧ ¬ (orderable q ∧ orderable r).
Proof.
  unfold check_existing, Records.older. destruct existing as [q|]; [|done]. destruct (js_gt _ _) as [b|e'] eqn:Hgt; [done|].
  cbn. intros [= ->]. apply js_gt_Throw in Hgt as [-> Hnp]. split; [done|]. exists q. split; [done|]. unfold orderable. intros [Hq Hr].
  by rewrite Hq, Hr in Hnp.
Qed.

Lemma ingest_cases now clock ae nt r d :
  store_ok d →
  (∃ d1 out, ingest now clock ae nt r d = (d1, out) ∧ store_ok d1 ∧ records d1 = records d ∧
     routing d1 = routing d ∧ maxCachedRecords d1 = maxCachedRecords d ∧
     match out with
     | Ok (Refused _) => True
     | Ok (Taken _ _ _ _) => False
     | Throw e => e = cannot_convert ∧ incomparable d r
     end) ∨
  (∃ d2 n updated novel, let existing := map_get n (records d) in
     oprop r "nodeId" = JStr n ∧ well_named r ∧ vouched r ∧ check_peer r now ae = Ok tt ∧ check_existing existing r = Ok None ∧
     store_ok d2 ∧ records d2 = map_set n (taken_value existing r) (map_delete n (records d)) ∧
     ingest now clock ae nt r d =
      (if nt && negb (same_record existing r) then notified [AcceptedRecord n existing r] (trimRecordCache d2) else trimRecordCache d2,
       Ok (Taken n updated (negb (negb (same_record existing r))) novel))).
Proof.
  intros Hd. unfold ingest. pose proof (steady_verify False now ae r d Hd) as [_ Hd1]. unfold verify in *.
  pose proof (verify_ok now ae r (verified d) (so_memo d Hd)) as [_ Ha].
  unfold mbind at 1 4, M_bind at 1 4, get_state. destruct (verifyPeerRecord now ae r (verified d)) as [m [|reason] ]; cbn [fst snd] in *.
  2: { left. by eexists _, (Ok (Refused reason)). }
  destruct (Ha eq_refl) as (Hn & Hv & Hc). destruct (named_id r Hn) as (n & Hid & ->). clear Ha.
  change (records (with_verified m d)) with (records d). cbv zeta. unfold mbind, M_bind, lift_result. cbn [records with_verified].
  destruct (check_existing (map_get n (records d)) r) as [ [reason|]|e] eqn:He; [left; by eexists _, (Ok (Refused reason))|right|left].
  2: { apply check_existing_Throw in He as (-> & q & Hq & Hnp). eexists _, (Throw cannot_convert). split_and!; try done. by exists n, q. }
  destruct (take_run clock nt (map_get n (records d)) r n _ Hid Hn Hv Hd1) as (d2 & u & nv & Hd2 & Hr2 & ->).
  { intros e Hge. exact (so_records d Hd n e Hge). }
  by exists d2, n, u, nv.
Qed.

Lemma bounded_view d d' :
  records d' = records d → routing d' = routing d → maxCachedRecords d' = maxCachedRecords d → bounded d → bounded d'.
Proof. unfold bounded. by intros -> -> ->. Qed.

Definition store_inv (d : discovery) : Prop := store_ok d ∧ bounded d.

(** Every stored sequence can be compared. *)
Definition comparable (d : discovery) : Prop := ∀ n r, map_get n (records d) = Some r → orderable r.

(** The invariant of a run in which comparisons may throw ([X]) or may not. *)
Definition inv (X : Prop) (d : discovery) : Prop := store_ok d ∧ (X ∨ comparable d ∧ bounded d).

Lemma ingest_bounded now clock ae nt r d :
  store_ok d → bounded d → bounded (ingest now clock ae nt r d).1.
Proof.
  intros Hd Hb. destruct (ingest_cases now clock ae nt r d Hd) as [(d1 & out & -> & Hd1 & Hr & Ht & Hm & _)|
    (d2 & n & u & nv & _ & _ & _ & _ & _ & Hd2 & _ & ->)]; cbn [fst]; [by eapply bounded_view|].
  destruct (trim_ok d2 Hd2) as (_ & Hb2 & _). destruct (_ && _); [by eapply bounded_view|done].
Qed.

Lemma ingest_comparable now clock ae nt r d :
  store_ok d → comparable d → orderable r → comparable (ingest now clock ae nt r d).1.
Proof.
  intros Hd Hc Hr. destruct (ingest_cases now clock ae nt r d Hd) as [(d1 & out & -> & _ & E & _)|
    (d2 & n & u & nv & _ & _ & _ & _ & _ & Hd2 & E & ->)]; cbn [fst]; [unfold comparable; by rewrite E|].
  destruct (trim_ok d2 Hd2) as (_ & _ & _ & Hsub & _). assert (Hq : comparable (trimRecordCache d2)).
  { intros m q Hm%Hsub. rewrite E, map_get_set, map_get_delete in Hm. destruct (decide (m = n)) as [->|]; [|by apply (Hc m)].
    injection Hm as <-. unfold taken_value. destruct (negb _); [done|]. destruct (map_get n (records d)) as [e|] eqn:He; [by apply (Hc n)|done]. }
  by destruct (_ && _).
Qed.

Lemma ingest_ok now clock ae nt r : steady True store_ok (ingest now clock ae nt r).
Proof.
  intros d Hd. destruct (ingest_cases now clock ae nt r d Hd) as [(d1 & out & -> & Hd1 & _ & _ & _ & Ho)|
    (d2 & n & u & nv & _ & _ & _ & _ & _ & Hd2 & _ & ->)]; cbn [fst snd].
  - split; [|done]. destruct out as [ []|e]; [done..|by destruct Ho as [-> _] ].
  - destruct (trim_ok d2 Hd2) as (Ho & _). split; [done|]. destruct (_ && _); [by apply counters_ok|done].
Qed.

Lemma ingest_inv now clock ae nt r : steady True store_inv (ingest now clock ae nt r).
Proof. intros d [Hd Hb]. destruct (ingest_ok now clock ae nt r d Hd). split; [done|]. split; [done|by apply ingest_bounded]. Qed.

Lemma ingest_run X now clock ae nt r : X ∨ orderable r → steady X (inv X) (ingest now clock ae nt r).
Proof.
  intros Hr d [Hd Hx]. destruct (ingest_ok now clock ae nt r d Hd) as [Ht Hd'].
  assert (Hc : X ∨ comparable d ∧ bounded d ∧ orderable r) by tauto. destruct Hc as [HX|(Hc & Hb & Ho)].
  - split; [|split; [done|by left] ]. by destruct (ingest _ _ _ _ _ _).2; [|destruct Ht].
  - split; [|split; [done|right; split; [by apply ingest_comparable|by apply ingest_bounded] ] ].
    destruct (ingest_cases now clock ae nt r d Hd) as [(d1 & out & E & _ & _ & _ & _ & Hout)|(d2 & n & u & nv & _ & _ & _ & _ & _ & _ & _ & E)];
      rewrite E; cbn [snd]; [|done]. destruct out as [i|e]; [done|]. destruct Hout as (_ & n & q & _ & Hq & Hn). destruct Hn. split; [by apply (Hc n)|done].
Qed.

(** *** Restoring: the bound is back once the loop is over *)

Definition loading (X : Prop) (d : discovery) : Prop := store_ok d ∧ (X ∨ comparable d).

Lemma ingest_loading X now clock ae nt r : X ∨ orderable r → steady X (loading X) (ingest now clock ae nt r).
Proof.
  intros Hr d [Hd Hx]. destruct (ingest_ok now clock ae nt r d Hd) as [Ht Hd'].
  assert (Hc : X ∨ comparable d ∧ orderable r) by tauto. destruct Hc as [HX|(Hc & Ho)].
  - split; [|split; [done|by left] ]. by destruct (ingest _ _ _ _ _ _).2; [|destruct Ht].
  - split; [|split; [done|right; by apply ingest_comparable] ].
    destruct (ingest_cases now clock ae nt r d Hd) as [(d1 & out & E & _ & _ & _ & _ & Hout)|(d2 & n & u & nv & _ & _ & _ & _ & _ & _ & _ & E)];
      rewrite E; cbn [snd]; [|done]. destruct out as [i|e]; [done|]. destruct Hout as (_ & n & q & _ & Hq & Hn). destruct Hn. split; [by apply (Hc n)|done].
Qed.

Lemma verify_loading X now ae r d : loading X d → ∃ d' v, verify now ae r d = (d', Ok v) ∧ loading X d' ∧ (v = Accepted → well_named r ∧ vouched r).
Proof.
  intros [Hd Hx]. pose proof (steady_verify False now ae r d Hd) as [_ Hd1]. pose proof (verify_records now ae r d) as [Er _].
  destruct (verify now ae r d) as [d' [v|e] ] eqn:Hv; [|unfold verify in Hv; by destruct (verifyPeerRecord _ _ _ _)]. cbn [fst] in *.
  exists d', v. split; [done|]. split; [split; [done|unfold comparable; by rewrite Er]|]. intros ->.
  by destruct (verify_accepted now ae r d d' Hd Hv) as (_ & _ & _ & ? & ?).
Qed.

Lemma restore_one_ok X now clock r : X ∨ orderable r → steady X (loading X) (restore_one now clock r).
Proof.
  intros Ho. unfold restore_one. apply steady_bind; [by apply ingest_loading|]. intros i. destruct (is_taken i); [apply steady_ret|].
  intros d Hd. destruct (verify_loading X clock true r d Hd) as (d1 & stale & Hv & Hd1 & Hacc). rewrite (M_bind_step _ _ _ _ _ Hv).
  destruct (verify_loading X clock false r d1 Hd1) as (d2 & current & Hc & [Hd2 Hx] & _). rewrite (M_bind_step _ _ _ _ _ Hc).
  destruct stale; [|done]. destruct current; [done|]. case_bool_decide; [|done]. destruct (Hacc eq_refl) as [Hn Hvch].
  destruct (named_id r Hn) as (n & Hid & ->). rewrite (M_bind_step _ _ _ (with_records (map_set n r (records d2)) d2) tt) by done.
  destruct (put_record_ok n r d2 Hd2 Hid Hn Hvch) as [_ Hd3].
  destruct (steady_upsert False (toISOString clock) (contact r (to_string (js_or (oprop r "issuedAt") (JStr (toISOString 0)))))
              (toISOString_nonempty clock) _ Hd3) as [Hok Hd4].
  unfold mbind, M_bind, in_routing in *. destruct (upsert _ _ _) as [t [b|e] ]; [|by destruct Hok]. cbn [fst snd] in *. split; [done|].
  split; [done|]. destruct Ho as [|Ho]; [by left|]. destruct Hx as [|Hx]; [by left|right]. intros m q. unfold mret, M_ret. cbn [fst records with_routing with_records].
  rewrite map_get_set. case_decide; [by intros [= <-]|apply Hx].
Qed.

Lemma restore_all_ok X now clock l : X ∨ Forall orderable l → steady X (loading X) (restore_all now clock l).
Proof.
  induction l as [|r l IH]; intros Hl; [apply steady_ret|]. cbn [restore_all]. rewrite Forall_cons in Hl. apply steady_bind; [apply restore_one_ok; tauto|].
  intros ok. apply steady_bind; [apply IH; tauto|intros; apply steady_ret].
Qed.

Lemma restore_run X now clock l : X ∨ Forall orderable l → steady X (inv X) (restore now clock l).
Proof.
  intros Hl d [Hd Hx]. unfold restore. assert (Hld : loading X d) by (split; [done|tauto]).
  destruct (restore_all_ok X now clock l Hl d Hld) as [Ht [Hd1 Hx1] ]. unfold mbind, M_bind, modify.
  destruct (restore_all now clock l d) as [d1 [n|e] ]; cbn [fst snd] in *.
  - split; [done|]. destruct (trim_ok d1 Hd1) as (? & Hb & _ & Hsub & _). split; [done|]. destruct Hx1 as [|Hx1]; [by left|right].
    split; [|done]. intros m q Hm%Hsub. by apply (Hx1 m).
  - split; [done|]. split; [done|]. left. by destruct Ht.
Qed.

(** Dropping one stored record together with its contact keeps the bound. *)
Lemma drop_inv n d :
  store_ok d → n ∈ map_keys (records d) →
  let d1 := forget n (with_routing (remove n (routing d)).1 (with_records (map_delete n (records d)) d)) in
  is_ok (remove n (routing d)).2 = true ∧ store_ok d1 ∧ (bounded d → bounded d1).
Proof.
  intros [Hwf Hr Hm [Hrw Hl] Hmax] Hin d1. pose proof (remove_wf n (routing d) Hrw) as [Hok Hrw']. split; [done|]. split.
  - split; cbn; [by apply map_wf_delete| |done| |done].
    + intros m r. rewrite map_get_delete. case_decide; [done|apply Hr].
    + split; [done|]. by rewrite remove_local.
  - unfold bounded in *. cbn. rewrite map_size_delete by done. pose proof (remove_size n (routing d)). lia.
Qed.

Lemma sweep_entries_ok now es d :
  store_ok d → NoDup es.*1 → (∀ n, n ∈ es.*1 → n ∈ map_keys (records d)) →
  ∃ d' removed, sweep_entries now es d = (d', Ok removed) ∧ store_ok d' ∧ (bounded d → bounded d') ∧
    (∀ n r, map_get n (records d') = Some r ↔ map_get n (records d) = Some r ∧ ¬ ∃ q, (n, q) ∈ es ∧ leaseLive q now = false) ∧
    removed = length (List.filter (λ '(_, r), negb (leaseLive r now)) es).
Proof.
  revert d. induction es as [|[n r] es IH]; intros d Hd Hnd Hin; cbn [sweep_entries].
  { exists d, 0. split_and!; [done..| |done]. intros n r. split; [|tauto]. intros ?. split; [done|]. by intros (q & ?%elem_of_nil & _). }
  apply NoDup_cons in Hnd as [Hn Hnd]. cbn [List.filter]. destruct (leaseLive r now) eqn:Hl; cbn [negb].
  - destruct (IH d Hd Hnd) as (d' & removed & -> & Hd' & Hb & Hg & Hlen); [intros m Hm; apply Hin; by right|].
    exists d', removed. split_and!; [done..| |done]. intros m q. rewrite Hg. setoid_rewrite elem_of_cons. naive_solver congruence.
  - destruct (drop_inv n d Hd) as (Hok & Hd1 & Hb1); [apply Hin; left|].
    unfold mbind, M_bind, modify, in_routing. cbn [fst snd routing with_records]. cbn zeta in Hd1.
    destruct (remove n (routing d)) as [t [b|e] ]; [|done]. cbn [fst snd] in *.
    destruct (IH _ Hd1 Hnd) as (d' & removed & -> & Hd' & Hb & Hg & ->).
    { intros m Hm. cbn [records forget with_routing with_records]. apply map_get_is_Some. rewrite map_get_delete, decide_False; [|by intros ->].
      apply map_get_is_Some, Hin. by right. }
    eexists d', _. split_and!; [done..|by auto| |done]. intros m q. rewrite Hg. cbn [records forget with_routing with_records].
    rewrite map_get_delete. setoid_rewrite elem_of_cons. destruct (decide (m = n)) as [->|Hmn]; naive_solver.
Qed.

(** What [sweep] leaves: exactly the live records. *)
Lemma sweep_ok now notify d :
  store_ok d →
  ∃ d', sweep now notify d = (d', Ok (length (List.filter (λ '(_, r), negb (leaseLive r now)) (records d)))) ∧ store_ok d' ∧
    (bounded d → bounded d') ∧
    ∀ n r, map_get n (records d') = Some r ↔ map_get n (records d) = Some r ∧ leaseLive r now = true.
Proof.
  intros Hd. pose proof (so_wf d Hd) as Hwf.
  destruct (sweep_entries_ok now (records d) d Hd Hwf ltac:(done)) as (d1 & removed & He & Hd1 & Hb & Hg & Hlen).
  unfold sweep. rewrite (M_bind_step _ _ d d d) by done. rewrite (M_bind_step _ _ _ _ _ He). subst removed. eexists. split; [done|].
  assert (Hgood : ∀ n r, map_get n (records d1) = Some r ↔ map_get n (records d) = Some r ∧ leaseLive r now = true).
  { intros n r. rewrite Hg. split; intros [Hr Hl]; (split; [done|]).
    - destruct (leaseLive r now) eqn:E; [done|]. destruct Hl. exists r. split; [by apply map_get_elem|done].
    - intros (q & Hq & Hql). apply (map_elem_get n q _ Hwf) in Hq. congruence. }
  destruct (_ && notify); [|done]. split; [by apply counters_ok|]. split; [|done]. intros ?. eapply bounded_view; [..|by apply Hb]; done.
Qed.

(** No operation changes whose discovery this is. *)
Definition stays {A} (m : M discovery A) : Prop := ∀ d, self (m d).1 = self d.

Lemma stays_bind {A B} (m : M discovery A) (f : A → M discovery B) : stays m → (∀ a, stays (f a)) → stays (x ← m; f x).
Proof.
  intros Hm Hf d. unfold mbind, M_bind. pose proof (Hm d) as Hd. destruct (m d) as [d1 [a|e] ]; [|done]. cbn in Hd. rewrite <- Hd. apply Hf.
Qed.

Lemma take_stays clock nt existing r : stays (take clock nt existing r).
Proof.
  unfold take. cbv zeta.
  apply stays_bind; [intros d; cbn; by destruct (negb _)|intros _]. apply stays_bind; [done|intros _].
  apply stays_bind; [intros d; unfold in_routing; by destruct (upsert _ _ _)|intros _].
  apply stays_bind; [intros d; cbn; unfold trimRecordCache; destruct (bool_decide _); [done|by destruct (trim_loop _ _ _ _ _)]|intros _].
  apply stays_bind; [intros d; cbn; by destruct (_ && _)|done].
Qed.

Lemma ingest_stays now clock ae nt r : stays (ingest now clock ae nt r).
Proof.
  unfold ingest. apply stays_bind; [intros d; unfold verify; by destruct (verifyPeerRecord _ _ _ _)|]. intros [|reason]; [|done].
  intros d. rewrite (M_bind_step _ _ d d d) by done. cbv zeta. generalize (map_get (to_string (oprop r "nodeId")) (records d)). intros ex. revert d. apply stays_bind; [done|]. intros [reason|]; [done|apply take_stays].
Qed.

(** ** Any sequence of operations *)

Inductive op :=
| Ingest (now clock : Z) (allowExpired notify : bool) (record : jval)
| Bootstrap (now clock : Z) (l : list jval)
| Restore (now clock : Z) (l : list jval)
| Sweep (now : Z) (notify : bool).

Definition run_op (o : op) : M discovery unit :=
  match o with
  | Ingest now clock ae nt r => _ ← ingest now clock ae nt r; mret tt
  | Bootstrap now clock l => _ ← bootstrap now clock l; mret tt
  | Restore now clock l => _ ← restore now clock l; mret tt
  | Sweep now nt => _ ← sweep now nt; mret tt
  end.

(** The values an operation is handed. *)
Definition handed (o : op) : list jval :=
  match o with Ingest _ _ _ _ r => [r] | Bootstrap _ _ l | Restore _ _ l => l | Sweep _ _ => [] end.

Lemma bootstrap_run X now clock l : X ∨ Forall orderable l → steady X (inv X) (bootstrap now clock l).
Proof.
  induction l as [|r l IH]; intros Hl; [apply steady_ret|]. cbn [bootstrap]. rewrite Forall_cons in Hl. apply steady_bind; [apply ingest_run; tauto|].
  intros i. apply steady_bind; [apply IH; tauto|intros; apply steady_ret].
Qed.

Lemma run_op_inv X o : X ∨ Forall orderable (handed o) → steady X (inv X) (run_op o).
Proof.
  intros Ho. destruct o; cbn [run_op handed] in *; (apply steady_bind; [|intros; apply steady_ret]).
  - apply ingest_run. rewrite Forall_singleton in Ho. done.
  - by apply bootstrap_run.
  - by apply restore_run.
  - intros d [Hd Hx]. destruct (sweep_ok now notify d Hd) as (d' & -> & Hd' & Hb & Hg). split; [done|]. split; [done|].
    destruct Hx as [|[Hc Hbd] ]; [by left|right]. split; [|by apply Hb]. intros n r [Hr _]%Hg. by apply (Hc n).
Qed.

Lemma run_ops_inv X ops d :
  X ∨ Forall (λ o, Forall orderable (handed o)) ops → inv X d →
  Forall (throws_only X) (run_all run_op ops d).2 ∧ inv X (run_all run_op ops d).1.
Proof.
  revert d. induction ops as [|o ops IH]; intros d Ho Hd; [done|]. cbn [run_all]. rewrite Forall_cons in Ho.
  destruct (run_op_inv X o ltac:(tauto) d Hd) as [Ht Hd1]. destruct (run_op o d) as [d1 r]. cbn [fst snd] in *.
  destruct (IH d1 ltac:(tauto) Hd1) as [Hrs Hd']. destruct (run_all run_op ops d1) as [d2 rs]. cbn [fst snd] in *. split; [by constructor|done].
Qed.

Lemma new_discovery_inv X identity k max d : new_discovery identity k max = Ok d → inv X d.
Proof.
  unfold new_discovery. intros Hn. apply bind_Ok_inv in Hn as ([] & _ & Hn). apply bind_Ok_inv in Hn as (m & Hm & Hn).
  apply bind_Ok_inv in Hn as (t & Ht & Hn%Ok_inj). subst d.
  assert (0 ≤ m)%Z by (revert Hm; destruct (is_integer _); [case_bool_decide; [done|intros <-%Ok_inj; lia]|done]).
  split; [|right; split; [done|unfold bounded, RECORD_TRIM_SLACK, map_size, size; cbn; lia] ]. split; cbn; [apply map_wf_nil|done| | |done].
  - split; [apply map_wf_nil|done].
  - split; [by eapply new_table_wf|]. revert Ht. unfold new_table. destruct (negb _); [done|]. destruct (is_integer (with_default k (JNum (JInt 20)))) as [n|]; [|done].
    case_bool_decide; [done|]. by intros <-%Ok_inj.
Qed.

(** C12: over any sequence of ingested, bootstrapped and restored untrusted
    values and sweeps, the records of discovery stay sound: every stored record
    names its node and its content truthfully and carries a checked signature,
    and a sweep leaves exactly the records with a live lease.  The one exception
    an operation can throw is the TypeError of comparing a sequence that has no
    primitive value; if every value handed over has a sequence that can be
    compared, no operation throws, and the store holds at most the routing
    contacts, the configured number of cached copies and the slack. *)
Theorem store_lifecycle identity k max d ops :
  new_discovery identity k max = Ok d →
  let d' := (run_all run_op ops d).1 in
  (∀ n r, map_get n (records d') = Some r → oprop r "nodeId" = JStr n ∧ well_named r ∧ vouched r) ∧
  (∀ now notify, ∃ d'' removed, sweep now notify d' = (d'', Ok removed) ∧
    ∀ n r, map_get n (records d'') = Some r ↔ map_get n (records d') = Some r ∧ leaseLive r now = true) ∧
  (∀ e, Throw e ∈ (run_all run_op ops d).2 → e = cannot_convert) ∧
  (Forall (λ o, Forall (λ r, no_primitive (oprop r "sequence") = false) (handed o)) ops →
   Forall (λ r, is_ok r = true) (run_all run_op ops d).2 ∧
   (map_size (records d') ≤ size (routing d') + maxCachedRecords d' + RECORD_TRIM_SLACK)%Z).
Proof.
  intros Hn d'. destruct (run_ops_inv True ops d (or_introl I) (new_discovery_inv True _ _ _ d Hn)) as [Ht [Hs _] ]. fold d' in Hs.
  split_and!; [exact (so_records d' Hs)| | |].
  - intros now notify. destruct (sweep_ok now notify d' Hs) as (d'' & Hsw & _ & _ & Hg). by eexists d'', _.
  - intros e He. rewrite Forall_forall in Ht. by apply Ht in He as [_ ->].
  - intros Ho. destruct (run_ops_inv False ops d (or_intror Ho) (new_discovery_inv False _ _ _ d Hn)) as [Hf [_ [ []|[_ Hb] ] ] ].
    split; [|exact Hb]. eapply Forall_impl; [exact Hf|]. by intros [a|e] Hr; [|destruct Hr].
Qed.

(** Where a record of the store can have gone: it stays, it was evicted as a
    copy, or it is the one that was taken. *)
Lemma ingest_records now clock ae nt r d m :
  store_ok d →
  let d' := (ingest now clock ae nt r d).1 in
  map_get m (records d') = map_get m (records d) ∨
  (map_get m (records d') = None ∧ has m (routing d') = false) ∨
  (map_get m (records d') = Some r ∧ oprop r "nodeId" = JStr m ∧
   ∃ u nv, (ingest now clock ae nt r d).2 = Ok (Taken m u false nv)).
Proof.
  intros Hd. cbv zeta. destruct (ingest_cases now clock ae nt r d Hd) as [(d1 & out & -> & _ & Hr & _)|
    (d2 & n & u & nv & Hid & Hn & Hv & _ & _ & Hd2 & Hr2 & ->)]; [left; cbn [fst]; by rewrite Hr|]. cbn [fst snd].
  assert (E : ∀ (b : bool) a x, records (if b then notified a x else x) = records x ∧
                               routing (if b then notified a x else x) = routing x) by by intros [].
  rewrite (proj1 (E _ _ _)), (proj2 (E _ _ _)). clear E. destruct (trim_ok d2 Hd2) as (_ & _ & Hrt & Hsub & Hkeep). rewrite Hrt.
  destruct (has m (routing d2)) eqn:Hh.
  2: { destruct (map_get m (records (trimRecordCache d2))) as [q|] eqn:E; [|right; by left].
       rewrite <- E. pose proof (Hsub m q E) as E2. rewrite Hr2, map_get_set, map_get_delete in E2. revert E2.
       destruct (decide (m = n)) as [->|Hne]; [|intros E2; left; by rewrite E, E2]. unfold taken_value.
       destruct (same_record (map_get n (records d)) r) eqn:Es; cbn [negb]; intros [= E2].
       - left. unfold same_record in Es. rewrite E, <- E2. by destruct (map_get n (records d)).
       - right; right. rewrite E, <- E2. by eauto. }
  rewrite (Hkeep m Hh), Hr2, map_get_set, map_get_delete. destruct (decide (m = n)) as [->|Hne]; [|by left]. unfold taken_value.
  destruct (same_record (map_get n (records d)) r) eqn:Es; cbn [negb].
  - left. unfold same_record in Es. by destruct (map_get n (records d)).
  - right; right. by eauto.
Qed.

(** Two well-named records with one identifier have one content. *)
Lemma same_id_content a b :
  well_named a → well_named b → oprop a "recordId" = oprop b "recordId" →
  ∃ ta tb, canonicalize (Records.body_of a) = Ok ta ∧ canonicalize (Records.body_of b) = Ok tb ∧ sha256_hex ta = sha256_hex tb.
Proof.
  intros (_ & ta & _ & _ & Ha & Hia) (_ & tb & _ & _ & Hb & Hib) Hid. exists ta, tb. split_and!; [done..|].
  rewrite Hia, Hib in Hid. injection Hid as Hid. done.
Qed.

Lemma check_existing_None e r :
  well_named e → well_named r → check_existing (Some e) r = Ok None →
  js_gt (oprop e "sequence") (oprop r "sequence") = Ok false ∧
  (strict_eq (oprop e "sequence") (oprop r "sequence") = true → oprop e "recordId" = oprop r "recordId").
Proof.
  intros (_ & te & _ & _ & _ & He) (_ & tr & _ & _ & _ & Hr). unfold check_existing, Records.older.
  destruct (js_gt _ _) as [ []|]; [done| |done]. cbn.
  destruct (strict_eq (oprop e "sequence") _); cbn [andb]; [|done].
  rewrite He, Hr. cbn [strict_eq]. case_bool_decide as Heq; cbn [negb]; [|done]. intros _. by split; [|intros _; rewrite Heq].
Qed.

(** C23: a value that is ingested can only advance the records.  Whatever
    arrives, the records of other nodes stay or are evicted as copies that are
    no routing contacts; a refused value changes no record, nor does one whose
    comparison with the stored record of its node throws, which happens only when
    one of the two sequences has no primitive value; and a record that is
    taken passed every check, follows the stored record of its node (an integer
    sequence never decreases, and an equal one means the same content up to a
    hash collision), and is what the store then holds for a routing contact. *)
Theorem record_advances now clock ae nt r d :
  store_ok d →
  let d' := (ingest now clock ae nt r d).1 in
  match (ingest now clock ae nt r d).2 with
  | Throw e =>
      e = cannot_convert ∧ records d' = records d ∧ routing d' = routing d ∧
      ∃ n q, oprop r "nodeId" = JStr n ∧ map_get n (records d) = Some q ∧
        ¬ (no_primitive (oprop q "sequence") = false ∧ no_primitive (oprop r "sequence") = false)
  | Ok (Refused _) => records d' = records d ∧ routing d' = routing d
  | Ok (Taken n _ unchanged _) =>
      oprop r "nodeId" = JStr n ∧ check_peer r now ae = Ok tt ∧ vouched r ∧
      (∀ e, map_get n (records d) = Some e →
        (∀ a b, oprop e "sequence" = JNum (JInt a) → oprop r "sequence" = JNum (JInt b) → (a ≤ b)%Z ∧
          (a = b → ∃ te tr, canonicalize (Records.body_of e) = Ok te ∧ canonicalize (Records.body_of r) = Ok tr ∧
                    sha256_hex te = sha256_hex tr))) ∧
      (has n (routing d') = true → map_get n (records d') = if unchanged then map_get n (records d) else Some r) ∧
      (∀ m, m ≠ n → map_get m (records d') = map_get m (records d) ∨
                    (map_get m (records d') = None ∧ has m (routing d') = false))
  end.
Proof.
  intros Hd. destruct (ingest_cases now clock ae nt r d Hd) as [(d1 & out & -> & _ & Hr & Ht & _ & Hout)|
    (d2 & n & u & nv & Hid & Hn & Hv & Hc & He & Hd2 & Hr2 & ->)]; cbn [fst snd]; cbv zeta.
  { destruct out as [ []|e]; [done..|]. by destruct Hout as [-> ?]. }
  destruct (trim_ok d2 Hd2) as (_ & _ & Hrt & Hsub & Hkeep).
  assert (E : ∀ (b : bool) a x, records (if b then notified a x else x) = records x ∧
                               routing (if b then notified a x else x) = routing x) by by intros [].
  rewrite (proj1 (E _ _ _)), (proj2 (E _ _ _)), Hrt. clear E. split_and!; [done..| | |].
  - intros e Hge a b Ha Hb. rewrite Hge in He. destruct (so_records d Hd n e Hge) as (_ & Hne & _).
    destruct (check_existing_None e r Hne Hn He) as [Hgt Heq]. rewrite Ha, Hb in *. split; [by apply Records.js_gt_int|].
    intros ->. apply same_id_content; [done..|]. apply Heq. cbn. by apply bool_decide_eq_true.
  - intros Hh. rewrite (Hkeep n Hh), Hr2, map_get_set, decide_True by done. unfold taken_value.
    destruct (same_record (map_get n (records d)) r) eqn:E; cbn [negb]; [|done]. by destruct (map_get n (records d)).
  - intros m Hm. assert (Hget : map_get m (records d2) = map_get m (records d)).
    { rewrite Hr2, map_get_set, map_get_delete. by rewrite !decide_False. }
    destruct (has m (routing d2)) eqn:Hh; [left; by rewrite Hkeep|].
    destruct (map_get m (records (trimRecordCache d2))) as [q|] eqn:E; [left|by right]. by rewrite <- Hget, (Hsub m q E).
Qed.

End records.

(** ** A concrete store *)

#[local] Existing Instance toy_coercions.

Definition toy_identity : jval :=
  JObj [("nodeId", JStr (match nodeIdFromPublicKey (H := Toy.host) (JStr "pem") with Ok s => s | Throw _ => "" end));
        ("publicKeyPem", JStr "pem"); ("privateKeyPem", JStr "priv")].
Definition toy_self : jval :=
  JObj [("nodeId", JStr (match nodeIdFromPublicKey (H := Toy.host) (JStr "own") with Ok s => s | Throw _ => "" end));
        ("publicKeyPem", JStr "own"); ("privateKeyPem", JStr "own-priv")].

Definition toy_record (sequence ttl : Z) : jval :=
  match createPeerRecord (H := Toy.host) toy_identity (JArr [JStr " quic://a "; JStr ""; JStr "quic://a"]) (JNum (JInt sequence)) ttl
          (JArr [JStr "dht"]) JUndef JUndef (JStr "2026-10-13T12:30:00.000Z") 0 with
  | Ok kvs => JObj kvs
  | Throw _ => JNull
  end.

Definition toy_now : Z := 1791894600500.
Definition toy_ops : list op :=
  [Ingest toy_now toy_now false true (toy_record 2 1000); Ingest toy_now toy_now false true (toy_record 1 9000);
   Ingest toy_now toy_now false true JNull; Restore toy_now toy_now [toy_record 3 5000]].
Definition toy_store : discovery :=
  match new_discovery (H := Toy.host) toy_self JUndef JUndef with
  | Ok d => (run_all (run_op (H := Toy.host)) toy_ops d).1
  | Throw _ => Discovery "" 0 (empty_table "" 1) [] [] 0 0 0 [] 0 []
  end.

Definition toy_node : string := to_string (oprop toy_identity "nodeId").

Lemma store_lifecycle_witness :
  map_size (records toy_store) = 1%Z ∧
  (map_size (records toy_store) ≤ size (routing toy_store) + maxCachedRecords toy_store + RECORD_TRIM_SLACK)%Z ∧
  ∃ d removed, sweep (H := Toy.host) (toy_now + 9000) true toy_store = (d, Ok removed) ∧ map_get toy_node (records d) = None.
Proof.
  destruct (new_discovery (H := Toy.host) toy_self JUndef JUndef) as [d|e] eqn:Hd; [|vm_compute in Hd; discriminate Hd].
  destruct (store_lifecycle (H := Toy.host) toy_self JUndef JUndef d toy_ops Hd) as (_ & Hsw & _ & Hb).
  assert (E : (run_all (run_op (H := Toy.host)) toy_ops d).1 = toy_store) by (unfold toy_store; by rewrite Hd).
  rewrite E in Hsw, Hb. clear E Hd. split; [vm_compute; reflexivity|]. split; [apply Hb; vm_compute; repeat constructor|].
  destruct (Hsw (toy_now + 9000)%Z true) as (d' & removed & Hr & Hg). exists d', removed. split; [exact Hr|].
  destruct (map_get toy_node (records d')) as [q|] eqn:Hq; [|reflexivity]. apply Hg in Hq as [Hq Hl].
  assert (E : match map_get toy_node (records toy_store) with Some q => leaseLive (H := Toy.host) q (toy_now + 9000) | None => false end = false)
    by (vm_compute; reflexivity).
  rewrite Hq, Hl in E. discriminate E.
Defined.

Lemma toy_store_inv : store_inv (H := Toy.host) toy_store.
Proof.
  unfold toy_store. destruct (new_discovery (H := Toy.host) toy_self JUndef JUndef) as [d|e] eqn:Hd.
  - destruct (run_ops_inv (H := Toy.host) False toy_ops d) as [_ [Hs [ []|[_ Hb] ] ] ]; [| |by split].
    + right. vm_compute. repeat constructor.
    + by eapply new_discovery_inv.
  - exfalso. revert Hd. vm_compute. discriminate.
Qed.

Lemma toy_discovery_ok : store_ok (H := Toy.host) toy_store.
Proof. apply toy_store_inv. Qed.

Lemma record_advances_witness :
  map_get toy_node (records (ingest (H := Toy.host) toy_now toy_now false true (toy_record 4 9000) toy_store).1) = Some (toy_record 4 9000).
Proof.
  pose proof (record_advances (H := Toy.host) toy_now toy_now false true (toy_record 4 9000) toy_store toy_discovery_ok) as Hc.
  cbv zeta in Hc.
  assert (E : (ingest (H := Toy.host) toy_now toy_now false true (toy_record 4 9000) toy_store).2 = Ok (Taken toy_node true false false))
    by (vm_compute; reflexivity).
  rewrite E in Hc. clear E. set (d' := (ingest _ _ _ _ _ _).1) in *.
  assert (Hh : has toy_node (routing d') = true) by (vm_compute; reflexivity). clearbody d'.
  destruct Hc as (_ & _ & _ & _ & Hst & _). exact (Hst Hh).
Defined.

(** Where the source differs from its comment: restoring an expired record of
    an older sequence replaces the live record of the node, which is then no
    longer found. *)
Example restore_replaces_live :
  is_Some (get (H := Toy.host) toy_node (toy_now + 2000) toy_store) ∧
  get (H := Toy.host) toy_node (toy_now + 2000) (restore (H := Toy.host) (toy_now + 2000) (toy_now + 2000) [toy_record 2 1000] toy_store).1 = None.
Proof. split; vm_compute; [eexists|]; reflexivity. Qed.

(** A record that is signed in order, with a sequence that cannot be compared. *)
Definition toy_incomparable : jval :=
  match createPeerRecord (H := Toy.host) toy_identity (JArr [JStr "quic://a"]) (JObj [("toString", JNull)]) 9000
          (JArr []) JUndef JUndef (JStr "2026-10-13T12:30:00.000Z") 0 with
  | Ok kvs => JObj kvs
  | Throw _ => JNull
  end.

(** Where the source throws: a second record of a node is compared outside the
    try block of the verification, and so is every record after it. *)
Example ingest_throws :
  (ingest (H := Toy.host) toy_now toy_now false true toy_incomparable toy_store).2 = Throw cannot_convert ∧
  (run_all (run_op (H := Toy.host)) [Bootstrap toy_now toy_now [toy_incomparable; toy_record 9 9000]; Sweep toy_now true]
     (with_records [] toy_store)).2 = [Throw cannot_convert; Ok tt].
Proof. split; vm_compute; reflexivity. Qed.

End PeerRecords.
