(* ===== verification/PeerWalk.v ===== *)
(** * Iterative lookup

    Models the walk of network/discovery/peer-discovery.js ([#walkOnce],
    [findNode]) over the records of [PeerRecords], with the calls of
    [QuicDiscoveryRpc.findNode] of network/discovery/quic-rpc.js it makes.  The
    events are a call settling, the [finally] of its promise, the timer that
    hedges it, and anything else that changes the records meanwhile; they
    interleave freely.  [queried] holds the members of [order]. *)
From S2P Require Import Prelude JSMap JSValue Dates Host Protocol Kademlia DhtRecords PeerRecords.
Import Canonical Keys Ids Routing PeerRecords.

Module PeerWalk.

(** What [#walkOnce] computes from its arguments and the discovery. *)
Record plan := Plan { target : string; stopOnFound : bool; alpha : Z; budget : Z; isBackground : bool }.

Definition walk_plan (target : string) (alpha maxRounds : jval) (stopOnFound isBackground : bool) : plan :=
  let alpha := Z.max 1 (default 3%Z (is_integer alpha)) in
  Plan target stopOnFound alpha (Z.max 0 (default 16%Z (is_integer maxRounds)) * alpha) isBackground.

Record outcome := Outcome {
  found : option jval; queried : list string; rounds : Z; responses : nat; o_novel : nat; o_shed : bool
}.

(** The variables of the closure.  [asked] are the calls of the rpc that have
    not settled, [settling] those whose [finally] has not run, [timers] the
    hedge timers that have not fired. *)
Record walk := Walk {
  order : list string; asked : list string; settling : list string; timers : list string;
  responded : list string; hints : jsmap string peer; slow : list string;
  responsesReceived : nat; novel : nat; shed : bool; inFlight : Z; finished : option outcome;
  stableAnswers : Z; lastTopKey : string
}.

Definition without (n : string) (l : list string) : list string := filter (λ m, m ≠ n) l.

Definition new_walk : walk := Walk [] [] [] [] [] [] [] 0 0 false 0 None 0 "".

Section walk.
Context `{Host} `{Coercions}.

(** ** The call of a peer *)

(** [for (const x of v || [])] *)
Definition iterate (v : jval) : result (list jval) :=
  match v with
  | JArr l => Ok l
  | JStr s => Ok (map (λ c, JStr (String c "")) (String.list_ascii_of_string s))
  | _ => if truthy v then Throw (error "object is not iterable") else Ok []
  end.

(** The records of [QuicDiscoveryRpc.findNode], split into live ones and hints. *)
Fixpoint sort_records (now : Z) (l : list jval) : M discovery (list jval * list jval) :=
  match l with
  | [] => mret ([], [])
  | r :: l =>
      live ← verify now false r;
      match live with
      | Accepted => rest ← sort_records now l; mret (r :: rest.1, rest.2)
      | Rejected _ =>
          stale ← verify now true r;
          rest ← sort_records now l;
          mret (rest.1, match stale with Accepted => r :: rest.2 | Rejected _ => rest.2 end)
      end
  end.

Definition findNode_reply (now : Z) (result : jval) : M discovery (list jval * list jval) :=
  l ← lift_result (iterate (oprop result "records"));
  sort_records now l.

(** ** The functions of the closure *)

Section functions.
Context (p : plan).

Definition room (w : walk) : bool := bool_decide (inFlight w < alpha p + Z.of_nat (length (slow w)))%Z.
Definition within_budget (w : walk) : bool := bool_decide (Z.of_nat (length (order w)) < budget p)%Z.

(** [candidates()] *)
Definition merged (d : discovery) (w : walk) : jsmap string peer :=
  foldl (λ m '(n, q), if map_has n m then m else map_set n q m)
    (foldl (λ m q, map_set (Routing.nodeId q) q m) [] (closest (target p) (d_k d) (routing d)))
    (hints w).

Definition candidates (d : discovery) (w : walk) : list peer :=
  sort_by (nearer (dhtKey (target p)))
    (List.filter (λ q, negb (bool_decide (Routing.nodeId q ∈ order w))) (map_values (merged d w))).

Definition with_finished (o : option outcome) (w : walk) : walk :=
  Walk (order w) (asked w) (settling w) (timers w) (responded w) (hints w) (slow w) (responsesReceived w) (novel w)
    (shed w) (inFlight w) o (stableAnswers w) (lastTopKey w).

Definition finish (now : Z) (d : discovery) (w : walk) : walk :=
  match finished w with
  | Some _ => w
  | None =>
      let n := Z.of_nat (length (order w)) in
      with_finished (Some (Outcome (get (target p) now d) (order w) ((n + alpha p - 1) / alpha p)
                             (responsesReceived w) (novel w) (shed w))) w
  end.

Definition launch (n : string) (w : walk) : walk :=
  Walk (order w ++ [n]) (asked w ++ [n]) (settling w) (if isBackground p then timers w else timers w ++ [n])
    (responded w) (hints w) (slow w) (responsesReceived w) (novel w) (shed w) (inFlight w + 1) (finished w)
    (stableAnswers w) (lastTopKey w).

Fixpoint launch_all (ps : list peer) (w : walk) : walk :=
  match ps with
  | [] => w
  | q :: ps => if negb (within_budget w) || negb (room w) then w else launch_all ps (launch (Routing.nodeId q) w)
  end.

Definition is_finished (w : walk) : bool := bool_decide (is_Some (finished w)).

Definition pump (now : Z) (d : discovery) (w : walk) : walk :=
  if is_finished w then w
  else if stopOnFound p && negb (bool_decide (order w = [])) && bool_decide (is_Some (get (target p) now d))
  then finish now d w
  else
    let w := if negb (shed w) && within_budget w && room w then launch_all (candidates d w) w else w in
    if bool_decide (inFlight w = 0)%Z then finish now d w else w.

(** [converged()], which counts the answers that did not change the top. *)
Definition converged (d : discovery) (w : walk) : walk * bool :=
  if stopOnFound p then (w, false)
  else
    let top := Routing.nodeId <$> closest (target p) (alpha p) (routing d) in
    let key := String.concat "," top in
    let same := bool_decide (key = lastTopKey w) in
    let stable := if same then (stableAnswers w + 1)%Z else 0%Z in
    (Walk (order w) (asked w) (settling w) (timers w) (responded w) (hints w) (slow w) (responsesReceived w) (novel w)
       (shed w) (inFlight w) (finished w) stable (if same then lastTopKey w else key),
     bool_decide (alpha p ≤ stable)%Z && negb (bool_decide (top = [])) &&
     forallb (λ n, bool_decide (n ∈ responded w)) top).

(** ** The events *)

(** The novel records among those ingested, and whether all were: the first
    one that throws leaves the loop. *)
Fixpoint ingest_all (now clock : Z) (l : list jval) (d : discovery) : discovery * (nat * bool) :=
  match l with
  | [] => (d, (0, true))
  | r :: l =>
      match ingest now clock false true r d with
      | (d, Ok i) => let '(d, (n, all)) := ingest_all now clock l d in (d, (if is_novel i then S n else n, all))
      | (d, Throw _) => (d, (0, false))
      end
  end.

Definition add_hint (now : Z) (d : discovery) (hs : jsmap string peer) (record : jval) : jsmap string peer :=
  let n := to_string (oprop record "nodeId") in
  if truthy (oprop record "nodeId") && negb (eq_str (oprop record "nodeId") (self d)) &&
     negb (bool_decide (is_Some (get n now d)))
  then map_set n (Peer n "" [("endpoints", oprop record "endpoints"); ("publicKey", oprop record "publicKey")]) hs
  else hs.

Definition settle (n : string) (w : walk) : walk :=
  Walk (order w) (without n (asked w)) (settling w ++ [n]) (timers w) (responded w) (hints w) (slow w)
    (responsesReceived w) (novel w) (shed w) (inFlight w) (finished w) (stableAnswers w) (lastTopKey w).

(** The call answered, the answer being [records] and [stale].  A record that
    throws ends the callback before the hints; the [finally] runs all the same. *)
Definition answer (now clock : Z) (n : string) (records stale : list jval) (w : walk) (d : discovery)
    : discovery * walk :=
  let '(d, (novels, all)) := ingest_all now clock records d in
  (d, Walk (order w) (asked w) (settling w) (timers w) (responded w ++ [n])
        (if all : bool then foldl (add_hint now d) (hints w) stale else hints w) (slow w) (S (responsesReceived w))
        (novel w + novels) (shed w) (inFlight w) (finished w) (stableAnswers w) (lastTopKey w)).

(** The call failed, [busy] when its error has the code TRUYN_BUSY. *)
Definition fail (busy : bool) (w : walk) : walk :=
  Walk (order w) (asked w) (settling w) (timers w) (responded w) (hints w) (slow w) (responsesReceived w) (novel w)
    (shed w || (isBackground p && busy)) (inFlight w) (finished w) (stableAnswers w) (lastTopKey w).

(** The [finally] up to its [pump]: the timer is cleared. *)
Definition return_slot (n : string) (w : walk) : walk :=
  Walk (order w) (asked w) (without n (settling w)) (without n (timers w)) (responded w) (hints w)
    (without n (slow w)) (responsesReceived w) (novel w) (shed w) (inFlight w - 1) (finished w)
    (stableAnswers w) (lastTopKey w).

Definition final (now : Z) (n : string) (d : discovery) (w : walk) : walk :=
  let w := return_slot n w in
  let '(w, done) := if is_finished w then (w, false) else converged d w in
  if done : bool then finish now d w else pump now d w.

(** The hedge timer of a call fires. *)
Definition hedge (now : Z) (n : string) (d : discovery) (w : walk) : walk :=
  let w' := Walk (order w) (asked w) (settling w) (without n (timers w)) (responded w) (hints w) (slow w)
              (responsesReceived w) (novel w) (shed w) (inFlight w) (finished w) (stableAnswers w) (lastTopKey w) in
  if is_finished w || bool_decide (alpha p ≤ Z.of_nat (length (slow w)))%Z then w'
  else pump now d (Walk (order w') (asked w') (settling w') (timers w') (responded w') (hints w') (slow w' ++ [n])
                     (responsesReceived w') (novel w') (shed w') (inFlight w') (finished w') (stableAnswers w') (lastTopKey w')).

(** [Failed] is also a call that answers nothing. *)
Inductive event :=
| Replied (n : string) (now clock : Z) (records stale : list jval)
| Failed (n : string) (busy : bool)
| Finally (n : string) (now : Z)
| Hedge (n : string) (now : Z)
| Other (d : discovery).

(** The promise of an answer whose callback throws rejects with no handler.  The
    walk goes on, as it does in a process that survives unhandled rejections. *)
Definition step (e : event) (s : discovery * walk) : discovery * walk :=
  let '(d, w) := s in
  match e with
  | Replied n now clock records stale => answer now clock n records stale (settle n w) d
  | Failed n busy => (d, fail busy (settle n w))
  | Finally n now => (d, final now n d w)
  | Hedge n now => (d, hedge now n d w)
  | Other d' => (d', w)
  end.

Definition start (now : Z) (d : discovery) : discovery * walk := (d, pump now d new_walk).

Definition run (es : list event) (s : discovery * walk) : discovery * walk := foldl (λ s e, step e s) s es.

(** ** The invariant of a walk *)

Definition open (w : walk) : list string := asked w ++ settling w.

Record walk_ok (me : string) (w : walk) : Prop := {
  wk_order : NoDup (order w);
  wk_budget : (Z.of_nat (length (order w)) ≤ budget p)%Z;
  wk_open : NoDup (open w) ∧ open w ⊆ order w;
  wk_flight : inFlight w = Z.of_nat (length (open w));
  wk_timers : NoDup (timers w) ∧ timers w ⊆ open w;
  wk_slow : NoDup (slow w) ∧ slow w ⊆ open w ∧ (∀ n, n ∈ slow w → n ∉ timers w) ∧ (Z.of_nat (length (slow w)) ≤ alpha p)%Z;
  wk_room : (inFlight w ≤ alpha p + Z.of_nat (length (slow w)))%Z;
  wk_responded : responded w ⊆ order w;
  wk_hints : map_wf (hints w) ∧ ∀ n q, (n, q) ∈ hints w → Routing.nodeId q = n ∧ n ≠ me;
  wk_self : me ∉ order w
}.

(** A walk that goes on has a call in flight. *)
Definition going (w : walk) : Prop := finished w = None → (0 < inFlight w)%Z.

Lemma elem_of_without n m l : n ∈ without m l ↔ n ≠ m ∧ n ∈ l.
Proof. unfold without. by rewrite list_elem_of_filter. Qed.

Lemma NoDup_without n l : NoDup l → NoDup (without n l).
Proof. apply NoDup_filter. Qed.

Lemma without_cons n m l : without n (m :: l) = if decide (m = n) then without n l else m :: without n l.
Proof. unfold without. rewrite filter_cons. by repeat case_decide. Qed.

Lemma without_notin n l : n ∉ l → without n l = l.
Proof.
  induction l as [|m l IH]; [done|]. rewrite not_elem_of_cons, without_cons. intros [Hn Hl]. rewrite decide_False by done. by rewrite IH.
Qed.

Lemma length_without n l : NoDup l → length l = (length (without n l) + if decide (n ∈ l) then 1 else 0)%nat.
Proof.
  induction l as [|m l IH]; [done|]. intros [Hm Hl]%NoDup_cons. rewrite without_cons. destruct (decide (m = n)) as [->|Hne].
  - rewrite without_notin, decide_True by (done || left). cbn. lia.
  - cbn [length]. rewrite IH by done. destruct (decide (n ∈ l)) as [Hn|Hn]; [rewrite decide_True by by right|rewrite decide_False by (rewrite not_elem_of_cons; split; [congruence|done])]; lia.
Qed.

(** What the candidates are: distinct nodes not asked before, never this one. *)
Lemma merged_keys d w me n q :
  walk_ok me w → Routing.wf (routing d) → localNodeId (routing d) = me → map_get n (merged d w) = Some q →
  Routing.nodeId q = n ∧ n ≠ me.
Proof.
  intros Hw Hr Hl. unfold merged. set (m0 := foldl _ [] _).
  assert (Hm0 : ∀ m q', map_get m m0 = Some q' → Routing.nodeId q' = m ∧ m ≠ me).
  { subst m0. assert (Hc : ∀ q', q' ∈ closest (target p) (d_k d) (routing d) → Routing.nodeId q' ≠ me).
    { intros q' Hq' <-. rewrite closest_take in Hq'. apply (wf_local_not_member _ Hr). rewrite Hl. apply (wf_members _ Hr), elem_of_ids.
      exists q'. split; [|done]. apply (sublist_subseteq _ _ (sublist_take _ _)) in Hq'. by rewrite sort_by_perm in Hq'. }
    revert Hc. generalize (closest (target p) (d_k d) (routing d)). intros l.
    enough (E : ∀ acc, (∀ m q', map_get m acc = Some q' → Routing.nodeId q' = m ∧ m ≠ me) → (∀ q', q' ∈ l → Routing.nodeId q' ≠ me) →
      ∀ m q', map_get m (foldl (λ m q, map_set (Routing.nodeId q) q m) acc l) = Some q' → Routing.nodeId q' = m ∧ m ≠ me) by (intros Hc; by apply E).
    induction l as [|x l IH]; intros acc Ha Hc; [done|]. cbn [foldl]. apply IH; [|intros; apply Hc; by right].
    intros m q'. rewrite map_get_set. case_decide; [intros [= <-]; subst; split; [done|apply Hc; left]|apply Ha]. }
  clearbody m0. pose proof (proj2 (wk_hints me w Hw)) as Hh. revert m0 Hm0. induction (hints w) as [|[h qh] hs IH]; intros m0 Hm0; [apply Hm0|].
  cbn [foldl]. apply IH; [intros; apply Hh; by right|]. intros m q'. destruct (map_has h m0); [apply Hm0|].
  rewrite map_get_set. case_decide; [intros [= <-]; subst; apply Hh; left|apply Hm0].
Qed.

Lemma merged_wf d w : map_wf (merged d w).
Proof.
  unfold merged. assert (Hm0 : map_wf (foldl (λ m q, map_set (Routing.nodeId q) q m) [] (closest (target p) (d_k d) (routing d)))).
  { generalize (closest (target p) (d_k d) (routing d)). intros l. generalize (map_wf_nil (K := string) (V := peer)).
    generalize ([] : jsmap string peer). induction l as [|x l IH]; intros acc Ha; [done|]. apply IH. by apply map_wf_set. }
  revert Hm0. generalize (foldl (λ m q, map_set (Routing.nodeId q) q m) [] (closest (target p) (d_k d) (routing d))).
  induction (hints w) as [|[h qh] hs IH]; intros acc Ha; [done|]. cbn [foldl]. apply IH. destruct (map_has h acc); [done|by apply map_wf_set].
Qed.

Lemma candidates_ok d w me :
  walk_ok me w → Routing.wf (routing d) → localNodeId (routing d) = me →
  NoDup (Routing.nodeId <$> candidates d w) ∧ ∀ q, q ∈ candidates d w → Routing.nodeId q ∉ order w ∧ Routing.nodeId q ≠ me.
Proof.
  intros Hw Hr Hl. pose proof (λ n q, merged_keys d w me n q Hw Hr Hl) as Hk. pose proof (merged_wf d w) as Hwf.
  unfold candidates. set (f := λ q : peer, negb (bool_decide (Routing.nodeId q ∈ order w))). split.
  - rewrite sort_by_perm. assert (Hnd : NoDup (Routing.nodeId <$> map_values (merged d w))).
    { assert (E : Routing.nodeId <$> map_values (merged d w) = map_keys (merged d w)); [|by rewrite E].
      unfold map_values, map_keys. rewrite <- list_fmap_compose. apply list_fmap_ext. intros i [n q] Hi. cbn.
      apply list_elem_of_lookup_2, (map_elem_get _ _ _ Hwf) in Hi. by destruct (Hk n q Hi). }
    eapply sublist_NoDup; [exact Hnd|]. clearbody f. clear.
    induction (map_values (merged d w)) as [|x l IH]; [done|]. cbn [List.filter]. destruct (f x); rewrite !fmap_cons; by constructor.
  - intros q Hq. rewrite sort_by_perm in Hq. apply list_elem_of_In, filter_In in Hq as [Hq Hf]. apply list_elem_of_In in Hq.
    subst f. cbn in Hf. apply negb_true_iff, bool_decide_eq_false in Hf. split; [done|].
    apply list_elem_of_fmap in Hq as ([n q'] & -> & Hq). apply (map_elem_get _ _ _ Hwf) in Hq. destruct (Hk n q' Hq) as [<- ?]. done.
Qed.

(** ** Every function keeps it *)

Lemma launch_ok me n w :
  walk_ok me w → n ∉ order w → n ≠ me → within_budget w = true → room w = true → walk_ok me (launch n w).
Proof.
  intros [W1 W2 [W3 W3'] W4 [W5 W5'] (W6 & W7 & W8 & W9) W10 W11 W12 W13] Hn Hme Hb%bool_decide_eq_true Hr%bool_decide_eq_true.
  assert (Hno : n ∉ open w) by (intros Hin; by apply Hn, W3'). unfold open in *.
  assert (Hp : (asked w ++ [n]) ++ settling w ≡ₚ n :: asked w ++ settling w) by solve_Permutation.
  split; unfold open; cbn [launch order asked settling timers responded hints slow inFlight].
  - apply NoDup_app. split_and!; [done| |apply NoDup_singleton]. by intros m Hm ->%list_elem_of_singleton.
  - rewrite length_app. cbn. lia.
  - rewrite Hp. split; [by apply NoDup_cons|]. set_solver.
  - rewrite Hp. cbn. lia.
  - destruct (isBackground p); (split; [|intros m Hm; rewrite Hp; set_solver]); [done|]. apply NoDup_app.
    split_and!; [done| |apply NoDup_singleton]. intros m Hm ->%list_elem_of_singleton. by apply Hno, W5'.
  - split_and!; [done| | |done]; intros m Hm; [rewrite Hp; set_solver|]. destruct (isBackground p); [by apply W8|].
    rewrite elem_of_app, list_elem_of_singleton. intros [?| ->]; [by apply (W8 m)|]. by apply Hno, W7.
  - lia.
  - set_solver.
  - done.
  - set_solver.
Qed.

(** What [launch_all] leaves alone. *)
Record launched (w w' : walk) : Prop := {
  la_finished : finished w' = finished w;
  la_shed : shed w' = shed w;
  la_slow : slow w' = slow w;
  la_hints : hints w' = hints w;
  la_responded : responded w' = responded w;
  la_counts : responsesReceived w' = responsesReceived w ∧ novel w' = novel w;
  la_order : order w ⊆ order w';
  la_flight : (inFlight w ≤ inFlight w')%Z
}.

Lemma launch_all_ok me ps w :
  walk_ok me w → NoDup (Routing.nodeId <$> ps) → (∀ q, q ∈ ps → Routing.nodeId q ∉ order w ∧ Routing.nodeId q ≠ me) →
  walk_ok me (launch_all ps w) ∧ launched w (launch_all ps w).
Proof.
  revert w. induction ps as [|q ps IH]; intros w Hw Hnd Hps; cbn [launch_all]; [by split|].
  destruct (_ || _) eqn:Hstop; [by split|]. apply orb_false_iff in Hstop as [Hb%negb_false_iff Hr%negb_false_iff].
  rewrite fmap_cons in Hnd. apply NoDup_cons in Hnd as [Hq Hnd]. destruct (Hps q) as [Hqo Hqm]; [left|].
  destruct (IH (launch (Routing.nodeId q) w)) as [Hw' Hl]; [by apply launch_ok|done| |].
  - intros q' Hq'. destruct (Hps q') as [Ho Hm]; [by right|]. split; [|done]. cbn [launch order].
    rewrite elem_of_app, list_elem_of_singleton. intros [?|Heq]; [done|]. apply Hq. rewrite <- Heq. by apply list_elem_of_fmap_2.
  - split; [done|]. destruct Hl as [L1 L2 L3 L4 L5 L6 L7 L8]. split; try done; cbn in *; [set_solver|lia].
Qed.

(** Launching from a first candidate while there is room leaves a call in flight. *)
Lemma launch_all_some me q ps w :
  walk_ok me w → NoDup (Routing.nodeId <$> q :: ps) → (∀ q', q' ∈ q :: ps → Routing.nodeId q' ∉ order w ∧ Routing.nodeId q' ≠ me) →
  within_budget w = true → room w = true → (0 < inFlight (launch_all (q :: ps) w))%Z.
Proof.
  intros Hw Hnd Hps Hb Hr. cbn [launch_all]. rewrite Hb, Hr. cbn [negb orb]. destruct (Hps q) as [Hqo Hqm]; [left|].
  assert (Hw1 : walk_ok me (launch (Routing.nodeId q) w)) by by apply launch_ok.
  rewrite fmap_cons in Hnd. apply NoDup_cons in Hnd as [Hq Hnd].
  destruct (launch_all_ok me ps _ Hw1 Hnd) as [_ Hl].
  { intros q' Hq'. destruct (Hps q') as [Ho Hm]; [by right|]. split; [|done]. cbn [launch order].
    rewrite elem_of_app, list_elem_of_singleton. intros [?|Heq]; [done|]. apply Hq. rewrite <- Heq. by apply list_elem_of_fmap_2. }
  pose proof (la_flight _ _ Hl) as Hf. cbn [launch inFlight] in Hf. pose proof (wk_flight me w Hw). lia.
Qed.

(** Why a walk ends: it found the target, the closest peers all answered, or
    nothing is in flight and nothing is left to ask. *)
Definition reason (d : discovery) (w : walk) : Prop :=
  (stopOnFound p = true ∧ ∃ o r, finished w = Some o ∧ found o = Some r) ∨
  (stopOnFound p = false ∧ closest (target p) (alpha p) (routing d) ≠ [] ∧
   ∀ q, q ∈ closest (target p) (alpha p) (routing d) → Routing.nodeId q ∈ responded w) ∨
  (inFlight w = 0%Z ∧ (shed w = true ∨ Z.of_nat (length (order w)) = budget p ∨ candidates d w = [])).

Definition outcome_of (now : Z) (d : discovery) (w : walk) : outcome :=
  Outcome (get (target p) now d) (order w) ((Z.of_nat (length (order w)) + alpha p - 1) / alpha p)
    (responsesReceived w) (novel w) (shed w).

Lemma finish_unfinished now d w : finished w = None → finish now d w = with_finished (Some (outcome_of now d w)) w.
Proof. unfold finish. by intros ->. Qed.

Lemma with_finished_ok me o w : walk_ok me w → walk_ok me (with_finished o w).
Proof. by intros [ ]. Qed.

(** A walk that was not finished, after [pump]: it goes on, or it has ended
    with the outcome of this moment, for a reason. *)
Definition pumped (now : Z) (d : discovery) (w' : walk) : Prop :=
  (finished w' = None ∧ (0 < inFlight w')%Z) ∨ (finished w' = Some (outcome_of now d w') ∧ reason d w').

Lemma pump_walk_ok me now d w :
  (1 ≤ alpha p)%Z → walk_ok me w → Routing.wf (routing d) → localNodeId (routing d) = me → finished w = None →
  walk_ok me (pump now d w) ∧ pumped now d (pump now d w).
Proof.
  intros Ha Hw Hr Hl Hf. unfold pump, is_finished. rewrite Hf. rewrite bool_decide_eq_false_2 by by intros [? [=]].
  destruct (stopOnFound p && _ && _) eqn:Hs.
  { apply andb_true_iff in Hs as [Hs Hg%bool_decide_eq_true]. apply andb_true_iff in Hs as [Hs _].
    rewrite finish_unfinished by done. split; [by apply with_finished_ok|]. right. split; [done|]. left. split; [done|].
    destruct Hg as [r Hg]. eexists _, r. split; [reflexivity|]. exact Hg. }
  clear Hs. destruct (candidates_ok d w me Hw Hr Hl) as [Hnd Hc]. destruct (launch_all_ok me _ w Hw Hnd Hc) as [Hwl Hll].
  set (go := negb (shed w) && within_budget w && room w).
  assert (H1 : walk_ok me (if go then launch_all (candidates d w) w else w) ∧ finished (if go then launch_all (candidates d w) w else w) = None).
  { destruct go; [|done]. split; [done|]. by rewrite (la_finished _ _ Hll). }
  destruct H1 as [Hw1 Hf1]. case_bool_decide as Hz.
  2: { split; [done|]. left. split; [done|]. pose proof (wk_flight me _ Hw1). lia. }
  rewrite finish_unfinished by done. split; [by apply with_finished_ok|]. right. split; [done|]. right; right.
  split; [done|]. subst go. destruct (shed w) eqn:Hsh; [by left|]. right. cbn [negb andb] in *.
  destruct (within_budget w) eqn:Hb; cbn [andb] in *.
  2: { left. apply bool_decide_eq_false in Hb. pose proof (wk_budget me w Hw). cbn. lia. }
  assert (Hroom : room w = true).
  { apply bool_decide_eq_true. assert (inFlight w = 0%Z); [|lia]. destruct (room w); [|done].
    pose proof (la_flight _ _ Hll). pose proof (wk_flight me w Hw). cbn [andb] in Hz. lia. }
  rewrite Hroom in *. right. destruct (candidates d w) as [|q qs] eqn:Hq; [cbn in *; done|].
  exfalso. pose proof (launch_all_some me q qs w Hw Hnd Hc Hb Hroom). lia.
Qed.

Lemma return_slot_ok me n w :
  walk_ok me w → n ∈ settling w → walk_ok me (return_slot n w).
Proof.
  intros [W1 W2 [W3 W3'] W4 [W5 W5'] (W6 & W7 & W8 & W9) W10 W11 W12 W13] Hn. unfold open in *.
  assert (Hna : n ∉ asked w) by (apply NoDup_app in W3 as (_ & W3 & _); intros Hin; by apply (W3 n)).
  assert (Hopen : asked w ++ without n (settling w) = without n (asked w ++ settling w)).
  { unfold without. rewrite filter_app. fold (without n (asked w)). by rewrite (without_notin n (asked w)). }
  pose proof (length_without n (asked w ++ settling w) W3) as Hlen. rewrite decide_True in Hlen by set_solver.
  pose proof (length_without n (slow w) W6) as Hls.
  split; unfold open; cbn [return_slot order asked settling timers responded hints slow inFlight]; try done.
  - rewrite Hopen. split; [by apply NoDup_without|]. intros m [_ Hm]%elem_of_without. by apply W3'.
  - rewrite Hopen. lia.
  - split; [by apply NoDup_without|]. intros m [Hne Hm]%elem_of_without. rewrite Hopen. apply elem_of_without. split; [done|by apply W5'].
  - split_and!; [by apply NoDup_without| | |].
    + intros m [Hne Hm]%elem_of_without. rewrite Hopen. apply elem_of_without. split; [done|by apply W7].
    + intros m [Hne Hm]%elem_of_without [_ Ht]%elem_of_without. by apply (W8 m).
    + destruct (decide _); lia.
  - destruct (decide _); lia.
Qed.

Lemma settle_ok me n w : walk_ok me w → n ∈ asked w → walk_ok me (settle n w) ∧ inFlight (settle n w) = inFlight w.
Proof.
  intros [W1 W2 [W3 W3'] W4 [W5 W5'] (W6 & W7 & W8 & W9) W10 W11 W12 W13] Hn. split; [|done]. unfold open in *.
  assert (Hp : without n (asked w) ++ settling w ++ [n] ≡ₚ asked w ++ settling w).
  { apply NoDup_app in W3 as (Ha & _ & _). assert (E : asked w ≡ₚ n :: without n (asked w)); [|rewrite E at 2; solve_Permutation].
    apply NoDup_Permutation; [done| |].
    - apply NoDup_cons. split; [rewrite elem_of_without; tauto|by apply NoDup_without].
    - intros m. rewrite elem_of_cons, elem_of_without. destruct (decide (m = n)) as [->|]; tauto. }
  split; unfold open; cbn [settle order asked settling timers responded hints slow inFlight]; try done; rewrite ?Hp; try done.
Qed.

Lemma converged_ok me d w : walk_ok me w → walk_ok me (converged d w).1 ∧ finished (converged d w).1 = finished w ∧
  ((converged d w).2 = true → finished w = None → ∀ now, reason d (with_finished (Some (outcome_of now d (converged d w).1)) (converged d w).1)).
Proof.
  intros Hw. unfold converged. destruct (stopOnFound p) eqn:Hs; [done|]. cbn [fst snd].
  split; [by destruct Hw|]. split; [done|]. intros Hc _ now. apply andb_true_iff in Hc as [Hc Hall].
  apply andb_true_iff in Hc as [_ Hne]. right; left. split; [done|]. split.
  - intros Hnil. by rewrite Hnil in Hne.
  - intros q Hq. rewrite forallb_forall in Hall. specialize (Hall (Routing.nodeId q)). cbn.
    rewrite bool_decide_eq_true in Hall. apply Hall, list_elem_of_In. by apply list_elem_of_fmap_2.
Qed.

(** ** The invariant of discovery and walk together *)

Definition sound_outcome (o : outcome) : Prop :=
  ∀ r, found o = Some r → ∃ now, leaseLive r now = true ∧ oprop r "nodeId" = JStr (target p) ∧ well_named r ∧ vouched r.

Record inv (me : string) (s : discovery * walk) : Prop := {
  i_store : store_ok s.1;
  i_self : self s.1 = me;
  i_walk : walk_ok me s.2;
  i_going : going s.2;
  i_outcome : ∀ o, finished s.2 = Some o → sound_outcome o ∧ queried o = order s.2
}.

Lemma get_sound now d n r :
  store_ok d → get n now d = Some r → leaseLive r now = true ∧ oprop r "nodeId" = JStr n ∧ well_named r ∧ vouched r.
Proof.
  intros Hd. unfold get. destruct (map_get n (records d)) as [q|] eqn:Hq; [|done]. destruct (leaseLive q now) eqn:Hl; [|done].
  intros [= <-]. destruct (so_records d Hd n q Hq) as (? & ? & ?). done.
Qed.

Lemma outcome_sound now d w : store_ok d → sound_outcome (outcome_of now d w) ∧ queried (outcome_of now d w) = order w.
Proof. intros Hd. split; [|done]. intros r Hr. exists now. by apply get_sound with d. Qed.

Lemma pumped_inv me now d w' : store_ok d → self d = me → walk_ok me w' → pumped now d w' → inv me (d, w').
Proof.
  intros Hd Hs Hw Hp. split; [done..| |]; cbn.
  - intros Hf. destruct Hp as [ [_ ?]|[Hf' _] ]; [done|congruence].
  - intros o Ho. destruct Hp as [ [Hf _]|[Hf _] ]; [congruence|]. rewrite Hf in Ho. injection Ho as <-. by apply outcome_sound.
Qed.

Lemma is_finished_None w : finished w = None → is_finished w = false.
Proof. intros Hf. unfold is_finished. rewrite Hf. apply bool_decide_eq_false_2. by intros [? [=]]. Qed.

Lemma is_finished_Some w o : finished w = Some o → is_finished w = true.
Proof. intros Hf. unfold is_finished. rewrite Hf. by apply bool_decide_eq_true_2. Qed.

Lemma pump_finished now d w o : finished w = Some o → pump now d w = w.
Proof. intros Hf. unfold pump. by rewrite (is_finished_Some w o Hf). Qed.

(** What an event does to a walk: a finished one stays as it ended. *)
Definition moved (now : Z) (d : discovery) (w w' : walk) : Prop :=
  match finished w with
  | None => pumped now d w'
  | Some o => finished w' = Some o ∧ order w' = order w
  end.

Lemma final_ok me now n d w :
  (1 ≤ alpha p)%Z → store_ok d → self d = me → walk_ok me w → n ∈ settling w →
  walk_ok me (final now n d w) ∧ moved now d w (final now n d w).
Proof.
  intros Ha Hd Hs Hw Hn. pose proof (return_slot_ok me n w Hw Hn) as Hw1. destruct (so_routing d Hd) as [Hr Hl]. rewrite Hs in Hl.
  unfold final, moved. set (w1 := return_slot n w) in *. assert (Hf1 : finished w1 = finished w) by done. rewrite <- Hf1.
  destruct (finished w1) as [o|] eqn:Hf.
  { rewrite (is_finished_Some w1 o Hf), (pump_finished now d w1 o Hf). done. }
  rewrite (is_finished_None w1 Hf). destruct (converged_ok me d w1 Hw1) as (Hw2 & Hf2 & Hc).
  destruct (converged d w1) as [w2 [] ]; cbn [fst snd] in *; rewrite Hf in Hf2.
  - rewrite finish_unfinished by done. split; [by apply with_finished_ok|]. right. split; [done|]. by apply Hc.
  - by apply pump_walk_ok.
Qed.

Lemma hedge_ok me now n d w :
  (1 ≤ alpha p)%Z → store_ok d → self d = me → walk_ok me w → going w → n ∈ timers w →
  walk_ok me (hedge now n d w) ∧
  (finished (hedge now n d w) = finished w ∧ order (hedge now n d w) = order w ∧ inFlight (hedge now n d w) = inFlight w ∨
   finished w = None ∧ pumped now d (hedge now n d w)).
Proof.
  intros Ha Hd Hs Hw Hg Hn. destruct (so_routing d Hd) as [Hr Hl]. rewrite Hs in Hl. unfold hedge. cbv zeta.
  destruct Hw as [W1 W2 W3 W4 [W5 W5'] (W6 & W7 & W8 & W9) W10 W11 W12 W13].
  assert (Hns : n ∉ slow w) by (intros Hin; by apply (W8 n)).
  destruct (is_finished w || _) eqn:Hstop.
  - split; [|by left]. split; try done; cbn [timers slow].
    + split; [by apply NoDup_without|]. intros m [_ Hm]%elem_of_without. by apply W5'.
    + split_and!; try done. intros m Hm [_ Ht]%elem_of_without. by apply (W8 m).
  - apply orb_false_iff in Hstop as [Hf Hsl%bool_decide_eq_false]. unfold is_finished in Hf. apply bool_decide_eq_false in Hf.
    assert (Hf' : finished w = None) by (destruct (finished w); [by destruct Hf|done]).
    match goal with |- context [pump now d ?x] => set (w1 := x) end.
    assert (Hw1 : walk_ok me w1).
    { subst w1. split; try done; cbn [timers slow inFlight].
      - split; [by apply NoDup_without|]. intros m [_ Hm]%elem_of_without. by apply W5'.
      - split_and!.
        + apply NoDup_app. split_and!; [done| |apply NoDup_singleton]. by intros m Hm ->%list_elem_of_singleton.
        + intros m [Hm|Hm]%elem_of_app; [by apply W7|]. apply list_elem_of_singleton in Hm as ->. by apply W5'.
        + intros m [Hm|Hm]%elem_of_app [Hne Ht]%elem_of_without; [by apply (W8 m)|]. by apply list_elem_of_singleton in Hm.
        + rewrite length_app. cbn. lia.
      - rewrite length_app. cbn. lia. }
    destruct (pump_walk_ok me now d w1 Ha Hw1 Hr Hl Hf') as [Hp1 Hp2]. split; [done|]. by right.
Qed.

Context {HS : HashShape _}.

Lemma ingest_each_ok now clock l d : store_ok d → store_ok (ingest_all now clock l d).1 ∧ self (ingest_all now clock l d).1 = self d.
Proof.
  revert d. induction l as [|r l IH]; intros d Hd; [done|]. cbn [ingest_all].
  pose proof (ingest_ok now clock false true r d Hd) as [_ Hd1]. pose proof (ingest_stays now clock false true r d) as Hs.
  destruct (ingest now clock false true r d) as [d1 [i|e] ]; [|done]. cbn [fst] in *.
  destruct (IH d1 Hd1) as [Hd' Hs']. destruct (ingest_all now clock l d1) as [d' [n all] ]. cbn [fst] in *. split; [done|congruence].
Qed.

(** What an answer may hold as hints: records that name their node. *)
Definition named_hint (r : jval) : Prop := ∃ n, oprop r "nodeId" = JStr n.

Lemma add_hints_ok now d hs l :
  Forall named_hint l → map_wf hs → (∀ n q, (n, q) ∈ hs → Routing.nodeId q = n ∧ n ≠ self d) →
  map_wf (foldl (add_hint now d) hs l) ∧ ∀ n q, (n, q) ∈ foldl (add_hint now d) hs l → Routing.nodeId q = n ∧ n ≠ self d.
Proof.
  revert hs. induction l as [|r l IH]; intros hs Hl Hw Hh; [done|]. apply Forall_cons in Hl as [ [m Hm] Hl]. cbn [foldl].
  apply IH; [done| |].
  - unfold add_hint. destruct (_ && _); [by apply map_wf_set|done].
  - intros n q. unfold add_hint. rewrite Hm. cbn [to_string]. destruct (_ && _) eqn:E; [|apply Hh].
    apply andb_true_iff in E as [E _]. apply andb_true_iff in E as [_ E%negb_true_iff]. intros Hin.
    apply (map_elem_get _ _ _ (map_wf_set m _ hs Hw)) in Hin. rewrite map_get_set in Hin. destruct (decide (n = m)) as [->|].
    + injection Hin as <-. split; [done|]. intros ->. cbn in E. by rewrite bool_decide_eq_true_2 in E.
    + apply Hh. by apply map_get_elem.
Qed.

(** ** Every event keeps it *)

Definition enabled (e : event) (s : discovery * walk) : Prop :=
  match e with
  | Replied n _ _ _ stale => n ∈ asked s.2 ∧ Forall named_hint stale
  | Failed n _ => n ∈ asked s.2
  | Finally n _ => n ∈ settling s.2
  | Hedge n _ => n ∈ timers s.2
  | Other d' => store_ok d' ∧ self d' = self s.1
  end.

(** What an event does to the end of the walk. *)
Definition ends_well (s s' : discovery * walk) : Prop :=
  match finished s.2 with
  | Some o => finished s'.2 = Some o
  | None => ∀ o, finished s'.2 = Some o → ∃ now, o = outcome_of now s'.1 s'.2 ∧ reason s'.1 s'.2
  end.

Lemma answer_ok me now clock n records stale d w :
  store_ok d → self d = me → walk_ok me w → n ∈ order w → Forall named_hint stale →
  ∃ d' w', answer now clock n records stale w d = (d', w') ∧ store_ok d' ∧ self d' = me ∧ walk_ok me w' ∧
    finished w' = finished w ∧ order w' = order w ∧ inFlight w' = inFlight w ∧
    asked w' = asked w ∧ settling w' = settling w ∧ timers w' = timers w.
Proof.
  intros Hd Hs Hw Hn Hst. unfold answer. destruct (ingest_each_ok now clock records d Hd) as [Hd1 Hs1].
  destruct (ingest_all now clock records d) as [d1 [k all] ]. cbn [fst] in *. eexists d1, _. split; [reflexivity|].
  split; [done|]. split; [congruence|]. split; [|done].
  destruct Hw as [W1 W2 W3 W4 W5 W6 W10 W11 [W12 W12'] W13]. split; try done; cbn [responded order hints].
  - intros m [Hm|Hm]%elem_of_app; [by apply W11|]. by apply list_elem_of_singleton in Hm as ->.
  - destruct all; [|done]. rewrite <- Hs, <- Hs1. apply add_hints_ok; [done..|]. intros m q Hq. rewrite Hs1, Hs. by apply W12'.
Qed.

(** A step that leaves the end of the walk and its calls in flight alone. *)
Lemma quiet_inv me s d' w' :
  inv me s → store_ok d' → self d' = me → walk_ok me w' →
  finished w' = finished s.2 → order w' = order s.2 → inFlight w' = inFlight s.2 →
  inv me (d', w') ∧ ends_well s (d', w').
Proof.
  intros [_ _ _ Hg Ho] Hd Hs Hw Hf Hor Hi. split; [split; try done; cbn|].
  - intros Hn. rewrite Hi. apply Hg. congruence.
  - intros o Hfo. rewrite Hor. apply Ho. congruence.
  - unfold ends_well. cbn. destruct (finished s.2) as [o|] eqn:E; [done|]. intros o Ho'. congruence.
Qed.

(** A step that pumps. *)
Lemma moved_inv me now d w w' :
  inv me (d, w) → store_ok d → self d = me → walk_ok me w' → moved now d w w' → inv me (d, w') ∧ ends_well (d, w) (d, w').
Proof.
  intros [_ _ _ Hg Ho] Hd Hs Hw Hm. unfold moved, ends_well in *. cbn [fst snd] in *. destruct (finished w) as [o|] eqn:Hf.
  - destruct Hm as [Hf' Hor]. split; [|done]. split; try done; cbn; [intros Hn; congruence|]. rewrite Hf', Hor. intros o' [= <-]. by apply Ho.
  - split; [by eapply pumped_inv|]. intros o Ho'. destruct Hm as [ [Hn _]|[Hfo Hr] ]; [congruence|]. exists now. split; [congruence|done].
Qed.

Lemma walk_step_ok me e s :
  (1 ≤ alpha p)%Z → inv me s → enabled e s → inv me (step e s) ∧ ends_well s (step e s).
Proof.
  intros Ha Hi He. destruct s as [d w]. pose proof Hi as [Hd Hs Hw Hg Ho]. cbn [fst snd] in *.
  destruct e as [n now clock records stale|n busy|n now|n now|d']; cbn [step enabled fst snd] in *.
  - destruct He as [Hn Hst]. destruct (settle_ok me n w Hw Hn) as [Hw1 _].
    destruct (answer_ok me now clock n records stale d (settle n w) Hd Hs Hw1) as (d' & w' & -> & Hd' & Hs' & Hw' & Hf & Hor & Hfl & _); [|done|].
    + apply (proj2 (wk_open me w Hw)). apply elem_of_app. by left.
    + by apply quiet_inv.
  - destruct (settle_ok me n w Hw He) as [Hw1 _]. apply quiet_inv; try done. by destruct Hw1.
  - destruct (final_ok me now n d w Ha Hd Hs Hw He) as [Hw' Hm]. by eapply moved_inv.
  - destruct (hedge_ok me now n d w Ha Hd Hs Hw Hg He) as [Hw' [(Hf & Hor & Hfl)|[Hf Hp] ] ]; [by apply quiet_inv|].
    apply (moved_inv me now); try done. unfold moved. by rewrite Hf.
  - destruct He as [Hd' Hs']. apply quiet_inv; try done. congruence.
Qed.

(** ** Progress *)

(** What is left of a walk: three events for each node it may still ask. *)
Definition left_over (w : walk) : Z :=
  3 * (budget p - Z.of_nat (length (order w))) + 2 * Z.of_nat (length (asked w)) + Z.of_nat (length (settling w)) +
  Z.of_nat (length (timers w)).

Lemma left_over_nonneg me w : walk_ok me w → (0 ≤ left_over w)%Z.
Proof. intros Hw. pose proof (wk_budget me w Hw). unfold left_over. lia. Qed.

Lemma left_over_new : left_over new_walk = (3 * budget p)%Z.
Proof. unfold left_over, new_walk. cbn [order asked settling timers length]. lia. Qed.

Lemma launch_left n w : (left_over (launch n w) ≤ left_over w)%Z.
Proof. unfold left_over. cbn. rewrite !length_app. cbn. destruct (isBackground p); rewrite ?length_app; cbn; lia. Qed.

Lemma launch_all_left ps w : (left_over (launch_all ps w) ≤ left_over w)%Z.
Proof.
  revert w. induction ps as [|q ps IH]; intros w; cbn [launch_all]; [done|]. destruct (_ || _); [done|].
  etrans; [apply IH|apply launch_left].
Qed.

Lemma finish_left now d w : left_over (finish now d w) = left_over w.
Proof. unfold finish. by destruct (finished w). Qed.

Lemma pump_left now d w : (left_over (pump now d w) ≤ left_over w)%Z.
Proof.
  unfold pump. destruct (is_finished w); [done|]. destruct (_ && _ && _); [by rewrite finish_left|]. cbv zeta.
  destruct (negb _ && _ && _); destruct (bool_decide _); rewrite ?finish_left; try done; apply launch_all_left.
Qed.

Lemma length_without_in n l : NoDup l → n ∈ l → length l = S (length (without n l)).
Proof. intros Hl Hn. rewrite (length_without n l Hl), decide_True by done. lia. Qed.

Lemma length_without_le n l : NoDup l → length (without n l) ≤ length l.
Proof. intros Hl. rewrite (length_without n l Hl). lia. Qed.

Definition counts (e : event) : bool := match e with Other _ => false | _ => true end.

Lemma step_left me e s :
  (1 ≤ alpha p)%Z → inv me s → enabled e s →
  (left_over (step e s).2 + (if counts e then 1 else 0) ≤ left_over s.2)%Z.
Proof.
  intros Ha Hi He. destruct s as [d w]. pose proof Hi as [Hd Hs Hw Hg Ho]. cbn [fst snd] in *.
  assert (Hna : NoDup (asked w) ∧ NoDup (settling w)) by (pose proof (proj1 (wk_open me w Hw)) as Hn; by apply NoDup_app in Hn as (? & _ & ?)).
  destruct Hna as [Hna Hns]. pose proof (proj1 (wk_timers me w Hw)) as Hnt.
  destruct e as [n now clock records stale|n busy|n now|n now|d']; cbn [step enabled fst snd counts] in *.
  - destruct He as [Hn Hst]. destruct (settle_ok me n w Hw Hn) as [Hw1 _].
    destruct (answer_ok me now clock n records stale d (settle n w) Hd Hs Hw1) as (d' & w' & -> & _ & _ & _ & _ & Hor & _ & E1 & E2 & E3); [|done|].
    + apply (proj2 (wk_open me w Hw)). apply elem_of_app. by left.
    + unfold left_over. cbn [snd]. rewrite Hor, E1, E2, E3. cbn. rewrite length_app. pose proof (length_without_in n (asked w) Hna Hn). cbn. lia.
  - unfold left_over. cbn. rewrite length_app. pose proof (length_without_in n (asked w) Hna He). cbn. lia.
  - pose proof (length_without_in n (settling w) Hns He). pose proof (length_without_le n (timers w) Hnt).
    assert (Hl : (left_over (return_slot n w) + 1 ≤ left_over w)%Z) by (unfold left_over; cbn; lia).
    unfold final. destruct (is_finished (return_slot n w)); [pose proof (pump_left now d (return_slot n w)); lia|].
    destruct (converged d (return_slot n w)) as [w2 b] eqn:Hc. assert (E : left_over w2 = left_over (return_slot n w)).
    { unfold converged in Hc. destruct (stopOnFound p); by injection Hc as <- _. }
    destruct b; [rewrite finish_left; lia|pose proof (pump_left now d w2); lia].
  - pose proof (length_without_in n (timers w) Hnt He). unfold hedge. cbv zeta. destruct (_ || _); [unfold left_over; cbn; lia|].
    match goal with |- context [pump now d ?x] => pose proof (pump_left now d x) as Hp end. unfold left_over in *. cbn in *. lia.
  - lia.
Qed.

(** ** Whole walks *)

Fixpoint legal (es : list event) (s : discovery * walk) : Prop :=
  match es with
  | [] => True
  | e :: es => enabled e s ∧ legal es (step e s)
  end.

Lemma legal_cons e es s s' : enabled e s → step e s = s' → legal es s' → legal (e :: es) s.
Proof. by intros He <- Hl. Qed.

Lemma start_ok now d :
  (1 ≤ alpha p)%Z → (0 ≤ budget p)%Z → store_ok d → inv (self d) (start now d) ∧ ends_well (d, new_walk) (start now d).
Proof.
  intros Ha Hb Hd. destruct (so_routing d Hd) as [Hr Hl].
  assert (Hw : walk_ok (self d) new_walk).
  { split; cbn; try done; try lia; [constructor|by split; [constructor|]|by split; [constructor|]| | |by intros ?%elem_of_nil].
    - split_and!; [constructor|done|by intros n ?%elem_of_nil|cbn; lia].
    - split; [constructor|by intros n q ?%elem_of_nil]. }
  destruct (pump_walk_ok (self d) now d new_walk Ha Hw Hr Hl eq_refl) as [Hw' Hp]. split; [by eapply pumped_inv|].
  unfold ends_well. change (finished (d, new_walk).2) with (@None outcome). cbv iota. intros o Ho.
  change (finished (start now d).2) with (finished (pump now d new_walk)) in Ho.
  destruct Hp as [ [Hn _]|[Hfo Hr'] ]; [rewrite Hn in Ho; discriminate Ho|]. exists now. rewrite Hfo in Ho. by injection Ho as <-.
Qed.

Lemma run_ok me es s :
  (1 ≤ alpha p)%Z → inv me s → legal es s →
  inv me (run es s) ∧
  (left_over (run es s).2 + Z.of_nat (length (List.filter counts es)) ≤ left_over s.2)%Z.
Proof.
  intros Ha. revert s. induction es as [|e es IH]; intros s Hi Hl; [cbn; split; [done|lia]|]. destruct Hl as [He Hl].
  destruct (walk_step_ok me e s Ha Hi He) as [Hi' _]. pose proof (step_left me e s Ha Hi He) as Hs. destruct (IH (step e s) Hi' Hl) as [Hi'' Hl''].
  split; [done|]. change (run (e :: es) s) with (run es (step e s)). cbn [List.filter]. destruct (counts e); cbn [length]; lia.
Qed.

End functions.

Lemma walk_plan_ok t a m sf bg :
  (1 ≤ alpha (walk_plan t a m sf bg))%Z ∧ (0 ≤ budget (walk_plan t a m sf bg))%Z.
Proof. cbn. split; [lia|]. apply Z.mul_nonneg_nonneg; lia. Qed.

Context {HS : HashShape _}.

(** C25: however answers, failures, timers and other changes of the records
    interleave, a walk asks each node at most once, never itself and never more
    than its budget; it has at most [2 * alpha] calls in flight, exactly those
    asked and not yet finished; and when it has found a record, the record was
    live, names the target and its content truthfully and carries a checked
    signature. *)
Theorem walk_sound t a m sf bg now d es :
  let p := walk_plan t a m sf bg in
  store_ok d → legal p es (start p now d) →
  let w := (run p es (start p now d)).2 in
  NoDup (order w) ∧ self d ∉ order w ∧ (Z.of_nat (length (order w)) ≤ budget p)%Z ∧
  inFlight w = Z.of_nat (length (asked w ++ settling w)) ∧ (inFlight w ≤ 2 * alpha p)%Z ∧
  ∀ o r, finished w = Some o → found o = Some r →
    (∃ now, leaseLive r now = true) ∧ oprop r "nodeId" = JStr t ∧ well_named r ∧ vouched r.
Proof.
  intros p Hd Hl w. destruct (walk_plan_ok t a m sf bg) as [Ha Hb]. fold p in Ha, Hb.
  destruct (start_ok p now d Ha Hb Hd) as [Hi _]. destruct (run_ok p (self d) es _ Ha Hi Hl) as [ [_ _ Hw _ Ho] _]. fold w in Hw, Ho.
  pose proof (wk_room p _ w Hw). destruct (wk_slow p _ w Hw) as (_ & _ & _ & Hs).
  split_and!; [apply Hw|apply Hw|apply Hw|apply Hw|lia|]. intros o r Hf Hr. destruct (Ho o Hf) as [Hso _].
  destruct (Hso r Hr) as (now' & ? & ? & ? & ?). split_and!; try done. by exists now'.
Qed.

(** C7: a walk ends.  As long as it has not, a call is in flight whose answer,
    failure or conclusion is an event of the walk, and it takes at most three
    events for each node of its budget, whatever else changes meanwhile. *)
Theorem walk_ends t a m sf bg now d es :
  let p := walk_plan t a m sf bg in
  store_ok d → legal p es (start p now d) →
  let s := run p es (start p now d) in
  (Z.of_nat (length (List.filter counts es)) ≤ 3 * budget p)%Z ∧
  (finished s.2 = None → ∃ e, counts e = true ∧ enabled e s).
Proof.
  intros p Hd Hl s. destruct (walk_plan_ok t a m sf bg) as [Ha Hb]. fold p in Ha, Hb.
  destruct (start_ok p now d Ha Hb Hd) as [Hi _]. destruct (run_ok p (self d) es _ Ha Hi Hl) as [Hi' Hle].
  fold s in Hi', Hle. destruct Hi' as [_ _ Hw Hg _]. split.
  - pose proof (pump_left p now d new_walk) as Hp. change (pump p now d new_walk) with (start p now d).2 in Hp.
    pose proof (left_over_nonneg p _ _ Hw). rewrite left_over_new in Hp. lia.
  - intros Hf. specialize (Hg Hf). rewrite (wk_flight p _ _ Hw) in Hg. unfold open in Hg. rewrite length_app in Hg.
    destruct (asked s.2) as [|n l] eqn:E1; [destruct (settling s.2) as [|n l] eqn:E2; [cbn in Hg; lia|]|].
    + exists (Finally n 0). split; [done|]. cbn. rewrite E2. left.
    + exists (Failed n false). split; [done|]. cbn. rewrite E1. left.
Qed.

(** C6: a walk ends for a reason, with what the records then hold: it found the
    target it was to stop at; or the [alpha] nearest contacts of the target have
    all answered; or nothing is in flight and the network pushed back, the
    budget is spent, or every contact and hint near the target has been asked.
    Once ended it stays as it ended. *)
Theorem walk_reason t a m sf bg now d es e :
  let p := walk_plan t a m sf bg in
  store_ok d → legal p (es ++ [e]) (start p now d) →
  let s := run p es (start p now d) in
  (finished s.2 = None → ∀ o, finished (step p e s).2 = Some o →
    (∃ now, o = outcome_of p now (step p e s).1 (step p e s).2) ∧ reason p (step p e s).1 (step p e s).2) ∧
  (∀ o, finished s.2 = Some o → finished (step p e s).2 = Some o).
Proof.
  intros p Hd Hl s. destruct (walk_plan_ok t a m sf bg) as [Ha Hb]. fold p in Ha, Hb.
  destruct (start_ok p now d Ha Hb Hd) as [Hi _].
  assert (Hsp : legal p es (start p now d) ∧ enabled e s).
  { subst s. revert Hl. generalize (start p now d). clear. induction es as [|x es IH]; intros s; cbn [app legal].
    - intros [He _]. done.
    - intros [Hx Hl]. apply IH in Hl as [Hl He]. done. }
  destruct Hsp as [Hle He]. destruct (run_ok p (self d) es _ Ha Hi Hle) as [Hi' _]. fold s in Hi'.
  destruct (walk_step_ok p (self d) e s Ha Hi' He) as [_ Hw]. unfold ends_well in Hw. destruct (finished s.2) as [o|]; (split; [done || intros _|congruence || done]).
  intros o Ho. destruct (Hw o Ho) as (now' & -> & Hr). split; [by exists now'|done].
Qed.

End walk.

(** ** A concrete walk *)

#[local] Existing Instance toy_coercions.

Definition toy_third : jval :=
  JObj [("nodeId", JStr (match nodeIdFromPublicKey (H := Toy.host) (JStr "third") with Ok s => s | Throw _ => "" end));
        ("publicKeyPem", JStr "third"); ("privateKeyPem", JStr "third-priv")].
Definition toy_target : string := to_string (oprop toy_third "nodeId").
Definition toy_found : jval :=
  match createPeerRecord (H := Toy.host) toy_third (JArr [JStr "quic://t"]) (JNum (JInt 1)) 9000 (JArr []) JUndef JUndef
          (JStr "2026-10-13T12:30:00.000Z") 0 with
  | Ok kvs => JObj kvs
  | Throw _ => JNull
  end.
Definition toy_plan : plan := walk_plan toy_target (JNum (JInt 2)) JUndef true false.
Definition toy_first : list event := [Hedge toy_node toy_now; Replied toy_node toy_now toy_now [toy_found] []].
Definition toy_events : list event := toy_first ++ [Finally toy_node toy_now].

Definition toy_start : discovery * walk := start (H := Toy.host) toy_plan toy_now toy_store.
Definition toy_hedged : discovery * walk := step (H := Toy.host) toy_plan (Hedge toy_node toy_now) toy_start.
Definition toy_replied : discovery * walk :=
  step (H := Toy.host) toy_plan (Replied toy_node toy_now toy_now [toy_found] []) toy_hedged.

Lemma toy_legal : legal (H := Toy.host) toy_plan toy_events toy_start.
Proof.
  assert (E1 : timers toy_start.2 = [toy_node]) by (vm_compute; reflexivity).
  assert (E2 : asked toy_hedged.2 = [toy_node]) by (vm_compute; reflexivity).
  assert (E3 : settling toy_replied.2 = [toy_node]) by (vm_compute; reflexivity).
  unfold toy_events, toy_first. cbn [app]. apply legal_cons with toy_hedged; [unfold enabled; rewrite E1; left|unfold toy_hedged; reflexivity|].
  apply legal_cons with toy_replied; [unfold enabled; rewrite E2; split; [left|constructor]|unfold toy_replied; reflexivity|].
  apply legal_cons with (step (H := Toy.host) toy_plan (Finally toy_node toy_now) toy_replied);
    [unfold enabled; rewrite E3; left|reflexivity|exact I].
Qed.

Definition toy_end : walk := (run (H := Toy.host) toy_plan toy_events toy_start).2.

Lemma walk_sound_witness :
  order toy_end = [toy_node] ∧ ∃ o, finished toy_end = Some o ∧ ∃ r, found o = Some r ∧ oprop r "nodeId" = JStr toy_target.
Proof.
  pose proof (walk_sound (H := Toy.host) toy_target (JNum (JInt 2)) JUndef true false toy_now toy_store toy_events toy_discovery_ok toy_legal) as Hf.
  cbv zeta in Hf. set (w := (run _ _ _).2) in Hf. assert (G : w = toy_end) by (unfold w, toy_end, toy_start, toy_plan; reflexivity).
  rewrite G in Hf. clear G w. destruct Hf as (_ & _ & _ & _ & _ & Hf). split; [vm_compute; reflexivity|].
  assert (E : (match finished toy_end with Some o => found o | None => None end) = Some toy_found) by (vm_compute; reflexivity).
  destruct (finished toy_end) as [o|]; [|discriminate E]. exists o. split; [reflexivity|]. exists toy_found. split; [exact E|].
  destruct (Hf o toy_found eq_refl E) as (_ & Hn & _). exact Hn.
Defined.

Lemma walk_ends_witness : (Z.of_nat (length (List.filter counts toy_events)) ≤ 3 * budget toy_plan)%Z ∧ budget toy_plan = 32%Z.
Proof.
  pose proof (walk_ends (H := Toy.host) toy_target (JNum (JInt 2)) JUndef true false toy_now toy_store toy_events toy_discovery_ok toy_legal) as Hb.
  cbv zeta in Hb. destruct Hb as [Hb _]. split; [exact Hb|reflexivity].
Defined.

Definition toy_before : discovery * walk := run (H := Toy.host) toy_plan toy_first toy_start.
Definition toy_after : discovery * walk := step (H := Toy.host) toy_plan (Finally toy_node toy_now) toy_before.

Lemma walk_reason_witness : finished toy_before.2 = None ∧ reason (H := Toy.host) toy_plan toy_after.1 toy_after.2.
Proof.
  assert (E : finished toy_before.2 = None) by (vm_compute; reflexivity). split; [exact E|].
  assert (F : match finished toy_after.2 with Some _ => true | None => false end = true) by (vm_compute; reflexivity).
  pose proof (walk_reason (H := Toy.host) toy_target (JNum (JInt 2)) JUndef true false toy_now toy_store toy_first
    (Finally toy_node toy_now) toy_discovery_ok toy_legal) as Hr.
  cbv zeta in Hr. fold toy_plan in Hr. 
  set (s := run _ _ _) in Hr. assert (G : s = toy_before) by (unfold s, toy_before, toy_start; reflexivity). clearbody s. subst s.
  destruct Hr as [Hr _]. specialize (Hr E). clear E. set (s' := step _ _ _) in Hr.
  assert (G : s' = toy_after) by (unfold s', toy_after; reflexivity). clearbody s'. subst s'.
  destruct (finished toy_after.2) as [o|]; [|discriminate F]. destruct (Hr o eq_refl) as [_ Hq]. exact Hq.
Defined.

End PeerWalk.
