(* ===== verification/PeerControl.v ===== *)
(** * The control handler of discovery

    Models [createQuicDiscoveryControlHandler] of network/discovery/quic-rpc.js,
    which serves the five discovery methods of other nodes from the records of
    [PeerRecords] and the record store of [DhtRecords], and what
    [QuicDiscoveryRpc] does with the answers.  The connection names the peer in
    [context]; the record of this node and the outcome of the persistence
    barrier are arguments. *)
From S2P Require Import Prelude JSMap JSValue Dates Host Protocol Kademlia DhtRecords PeerRecords PeerWalk.
Import Canonical Keys Ids.

Module PeerControl.

Definition QUIC_DHT_METHOD_PING : string := "dht.ping".
Definition QUIC_DISCOVERY_METHOD_FIND_NODE : string := "dht.find-node".
Definition QUIC_DISCOVERY_METHOD_ANNOUNCE : string := "peer.announce".
Definition QUIC_DHT_METHOD_STORE : string := "dht.store".
Definition QUIC_DHT_METHOD_FIND_VALUE : string := "dht.find-value".

(** The discovery, the record store if one is configured, and how often the
    persistence barrier was crossed. *)
Record server := Server { disc : PeerRecords.discovery; dht : option Records.store; persisted : nat }.

Section control.
Context `{Host} `{Coercions}.

Definition on_disc {A} (m : M PeerRecords.discovery A) : M server A := λ s,
  let '(d, r) := m (disc s) in (Server d (dht s) (persisted s), r).
Definition with_dht (st : Records.store) (s : server) : server := Server (disc s) (Some st) (persisted s).

Definition on_dht {A} (m : M Records.store A) : M server A := λ s,
  match dht s with
  | Some st => let '(st, r) := m st in (with_dht st s, r)
  | None => (s, Throw (error "dht_record_store_unavailable"))
  end.

Definition opt (o : option jval) : jval := default JNull o.

(** The record of this node, if it verifies. *)
Definition resolveLocalPeerRecord (now : Z) (local : jval) : M PeerRecords.discovery jval :=
  v ← PeerRecords.verify now false local;
  mret (match v with Accepted => local | Rejected _ => JNull end).

(** [Number.isInteger(maxRecords) && maxRecords > 0 ? maxRecords : discovery.k] *)
Definition answer_limit (maxRecords : jval) (d : PeerRecords.discovery) : Z :=
  match is_integer maxRecords with
  | Some n => if bool_decide (0 < n)%Z then n else PeerRecords.d_k d
  | None => PeerRecords.d_k d
  end.

(** A live record of a node, or a stored one. *)
Definition contact_of (now : Z) (n : string) (d : PeerRecords.discovery) : option jval :=
  match PeerRecords.get n now d with Some r => Some r | None => PeerRecords.hint n d end.

Definition ping (now : Z) (local context : jval) : M server jval :=
  s ← get_state;
  peerRecord ← on_disc (resolveLocalPeerRecord now local);
  mret (JObj [("pong", JBool true); ("nodeId", JStr (PeerRecords.self (disc s)));
              ("requesterNodeId", js_or (oprop context "peerNodeId") JNull); ("peerRecord", peerRecord)]).

Definition records_reply (l : list jval) : jval := JObj [("records", JArr l)].

Definition find_node (now : Z) (maxRecords local payload : jval) : M server jval :=
  match oprop payload "targetNodeId" with
  | JStr target =>
      if negb (nonempty_str target) then throw (error "targetNodeId is required")
      else
        s ← get_state;
        own ← (if bool_decide (target = PeerRecords.self (disc s)) then on_disc (resolveLocalPeerRecord now local) else mret JNull);
        if truthy own then mret (records_reply [own])
        else
          s ← get_state;
          match contact_of now target (disc s) with
          | Some direct => mret (records_reply [direct])
          | None =>
              mret (records_reply
                (omap (λ q, contact_of now (Routing.nodeId q) (disc s))
                   (Routing.closest target (answer_limit maxRecords (disc s)) (PeerRecords.routing (disc s)))))
          end
  | _ => throw (error "targetNodeId is required")
  end.

Definition announce (now clock : Z) (payload context : jval) : M server jval :=
  let record := oprop payload "record" in
  v ← on_disc (PeerRecords.verify now false record);
  match v with
  | Rejected reason => throw (error ("invalid_peer_record:" +:+ reason))
  | Accepted =>
      if truthy (oprop context "peerNodeId") && negb (strict_eq (oprop record "nodeId") (oprop context "peerNodeId"))
      then throw (error "peer_announce_identity_mismatch")
      else
        i ← on_disc (PeerRecords.ingest now clock false true record);
        match i with
        | PeerRecords.Refused reason => throw (error (if nonempty_str reason then reason else "peer_announce_rejected"))
        | PeerRecords.Taken _ _ _ _ =>
            mret (JObj [("accepted", JBool true); ("nodeId", oprop record "nodeId"); ("sequence", oprop record "sequence")])
        end
  end.

(** [persist] is the outcome of the barrier, if one is configured. *)
Definition store (now : Z) (persist : option (result unit)) (payload : jval) : M server jval :=
  s ← get_state;
  match dht s with
  | None => throw (error "dht_record_store_unavailable")
  | Some _ =>
      let record := oprop payload "record" in
      v ← on_dht (Records.verify now false record);
      match v with
      | Rejected reason => throw (error ("invalid_dht_record:" +:+ reason))
      | Accepted =>
          stored ← on_dht (Records.put now false true record);
          match stored with
          | Rejected reason => throw (error (if nonempty_str reason then reason else "dht_store_rejected"))
          | Accepted =>
              _ ← match persist with
                  | Some r => (_ ← lift_result r; modify (λ s, Server (disc s) (dht s) (S (persisted s))))
                  | None => mret tt
                  end;
              mret (JObj [("stored", JBool true); ("durable", JBool (bool_decide (is_Some persist)));
                          ("recordId", oprop record "recordId")])
          end
      end
  end.

Definition find_value (now : Z) (maxRecords payload : jval) : M server jval :=
  s ← get_state;
  match dht s with
  | None => throw (error "dht_record_store_unavailable")
  | Some _ =>
      match oprop payload "namespace", oprop payload "key" with
      | JStr ns, JStr key =>
          if negb (nonempty_str ns) || negb (nonempty_str key) then throw (error "dht namespace and key are required")
          else
            records ← on_dht (Records.get (JStr ns) (JStr key) now);
            let hints := omap (λ q, PeerRecords.get (Routing.nodeId q) now (disc s))
              (Routing.closest (ns +:+ ":" +:+ key) (answer_limit maxRecords (disc s)) (PeerRecords.routing (disc s))) in
            mret (JObj [("records", JArr records); ("hints", JArr hints)])
      | _, _ => throw (error "dht namespace and key are required")
      end
  end.

Definition handle (now clock : Z) (maxRecords local : jval) (persist : option (result unit)) (method : string)
    (payload context : jval) : M server jval :=
  if bool_decide (method = QUIC_DHT_METHOD_PING) then ping now local context
  else if bool_decide (method = QUIC_DISCOVERY_METHOD_FIND_NODE) then find_node now maxRecords local payload
  else if bool_decide (method = QUIC_DISCOVERY_METHOD_ANNOUNCE) then announce now clock payload context
  else if bool_decide (method = QUIC_DHT_METHOD_STORE) then store now persist payload
  else if bool_decide (method = QUIC_DHT_METHOD_FIND_VALUE) then find_value now maxRecords payload
  else throw (error "unsupported_discovery_control_method").

(** ** What the caller does with the answers *)

(** [QuicDiscoveryRpc.ping]: the record of the answer is ingested later. *)
Definition ping_reply (now : Z) (result : jval) : M PeerRecords.discovery (bool * option jval) :=
  v ← PeerRecords.verify now false (oprop result "peerRecord");
  mret (truthy (oprop result "pong"), match v with Accepted => Some (oprop result "peerRecord") | Rejected _ => None end).

(** The hints of [QuicDiscoveryRpc.findValue]: verified, ingested, and passed on
    as contacts. *)
Fixpoint value_hints (now clock : Z) (l : list jval) : M PeerRecords.discovery (list Routing.peer) :=
  match l with
  | [] => mret []
  | r :: l =>
      v ← PeerRecords.verify now false r;
      match v with
      | Rejected _ => value_hints now clock l
      | Accepted =>
          _ ← PeerRecords.ingest now clock false true r;
          rest ← value_hints now clock l;
          mret (Routing.Peer (to_string (oprop r "nodeId")) ""
                  [("endpoints", oprop r "endpoints"); ("publicKey", oprop r "publicKey")] :: rest)
      end
  end.

(** ** What a request can change *)

Definition server_ok (s : server) : Prop :=
  PeerRecords.store_inv (disc s) ∧ ∀ st, dht s = Some st → Records.store_ok st.

Context {HS : HashShape _}.

(** The server as it was but for the memos of signatures. *)
Definition same_data (s s' : server) : Prop :=
  PeerRecords.records (disc s') = PeerRecords.records (disc s) ∧ PeerRecords.routing (disc s') = PeerRecords.routing (disc s) ∧
  PeerRecords.self (disc s') = PeerRecords.self (disc s) ∧
  (Records.records <$> dht s') = (Records.records <$> dht s) ∧ persisted s' = persisted s ∧
  PeerRecords.d_k (disc s') = PeerRecords.d_k (disc s).

(** A computation that changes no data. *)
Definition reads {A} (m : M server A) : Prop := ∀ s, server_ok s → server_ok (m s).1 ∧ same_data s (m s).1.

Lemma reads_bind {A B} (m : M server A) (f : A → M server B) : reads m → (∀ a, reads (f a)) → reads (x ← m; f x).
Proof.
  intros Hm Hf s Hs. unfold mbind, M_bind. destruct (Hm s Hs) as [H1 H2]. destruct (m s) as [s1 [a|e] ]; [|done].
  destruct (Hf a s1 H1) as [H3 H4]. split; [done|]. unfold same_data in *. cbn [fst] in *. destruct_and!. split_and!; congruence.
Qed.

Lemma reads_ret {A} (a : A) : reads (mret a).
Proof. by intros s Hs. Qed.

Lemma reads_throw {A} e : reads (throw e : M server A).
Proof. by intros s Hs. Qed.

Lemma reads_get {A} (f : server → M server A) : (∀ s, reads (f s)) → reads (s ← get_state; f s).
Proof. intros Hf s Hs. unfold mbind, M_bind, get_state. by apply Hf. Qed.

Lemma verify_inv now ae r d : PeerRecords.store_inv d → PeerRecords.store_inv (PeerRecords.verify now ae r d).1 ∧
  PeerRecords.self (PeerRecords.verify now ae r d).1 = PeerRecords.self d.
Proof.
  intros [Hd Hb]. destruct (PeerRecords.steady_verify False now ae r d Hd) as [_ Hd1]. unfold PeerRecords.verify in *.
  destruct (PeerRecords.verifyPeerRecord _ _ _ _) as [m v]. split; [split; [done|exact Hb]|done].
Qed.

Lemma reads_verify now ae r : reads (on_disc (PeerRecords.verify now ae r)).
Proof.
  intros s [Hs Hd]. unfold on_disc. destruct (verify_inv now ae r _ Hs) as [Hi Hself]. destruct (PeerRecords.verify_records now ae r (disc s)) as [Hr Ht].
  assert (Hk : PeerRecords.d_k (PeerRecords.verify now ae r (disc s)).1 = PeerRecords.d_k (disc s))
    by (unfold PeerRecords.verify; by destruct (PeerRecords.verifyPeerRecord _ _ _ _)).
  destruct (PeerRecords.verify now ae r (disc s)) as [d1 v]. split; [by split|]. unfold same_data. by cbn in *.
Qed.

Lemma reads_local now local : reads (on_disc (resolveLocalPeerRecord now local)).
Proof.
  assert (E : ∀ s, (on_disc (resolveLocalPeerRecord now local) s).1 = (on_disc (PeerRecords.verify now false local) s).1).
  { intros s. unfold on_disc, resolveLocalPeerRecord, mbind, M_bind. by destruct (PeerRecords.verify now false local (disc s)) as [d1 [v|e] ]. }
  intros s Hs. rewrite E. by apply reads_verify.
Qed.

Lemma reads_ping now local context : reads (ping now local context).
Proof. apply reads_get. intros s. apply reads_bind; [apply reads_local|intros; apply reads_ret]. Qed.

Lemma reads_find_node now maxRecords local payload : reads (find_node now maxRecords local payload).
Proof.
  unfold find_node. destruct (oprop payload "targetNodeId"); try apply reads_throw. destruct (negb _); [apply reads_throw|].
  apply reads_get. intros s1. apply reads_bind; [destruct (bool_decide _); [apply reads_local|apply reads_ret]|]. intros own.
  destruct (truthy own); [apply reads_ret|]. apply reads_get. intros s2. destruct (contact_of _ _ _); apply reads_ret.
Qed.

Lemma reads_find_value now maxRecords payload : reads (find_value now maxRecords payload).
Proof.
  intros s Hs. unfold find_value. rewrite (M_bind_step _ _ s s s) by done. destruct (dht s) as [st|] eqn:Hd; [|done].
  destruct (oprop payload "namespace"), (oprop payload "key"); try done. destruct (_ || _); [done|].
  unfold mbind, M_bind, on_dht, Records.get. rewrite Hd. destruct (Records.verified_only _ _ _) as [m rs].
  destruct (sort_throws _ rs); cbn; split.
  1,3: split; [apply Hs|]; intros st' [= <-]; destruct (proj2 Hs st Hd); by split.
  1,2: unfold same_data; cbn; by rewrite Hd.
Qed.

(** What can happen to the stored record of a node. *)
Definition kept_or_evicted (s s' : server) (m : string) : Prop :=
  map_get m (PeerRecords.records (disc s')) = map_get m (PeerRecords.records (disc s)) ∨
  (map_get m (PeerRecords.records (disc s')) = None ∧ Routing.has m (PeerRecords.routing (disc s')) = false).

Lemma same_data_kept s s' m : same_data s s' → kept_or_evicted s s' m.
Proof. intros (Hr & _). left. by rewrite Hr. Qed.

Lemma strict_eq_text v n : strict_eq (JStr n) v = true → v = JStr n.
Proof. destruct v; cbn; try done. intros ->%bool_decide_eq_true. done. Qed.

Lemma announce_ok now clock payload context s :
  server_ok s →
  let s' := (announce now clock payload context s).1 in
  server_ok s' ∧ PeerRecords.self (disc s') = PeerRecords.self (disc s) ∧ (Records.records <$> dht s') = (Records.records <$> dht s) ∧
  persisted s' = persisted s ∧
  ∀ m, kept_or_evicted s s' m ∨
    (is_ok (announce now clock payload context s).2 = true ∧ oprop (oprop payload "record") "nodeId" = JStr m ∧
     map_get m (PeerRecords.records (disc s')) = Some (oprop payload "record") ∧
     (truthy (oprop context "peerNodeId") = true → oprop context "peerNodeId" = JStr m)).
Proof.
  intros Hs. cbv zeta. unfold announce. set (r := oprop payload "record"). destruct (reads_verify now false r s Hs) as [Hs1 Hd1].
  destruct (on_disc (PeerRecords.verify now false r) s) as [s1 [v|e] ] eqn:Hv; cbn [fst] in *.
  2: { rewrite (M_bind_throw _ _ _ _ _ Hv). cbn [fst snd]. pose proof Hd1 as (_ & _ & ? & ? & ? & _). split_and!; try done.
       intros m. left. by apply same_data_kept. }
  rewrite (M_bind_step _ _ _ _ _ Hv).
  assert (Hquiet : ∀ e : jerror, let s' := ((throw e : M server jval) s1).1 in
    server_ok s' ∧ PeerRecords.self (disc s') = PeerRecords.self (disc s) ∧ (Records.records <$> dht s') = (Records.records <$> dht s) ∧
    persisted s' = persisted s ∧ ∀ m, kept_or_evicted s s' m).
  { intros e. cbn. pose proof Hd1 as (_ & _ & ? & ? & ? & _). split_and!; try done. intros m. by apply same_data_kept. }
  destruct v as [|reason]; [|destruct (Hquiet (error ("invalid_peer_record:" +:+ reason))) as (? & ? & ? & ? & Hk); split_and!; try done; intros m; left; apply Hk].
  destruct (truthy _ && negb _) eqn:Hctx.
  { destruct (Hquiet (error "peer_announce_identity_mismatch")) as (? & ? & ? & ? & Hk). split_and!; try done. intros m. left. apply Hk. }
  clear Hquiet. destruct Hs1 as [ [Ho1 Hb1] Hdht1]. pose proof (PeerRecords.ingest_inv now clock false true r (disc s1) (conj Ho1 Hb1)) as [Hok Hinv].
  pose proof (PeerRecords.ingest_stays now clock false true r (disc s1)) as Hself.
  pose proof (λ m, PeerRecords.ingest_records now clock false true r (disc s1) m Ho1) as Hrec. cbv zeta in Hrec.
  unfold mbind, M_bind, on_disc. destruct (PeerRecords.ingest now clock false true r (disc s1)) as [d2 out]. cbn [fst snd] in *.
  destruct Hd1 as (Er & Et & Es & Ed & Ep & _).
  assert (Hall : ∀ m, kept_or_evicted s (Server d2 (dht s1) (persisted s1)) m ∨
    (match out with Ok i => PeerRecords.is_taken i = true | Throw _ => False end ∧ oprop r "nodeId" = JStr m ∧ map_get m (PeerRecords.records d2) = Some r)).
  { intros m. unfold kept_or_evicted. cbn [disc]. rewrite <- Er.
    destruct (Hrec m) as [H1|[H1|(H1 & H2 & u & nv & H3)] ]; [left; by left|left; by right|right]. rewrite H3. done. }
  assert (Hso : server_ok (Server d2 (dht s1) (persisted s1))) by by split.
  destruct out as [ [reason|n u un nv]|e]; cbn [fst snd]; (split; [exact Hso|]); (split; [cbn; congruence|]);
    (split; [exact Ed|]); (split; [exact Ep|]); intros m;
    destruct (Hall m) as [?|(Ht & Hid & Hg)]; try (by left); try done.
  right. split_and!; try done. intros Htr. rewrite Htr in Hctx. cbn [andb] in Hctx. apply negb_false_iff in Hctx. rewrite Hid in Hctx.
  by apply strict_eq_text.
Qed.

Lemma store_request_ok now persist payload s :
  server_ok s →
  let s' := (store now persist payload s).1 in
  server_ok s' ∧ disc s' = disc s ∧
  (∀ st st', dht s = Some st → dht s' = Some st' → ∀ key,
    map_get key (Records.records st') = map_get key (Records.records st) ∨
    (key = Records.record_key (oprop payload "record") ∧ Records.well_named (oprop payload "record") ∧
     map_get key (Records.records st') = Some (oprop payload "record"))) ∧
  (is_ok (store now persist payload s).2 = true →
    ∃ st', dht s' = Some st' ∧
      map_get (Records.record_key (oprop payload "record")) (Records.records st') = Some (oprop payload "record") ∧
      (persist = None ∨ (persist = Some (Ok tt) ∧ persisted s' = S (persisted s)))).
Proof.
  intros Hs. cbv zeta. unfold store. rewrite (M_bind_step _ _ s s s) by done. destruct (dht s) as [st|] eqn:Hd.
  2: { split_and!; try done. }
  set (r := oprop payload "record").
  assert (Hver : ∃ m v, on_dht (Records.verify now false r) s =
    (with_dht (Records.Store m (Records.records st) (Records.changes st)) s, Ok v)).
  { unfold on_dht, Records.verify. rewrite Hd. destruct (Records.verifyDhtRecord _ _ _ _) as [m v]. by exists m, v. }
  destruct Hver as (m & v & Hver). rewrite (M_bind_step _ _ _ _ _ Hver).
  set (st1 := Records.Store m (Records.records st) (Records.changes st)). assert (Ho1 : Records.store_ok st1) by (destruct (proj2 Hs st Hd); by split).
  destruct v as [|reason].
  2: { split_and!; cbn; [|done| |done]; [split; [apply Hs|by intros st' [= <-]]|]. intros a b [= <-] [= <-] key. by left. }
  pose proof (Records.put_ok now false true r st1 Ho1) as Ho2. pose proof (Records.put_cases now false true r st1) as Hput.
  assert (Hstep : on_dht (Records.put now false true r) (with_dht st1 s) =
    (with_dht (Records.put now false true r st1).1 s, (Records.put now false true r st1).2)).
  { unfold on_dht. cbn [dht with_dht]. by destruct (Records.put now false true r st1). }
  destruct (Records.put now false true r st1) as [st2 stored]. cbn [fst snd] in *.
  assert (Hok2 : ∀ n, server_ok (Server (disc s) (Some st2) n)) by (intros n; split; [apply Hs|by intros st' [= <-]]).
  assert (Hkeys : ∀ key, map_get key (Records.records st2) = map_get key (Records.records st) ∨
    (key = Records.record_key r ∧ Records.well_named r ∧ map_get key (Records.records st2) = Some r)).
  { intros key. destruct Hput as [(_ & Hr)|(_ & Hn & Hr & _)]; [left; by rewrite Hr|]. rewrite Hr, map_get_set.
    destruct (decide (key = Records.record_key r)) as [->|]; [by right|by left]. }
  destruct stored as [ [|reason]|e]; [rewrite (M_bind_step _ _ _ _ _ Hstep)..|rewrite (M_bind_throw _ _ _ _ _ Hstep)].
  2,3: split_and!; cbn; [apply Hok2|done| |done]; intros a b [= <-] [= <-]; apply Hkeys.
  assert (Hst : map_get (Records.record_key r) (Records.records st2) = Some r).
  { destruct Hput as [(Hv & _)|(_ & _ & Hr & _)]; [done|]. rewrite Hr, map_get_set. by rewrite decide_True. }
  destruct persist as [ [ []|e]|]; cbn.
  - split_and!; [apply Hok2|done| |]; [intros a b [= <-] [= <-]; apply Hkeys|]. intros _. exists st2. split_and!; try done. by right.
  - split_and!; [apply Hok2|done| |done]. intros a b [= <-] [= <-]. apply Hkeys.
  - split_and!; [apply Hok2|done| |]; [intros a b [= <-] [= <-]; apply Hkeys|]. intros _. exists st2. split_and!; try done. by left.
Qed.

Lemma reads_other now clock maxRecords local persist method payload context :
  method ≠ QUIC_DISCOVERY_METHOD_ANNOUNCE → method ≠ QUIC_DHT_METHOD_STORE →
  reads (handle now clock maxRecords local persist method payload context).
Proof.
  intros Ha Hs. unfold handle. rewrite (bool_decide_eq_false_2 _ Ha), (bool_decide_eq_false_2 _ Hs).
  repeat case_bool_decide; auto using reads_ping, reads_find_node, reads_find_value, reads_throw.
Qed.

(** C14: whatever request another node sends, the stores stay sound and bounded,
    and it changes only what it may: the peer record of a node only by an
    accepted announcement of a verified record of that very node, which has to
    be the node at the other end of the connection if that is known; the record
    store only by a store request, only under the name of its verified record;
    and a store request is answered with success only when the store holds the
    record and the configured barrier was crossed. *)
Theorem request_guarded now clock maxRecords local persist method payload context s :
  server_ok s →
  let s' := (handle now clock maxRecords local persist method payload context s).1 in
  let ok := is_ok (handle now clock maxRecords local persist method payload context s).2 in
  let record := oprop payload "record" in
  server_ok s' ∧ PeerRecords.self (disc s') = PeerRecords.self (disc s) ∧
  (∀ m, kept_or_evicted s s' m ∨
    (method = QUIC_DISCOVERY_METHOD_ANNOUNCE ∧ ok = true ∧ oprop record "nodeId" = JStr m ∧
     map_get m (PeerRecords.records (disc s')) = Some record ∧
     (truthy (oprop context "peerNodeId") = true → oprop context "peerNodeId" = JStr m))) ∧
  (∀ st st' key, dht s = Some st → dht s' = Some st' →
    map_get key (Records.records st') = map_get key (Records.records st) ∨
    (method = QUIC_DHT_METHOD_STORE ∧ key = Records.record_key record ∧ Records.well_named record ∧
     map_get key (Records.records st') = Some record)) ∧
  (method = QUIC_DHT_METHOD_STORE → ok = true → ∃ st', dht s' = Some st' ∧
    map_get (Records.record_key record) (Records.records st') = Some record ∧
    (persist = None ∨ (persist = Some (Ok tt) ∧ persisted s' = S (persisted s)))).
Proof.
  intros Hs. cbv zeta. destruct (decide (method = QUIC_DISCOVERY_METHOD_ANNOUNCE)) as [->|Ha].
  { change (handle now clock maxRecords local persist QUIC_DISCOVERY_METHOD_ANNOUNCE payload context) with (announce now clock payload context).
    destruct (announce_ok now clock payload context s Hs) as (H1 & H2 & H3 & _ & H5). split; [exact H1|]. split; [exact H2|]. split; [|split; [|done]].
    - intros m. destruct (H5 m) as [?|(? & ? & ? & ?)]; [by left|by right].
    - intros st st' key E1 E2. left. rewrite E1, E2 in H3. injection H3 as ->. done. }
  destruct (decide (method = QUIC_DHT_METHOD_STORE)) as [->|Hst].
  { change (handle now clock maxRecords local persist QUIC_DHT_METHOD_STORE payload context) with (store now persist payload).
    destruct (store_request_ok now persist payload s Hs) as (H1 & H2 & H3 & H4). split; [exact H1|]. split; [by rewrite H2|]. split; [|split].
    - intros m. left. left. by rewrite H2.
    - intros st st' key E1 E2. destruct (H3 st st' E1 E2 key) as [?|(? & ? & ?)]; [by left|by right].
    - intros _. exact H4. }
  destruct (reads_other now clock maxRecords local persist method payload context Ha Hst s Hs) as [H1 H2]. split; [exact H1|].
  split; [apply H2|]. split; [intros m; left; by apply same_data_kept|]. split; [|done]. intros st st' key E1 E2. left.
  destruct H2 as (_ & _ & _ & Hd & _). rewrite E1, E2 in Hd. injection Hd as ->. done.
Qed.

(** ** What a lookup is answered *)

Lemma omap_length {A B} (f : A → option B) (l : list A) : length (omap f l) ≤ length l.
Proof. induction l as [|x l IH]; [done|]. cbn. destruct (f x); cbn in *; lia. Qed.

Lemma contact_ok now n d r :
  PeerRecords.store_ok d → contact_of now n d = Some r → oprop r "nodeId" = JStr n ∧ PeerRecords.well_named r ∧ PeerRecords.vouched r.
Proof.
  intros Hd. unfold contact_of, PeerRecords.hint. destruct (PeerRecords.get n now d) as [q|] eqn:Hq.
  - intros [= <-]. destruct (PeerWalk.get_sound now d n q Hd Hq) as (_ & ? & ? & ?). done.
  - intros Hg. destruct (PeerRecords.so_records d Hd n r Hg) as (? & ? & ?). done.
Qed.

Lemma closest_bound t limit tb : (Z.of_nat (length (Routing.closest t limit tb)) ≤ Z.max 0 limit)%Z.
Proof. rewrite Routing.closest_take. etrans; [apply inj_le, firstn_le_length|]. lia. Qed.

Lemma local_ok now local s s' own :
  server_ok s → on_disc (resolveLocalPeerRecord now local) s = (s', Ok own) →
  server_ok s' ∧ same_data s s' ∧ (truthy own = true → PeerRecords.well_named own ∧ PeerRecords.vouched own).
Proof.
  intros Hs Hr. destruct (reads_local now local s Hs) as [H1 H2]. rewrite Hr in H1, H2. split; [exact H1|]. split; [exact H2|].
  intros Ht. unfold on_disc, resolveLocalPeerRecord, mbind, M_bind in Hr.
  destruct (PeerRecords.verify now false local (disc s)) as [d1 [ [|reason]|e] ] eqn:Hv; [|by injection Hr as <- <-|done].
  injection Hr as <- <-.
  destruct (PeerRecords.verify_accepted now false local (disc s) d1 (proj1 (proj1 Hs)) Hv) as (_ & _ & _ & ? & ?). done.
Qed.

(** What a lookup is answered: a bounded list of records, each naming its
    node and its content truthfully and carrying a checked signature, and the
    one record of the target alone when the store holds it. *)
Theorem lookup_answer now maxRecords local payload s s' v :
  server_ok s → find_node now maxRecords local payload s = (s', Ok v) →
  ∃ target l, oprop payload "targetNodeId" = JStr target ∧ v = records_reply l ∧
    (Z.of_nat (length l) ≤ Z.max 1 (answer_limit maxRecords (disc s)))%Z ∧
    (∀ r, r ∈ l → PeerRecords.well_named r ∧ PeerRecords.vouched r) ∧
    (∀ q, target ≠ PeerRecords.self (disc s) → map_get target (PeerRecords.records (disc s)) = Some q → l = [q]).
Proof.
  intros Hs. unfold find_node. destruct (oprop payload "targetNodeId") as [| | | | |t| |]; try done.
  destruct (negb (nonempty_str t)); [done|]. rewrite (M_bind_step _ _ s s s) by done. intros Hf. apply M_bind_Ok_inv in Hf as (s1 & own & Ho & Hf).
  assert (H1 : server_ok s1 ∧ same_data s s1 ∧ (truthy own = true → PeerRecords.well_named own ∧ PeerRecords.vouched own) ∧
               (t ≠ PeerRecords.self (disc s) → truthy own = false)).
  { revert Ho. case_bool_decide.
    - intros Ho. destruct (local_ok now local s s1 own Hs Ho) as (? & ? & ?). done.
    - intros [= <- <-]. split_and!; try done. }
  clear Ho. destruct H1 as (Hs1 & Hd & Hown & Hno). exists t.
  assert (Hlim : answer_limit maxRecords (disc s1) = answer_limit maxRecords (disc s)) by (unfold answer_limit; by destruct Hd as (_ & _ & _ & _ & _ & ->)). destruct (truthy own) eqn:Ht.
  { injection Hf as <- <-. exists [own]. split_and!; try done; [cbn; lia| |].
    - intros r ->%list_elem_of_singleton. by apply Hown.
    - intros q Hq. by specialize (Hno Hq). }
  rewrite (M_bind_step _ _ s1 s1 s1) in Hf by done. destruct Hd as (Er & Et & Es & _).
  destruct (contact_of now t (disc s1)) as [direct|] eqn:Hc; injection Hf as <- <-; eexists; (split; [done|]); (split; [reflexivity|]).
  - split_and!; [cbn; lia| |].
    + intros r ->%list_elem_of_singleton. by destruct (contact_ok now t (disc s1) direct (proj1 (proj1 Hs1)) Hc).
    + intros q _ Hq. f_equal. revert Hc. unfold contact_of, PeerRecords.get, PeerRecords.hint. rewrite Er, Hq.
      destruct (PeerRecords.leaseLive q now); by intros [= <-].
  - split_and!.
    + etrans; [apply inj_le, omap_length|]. etrans; [apply closest_bound|]. rewrite Hlim. lia.
    + intros r Hr. apply list_elem_of_omap in Hr as (q & _ & Hq). by destruct (contact_ok now _ (disc s1) r (proj1 (proj1 Hs1)) Hq).
    + intros q _ Hq. revert Hc. unfold contact_of, PeerRecords.get, PeerRecords.hint. rewrite Er, Hq. by destruct (PeerRecords.leaseLive q now).
Qed.

End control.
(** ** A concrete server *)

#[local] Existing Instance toy_coercions.

Definition toy_server : server := Server PeerRecords.toy_store (Some Records.new_store) 0.
Definition toy_payload : jval := JObj [("record", PeerRecords.toy_record 5 9000)].
Definition toy_context : jval := JObj [("peerNodeId", JStr PeerRecords.toy_node)].

Lemma toy_server_ok : server_ok (H := Toy.host) toy_server.
Proof.
  split; [|intros st [= <-]; split; [constructor|by intros k r [=]] ].
  apply PeerRecords.toy_store_inv.
Qed.

(** An announcement by its own node is stored; one relayed by another is refused. *)
Lemma request_guarded_witness :
  let request := handle (H := Toy.host) PeerRecords.toy_now PeerRecords.toy_now JUndef JNull None QUIC_DISCOVERY_METHOD_ANNOUNCE toy_payload in
  map_get PeerRecords.toy_node (PeerRecords.records (disc (request toy_context toy_server).1)) = Some (PeerRecords.toy_record 5 9000) ∧
  kept_or_evicted toy_server (request (JObj [("peerNodeId", JStr "truyn:node:other")]) toy_server).1 PeerRecords.toy_node.
Proof.
  intros request. split.
  - vm_compute. reflexivity.
  - destruct (request_guarded (H := Toy.host) PeerRecords.toy_now PeerRecords.toy_now JUndef JNull None QUIC_DISCOVERY_METHOD_ANNOUNCE
      toy_payload (JObj [("peerNodeId", JStr "truyn:node:other")]) toy_server toy_server_ok) as (_ & _ & Hk & _).
    destruct (Hk PeerRecords.toy_node) as [Hd|(_ & _ & _ & _ & Hc)]; [exact Hd|]. specialize (Hc eq_refl). exfalso. revert Hc. vm_compute. discriminate.
Defined.

Lemma lookup_answer_witness :
  ∃ s', find_node (H := Toy.host) PeerRecords.toy_now JUndef JNull (JObj [("targetNodeId", JStr PeerRecords.toy_node)]) toy_server =
        (s', Ok (records_reply [PeerRecords.toy_record 3 5000])).
Proof.
  assert (E : match find_node (H := Toy.host) PeerRecords.toy_now JUndef JNull (JObj [("targetNodeId", JStr PeerRecords.toy_node)]) toy_server with
              | (_, Ok _) => true | _ => false end = true) by (vm_compute; reflexivity).
  destruct (find_node (H := Toy.host) PeerRecords.toy_now JUndef JNull (JObj [("targetNodeId", JStr PeerRecords.toy_node)]) toy_server)
    as [s' [v|e] ] eqn:Hf; [|discriminate E]. exists s'.
  destruct (lookup_answer (H := Toy.host) _ _ _ _ toy_server s' v toy_server_ok Hf) as (t & l & Ht & -> & _ & _ & Hq).
  cbn in Ht. injection Ht as <-.
  assert (Hg : map_get PeerRecords.toy_node (PeerRecords.records (disc toy_server)) = Some (PeerRecords.toy_record 3 5000)) by (vm_compute; reflexivity).
  assert (Hn : PeerRecords.toy_node ≠ PeerRecords.self (disc toy_server)) by (vm_compute; discriminate).
  rewrite (Hq _ Hn Hg). reflexivity.
Defined.

End PeerControl.
