(* ===== verification/PeerRefresh.v ===== *)
(** * Refreshing the routing table

    Models [refreshTargetPlan] and [refreshRoutingTable] of
    network/discovery/peer-discovery.js: the choice of the nodes to look up, and
    the pool of workers that walk to them until they are done, the deadline
    passes, the network pushes back or nothing new turns up.  A walk is an event
    that brings its result. *)
From S2P Require Import Prelude JSMap JSValue Dates Host Protocol Kademlia DhtRecords PeerRecords PeerWalk.
Import Canonical Keys Ids.

Module PeerRefresh.

(** [uniqueNonEmptyStrings] on strings. *)
Definition uniqueNonEmptyStrings (l : list string) : list string := uniq (List.filter nonempty_str (map trim l)).

(** [boundedInteger] on a number or null. *)
Definition boundedInteger (value : option Z) (fallback lo hi : Z) : Z :=
  match value with
  | Some n => if bool_decide (n < lo)%Z || bool_decide (hi < n)%Z then fallback else n
  | None => fallback
  end.

Section plan.
Context `{Host} `{Coercions}.

(** [Date.parse(record.expiresAt)], infinite when it is not a date. *)
Definition expiryMs (r : jval) : option Z := Date_parse (to_string (oprop r "expiresAt")).

Definition node_of (r : jval) : string := to_string (oprop r "nodeId").

(** The comparators of the two sorts: at most zero. *)
Definition closer_to (self : string) (a b : string) : bool :=
  let da := xorDistance a self in
  let db := xorDistance b self in
  if bool_decide (da < db)%Z then true
  else if bool_decide (db < da)%Z then false
  else bool_decide (localeCompare a b ≤ 0)%Z.

Definition expires_first (self : string) (a b : jval) : bool :=
  match expiryMs a, expiryMs b with
  | Some x, Some y => if bool_decide (x = y) then closer_to self (node_of a) (node_of b) else bool_decide (x < y)%Z
  | Some _, None => true
  | None, Some _ => false
  | None, None => closer_to self (node_of a) (node_of b)
  end.

Record targets_plan := TargetsPlan { nearExpiryTargets : list string; xorTargets : list string }.
Definition targets (p : targets_plan) : list string := nearExpiryTargets p ++ xorTargets p.

Definition refreshTargetPlan (targetCount : jval) (now : Z) (seed : string) (expiryTargetCount : option Z)
    (d : PeerRecords.discovery) : targets_plan :=
  let limit := Z.max 0 (default (PeerRecords.d_k d) (is_integer targetCount)) in
  if bool_decide (limit = 0)%Z then TargetsPlan [] []
  else
    let self := PeerRecords.self d in
    let liveRecords := List.filter (λ r, negb (eq_str (oprop r "nodeId") self)) (PeerRecords.snapshot now d) in
    let defaultExpiryBudget := Z.max 1 ((limit + 3) / 4) in
    let expiryBudget := Z.min limit (boundedInteger expiryTargetCount defaultExpiryBudget 0 limit) in
    let near := node_of <$> firstn (Z.to_nat expiryBudget)
                  (sort_by (expires_first self) (List.filter (λ r, Routing.has (node_of r) (PeerRecords.routing d)) liveRecords)) in
    let bucketTargets := omap (λ '(index, count), if bool_decide (0 < count)%Z
        then Some (seed +:+ ":" +:+ self +:+ ":bucket:" +:+ Z_to_string (Z.of_nat index)) else None)
        (Routing.s_bucketOccupancy (Routing.routingSnapshot (PeerRecords.routing d))) in
    let candidates := uniqueNonEmptyStrings
        ((node_of <$> liveRecords) ++ (Routing.nodeId <$> Routing.snapshot (PeerRecords.routing d)) ++ bucketTargets) in
    TargetsPlan near
      (firstn (Z.to_nat (Z.max 0 (limit - Z.of_nat (length near))))
        (sort_by (closer_to self) (List.filter (λ t, negb (bool_decide (t = self)) && negb (bool_decide (t ∈ near))) candidates))).

(** ** The choice of [refreshRoutingTable] *)

Record selection := Selection { selectedTargets : list string; manual : bool; nearExpiry : nat; xors : nat }.

Definition select (manualTargets : option (list string)) (targetCount : jval) (now : Z) (seed : string)
    (expiryTargetCount : option Z) (d : PeerRecords.discovery) : selection :=
  let limit := Z.max 0 (default (PeerRecords.d_k d) (is_integer targetCount)) in
  let p := match manualTargets with
           | Some l => TargetsPlan [] (uniqueNonEmptyStrings l)
           | None => refreshTargetPlan (JNum (JInt limit)) now seed expiryTargetCount d
           end in
  let chosen := firstn (Z.to_nat limit)
      (List.filter (λ t, negb (bool_decide (t = PeerRecords.self d))) (uniqueNonEmptyStrings (targets p))) in
  let among l := length (List.filter (λ t, bool_decide (t ∈ chosen)) l) in
  match manualTargets with
  | Some _ => Selection chosen true 0 0
  | None => Selection chosen false (among (nearExpiryTargets p)) (among (xorTargets p))
  end.

(** The targets that are walked before an idle streak may end the refresh. *)
Fixpoint expiring (now horizon : Z) (d : PeerRecords.discovery) (l : list string) : nat :=
  match l with
  | [] => 0
  | t :: l =>
      match map_get t (PeerRecords.records d) with
      | None => 0
      | Some r => match expiryMs r with
                  | Some e => if bool_decide (horizon < e - now)%Z then 0 else S (expiring now horizon d l)
                  | None => 0
                  end
      end
  end.

Definition protectedTargets (now : Z) (horizon : option Z) (s : selection) (d : PeerRecords.discovery) : nat :=
  match horizon with
  | None => nearExpiry s
  | Some h => expiring now h d (firstn (nearExpiry s) (selectedTargets s))
  end.

(** ** What a plan is *)

Context {HC : Collation _}.

Lemma closer_total self a b : closer_to self a b = true ∨ closer_to self b a = true.
Proof. unfold closer_to. destruct (collate_total a b); repeat case_bool_decide; auto; lia. Qed.

Lemma closer_trans self a b c : closer_to self a b = true → closer_to self b c = true → closer_to self a c = true.
Proof.
  unfold closer_to. pose proof (collate_trans a b c). repeat case_bool_decide; intros; try done; try lia; naive_solver.
Qed.

Lemma expires_total self a b : expires_first self a b = true ∨ expires_first self b a = true.
Proof.
  unfold expires_first. destruct (expiryMs a) as [x|], (expiryMs b) as [y|]; auto using closer_total.
  repeat case_bool_decide; try subst; auto using closer_total; lia || (left; done) || (right; lia) || (destruct (Z.lt_trichotomy x y) as [?|[?|?] ]; lia).
Qed.

Lemma expires_trans self a b c : expires_first self a b = true → expires_first self b c = true → expires_first self a c = true.
Proof.
  unfold expires_first. destruct (expiryMs a) as [x|], (expiryMs b) as [y|], (expiryMs c) as [z|]; try done; eauto using closer_trans.
  repeat case_bool_decide; try subst; intros; try done; try lia; eauto using closer_trans.
Qed.

(** The records a plan is made from, by node. *)
Definition planned (now : Z) (d : PeerRecords.discovery) : list jval :=
  List.filter (λ r, Routing.has (node_of r) (PeerRecords.routing d))
    (List.filter (λ r, negb (eq_str (oprop r "nodeId") (PeerRecords.self d))) (PeerRecords.snapshot now d)).

Lemma elem_of_planned now d r :
  PeerRecords.store_ok d →
  r ∈ planned now d ↔ map_get (node_of r) (PeerRecords.records d) = Some r ∧ PeerRecords.leaseLive r now = true ∧
    node_of r ≠ PeerRecords.self d ∧ Routing.has (node_of r) (PeerRecords.routing d) = true.
Proof.
  intros Hd. unfold planned, PeerRecords.snapshot. rewrite !list_elem_of_In, !filter_In, <- list_elem_of_In.
  assert (Hr : r ∈ map_values (PeerRecords.records d) ↔ map_get (node_of r) (PeerRecords.records d) = Some r).
  { unfold map_values. rewrite list_elem_of_fmap. split.
    - intros ([n q] & -> & Hin). apply (map_elem_get _ _ _ (PeerRecords.so_wf d Hd)) in Hin. cbn.
      destruct (PeerRecords.so_records d Hd n q Hin) as (Hn & _). unfold node_of. by rewrite Hn.
    - intros Hg. apply map_get_elem in Hg. by exists (node_of r, r). }
  rewrite Hr. assert (He : map_get (node_of r) (PeerRecords.records d) = Some r → negb (eq_str (oprop r "nodeId") (PeerRecords.self d)) = true ↔ node_of r ≠ PeerRecords.self d).
  { intros Hg. destruct (PeerRecords.so_records d Hd _ _ Hg) as (Hn & _). rewrite Hn. cbn. rewrite negb_true_iff, bool_decide_eq_false. done. }
  tauto.
Qed.

Lemma NoDup_filter_fmap {A} (f : A → string) (g : A → bool) (l : list A) : NoDup (f <$> l) → NoDup (f <$> List.filter g l).
Proof.
  intros Hl. eapply sublist_NoDup; [exact Hl|]. clear Hl. induction l as [|x l IH]; [done|]. cbn [List.filter].
  destruct (g x); rewrite !fmap_cons; by constructor.
Qed.

Lemma NoDup_planned now d : PeerRecords.store_ok d → NoDup (node_of <$> planned now d).
Proof.
  intros Hd. unfold planned, PeerRecords.snapshot. do 3 apply NoDup_filter_fmap.
  assert (E : node_of <$> map_values (PeerRecords.records d) = map_keys (PeerRecords.records d)); [|rewrite E; apply Hd].
  unfold map_values, map_keys. rewrite <- list_fmap_compose. apply list_fmap_ext. intros i [n q] Hi. cbn.
  apply list_elem_of_lookup_2, (map_elem_get _ _ _ (PeerRecords.so_wf d Hd)) in Hi.
  destruct (PeerRecords.so_records d Hd n q Hi) as (Hn & _). unfold node_of. by rewrite Hn.
Qed.

(** A plan names at most as many nodes as asked for, each once, never this
    node; the nodes it names for their expiry are contacts of the routing table
    with a live record, and no other such contact expires before one of them. *)
Theorem plan_sound targetCount now seed expiryTargetCount d :
  PeerRecords.store_ok d →
  let p := refreshTargetPlan targetCount now seed expiryTargetCount d in
  NoDup (targets p) ∧ (Z.of_nat (length (targets p)) ≤ Z.max 0 (default (PeerRecords.d_k d) (is_integer targetCount)))%Z ∧
  PeerRecords.self d ∉ targets p ∧
  ∀ t, t ∈ nearExpiryTargets p → ∃ r, r ∈ planned now d ∧ node_of r = t ∧
    ∀ q, q ∈ planned now d → node_of q ∉ nearExpiryTargets p →
      match expiryMs r, expiryMs q with Some x, Some y => (x ≤ y)%Z | None, Some _ => False | _, None => True end.
Proof.
  intros Hd p. subst p. unfold refreshTargetPlan. set (limit := Z.max 0 _). case_bool_decide as Hz.
  { split_and!; cbn; [constructor|lia|by intros ?%elem_of_nil|by intros t ?%elem_of_nil]. }
  fold (planned now d). set (n := Z.to_nat (Z.min limit _)). set (ranked := sort_by (expires_first (PeerRecords.self d)) (planned now d)).
  set (near := node_of <$> firstn n ranked). set (cands := uniqueNonEmptyStrings _).
  set (xs := sort_by _ (List.filter _ cands)). unfold targets. cbn [nearExpiryTargets xorTargets].
  assert (Hperm : ranked ≡ₚ planned now d) by apply sort_by_perm.
  assert (Hnear : ∀ t, t ∈ near → ∃ r, r ∈ firstn n ranked ∧ r ∈ planned now d ∧ node_of r = t).
  { intros t (r & -> & Hr)%list_elem_of_fmap. exists r. split; [done|]. split; [|done]. rewrite <- Hperm.
    by apply (sublist_subseteq _ _ (sublist_take _ _)) in Hr. }
  assert (Hxs : ∀ t, t ∈ xs → t ≠ PeerRecords.self d ∧ t ∉ near).
  { intros t Ht. subst xs. rewrite sort_by_perm, list_elem_of_In, filter_In in Ht. destruct Ht as [_ Ht].
    by rewrite andb_true_iff, !negb_true_iff, !bool_decide_eq_false in Ht. }
  split_and!.
  - apply NoDup_app. split_and!.
    + subst near. rewrite fmap_take. eapply sublist_NoDup; [|apply sublist_take]. rewrite Hperm. by apply NoDup_planned.
    + intros t Ht Hx. apply (sublist_subseteq _ _ (sublist_take _ _)) in Hx. by apply (Hxs t) in Hx as [_ ?].
    + eapply sublist_NoDup; [|apply sublist_take]. subst xs. rewrite sort_by_perm. apply NoDup_ListNoDup, List.NoDup_filter, NoDup_ListNoDup, NoDup_uniq.
  - rewrite length_app. assert (Hl1 : length near ≤ n) by (subst near; rewrite length_fmap; apply firstn_le_length).
    pose proof (firstn_le_length (Z.to_nat (Z.max 0 (limit - Z.of_nat (length near)))) xs). subst n. lia.
  - intros [Hin|Hin]%elem_of_app.
    + apply Hnear in Hin as (r & _ & Hr & Heq). apply (elem_of_planned now d r Hd) in Hr as (_ & _ & Hne & _). done.
    + apply (sublist_subseteq _ _ (sublist_take _ _)) in Hin. by apply Hxs in Hin as [? _].
  - intros t (r & Hr & Hrp & Heq)%Hnear. exists r. split_and!; [done..|]. intros q Hq Hqn.
    assert (Hle : expires_first (PeerRecords.self d) r q = true).
    { apply (sort_by_take_le _ (expires_total _) (expires_trans _) (planned now d) n); [done|].
      assert (Hin : q ∈ ranked) by by rewrite Hperm. fold ranked. rewrite <- (take_drop n ranked) in Hin. apply elem_of_app in Hin as [Hin|?]; [|done].
      destruct Hqn. subst near. by apply list_elem_of_fmap_2. }
    unfold expires_first in Hle. destruct (expiryMs r), (expiryMs q); try done. revert Hle. repeat case_bool_decide; try done; intros; lia.
Qed.

End plan.

(** ** The workers *)

Record settings := Settings {
  chosen : list string; protected_ : nat; idleLimit : option nat; deadlineAt : option Z; concurrency : nat
}.

Definition worker_count (selected : nat) (targetConcurrency : option Z) : nat :=
  Z.to_nat (Z.max 1 (Z.min (if bool_decide (selected = 0) then 1 else Z.of_nat selected) (boundedInteger targetConcurrency 1 1 16))).

(** [running] are the indices of the walks in flight, one for each worker that
    has not returned. *)
Record refresh := Refresh {
  nextTargetIndex : nat; running : list nat; walks : list (nat * PeerWalk.outcome);
  idleWalks : nat; converged : bool; shed : bool; deadlineExceeded : bool
}.

Section workers.
Context (c : settings).

Definition overdue (now : Z) : bool :=
  match deadlineAt c with Some t => bool_decide (t ≤ now)%Z | None => false end.

(** The loop of a worker from its head to its next await. *)
Definition head (now : Z) (s : refresh) : refresh :=
  if overdue now then
    Refresh (nextTargetIndex s) (running s) (walks s) (idleWalks s) (converged s) (shed s) true
  else if converged s || shed s then s
  else if bool_decide (length (chosen c) ≤ nextTargetIndex s) then
    Refresh (S (nextTargetIndex s)) (running s) (walks s) (idleWalks s) (converged s) (shed s) (deadlineExceeded s)
  else
    Refresh (S (nextTargetIndex s)) (running s ++ [nextTargetIndex s]) (walks s) (idleWalks s) (converged s) (shed s)
      (deadlineExceeded s).

Fixpoint heads (now : Z) (n : nat) (s : refresh) : refresh :=
  match n with O => s | S n => heads now n (head now s) end.

(** [now] is the clock when the workers are started. *)
Definition begin (now : Z) : refresh := heads now (concurrency c) (Refresh 0 [] [] 0 false false false).

(** A walk has ended: the rest of the loop's body, and its next round. *)
Definition walked (now : Z) (index : nat) (o : PeerWalk.outcome) (s : refresh) : refresh :=
  let idle := match idleLimit c with
              | None => idleWalks s
              | Some _ => if bool_decide (PeerWalk.o_novel o = 0) then S (idleWalks s) else 0
              end in
  let conv := match idleLimit c with
              | None => converged s
              | Some m => converged s || (bool_decide (protected_ c ≤ index) && bool_decide (m ≤ idle))
              end in
  head now (Refresh (nextTargetIndex s) (filter (λ i, i ≠ index) (running s)) (walks s ++ [(index, o)]) idle conv
    (shed s || PeerWalk.o_shed o) (deadlineExceeded s || overdue now)).

Inductive event := Walked (now : Z) (index : nat) (o : PeerWalk.outcome).

Definition step (e : event) (s : refresh) : refresh := match e with Walked now i o => walked now i o s end.
Definition run (es : list event) (s : refresh) : refresh := foldl (λ s e, step e s) s es.

Record report := Report { refreshed : bool; reason : option string; completed : list (string * PeerWalk.outcome); queriedPeers : list string; responses : nat }.

(** The result when every worker has returned. *)
Definition report_of (s : refresh) : report :=
  let completedWalks := omap (λ i, (λ o, (nth i (chosen c) "", o)) <$> map_get i (walks s)) (seq 0 (length (chosen c))) in
  Report (negb (deadlineExceeded s) && negb (shed s))
    (if deadlineExceeded s then Some "refresh_deadline_exceeded" else if shed s then Some "refresh_backpressure"
     else if converged s then Some "refresh_converged" else None)
    completedWalks
    (uniqueNonEmptyStrings (concat (map (λ w, PeerWalk.queried w.2) completedWalks)))
    (list_sum (map (λ w, PeerWalk.responses w.2) completedWalks)).

(** ** The pool of workers *)

Fixpoint legal (es : list event) (s : refresh) : Prop :=
  match es with
  | [] => True
  | Walked now i o :: es => i ∈ running s ∧ legal es (walked now i o s)
  end.

Definition must_stop (s : refresh) : Prop :=
  deadlineExceeded s = true ∨ converged s = true ∨ shed s = true ∨ length (chosen c) ≤ nextTargetIndex s.

(** With [w] workers started: each target handed out is walked once, and a
    worker that returned had a reason to. *)
Record pool (w : nat) (s : refresh) : Prop := {
  po_once : running s ++ (walks s).*1 ≡ₚ seq 0 (min (nextTargetIndex s) (length (chosen c)));
  po_workers : length (running s) ≤ w;
  po_stop : length (running s) = w ∨ must_stop s
}.

Lemma head_pool now w s : pool w s → pool (S w) (head now s).
Proof.
  intros [H1 H2 H3]. unfold head. destruct (overdue now); [split; cbn; [done|lia|by right; left]|].
  destruct (converged s || shed s) eqn:Hcs.
  { split; [done|lia|]. right. unfold must_stop. apply orb_true_iff in Hcs as [?|?]; auto. }
  case_bool_decide as Hn.
  - split; cbn [running walks nextTargetIndex]; [|lia|right; unfold must_stop; cbn; lia]. rewrite H1. by rewrite !Nat.min_r by lia.
  - split; cbn [running walks nextTargetIndex]; [|rewrite length_app; cbn; lia|].
    + rewrite Nat.min_l in H1 |- * by lia. rewrite seq_S, <- H1. cbn. solve_Permutation.
    + rewrite length_app. cbn. destruct H3 as [->|[?|[?|[?|?] ] ] ]; [left; lia|..]; unfold must_stop; cbn; right; tauto || lia.
Qed.

Lemma heads_pool now n w s : pool w s → pool (n + w) (heads now n s).
Proof.
  revert w s. induction n as [|n IH]; intros w s Hp; [done|]. cbn [heads]. replace (S n + w) with (n + S w) by lia. by apply IH, head_pool.
Qed.

Lemma begin_pool now : pool (concurrency c) (begin now).
Proof.
  rewrite <- (Nat.add_0_r (concurrency c)) at 1. apply heads_pool. split; cbn; [done|lia|by left].
Qed.

Lemma filter_one (i : nat) (l : list nat) : NoDup l → i ∈ l → l ≡ₚ i :: filter (λ j, j ≠ i) l.
Proof.
  intros Hl Hi. apply NoDup_Permutation; [done| |].
  - apply NoDup_cons. split; [rewrite list_elem_of_filter; tauto|by apply NoDup_filter].
  - intros j. rewrite elem_of_cons, list_elem_of_filter. destruct (decide (j = i)) as [->|]; tauto.
Qed.

Lemma walked_pool now i o w s : pool w s → i ∈ running s → pool w (walked now i o s).
Proof.
  intros [H1 H2 H3] Hi. assert (Hnd : NoDup (running s)).
  { assert (NoDup (running s ++ (walks s).*1)) as Hn by (rewrite H1; apply NoDup_seq). by apply NoDup_app in Hn as (? & _). }
  pose proof (filter_one i (running s) Hnd Hi) as Hf. pose proof (Permutation_length Hf) as Hlen. cbn [length] in Hlen.
  destruct w as [|w]; [lia|]. unfold walked. cbv zeta. apply head_pool. split; cbn.
  - rewrite <- H1. rewrite Hf at 2. rewrite fmap_app. cbn. solve_Permutation.
  - lia.
  - destruct H3 as [H3|H3]; [left; lia|right]. unfold must_stop in *. cbn. destruct H3 as [->|[->|[->|?] ] ]; [by left|right; left|by right; right; left|tauto].
    by destruct (idleLimit c).
Qed.

Lemma run_pool es s w : pool w s → legal es s → pool w (run es s) ∧ length es + length (walks s) = length (walks (run es s)).
Proof.
  revert s. induction es as [|[now i o] es IH]; intros s Hp Hl; [done|]. destruct Hl as [Hi Hl].
  destruct (IH (walked now i o s) (walked_pool now i o w s Hp Hi) Hl) as [Hp' Hlen]. split; [done|].
  change (run (Walked now i o :: es) s) with (run es (walked now i o s)). rewrite <- Hlen. cbn [length].
  assert (E : walks (walked now i o s) = walks s ++ [(i, o)]).
  { unfold walked. cbv zeta. unfold head. destruct (overdue now); [done|]. destruct (_ || _); [done|]. by destruct (bool_decide _). }
  rewrite E, length_app. cbn. lia.
Qed.

Lemma nth_seq (l : list string) : (λ i, nth i l "") <$> seq 0 (length l) = l.
Proof.
  induction l as [|x l IH]; [done|]. cbn [length seq]. rewrite <- fmap_S_seq, fmap_cons. f_equal. rewrite <- list_fmap_compose.
  etrans; [|exact IH]. by apply list_fmap_ext.
Qed.

Lemma all_completed s : (∀ i, i < length (chosen c) → i ∈ (walks s).*1) → (completed (report_of s)).*1 = chosen c.
Proof.
  intros Hall. unfold report_of. cbn [completed]. etrans; [|apply nth_seq].
  assert (Hin : ∀ i, i ∈ seq 0 (length (chosen c)) → i ∈ (walks s).*1) by (intros i Hi%elem_of_seq; apply Hall; lia).
  revert Hin. generalize (seq 0 (length (chosen c))). intros l. induction l as [|i l IH]; intros Hin; [done|]. cbn.
  assert (Hi : is_Some (map_get i (walks s))) by (apply map_get_is_Some, Hin; left). destruct Hi as [o ->]. cbn. f_equal. apply IH.
  intros j Hj. apply Hin. by right.
Qed.

(** C21: a refresh walks to each chosen node at most once, with at most as many
    walks at a time as it has workers, one event each; and when its workers have
    returned and it reports no reason to have stopped early, it has walked to
    every chosen node, in order.  It counts as done exactly when neither the
    deadline passed nor the network pushed back. *)
Theorem refresh_complete now es :
  1 ≤ concurrency c → legal es (begin now) →
  let s := run es (begin now) in
  NoDup (running s ++ (walks s).*1) ∧ length (running s) ≤ concurrency c ∧ length es ≤ length (chosen c) ∧
  (refreshed (report_of s) = true ↔ deadlineExceeded s = false ∧ shed s = false) ∧
  (running s = [] → reason (report_of s) = None →
    refreshed (report_of s) = true ∧ (completed (report_of s)).*1 = chosen c).
Proof.
  intros Hc Hl s. destruct (run_pool es (begin now) (concurrency c) (begin_pool now) Hl) as [ [H1 H2 H3] Hlen]. fold s in H1, H2, H3, Hlen.
  assert (Hw0 : walks (begin now) = []).
  { unfold begin. assert (E : ∀ n s, walks (heads now n s) = walks s); [|by rewrite E]. clear. intros n. induction n as [|n IH]; intros s; [done|].
    cbn [heads]. rewrite IH. unfold head. destruct (overdue now); [done|]. destruct (_ || _); [done|]. by destruct (bool_decide _). }
  rewrite Hw0 in Hlen. cbn in Hlen. split_and!.
  - rewrite H1. apply NoDup_seq.
  - done.
  - pose proof (Permutation_length H1) as Hp. rewrite length_app, length_fmap, length_seq in Hp. lia.
  - unfold report_of. cbn [refreshed]. destruct (deadlineExceeded s), (shed s); cbn; split; intros; try done; by destruct_and!.
  - intros Hr Hreason. unfold report_of in Hreason. cbn [reason] in Hreason. destruct (deadlineExceeded s) eqn:Hd; [done|].
    destruct (shed s) eqn:Hsh; [done|]. destruct (converged s) eqn:Hcv; [done|]. split; [unfold report_of; cbn; by rewrite Hd, Hsh|].
    apply all_completed. intros i Hi. rewrite Hr in H1, H3. cbn [app length] in *.
    assert (Hn : length (chosen c) ≤ nextTargetIndex s).
    { destruct H3 as [?|[?|[?|[?|?] ] ] ]; try congruence; lia. }
    rewrite H1. apply elem_of_seq. lia.
Qed.

End workers.

(** ** Concrete refreshes *)

#[local] Existing Instance toy_coercions.

Definition toy_settings : settings := Settings ["a"; "b"; "c"] 1 (Some 1) (Some 900%Z) 2.
Definition toy_outcome (novel : nat) : PeerWalk.outcome := PeerWalk.Outcome None ["x"; "y"] 1 2 novel false.

(** Two workers, three targets, each walk bringing something new. *)
Lemma refresh_complete_witness :
  let s := run toy_settings [Walked 10 1 (toy_outcome 1); Walked 20 0 (toy_outcome 2); Walked 30 2 (toy_outcome 1)] (begin toy_settings 0) in
  running s = [] ∧ (completed (report_of toy_settings s)).*1 = ["a"; "b"; "c"].
Proof.
  assert (Hl : legal toy_settings [Walked 10 1 (toy_outcome 1); Walked 20 0 (toy_outcome 2); Walked 30 2 (toy_outcome 1)] (begin toy_settings 0)).
  { vm_compute. repeat constructor. }
  cbv zeta. split; [vm_compute; reflexivity|].
  destruct (refresh_complete toy_settings 0 _ ltac:(vm_compute; repeat constructor) Hl) as (_ & _ & _ & _ & Hc).
  destruct Hc as [_ Hc]; [vm_compute; reflexivity|vm_compute; reflexivity|]. exact Hc.
Defined.

(** An idle walk past the protected targets ends the refresh early. *)
Example toy_converges :
  reason (report_of toy_settings (run toy_settings [Walked 10 1 (toy_outcome 0); Walked 20 0 (toy_outcome 2)] (begin toy_settings 0))) =
  Some "refresh_converged".
Proof. vm_compute. reflexivity. Qed.

Lemma plan_sound_witness :
  let p := refreshTargetPlan (H := Toy.host) (JNum (JInt 3)) PeerRecords.toy_now "seed" None PeerRecords.toy_store in
  nearExpiryTargets p = [PeerRecords.toy_node] ∧ length (targets p) = 2 ∧ PeerRecords.self PeerRecords.toy_store ∉ targets p.
Proof.
  destruct (plan_sound (H := Toy.host) (JNum (JInt 3)) PeerRecords.toy_now "seed" None PeerRecords.toy_store PeerRecords.toy_discovery_ok)
    as (_ & _ & Hs & _). split; [vm_compute; reflexivity|]. split; [vm_compute; reflexivity|exact Hs].
Defined.

End PeerRefresh.
