(* ===== verification/RpcLanes.v ===== *)
(** * The lanes of discovery calls

    Models [RpcLaneScheduler] of network/discovery/quic-rpc.js: three lanes with
    a limit each and a limit per peer.  A call of [acquire] is named by a number;
    its promise is settled when the call is in [slots] (it holds the release
    function), in [released] or in [refused].  The events are the calls of
    [acquire], the calls of release functions and the deadlines of waiters; a
    timer that was cleared does not fire. *)
From S2P Require Import Prelude JSMap JSValue.

Module RpcLanes.

Inductive lane := Critical | Control | Background.

#[export] Instance lane_eq_dec : EqDecision lane.
Proof. solve_decision. Defined.

(** [RPC_LANES], in the order the lanes are served. *)
Definition RPC_LANES : list lane := [Critical; Control; Background].

Definition lane_name (l : lane) : string :=
  match l with Critical => "critical" | Control => "control" | Background => "background" end.

Definition normalizeLane (v : jval) : lane :=
  match v with
  | JStr s => if bool_decide (s = "critical") then Critical else if bool_decide (s = "background") then Background else Control
  | _ => Control
  end.

(** A value per lane. *)
Record lanes (A : Type) := Lanes { critical : A; control : A; background : A }.
#[global] Arguments Lanes {A} _ _ _.
#[global] Arguments critical {A} _.
#[global] Arguments control {A} _.
#[global] Arguments background {A} _.

Definition at_lane {A} (l : lane) (x : lanes A) : A :=
  match l with Critical => critical x | Control => control x | Background => background x end.
Definition set_lane {A} (l : lane) (a : A) (x : lanes A) : lanes A :=
  match l with
  | Critical => Lanes a (control x) (background x)
  | Control => Lanes (critical x) a (background x)
  | Background => Lanes (critical x) (control x) a
  end.

Lemma at_set_lane {A} l m (a : A) x : at_lane l (set_lane m a x) = if decide (l = m) then a else at_lane l x.
Proof. by destruct l, m. Qed.

Record waiter := Waiter { w_id : nat; w_peer : string }.
Record slot := Slot { s_id : nat; s_lane : lane; s_peer : string }.
Record lane_stats := LaneStats { admitted : Z; queued : Z; expiredInQueue : Z; maxQueueDepth : Z }.

Record scheduler := Scheduler {
  laneLimits : lanes Z; perPeerInFlight : Z; inFlight : lanes Z; queues : lanes (list waiter);
  peerInFlight : jsmap string Z; stats : lanes lane_stats;
  slots : list slot; released : list nat; refused : list nat; next : nat
}.

Definition DEFAULT_LANE_LIMITS : lanes Z := Lanes 48%Z 24%Z 6%Z.

(** The limit of a lane in [{ ...DEFAULT_LANE_LIMITS, ...(laneLimits || {}) }]. *)
Definition lane_limit (laneLimits : jval) (l : lane) : result Z :=
  let v := match laneLimits with
           | JObj kvs => default (JNum (JInt (at_lane l DEFAULT_LANE_LIMITS))) (lookup_key (lane_name l) kvs)
           | _ => JNum (JInt (at_lane l DEFAULT_LANE_LIMITS))
           end in
  let bad := error ("RPC lane limit for " +:+ lane_name l +:+ " must be a positive integer") in
  match is_integer v with Some n => if bool_decide (n < 1)%Z then Throw bad else Ok n | None => Throw bad end.

Definition new_scheduler (laneLimits perPeerInFlight : jval) : result scheduler :=
  critical ← lane_limit laneLimits Critical;
  control ← lane_limit laneLimits Control;
  background ← lane_limit laneLimits Background;
  let bad := error "perPeerInFlight must be a positive integer" in
  perPeer ← match is_integer (with_default perPeerInFlight (JNum (JInt 4))) with
            | Some n => if bool_decide (n < 1)%Z then Throw bad else Ok n
            | None => Throw bad
            end;
  let none := LaneStats 0 0 0 0 in
  Ok (Scheduler (Lanes critical control background) perPeer (Lanes 0 0 0)%Z (Lanes [] [] []) [] (Lanes none none none) [] [] [] 0).

(** ** The operations *)

Definition on_peer (p : string) (s : scheduler) : Z := default 0%Z (map_get p (peerInFlight s)).

Definition canRun (l : lane) (p : string) (s : scheduler) : bool :=
  bool_decide (at_lane l (inFlight s) < at_lane l (laneLimits s))%Z && bool_decide (on_peer p s < perPeerInFlight s)%Z.

Definition with_queue (l : lane) (q : list waiter) (s : scheduler) : scheduler :=
  Scheduler (laneLimits s) (perPeerInFlight s) (inFlight s) (set_lane l q (queues s)) (peerInFlight s) (stats s)
    (slots s) (released s) (refused s) (next s).
Definition with_stats (l : lane) (f : lane_stats → lane_stats) (s : scheduler) : scheduler :=
  Scheduler (laneLimits s) (perPeerInFlight s) (inFlight s) (queues s) (peerInFlight s)
    (set_lane l (f (at_lane l (stats s))) (stats s)) (slots s) (released s) (refused s) (next s).
Definition refuse (id : nat) (s : scheduler) : scheduler :=
  Scheduler (laneLimits s) (perPeerInFlight s) (inFlight s) (queues s) (peerInFlight s) (stats s)
    (slots s) (released s) (refused s ++ [id]) (next s).
Definition named (s : scheduler) : scheduler :=
  Scheduler (laneLimits s) (perPeerInFlight s) (inFlight s) (queues s) (peerInFlight s) (stats s)
    (slots s) (released s) (refused s) (S (next s)).

Definition count_admitted (st : lane_stats) : lane_stats :=
  LaneStats (admitted st + 1) (queued st) (expiredInQueue st) (maxQueueDepth st).
Definition count_expired (st : lane_stats) : lane_stats :=
  LaneStats (admitted st) (queued st) (expiredInQueue st + 1) (maxQueueDepth st).
Definition count_queued (depth : nat) (st : lane_stats) : lane_stats :=
  LaneStats (admitted st) (queued st + 1) (expiredInQueue st) (Z.max (maxQueueDepth st) (Z.of_nat depth)).

(** [#start]: the release function becomes a slot. *)
Definition start (id : nat) (l : lane) (p : string) (s : scheduler) : scheduler :=
  with_stats l count_admitted
    (Scheduler (laneLimits s) (perPeerInFlight s) (set_lane l (at_lane l (inFlight s) + 1)%Z (inFlight s)) (queues s)
       (map_set p (on_peer p s + 1)%Z (peerInFlight s)) (stats s) (slots s ++ [Slot id l p]) (released s) (refused s) (next s)).

(** The loop of [#pump] over one queue: [kept] was passed over, [rest] is left. *)
Fixpoint pump_queue (l : lane) (kept rest : list waiter) (s : scheduler) : list waiter * scheduler :=
  match rest with
  | [] => (kept, s)
  | w :: rest =>
      if bool_decide (at_lane l (inFlight s) < at_lane l (laneLimits s))%Z then
        if canRun l (w_peer w) s then pump_queue l kept rest (start (w_id w) l (w_peer w) s)
        else pump_queue l (kept ++ [w]) rest s
      else (kept ++ w :: rest, s)
  end.

Definition pump_lane (l : lane) (s : scheduler) : scheduler :=
  let '(q, s) := pump_queue l [] (at_lane l (queues s)) s in with_queue l q s.

Definition pump (s : scheduler) : scheduler := foldl (λ s l, pump_lane l s) s RPC_LANES.

(** The function [#start] returned: a second call does nothing. *)
Definition release (id : nat) (s : scheduler) : scheduler :=
  match List.find (λ x, bool_decide (s_id x = id)) (slots s) with
  | None => s
  | Some (Slot _ l p) =>
      let remaining := (default 1%Z (map_get p (peerInFlight s)) - 1)%Z in
      pump (Scheduler (laneLimits s) (perPeerInFlight s) (set_lane l (at_lane l (inFlight s) - 1)%Z (inFlight s)) (queues s)
              (if bool_decide (remaining ≤ 0)%Z then map_delete p (peerInFlight s) else map_set p remaining (peerInFlight s))
              (stats s) (filter (λ x, s_id x ≠ id) (slots s)) (released s ++ [id]) (refused s) (next s))
  end.

Inductive outcome := Granted | Expired | Waiting.

(** [remaining] is the time to the deadline, if there is one. *)
Definition acquire (l : lane) (p : string) (remaining : option Z) (s : scheduler) : scheduler * outcome :=
  let id := next s in
  let s := named s in
  if bool_decide (at_lane l (queues s) = []) && canRun l p s then (start id l p s, Granted)
  else if match remaining with Some t => bool_decide (t ≤ 0)%Z | None => false end
  then (refuse id (with_stats l count_expired s), Expired)
  else
    let q := at_lane l (queues s) ++ [Waiter id p] in
    (pump (with_stats l (count_queued (length q)) (with_queue l q s)), Waiting).

Definition lane_of (id : nat) (s : scheduler) : option lane :=
  List.find (λ l, bool_decide (id ∈ (w_id <$> at_lane l (queues s)))) RPC_LANES.

(** The timer of a waiter. *)
Definition expire (id : nat) (s : scheduler) : scheduler :=
  match lane_of id s with
  | None => s
  | Some l => refuse id (with_stats l count_expired (with_queue l (filter (λ w, w_id w ≠ id) (at_lane l (queues s))) s))
  end.

Inductive event := Acquire (l : lane) (p : string) (remaining : option Z) | Release (id : nat) | Expire (id : nat).

Definition step (e : event) (s : scheduler) : scheduler :=
  match e with Acquire l p t => (acquire l p t s).1 | Release id => release id s | Expire id => expire id s end.

Definition run (es : list event) (s : scheduler) : scheduler := foldl (λ s e, step e s) s es.

Definition snapshot (s : scheduler) : lanes (Z * Z * lane_stats * Z) :=
  let row l := (at_lane l (laneLimits s), at_lane l (inFlight s), at_lane l (stats s), Z.of_nat (length (at_lane l (queues s)))) in
  Lanes (row Critical) (row Control) (row Background).

(** ** The invariant *)

Definition in_lane (l : lane) (s : scheduler) : list slot := filter (λ x, s_lane x = l) (slots s).
Definition of_peer (p : string) (s : scheduler) : list slot := filter (λ x, s_peer x = p) (slots s).

(** The counters say what the slots say, within the limits. *)
Record core (s : scheduler) : Prop := {
  c_limits : ∀ l, (1 ≤ at_lane l (laneLimits s))%Z;
  c_per : (1 ≤ perPeerInFlight s)%Z;
  c_lane : ∀ l, at_lane l (inFlight s) = Z.of_nat (length (in_lane l s)) ∧ (at_lane l (inFlight s) ≤ at_lane l (laneLimits s))%Z;
  c_peer : ∀ p, on_peer p s = Z.of_nat (length (of_peer p s)) ∧ (on_peer p s ≤ perPeerInFlight s)%Z;
  c_pos : ∀ p n, map_get p (peerInFlight s) = Some n → (1 ≤ n)%Z;
  c_wf : map_wf (peerInFlight s)
}.

Definition waiting (s : scheduler) : list waiter := critical (queues s) ++ control (queues s) ++ background (queues s).

(** Every call is in exactly one place. *)
Definition placed (s : scheduler) : Prop :=
  (s_id <$> slots s) ++ (w_id <$> waiting s) ++ released s ++ refused s ≡ₚ seq 0 (next s).

(** No call waits that could run. *)
Definition busy (s : scheduler) : Prop :=
  ∀ l w, w ∈ at_lane l (queues s) → canRun l (w_peer w) s = false.

Definition sound (s : scheduler) : Prop := core s ∧ placed s ∧ busy s.

Lemma in_lane_start l id m p s : length (in_lane l (start id m p s)) = (length (in_lane l s) + if decide (m = l) then 1 else 0)%nat.
Proof.
  unfold in_lane, start. cbn [slots with_stats]. rewrite filter_app, length_app. f_equal. rewrite filter_cons, filter_nil. cbn.
  by repeat case_decide.
Qed.

Lemma of_peer_start q id m p s : length (of_peer q (start id m p s)) = (length (of_peer q s) + if decide (p = q) then 1 else 0)%nat.
Proof.
  unfold of_peer, start. cbn [slots with_stats]. rewrite filter_app, length_app. f_equal. rewrite filter_cons, filter_nil. cbn.
  by repeat case_decide.
Qed.

Lemma on_peer_start q id l p s : on_peer q (start id l p s) = (on_peer q s + if decide (p = q) then 1 else 0)%Z.
Proof.
  unfold on_peer. cbn. rewrite map_get_set. destruct (decide (q = p)) as [->|Hne]; cbn.
  - by rewrite decide_True.
  - rewrite decide_False by congruence. lia.
Qed.

Lemma inFlight_start m id l p s : at_lane m (inFlight (start id l p s)) = (at_lane m (inFlight s) + if decide (l = m) then 1 else 0)%Z.
Proof. cbn. rewrite at_set_lane. destruct (decide (m = l)) as [->|?]; [by rewrite decide_True|rewrite decide_False by congruence; lia]. Qed.

Lemma start_core id l p s : core s → canRun l p s = true → core (start id l p s).
Proof.
  intros [Hl Hp Hi Ho Hpos Hw] Hrun. apply andb_true_iff in Hrun as [Hr1%bool_decide_eq_true Hr2%bool_decide_eq_true].
  split; [done|done| | | |].
  - intros m. rewrite inFlight_start, in_lane_start. destruct (Hi m). cbn [laneLimits start with_stats].
    destruct (decide (l = m)) as [<-|]; split; lia.
  - intros q. rewrite on_peer_start, of_peer_start. destruct (Ho q). cbn [perPeerInFlight start with_stats].
    destruct (decide (p = q)) as [<-|]; split; lia.
  - intros q n. cbn. rewrite map_get_set. case_decide; [intros [= <-]|by apply Hpos]. destruct (Ho p). lia.
  - cbn. by apply map_wf_set.
Qed.

(** Starting calls only uses capacity up. *)
Definition tighter (s s' : scheduler) : Prop := ∀ l p, canRun l p s = false → canRun l p s' = false.

Lemma tighter_start id l p s : tighter s (start id l p s).
Proof.
  intros m q. unfold canRun. rewrite inFlight_start, on_peer_start. cbn [laneLimits perPeerInFlight start with_stats].
  rewrite !andb_false_iff, !bool_decide_eq_false. repeat case_decide; lia.
Qed.

Lemma lane_full l p s : bool_decide (at_lane l (inFlight s) < at_lane l (laneLimits s))%Z = false → canRun l p s = false.
Proof. intros H. unfold canRun. by rewrite H. Qed.

Record pumped (l : lane) (kept rest kept' : list waiter) (s s' : scheduler) : Prop := {
  p_core : core s';
  p_tight : tighter s s';
  p_left : ∀ w, w ∈ kept' → w ∈ kept ∨ canRun l (w_peer w) s' = false;
  p_ids : (s_id <$> slots s') ++ (w_id <$> kept') ≡ₚ (s_id <$> slots s) ++ (w_id <$> kept ++ rest);
  p_sub : sublist kept' (kept ++ rest);
  p_same : queues s' = queues s ∧ released s' = released s ∧ refused s' = refused s ∧ next s' = next s ∧
           laneLimits s' = laneLimits s ∧ perPeerInFlight s' = perPeerInFlight s
}.

Lemma pump_queue_ok l kept rest s :
  core s → pumped l kept rest (pump_queue l kept rest s).1 s (pump_queue l kept rest s).2.
Proof.
  revert kept s. induction rest as [|w rest IH]; intros kept s Hc; cbn [pump_queue].
  { split; rewrite ?app_nil_r; try done; [by intros l' p|]. intros w ?. by left. }
  destruct (bool_decide _) eqn:Hf.
  2: { split; try done; [by intros l' p|]. intros w' [Hw|Hw]%elem_of_app; [by left|right; by apply lane_full]. }
  destruct (canRun l (w_peer w) s) eqn:Hr.
  - destruct (IH kept (start (w_id w) l (w_peer w) s)) as [P1 P2 P3 P4 P5 P6]; [by apply start_core|]. split; try done.
    + intros m p Hmp. by apply P2, tighter_start.
    + rewrite P4. cbn [slots start with_stats]. rewrite !fmap_app. cbn. rewrite <- app_assoc. f_equiv. cbn. by rewrite Permutation_middle.
    + etrans; [exact P5|]. apply sublist_app; [done|]. by apply sublist_cons.
  - destruct (IH (kept ++ [w]) s Hc) as [P1 P2 P3 P4 P5 P6]. rewrite <- app_assoc in P4, P5. split; try done.
    intros w' [Hw|?]%P3; [|by right]. apply elem_of_app in Hw as [?| ->%list_elem_of_singleton]; [by left|right; by apply P2].
Qed.

Definition calls (s : scheduler) : list nat := (s_id <$> slots s) ++ (w_id <$> waiting s).

(** What [#pump] does to the scheduler, the lanes [served] having been served. *)
Record pumps (served : list lane) (s s' : scheduler) : Prop := {
  ps_core : core s';
  ps_tight : tighter s s';
  ps_busy : ∀ l w, l ∈ served → w ∈ at_lane l (queues s') → canRun l (w_peer w) s' = false;
  ps_calls : calls s' ≡ₚ calls s;
  ps_sub : ∀ l, sublist (at_lane l (queues s')) (at_lane l (queues s));
  ps_same : released s' = released s ∧ refused s' = refused s ∧ next s' = next s ∧
            laneLimits s' = laneLimits s ∧ perPeerInFlight s' = perPeerInFlight s
}.

Lemma calls_replace l q s : calls (with_queue l q s) ++ (w_id <$> at_lane l (queues s)) ≡ₚ calls s ++ (w_id <$> q).
Proof.
  unfold calls, waiting, with_queue. cbn. destruct l; cbn; rewrite !fmap_app; solve_Permutation.
Qed.

Lemma pump_lane_ok served l s0 s : pumps served s0 s → pumps (l :: served) s0 (pump_lane l s).
Proof.
  intros [Q1 Q2 Q3 Q4 Q5 Q6]. unfold pump_lane. pose proof (pump_queue_ok l [] (at_lane l (queues s)) s Q1) as [P1 P2 P3 P4 P5 P6].
  destruct (pump_queue l [] (at_lane l (queues s)) s) as [q s1]. cbn [fst snd app] in *. destruct P6 as (Eq & ? & ? & ? & ? & ?).
  split.
  - by destruct P1; split.
  - intros m p Hmp. by apply (P2 m p), Q2.
  - intros m w Hm Hw. change (canRun m (w_peer w) s1 = false). cbn [queues with_queue] in Hw. rewrite at_set_lane, Eq in Hw.
    destruct (decide (m = l)) as [->|Hne].
    + apply P3 in Hw as [?%elem_of_nil|?]; done.
    + apply elem_of_cons in Hm as [?|Hm]; [done|]. by apply P2, Q3.
  - rewrite <- Q4. apply (Permutation_app_inv_r (w_id <$> at_lane l (queues s))). rewrite <- Eq at 1. rewrite calls_replace.
    unfold calls, waiting. rewrite Eq. rewrite <- !app_assoc, (Permutation_app_comm (w_id <$> _) (w_id <$> q)), !app_assoc, P4. solve_Permutation.
  - intros m. cbn [queues with_queue]. rewrite at_set_lane, Eq. destruct (decide (m = l)) as [->|]; [|done]. by etrans.
  - cbn. destruct Q6 as (? & ? & ? & ? & ?). split_and!; congruence.
Qed.

Lemma pump_serves s : core s → pumps [Background; Control; Critical] s (pump s).
Proof.
  intros Hc. unfold pump, RPC_LANES. cbn [foldl]. do 3 apply pump_lane_ok. split; try done; [by intros l p|]. by intros l w ?%elem_of_nil.
Qed.

Lemma pump_sound s :
  core s → placed s → sound (pump s).
Proof.
  intros Hc Hp. destruct (pump_serves s Hc) as [P1 _ P3 P4 _ (R1 & R2 & R3 & _)]. split; [done|]. split.
  - unfold placed in *. rewrite R1, R2, R3, <- Hp. rewrite !(assoc_L app). f_equiv. f_equiv. exact P4.
  - intros l w. apply P3. destruct l; set_solver.
Qed.

Lemma acquire_sound l p t s : sound s → sound (acquire l p t s).1.
Proof.
  intros (Hc & Hp & Hb). unfold acquire. assert (Hc' : core (named s)) by by destruct Hc.
  assert (Hn : placed s → seq 0 (next (named s)) ≡ₚ (calls s ++ released s ++ refused s) ++ [next s]).
  { intros Hp'. unfold placed in Hp'. cbn [next named]. rewrite seq_S, <- Hp'. unfold calls. by rewrite (assoc_L app). }
  specialize (Hn Hp). destruct (bool_decide _ && canRun l p (named s)) eqn:Hrun; cbn [fst].
  - apply andb_true_iff in Hrun as [Hq Hrun]. split; [by apply start_core|]. split.
    + unfold placed. cbn [slots start with_stats released refused next waiting queues]. change (next (named s)) with (next (start (next s) l p (named s))) in Hn.
      cbn [next start with_stats] in Hn. rewrite Hn. unfold calls, waiting. cbn. rewrite fmap_app. cbn. solve_Permutation.
    + intros m w Hw. apply tighter_start. by apply Hb.
  - destruct (match t with Some _ => _ | None => false end); cbn [fst].
    + split; [by destruct Hc|]. split; [|by intros m w Hw; apply Hb]. unfold placed. cbn in *. rewrite Hn. unfold calls, waiting. cbn. solve_Permutation.
    + apply pump_sound; [by destruct Hc'|]. unfold placed. cbn [slots with_stats with_queue released refused next waiting queues named].
      change (S (next s)) with (next (named s)). rewrite Hn. unfold calls, waiting. cbn. destruct l; cbn; rewrite !fmap_app; cbn; solve_Permutation.
Qed.

Lemma find_slot id s l p i :
  List.find (λ x, bool_decide (s_id x = id)) (slots s) = Some (Slot i l p) → i = id ∧ Slot id l p ∈ slots s.
Proof.
  intros [Hin Hid]%find_some. cbn in Hid. apply bool_decide_eq_true in Hid as ->. split; [done|]. by apply list_elem_of_In.
Qed.

Lemma NoDup_calls s : placed s → NoDup (s_id <$> slots s) ∧ NoDup (w_id <$> waiting s).
Proof.
  intros Hp. assert (Hn : NoDup ((s_id <$> slots s) ++ (w_id <$> waiting s) ++ released s ++ refused s)).
  { unfold placed in Hp. rewrite Hp. apply NoDup_seq. }
 
  apply NoDup_app in Hn as (? & _ & Hn). by apply NoDup_app in Hn as (? & _ & _).
Qed.

(** Taking one named element out of a list. *)
Lemma filter_keep {A} (P : A → Prop) `{∀ x, Decision (P x)} (l : list A) : (∀ x, x ∈ l → P x) → filter P l = l.
Proof.
  induction l as [|x l IH]; [done|]. intros Hp. rewrite filter_cons, decide_True by (apply Hp; left). f_equal. apply IH.
  intros y Hy. apply Hp. by right.
Qed.

Lemma filter_named {A} (f : A → nat) (l : list A) x :
  NoDup (f <$> l) → x ∈ l → l ≡ₚ x :: filter (λ y, f y ≠ f x) l.
Proof.
  induction l as [|y l IH]; [by intros _ ?%elem_of_nil|]. rewrite fmap_cons. intros [Hy Hn]%NoDup_cons Hin.
  rewrite filter_cons. case_decide as Hc.
  - apply elem_of_cons in Hin as [->|Hx]; [done|]. rewrite (IH Hn Hx) at 1. apply Permutation_swap.
  - assert (f y = f x) as Hf by (destruct (decide (f y = f x)); tauto). apply elem_of_cons in Hin as [->|Hx].
    + rewrite filter_keep; [done|]. intros z Hz Heq. apply Hy. rewrite <- Heq. by apply list_elem_of_fmap_2.
    + destruct Hy. rewrite Hf. by apply list_elem_of_fmap_2.
Qed.

Lemma put_count_get q p n (m : jsmap string Z) :
  default 0%Z (map_get q (if bool_decide (n ≤ 0)%Z then map_delete p m else map_set p n m)) =
  if decide (q = p) then Z.max 0 n else default 0%Z (map_get q m).
Proof. case_bool_decide; [rewrite map_get_delete|rewrite map_get_set]; case_decide; cbn; lia. Qed.

(** A release gives the slot back, and pumps. *)
Lemma release_pumps id s :
  sound s →
  (release id s = s ∧ id ∉ (s_id <$> slots s)) ∨
  (∃ s1, release id s = pump s1 ∧ core s1 ∧ placed s1 ∧ queues s1 = queues s ∧
     released s1 = released s ++ [id] ∧ refused s1 = refused s ∧ next s1 = next s).
Proof.
  intros (Hc & Hp & Hb). unfold release. destruct (List.find _ (slots s)) as [ [i l p]|] eqn:Hf.
  2: { left. split; [done|]. intros (x & -> & Hx)%list_elem_of_fmap. apply list_elem_of_In in Hx.
       pose proof (find_none _ _ Hf x Hx) as Hno. apply bool_decide_eq_false in Hno. by apply Hno. }
  right. apply find_slot in Hf as [-> Hin]. destruct (NoDup_calls s Hp) as [Hnd _]. pose proof (filter_named s_id (slots s) _ Hnd Hin) as Hperm.
  cbn [s_id] in Hperm. set (rest := filter (λ x, s_id x ≠ id) (slots s)) in *. destruct Hc as [Hl Hper Hi Ho Hpos Hw].
  assert (Hil : ∀ m, length (in_lane m s) = ((if decide (l = m) then 1 else 0) + length (filter (λ x, s_lane x = m) rest))%nat).
  { intros m. unfold in_lane. rewrite Hperm, filter_cons. cbn. by case_decide. }
  assert (Hop : ∀ q, length (of_peer q s) = ((if decide (p = q) then 1 else 0) + length (filter (λ x, s_peer x = q) rest))%nat).
  { intros q. unfold of_peer. rewrite Hperm, filter_cons. cbn. by case_decide. }
  pose proof (Ho p) as [Hop1 _]. rewrite Hop, decide_True in Hop1 by done.
  assert (Hget : map_get p (peerInFlight s) = Some (on_peer p s)).
  { unfold on_peer in *. destruct (map_get p (peerInFlight s)); [done|]. cbn in Hop1. lia. }
  rewrite Hget. change (default 1%Z (Some (on_peer p s))) with (on_peer p s). eexists. split; [reflexivity|]. split_and!; try done.
  - split; cbn [laneLimits perPeerInFlight inFlight peerInFlight slots].
    + done.
    + done.
    + intros m. rewrite at_set_lane. unfold in_lane. cbn [slots]. destruct (Hi m) as [Hm1 Hm2]. rewrite Hil in Hm1.
      destruct (decide (m = l)) as [->|Hne]; [rewrite decide_True in Hm1 by done|rewrite decide_False in Hm1 by congruence]; split; lia.
    + intros q. destruct (Ho q) as [Hq1 Hq2]. rewrite Hop in Hq1. set (n := on_peer p s) in *.
      unfold on_peer, of_peer in *. cbn [peerInFlight slots perPeerInFlight]. rewrite put_count_get.
      destruct (decide (q = p)) as [->|Hne]; [rewrite decide_True in Hq1 by done|rewrite decide_False in Hq1 by congruence]; split; lia.
    + intros q n. case_bool_decide; [rewrite map_get_delete|rewrite map_get_set]; case_decide; try done; [apply Hpos|intros [= <-]; lia|apply Hpos].
    + case_bool_decide; [by apply map_wf_delete|by apply map_wf_set].
  - unfold placed in *. rewrite <- Hp, Hperm. cbn. unfold waiting. cbn. solve_Permutation.
Qed.

Lemma release_sound id s : sound s → sound (release id s).
Proof.
  intros Hs. destruct (release_pumps id s Hs) as [ [-> _]|(s1 & -> & Hc & Hp & _)]; [done|by apply pump_sound].
Qed.

Lemma lane_of_some id s l : lane_of id s = Some l → ∃ w, w ∈ at_lane l (queues s) ∧ w_id w = id.
Proof.
  intros [_ Hid]%find_some. apply bool_decide_eq_true, list_elem_of_fmap in Hid as (w & -> & Hw). by exists w.
Qed.

Lemma expire_sound id s : sound s → sound (expire id s).
Proof.
  intros (Hc & Hp & Hb). unfold expire. destruct (lane_of id s) as [l|] eqn:Hl; [|done].
  destruct (lane_of_some id s l Hl) as (w & Hw & <-). destruct (NoDup_calls s Hp) as [_ Hnd].
  split; [by destruct Hc|]. split.
  - assert (Hq : at_lane l (queues s) ≡ₚ w :: filter (λ y, w_id y ≠ w_id w) (at_lane l (queues s))).
    { apply filter_named; [|done]. revert Hnd. unfold waiting. rewrite !fmap_app, !NoDup_app. destruct l; cbn; tauto. }
    unfold placed in *. rewrite <- Hp. unfold waiting. set (q := filter _ _) in *. clearbody q.
    destruct l; cbn in *; rewrite Hq, !fmap_app; cbn; solve_Permutation.
  - intros m v Hv. cbn [queues with_queue with_stats refuse] in Hv. rewrite at_set_lane in Hv. apply (Hb m).
    case_decide as Hm; [|done]. subst m. by apply list_elem_of_filter in Hv as [_ ?].
Qed.

Lemma step_sound e s : sound s → sound (step e s).
Proof. destruct e; [apply acquire_sound|apply release_sound|apply expire_sound]. Qed.

Lemma run_sound es s : sound s → sound (run es s).
Proof. revert s. induction es as [|e es IH]; intros s Hs; [done|]. by apply IH, step_sound. Qed.

Lemma lane_limit_ok v l n : lane_limit v l = Ok n → (1 ≤ n)%Z.
Proof.
  unfold lane_limit. destruct (is_integer _); [|done]. case_bool_decide; [done|]. intros <-%Ok_inj. lia.
Qed.

Lemma new_scheduler_sound limits per s : new_scheduler limits per = Ok s → sound s.
Proof.
  unfold new_scheduler. intros Hn. apply bind_Ok_inv in Hn as (c & Hc & Hn). apply bind_Ok_inv in Hn as (t & Ht & Hn).
  apply bind_Ok_inv in Hn as (b & Hb & Hn). apply bind_Ok_inv in Hn as (p & Hp & Hn%Ok_inj). subst s.
  apply lane_limit_ok in Hc, Ht, Hb. assert (1 ≤ p)%Z by (revert Hp; destruct (is_integer _); [case_bool_decide; [done|intros <-%Ok_inj; lia]|done]).
  split; [|split; [by constructor|by intros [] w ?%elem_of_nil] ].
  split; cbn; [by intros []|done|by intros []; cbn; lia|intros q; cbn; lia|done|apply map_wf_nil].
Qed.

(** C9: whatever calls arrive, finish and time out, the discovery calls in
    flight are exactly the slots held, within the limit of their lane and of
    their peer; every call is in exactly one place (holding, waiting, finished
    or refused); and a call waits only while its lane or its peer is full. *)
Theorem lanes_invariant limits per s es :
  new_scheduler limits per = Ok s →
  let s' := run es s in
  (∀ l, at_lane l (inFlight s') = Z.of_nat (length (in_lane l s')) ∧ (at_lane l (inFlight s') ≤ at_lane l (laneLimits s'))%Z) ∧
  (∀ p, on_peer p s' = Z.of_nat (length (of_peer p s')) ∧ (on_peer p s' ≤ perPeerInFlight s')%Z) ∧
  (s_id <$> slots s') ++ (w_id <$> waiting s') ++ released s' ++ refused s' ≡ₚ seq 0 (next s') ∧
  (∀ l w, w ∈ at_lane l (queues s') →
    at_lane l (inFlight s') = at_lane l (laneLimits s') ∨ on_peer (w_peer w) s' = perPeerInFlight s').
Proof.
  intros Hn s'. destruct (run_sound es s (new_scheduler_sound _ _ _ Hn)) as (Hc & Hp & Hb). fold s' in Hc, Hp, Hb.
  split_and!; [apply Hc|apply Hc|done|]. intros l w Hw. specialize (Hb l w Hw). unfold canRun in Hb.
  apply andb_false_iff in Hb. rewrite !bool_decide_eq_false in Hb. pose proof (proj2 (c_lane s' Hc l)). pose proof (proj2 (c_peer s' Hc (w_peer w))). lia.
Qed.

(** ** Draining *)

(** Each of the calls, in turn, still holds its slot when it is released. *)
Fixpoint held_each (ids : list nat) (s : scheduler) : Prop :=
  match ids with
  | [] => True
  | id :: ids => id ∈ (s_id <$> slots s) ∧ held_each ids (release id s)
  end.

Definition unfinished (s : scheduler) : nat := length (calls s).

Lemma release_held id s :
  sound s → id ∈ (s_id <$> slots s) →
  unfinished s = S (unfinished (release id s)) ∧ released (release id s) = released s ++ [id] ∧
  refused (release id s) = refused s ∧ next (release id s) = next s.
Proof.
  intros Hs Hid. destruct (release_pumps id s Hs) as [ [_ Hno]|(s1 & -> & Hc & Hp & Hq & R1 & R2 & R3)]; [done|].
  destruct (pump_serves s1 Hc) as [_ _ _ P4 _ (P1 & P2 & P3 & _)]. rewrite P1, P2, P3. split; [|done].
  destruct Hs as (_ & Hp0 & _). unfold placed in Hp, Hp0. apply Permutation_length in Hp, Hp0, P4.
  rewrite R1, R2, R3, !length_app, length_seq in *. unfold unfinished. rewrite P4. unfold calls. rewrite !length_app in *. cbn in *. lia.
Qed.

(** C10: nothing waits forever.  While a call is unfinished some call holds a
    slot, and however the slots are given back, one for each unfinished call
    finishes every call: each that was not refused has had its slot. *)
Theorem lanes_drain limits per s es ids :
  new_scheduler limits per = Ok s →
  let s' := run es s in
  held_each ids s' →
  (0 < unfinished s' → slots s' ≠ []) ∧ length ids ≤ unfinished s' ∧
  (length ids = unfinished s' → let s'' := run (Release <$> ids) s' in
    slots s'' = [] ∧ waiting s'' = [] ∧ refused s'' = refused s' ∧ released s'' ++ refused s' ≡ₚ seq 0 (next s')).
Proof.
  intros Hn s' Hh. pose proof (run_sound es s (new_scheduler_sound _ _ _ Hn)) as Hs. fold s' in Hs. clearbody s'.
  split.
  { intros Hpos Hnil. destruct Hs as (Hc & _ & Hb). unfold unfinished, calls, waiting in Hpos. rewrite Hnil in Hpos. cbn in Hpos.
    assert (∃ l w, w ∈ at_lane l (queues s')) as (l & w & Hw).
    { destruct (critical (queues s')) as [|w ?] eqn:E1; [|exists Critical, w; cbn; rewrite E1; left].
      destruct (control (queues s')) as [|w ?] eqn:E2; [|exists Control, w; cbn; rewrite E2; left].
      destruct (background (queues s')) as [|w ?] eqn:E3; [cbn in Hpos; lia|exists Background, w; cbn; rewrite E3; left]. }
    specialize (Hb l w Hw). unfold canRun in Hb. apply andb_false_iff in Hb. rewrite !bool_decide_eq_false in Hb.
    destruct (c_lane s' Hc l) as [Hl _], (c_peer s' Hc (w_peer w)) as [Hp _]. unfold in_lane, of_peer in *. rewrite Hnil in *. cbn in *.
    pose proof (c_limits s' Hc l). pose proof (c_per s' Hc). lia. }
  revert s' Hs Hh. induction ids as [|id ids IH]; intros s' Hs Hh; cbn [length].
  - split; [lia|]. intros Hz. cbn. unfold unfinished, calls in Hz. symmetry in Hz. rewrite length_app, !length_fmap in Hz.
    assert (slots s' = [] ∧ waiting s' = []) as [H1 H2] by (destruct (slots s'), (waiting s'); cbn in Hz; try lia; done).
    destruct Hs as (_ & Hp & _). unfold placed in Hp. rewrite H1, H2 in Hp. by split_and!.
  - destruct Hh as [Hid Hh]. destruct (release_held id s' Hs Hid) as (Hu & _ & Hr & Hx).
    destruct (IH (release id s') (release_sound id s' Hs) Hh) as [Hle Hend]. split; [lia|]. intros Heq.
    destruct Hend as (? & ? & ? & ?); [lia|]. rewrite Hr, Hx in *. by split_and!.
Qed.

(** ** Order *)

Lemma pump_kept l kept rest s w : w ∈ kept → w ∈ (pump_queue l kept rest s).1.
Proof.
  revert kept s. induction rest as [|v rest IH]; intros kept s Hw; cbn [pump_queue]; [done|].
  destruct (bool_decide _); [|apply elem_of_app; by left]. destruct (canRun _ _ _); apply IH; [done|apply elem_of_app; by left].
Qed.

(** Nobody is started for a peer, or in a lane, that is full. *)
Lemma pump_blocked l kept rest s w :
  canRun l (w_peer w) s = false → w ∈ rest → w ∈ (pump_queue l kept rest s).1.
Proof.
  revert kept s. induction rest as [|v rest IH]; intros kept s Hb Hw; [by apply elem_of_nil in Hw|]. cbn [pump_queue].
  destruct (bool_decide _); [|apply elem_of_app; by right]. apply elem_of_cons in Hw as [->|Hw].
  - rewrite Hb. apply pump_kept, elem_of_app. right. by apply list_elem_of_singleton.
  - destruct (canRun l (w_peer v) s); apply IH; try done. by apply tighter_start.
Qed.

Lemma pump_queue_fifo l kept l1 w l2 w' l3 s :
  core s → NoDup (kept ++ l1 ++ w :: l2 ++ w' :: l3) → w_peer w = w_peer w' →
  w ∈ (pump_queue l kept (l1 ++ w :: l2 ++ w' :: l3) s).1 → w' ∈ (pump_queue l kept (l1 ++ w :: l2 ++ w' :: l3) s).1.
Proof.
  intros Hc Hnd Hpeer. revert kept s Hc Hnd. induction l1 as [|v l1 IH]; intros kept s Hc Hnd; cbn [app pump_queue];
    (destruct (bool_decide _) eqn:Hf; [|intros _; apply elem_of_app; right; set_solver]).
  - destruct (canRun l (w_peer w) s) eqn:Hr.
    + intros Hin. exfalso. pose proof (start_core (w_id w) l (w_peer w) s Hc Hr) as Hc1.
      pose proof (p_sub _ _ _ _ _ _ (pump_queue_ok l kept (l2 ++ w' :: l3) _ Hc1)) as Hsub.
      apply (sublist_subseteq _ _ Hsub) in Hin. revert Hnd. cbn [app]. rewrite <- Permutation_middle. rewrite NoDup_cons. tauto.
    + intros _. apply pump_blocked; [by rewrite <- Hpeer|]. set_solver.
  - destruct (canRun l (w_peer v) s) eqn:Hr; apply IH; try done.
    + by apply start_core.
    + revert Hnd. cbn [app]. rewrite <- Permutation_middle. by intros [_ ?]%NoDup_cons.
    + by rewrite <- (assoc_L app).
Qed.

Lemma pump_lane_other l m s : core s → l ≠ m → at_lane l (queues (pump_lane m s)) = at_lane l (queues s).
Proof.
  intros Hc Hne. unfold pump_lane. pose proof (pump_queue_ok m [] (at_lane m (queues s)) s Hc) as [_ _ _ _ _ [Hq _] ].
  destruct (pump_queue _ _ _ _) as [q s1]. cbn [queues with_queue fst snd] in *. by rewrite at_set_lane, decide_False, Hq.
Qed.

Lemma pump_lane_same l s : at_lane l (queues (pump_lane l s)) = (pump_queue l [] (at_lane l (queues s)) s).1.
Proof. unfold pump_lane. destruct (pump_queue _ _ _ _) as [q s1]. cbn [queues with_queue]. by rewrite at_set_lane, decide_True. Qed.

Lemma pump_lane_core l s : core s → core (pump_lane l s).
Proof.
  intros Hc. assert (Hps : pumps [] s s) by (split; try done; [by intros m p|by intros m w ?%elem_of_nil]).
  by destruct (pump_lane_ok [] l s s Hps).
Qed.

Lemma pump_fifo l s l1 w l2 w' l3 :
  core s → at_lane l (queues s) = l1 ++ w :: l2 ++ w' :: l3 → NoDup (at_lane l (queues s)) → w_peer w = w_peer w' →
  w ∈ at_lane l (queues (pump s)) → w' ∈ at_lane l (queues (pump s)).
Proof.
  intros Hc Hq Hnd Hpeer. unfold pump, RPC_LANES. cbn [foldl].
  assert (Hc1 := pump_lane_core Critical s Hc). assert (Hc2 := pump_lane_core Control _ Hc1). rewrite Hq in Hnd.
  destruct l; rewrite ?(pump_lane_other _ Background), ?(pump_lane_other _ Control), ?(pump_lane_other _ Critical) by done;
    rewrite ?pump_lane_same, ?(pump_lane_other _ Control), ?(pump_lane_other _ Critical), Hq by done; by apply pump_queue_fifo.
Qed.

Lemma placed_disjoint s w l : placed s → w ∈ at_lane l (queues s) → w_id w ∈ (s_id <$> slots s) → False.
Proof.
  intros Hp Hw Hs. assert (Hn : NoDup ((s_id <$> slots s) ++ (w_id <$> waiting s) ++ released s ++ refused s)).
  { unfold placed in Hp. rewrite Hp. apply NoDup_seq. }
  apply NoDup_app in Hn as (_ & Hn & _). apply (Hn _ Hs). apply elem_of_app. left. apply list_elem_of_fmap. exists w. split; [done|].
  unfold waiting. destruct l; set_solver.
Qed.

Lemma NoDup_queue s l : placed s → NoDup (at_lane l (queues s)).
Proof.
  intros [_ Hn]%NoDup_calls. apply NoDup_fmap_1 in Hn. revert Hn. unfold waiting. rewrite !NoDup_app. destruct l; cbn; tauto.
Qed.

Lemma step_fifo e s l l1 w l2 w' l3 :
  sound s → at_lane l (queues s) = l1 ++ w :: l2 ++ w' :: l3 → w_peer w = w_peer w' →
  w_id w' ∈ (s_id <$> slots (step e s)) → w ∈ at_lane l (queues (step e s)) → w' ∈ at_lane l (queues (step e s)).
Proof.
  intros Hs Hq Hpeer. pose proof Hs as (Hc & Hp & Hb). pose proof (NoDup_queue s l Hp) as Hnd.
  assert (Hw' : w' ∈ at_lane l (queues s)) by (rewrite Hq; set_solver). destruct e as [m p t|id|id]; cbn [step].
  - intros _. unfold acquire. destruct (bool_decide _ && _); [done|]. destruct (match t with Some _ => _ | None => false end); [done|].
    cbn [fst]. set (q := at_lane m _ ++ _). match goal with |- context [pump ?x] => set (s1 := x) end.
    assert (Hc1 : core s1) by by destruct Hc. subst q.
    assert (NoDup (at_lane l (queues s1)) ∧ ∃ l4, at_lane l (queues s1) = at_lane l (queues s) ++ l4) as [Hn1 [l4 Hq1] ].
    { cbn [queues with_stats with_queue named s1]. rewrite at_set_lane. destruct (decide (l = m)) as [<-|]; [|split; [done|exists []; by rewrite app_nil_r] ].
      split; [|by eexists]. apply NoDup_app. split_and!; [done| |apply NoDup_singleton]. intros v Hv ->%list_elem_of_singleton.
      assert (Hlt : next s ∈ seq 0 (next s)); [|apply elem_of_seq in Hlt; lia]. unfold placed in Hp. rewrite <- Hp.
      apply elem_of_app. right. apply elem_of_app. left. apply list_elem_of_fmap. exists (Waiter (next s) p). split; [done|].
      unfold waiting. destruct l; set_solver. }
    apply (pump_fifo l s1 l1 w l2 w' (l3 ++ l4) Hc1); [|done|done]. rewrite Hq1, Hq. cbn. rewrite <- !(assoc_L app). cbn. by rewrite <- (assoc_L app).
  - intros _. destruct (release_pumps id s Hs) as [ [-> _]|(s1 & -> & Hc1 & _ & Hq1 & _)]; [done|].
    rewrite <- Hq1 in *. by eapply pump_fifo.
  - intros Hin _. exfalso. apply (placed_disjoint s w' l Hp Hw'). revert Hin. unfold expire. by destruct (lane_of id s).
Qed.

(** No call overtakes an earlier one of its lane to the same peer: as long
    as the earlier one waits, whatever happens next, the later one is given no
    slot. *)
Theorem lane_fifo limits per s es e l l1 w l2 w' l3 :
  new_scheduler limits per = Ok s →
  let s' := run es s in
  at_lane l (queues s') = l1 ++ w :: l2 ++ w' :: l3 → w_peer w = w_peer w' →
  w ∈ at_lane l (queues (step e s')) → w_id w' ∉ (s_id <$> slots (step e s')).
Proof.
  intros Hn s' Hq Hpeer Hw Hin. pose proof (run_sound es s (new_scheduler_sound _ _ _ Hn)) as Hs. fold s' in Hs.
  pose proof (step_fifo e s' l l1 w l2 w' l3 Hs Hq Hpeer Hin Hw) as Hw'.
  destruct (step_sound e s' Hs) as (_ & Hp & _). by apply (placed_disjoint _ w' l Hp).
Qed.

(** ** A concrete scheduler *)

Definition toy_scheduler : scheduler :=
  match new_scheduler (JObj [("control", JNum (JInt 2)); ("background", JNum (JInt 1))]) (JNum (JInt 1)) with
  | Ok s => s
  | Throw _ => Scheduler (Lanes 1 1 1)%Z 1 (Lanes 0 0 0)%Z (Lanes [] [] []) [] (Lanes (LaneStats 0 0 0 0) (LaneStats 0 0 0 0) (LaneStats 0 0 0 0)) [] [] [] 0
  end.
Definition toy_events : list event :=
  [Acquire Control "a" None; Acquire Control "a" (Some 50%Z); Acquire Control "a" None; Acquire Control "b" None;
   Acquire Background "b" None; Acquire Background "c" (Some 0%Z); Acquire Background "a" (Some 9%Z); Expire 6].

Lemma toy_created : new_scheduler (JObj [("control", JNum (JInt 2)); ("background", JNum (JInt 1))]) (JNum (JInt 1)) = Ok toy_scheduler.
Proof. reflexivity. Qed.

Lemma lanes_invariant_witness :
  let s := run toy_events toy_scheduler in
  at_lane Control (inFlight s) = 2%Z ∧ w_id <$> waiting s = [1; 2; 4] ∧ on_peer "b" s = perPeerInFlight s.
Proof.
  destruct (lanes_invariant _ _ _ toy_events toy_created) as (Hl & _ & _ & Hw). cbv zeta in *. split_and!.
  - rewrite (proj1 (Hl Control)). vm_compute. reflexivity.
  - vm_compute. reflexivity.
  - destruct (Hw Background (Waiter 4 "b")) as [E|E]; [vm_compute; left| |exact E]. vm_compute in E. discriminate E.
Defined.

Lemma lanes_drain_witness :
  let s := run toy_events toy_scheduler in
  unfinished s = 5 ∧ held_each [0; 3; 1; 4; 2] s ∧ slots (run (Release <$> [0; 3; 1; 4; 2]) s) = [].
Proof.
  assert (Hh : held_each [0; 3; 1; 4; 2] (run toy_events toy_scheduler)).
  { cbn [held_each]. split_and!; try exact I; apply (bool_decide_unpack _); vm_compute; exact I. }
  cbv zeta. split; [vm_compute; reflexivity|]. split; [exact Hh|].
  destruct (lanes_drain _ _ _ toy_events [0; 3; 1; 4; 2] toy_created Hh) as (_ & _ & Hd).
  destruct Hd as (Hd & _); [vm_compute; reflexivity|exact Hd].
Defined.

Lemma lane_fifo_witness :
  let s := run toy_events toy_scheduler in
  Waiter 1 "a" ∈ at_lane Control (queues (step (Release 3) s)) ∧ w_id (Waiter 2 "a") ∉ (s_id <$> slots (step (Release 3) s)).
Proof.
  assert (Hq : at_lane Control (queues (run toy_events toy_scheduler)) = [] ++ Waiter 1 "a" :: [] ++ Waiter 2 "a" :: [])
    by (vm_compute; reflexivity).
  assert (Hw : Waiter 1 "a" ∈ at_lane Control (queues (step (Release 3) (run toy_events toy_scheduler)))) by (vm_compute; left).
  cbv zeta. split; [exact Hw|].
  exact (lane_fifo _ _ _ toy_events (Release 3) Control [] (Waiter 1 "a") [] (Waiter 2 "a") [] toy_created Hq eq_refl Hw).
Defined.

End RpcLanes.
