(* ===== verification/RelayRouting.v ===== *)
(** * The offers of a relay and their ranking

    Models the routing part of network/relay/server.js: the offers with their
    index by capability, the price, capacity and load of an offer, and the order
    in which the offers eligible for a request are tried. *)
From S2P Require Import Prelude JSMap JSValue Host Protocol Security.
Import Protocol.Envelope Security.

Module RelayRouting.

(** The double-precision operations of the engine. *)
Class Doubles := {
  d_add : jnum → jnum → jnum;
  d_mul : jnum → jnum → jnum;
  d_div : jnum → jnum → jnum
}.

Definition d_less (a b : jnum) : bool := match num_compare_num a b with Some Lt => true | _ => false end.

Record offer := Offer {
  o_envelope : jval; o_capability : string; o_policy : provider_policy; o_revoked : bool
}.

Definition offer_from (o : offer) : string := str_of (oprop (o_envelope o) "from").

(** ** The index by capability *)

(** [offers] and [offersByCapability]; a [Set] is the list of its elements. *)
Record directory := Directory { offers : jsmap string offer; offersByCapability : jsmap string (list string) }.

Definition set_add (x : string) (l : list string) : list string := if bool_decide (x ∈ l) then l else l ++ [x].

Definition indexOffer (offerId : string) (o : offer) (d : directory) : directory :=
  let set := default [] (map_get (o_capability o) (offersByCapability d)) in
  Directory (offers d) (map_set (o_capability o) (set_add offerId set) (offersByCapability d)).

Definition unindexOffer (offerId : string) (d : directory) : directory :=
  match map_get offerId (offers d) with
  | None => d
  | Some o =>
      match map_get (o_capability o) (offersByCapability d) with
      | None => d
      | Some set =>
          let set := filter (λ id, id ≠ offerId) set in
          Directory (offers d)
            (if bool_decide (set = []) then map_delete (o_capability o) (offersByCapability d)
             else map_set (o_capability o) set (offersByCapability d))
      end
  end.

Definition putOffer (offerId : string) (o : offer) (d : directory) : directory :=
  let d := unindexOffer offerId d in
  indexOffer offerId o (Directory (map_set offerId o (offers d)) (offersByCapability d)).

Definition dropOffer (offerId : string) (d : directory) : directory :=
  let d := unindexOffer offerId d in Directory (map_delete offerId (offers d)) (offersByCapability d).

Definition offersForCapability (capability : string) (d : directory) : list offer :=
  if negb (nonempty_str capability) then map_values (offers d)
  else match map_get capability (offersByCapability d) with
       | None => []
       | Some ids => omap (λ id, map_get id (offers d)) ids
       end.

(** [live.revoked = true] *)
Definition revoke_offer (offerId : string) (d : directory) : directory :=
  match map_get offerId (offers d) with
  | Some o => Directory (map_set offerId (Offer (o_envelope o) (o_capability o) (o_policy o) true) (offers d))
                (offersByCapability d)
  | None => d
  end.

(** The index holds exactly the offers of each capability, once each. *)
Record indexed (d : directory) : Prop := {
  ix_offers : map_wf (offers d);
  ix_once : ∀ c ids, map_get c (offersByCapability d) = Some ids → NoDup ids ∧ ids ≠ [];
  ix_exact : ∀ c id, id ∈ default [] (map_get c (offersByCapability d)) ↔
    ∃ o, map_get id (offers d) = Some o ∧ o_capability o = c
}.

Lemma indexed_empty : indexed (Directory [] []).
Proof. split; [apply map_wf_nil|done|]. intros c id. cbn. rewrite elem_of_nil. naive_solver. Qed.

Lemma elem_of_set_add x y l : x ∈ set_add y l ↔ x = y ∨ x ∈ l.
Proof. unfold set_add. case_bool_decide; [naive_solver|]. rewrite elem_of_app, list_elem_of_singleton. tauto. Qed.

Lemma NoDup_set_add x l : NoDup l → NoDup (set_add x l).
Proof.
  intros Hl. unfold set_add. case_bool_decide; [done|]. apply NoDup_app. split_and!; [done| |apply NoDup_singleton].
  intros y Hy ->%list_elem_of_singleton. done.
Qed.

(** What taking an offer out of the index leaves. *)
Record unindexed (offerId : string) (d : directory) : Prop := {
  ux_once : ∀ c ids, map_get c (offersByCapability d) = Some ids → NoDup ids ∧ ids ≠ [];
  ux_exact : ∀ c id, id ∈ default [] (map_get c (offersByCapability d)) ↔
    id ≠ offerId ∧ ∃ o, map_get id (offers d) = Some o ∧ o_capability o = c
}.

Lemma unindexOffer_offers offerId d : offers (unindexOffer offerId d) = offers d.
Proof. unfold unindexOffer. by repeat case_match. Qed.

Lemma unindexOffer_ok offerId d : indexed d → unindexed offerId (unindexOffer offerId d).
Proof.
  intros [_ Ho He]. unfold unindexOffer. destruct (map_get offerId (offers d)) as [o|] eqn:Hget.
  2: { split; [done|]. intros c id. rewrite He. split; [|naive_solver]. intros (p & Hp & Hc). split; [|eauto]. intros ->. congruence. }
  assert (Hin : offerId ∈ default [] (map_get (o_capability o) (offersByCapability d))) by (apply He; eauto).
  destruct (map_get (o_capability o) (offersByCapability d)) as [set|] eqn:Hset; [|by apply elem_of_nil in Hin].
  assert (Hex : ∀ c id, id ∈ (if decide (c = o_capability o) then filter (λ id, id ≠ offerId) set
      else default [] (map_get c (offersByCapability d))) ↔ id ≠ offerId ∧ ∃ o, map_get id (offers d) = Some o ∧ o_capability o = c).
  { intros c id. pose proof (He c id) as Hc. destruct (decide (c = o_capability o)) as [->|Hne].
    - rewrite Hset in Hc. cbn in Hc. rewrite list_elem_of_filter. tauto.
    - rewrite Hc. split; [|tauto]. intros (p & Hp & Hcap). split; [|eauto]. intros ->. naive_solver. }
  split; cbn [offers offersByCapability].
  - intros c ids. case_bool_decide as Hnil.
    + rewrite map_get_delete. case_decide; [done|]. apply Ho.
    + rewrite map_get_set. case_decide; [|apply Ho]. intros [= <-]. split; [|done].
      apply NoDup_filter. by destruct (Ho _ _ Hset).
  - intros c id. rewrite <- Hex. case_bool_decide as Hnil.
    + rewrite map_get_delete. case_decide; [by rewrite Hnil|done].
    + rewrite map_get_set. by case_decide.
Qed.

Lemma putOffer_indexed offerId o d : indexed d → indexed (putOffer offerId o d).
Proof.
  intros Hd. pose proof (ix_offers d Hd) as Hwf. apply (unindexOffer_ok offerId) in Hd as [Ho He].
  unfold putOffer, indexOffer. rewrite unindexOffer_offers in *. split; cbn [offers offersByCapability].
  - by apply map_wf_set.
  - intros c ids. rewrite map_get_set. case_decide as Hc; [|apply Ho]. intros [= <-]. split.
    + apply NoDup_set_add. destruct (map_get (o_capability o) _) as [l|] eqn:E; [by destruct (Ho _ _ E)|constructor].
    + intros Hnil. assert (Hin : offerId ∈ set_add offerId (default [] (map_get (o_capability o)
        (offersByCapability (unindexOffer offerId d))))) by (apply elem_of_set_add; by left). rewrite Hnil in Hin. by apply elem_of_nil in Hin.
  - intros c id. rewrite map_get_set, (map_get_set id). case_decide as Hc; cbn [default Datatypes.id].
    + subst c. rewrite elem_of_set_add, He. case_decide; naive_solver.
    + rewrite He. case_decide; naive_solver.
Qed.

Lemma dropOffer_indexed offerId d : indexed d → indexed (dropOffer offerId d).
Proof.
  intros Hd. pose proof (ix_offers d Hd) as Hwf. apply (unindexOffer_ok offerId) in Hd as [Ho He].
  unfold dropOffer. rewrite unindexOffer_offers in *. split; cbn [offers offersByCapability]; [by apply map_wf_delete|done|].
  intros c id. rewrite He, map_get_delete. case_decide; naive_solver.
Qed.

Lemma revoke_offer_indexed offerId d : indexed d → indexed (revoke_offer offerId d).
Proof.
  intros [Hwf Ho He]. unfold revoke_offer. destruct (map_get offerId (offers d)) as [o|] eqn:Hget; [|by split].
  split; cbn [offers offersByCapability]; [by apply map_wf_set|done|].
  intros c id. rewrite He, map_get_set. case_decide; [subst|done]. rewrite Hget. naive_solver.
Qed.

(** Reading through the index is filtering the offers by capability. *)
Lemma offersForCapability_elem capability d o :
  indexed d → capability ≠ "" →
  o ∈ offersForCapability capability d ↔ ∃ id, map_get id (offers d) = Some o ∧ o_capability o = capability.
Proof.
  intros [_ _ He] Hc. unfold offersForCapability. rewrite (proj2 (nonempty_str_true capability) Hc). cbn [negb].
  assert (E : ∀ ids, map_get capability (offersByCapability d) = ids →
    match ids with None => [] | Some ids => omap (λ id, map_get id (offers d)) ids end =
    omap (λ id, map_get id (offers d)) (default [] ids)) by (by intros [ids|]).
  rewrite (E _ eq_refl), list_elem_of_omap. split.
  - intros (id & (o' & Ho' & Hcap)%He & Hget). exists id. split; [done|]. congruence.
  - intros (id & Hget & Hcap). exists id. split; [apply He; eauto|done].
Qed.

Lemma omap_entries (m : jsmap string offer) (es : list (string * offer)) :
  (∀ k o, (k, o) ∈ es → map_get k m = Some o) → omap (λ id, map_get id m) es.*1 = es.*2.
Proof.
  induction es as [|[k o] es IH]; intros Hin; cbn; [done|]. rewrite (Hin k o) by (by left). f_equal. apply IH.
  intros j q Hj. apply Hin. by right.
Qed.

(** The offers of a capability are, each once, those a scan of all offers
    selects. *)
Lemma offersForCapability_scan capability d :
  indexed d → capability ≠ "" →
  offersForCapability capability d ≡ₚ (filter (λ e : string * offer, o_capability e.2 = capability) (offers d)).*2.
Proof.
  intros [Hwf Ho He] Hc. unfold offersForCapability. rewrite (proj2 (nonempty_str_true capability) Hc). cbn [negb].
  set (es := filter _ (offers d)).
  assert (Hes : ∀ k o, (k, o) ∈ es → map_get k (offers d) = Some o).
  { intros k o [_ Hin]%list_elem_of_filter. by apply map_elem_get. }
  assert (Hperm : default [] (map_get capability (offersByCapability d)) ≡ₚ es.*1).
  { apply NoDup_Permutation.
    - destruct (map_get capability (offersByCapability d)) as [ids|] eqn:E; [by destruct (Ho _ _ E)|constructor].
    - by apply map_wf_filter.
    - intros id. rewrite He, list_elem_of_fmap. split.
      + intros (o & Hget & Hcap). exists (id, o). split; [done|]. apply list_elem_of_filter. split; [done|]. by apply map_get_elem.
      + intros ([k o] & -> & Hin). exists o. split; [by apply Hes|]. by apply list_elem_of_filter in Hin as [? _]. }
  transitivity (omap (λ id, map_get id (offers d)) (default [] (map_get capability (offersByCapability d)))).
  { by destruct (map_get capability (offersByCapability d)). }
  rewrite Hperm. by rewrite omap_entries.
Qed.

(** The operations on the directory. *)
Inductive offer_op := PutOffer (id : string) (o : offer) | DropOffer (id : string) | RevokeOffer (id : string).

Definition offer_step (d : directory) (op : offer_op) : directory :=
  match op with
  | PutOffer id o => putOffer id o d
  | DropOffer id => dropOffer id d
  | RevokeOffer id => revoke_offer id d
  end.

Lemma indexed_ops ops d : indexed d → indexed (fold_left offer_step ops d).
Proof.
  revert d. induction ops as [|op ops IH]; intros d Hd; [done|]. cbn. apply IH.
  destruct op; [by apply putOffer_indexed|by apply dropOffer_indexed|by apply revoke_offer_indexed].
Qed.

(** C35: after any sequence of offers put, dropped and revoked, reading the
    index of a capability gives the same offers, each once, as scanning all of
    them. *)
Theorem index_exact ops capability :
  capability ≠ "" →
  let d := fold_left offer_step ops (Directory [] []) in
  offersForCapability capability d ≡ₚ (filter (λ e : string * offer, o_capability e.2 = capability) (offers d)).*2.
Proof. intros Hc d. apply offersForCapability_scan; [apply indexed_ops, indexed_empty|done]. Qed.

Lemma index_exact_witness :
  let policy := ProviderPolicy "p" "p" JNull "public" "public" [] None None in
  let o c := Offer JNull c policy false in
  let ops := [PutOffer "a" (o "sum"); PutOffer "b" (o "sum"); PutOffer "a" (o "max"); RevokeOffer "b"; DropOffer "a"] in
  "sum" ≠ "" ∧ offersForCapability "sum" (fold_left offer_step ops (Directory [] [])) ≡ₚ
    [Offer JNull "sum" policy true].
Proof. intros policy o ops. split; [done|]. exact (index_exact ops "sum" ltac:(discriminate)). Defined.

(** ** Price, capacity and order *)

Section ranking.
Context `{Doubles}.

Definition nonnegativeFiniteNumber (v : jval) : option jnum :=
  match v with JNum n => if js_finite n && num_ge n 0 then Some n else None | _ => None end.

Record settings := Settings { latency : bool; ratio : jnum; ceiling : option jnum }.

Definition quarter : jnum := JDec 25 2.

Definition routingSettings (routing : jval) : result settings :=
  if nullish routing then Ok (Settings false quarter None)
  else if negb (is_typeof_object routing) || is_array routing then Throw (fault 400 "invalid_routing_policy")
  else
    let mode := js_coalesce (js_coalesce (oprop routing "mode") (oprop routing "strategy")) (JStr "cost") in
    if negb (eq_str mode "latency") && negb (eq_str mode "cost") then Throw (fault 400 "invalid_routing_mode")
    else
      match (if nullish (oprop routing "expectedOutputRatio") then Some quarter
             else nonnegativeFiniteNumber (oprop routing "expectedOutputRatio")) with
      | None => Throw (fault 400 "invalid_expected_output_ratio")
      | Some ratio =>
          if d_less (JInt 100) ratio then Throw (fault 400 "invalid_expected_output_ratio")
          else
            let given := oprop routing "maxUnitCostUsdPerMTok" in
            let ceiling := if nullish given then None else nonnegativeFiniteNumber given in
            if negb (nullish given) && bool_decide (ceiling = None) then Throw (fault 400 "invalid_max_unit_cost")
            else Ok (Settings (eq_str mode "latency") ratio ceiling)
      end.

Definition metadata_of (o : offer) : jval := js_or (oprop (oprop (o_envelope o) "payload") "metadata") (JObj []).

Definition offerUnitCost (o : offer) (ratio : jnum) : jnum :=
  let pricing := js_coalesce (oprop (metadata_of o) "pricing") (oprop (oprop (o_envelope o) "payload") "pricing") in
  match nonnegativeFiniteNumber (oprop pricing "inputUsdPerMTok"),
        nonnegativeFiniteNumber (oprop pricing "outputUsdPerMTok") with
  | Some input, Some output => d_add input (d_mul output ratio)
  | _, _ => JInfinity false
  end.

Definition offerCapacity (defaultProviderMaxInFlight : Z) (o : offer) : Z :=
  let cap := js_coalesce (oprop (oprop (metadata_of o) "capacity") "maxInFlight")
               (oprop (oprop (oprop (o_envelope o) "payload") "capacity") "maxInFlight") in
  match is_safe_integer cap with
  | Some n => if bool_decide (0 < n)%Z then n else defaultProviderMaxInFlight
  | None => defaultProviderMaxInFlight
  end.

Record ranked := Ranked {
  r_offer : offer; cost : jnum; utilization : jnum; saturated : bool; cooling : bool; degraded : bool; tie : jnum
}.

(** [(a.x - b.x) || rest]: the sign of the difference, or [rest] when it is zero
    or NaN. *)
Definition or_sign (x y : jnum) (rest : comparison) : comparison :=
  if d_less x y then Lt else if d_less y x then Gt else rest.

Definition flag_sign (x y : bool) (rest : comparison) : comparison :=
  match x, y with true, false => Gt | false, true => Lt | _, _ => rest end.

Definition compare_ranked (latency : bool) (a b : ranked) : comparison :=
  flag_sign (degraded a) (degraded b) (flag_sign (cooling a) (cooling b) (flag_sign (saturated a) (saturated b)
    (if saturated a || latency
     then or_sign (utilization a) (utilization b) (or_sign (cost a) (cost b) (or_sign (tie a) (tie b) Eq))
     else or_sign (cost a) (cost b) (or_sign (utilization a) (utilization b) (or_sign (tie a) (tie b) Eq))))).

Definition before (latency : bool) (a b : ranked) : bool :=
  match compare_ranked latency a b with Gt => false | _ => true end.

(** A provider held for a request that is being decided. *)
Record reservation := Reservation { v_provider : string; v_expiresAt : Z }.

Definition bump (provider : string) (loads : jsmap string Z) : jsmap string Z :=
  map_set provider (default 0%Z (map_get provider loads) + 1)%Z loads.

(** The loop over [selectionReservations]: what is kept and the loads with it. *)
Fixpoint count_reservations {K} (now : Z) (decided : K → bool) (l : jsmap K reservation) (loads : jsmap string Z)
    : jsmap K reservation * jsmap string Z :=
  match l with
  | [] => ([], loads)
  | (needId, v) :: l =>
      if bool_decide (v_expiresAt v ≤ now)%Z || decided needId then count_reservations now decided l loads
      else let '(kept, loads) := count_reservations now decided l (bump (v_provider v) loads) in ((needId, v) :: kept, loads)
  end.

(** What ranking reads of the relay: the requests in flight by provider, the
    cooldowns, the lost and the open sockets. *)
Record load_view := LoadView {
  inFlight : jsmap string Z; cooldownUntil : jsmap string Z; lostAt : jsmap string Z; open_socket : string → bool;
  defaultMaxInFlight : Z
}.

Definition rank_one (v : load_view) (loads : jsmap string Z) (set : settings) (now : Z) (o : offer) (tie : jnum)
    : option ranked :=
  let cost := offerUnitCost o (ratio set) in
  if match ceiling set with Some c => d_less c cost || bool_decide (cost = JNaN) | None => false end then None
  else
    let provider := offer_from o in
    let utilization := d_div (JInt (default 0%Z (map_get provider loads))) (JInt (offerCapacity (defaultMaxInFlight v) o)) in
    let cooling := bool_decide (now < default 0 (map_get provider (cooldownUntil v)))%Z in
    let detached := map_has provider (lostAt v) && negb (open_socket v provider) in
    Some (Ranked o cost utilization (num_ge utilization 1 || cooling) cooling detached tie).

Fixpoint rank_all (v : load_view) (loads : jsmap string Z) (set : settings) (now : Z) (eligible : list offer) (ties : list jnum)
    : list ranked :=
  match eligible with
  | [] => []
  | o :: eligible =>
      match rank_one v loads set now o (default (JInt 0) (head ties)) with
      | Some r => r :: rank_all v loads set now eligible (tail ties)
      | None => rank_all v loads set now eligible ties
      end
  end.

Definition rankOffers {K} (v : load_view) (decided : K → bool) (eligible : list offer) (routing : jval) (now : Z)
    (ties : list jnum) (selectionReservations : jsmap K reservation)
    : jsmap K reservation * result (list offer) :=
  match routingSettings routing with
  | Throw e => (selectionReservations, Throw e)
  | Ok set =>
      let '(kept, loads) := count_reservations now decided selectionReservations (inFlight v) in
      (kept, Ok (map r_offer (sort_by (before (latency set)) (rank_all v loads set now eligible ties))))
  end.

(** ** What the ranking guarantees *)

(** The classes a comparison never crosses: open before detached, then rested
    before cooling, then free before saturated. *)
Definition rank_class (r : ranked) : nat :=
  (if degraded r then 4 else 0) + (if cooling r then 2 else 0) + (if saturated r then 1 else 0).

Lemma before_class latency a b :
  (before latency a b = true → rank_class a ≤ rank_class b) ∧ (before latency a b = false → rank_class b ≤ rank_class a).
Proof.
  unfold before, compare_ranked, flag_sign, rank_class.
  destruct (degraded a), (degraded b), (cooling a), (cooling b), (saturated a), (saturated b); split; intros; try done; lia.
Qed.

Lemma sort_insert_class latency r l :
  StronglySorted (λ a b, rank_class a ≤ rank_class b) l →
  StronglySorted (λ a b, rank_class a ≤ rank_class b) (sort_insert (before latency) r l).
Proof.
  induction 1 as [|q l Hl IH Hq]; cbn [sort_insert]; [repeat constructor|].
  destruct (before_class latency r q) as [Ht Hf]. destruct (before latency r q).
  - constructor; [by constructor|]. constructor; [by apply Ht|]. eapply Forall_impl; [exact Hq|]. cbn. intros x Hx.
    specialize (Ht eq_refl). lia.
  - constructor; [done|]. rewrite (sort_insert_perm (before latency) r l). constructor; [by apply Hf|done].
Qed.

Lemma sort_by_class latency l : StronglySorted (λ a b, rank_class a ≤ rank_class b) (sort_by (before latency) l).
Proof. induction l; cbn; [constructor|]. by apply sort_insert_class. Qed.

Lemma rank_all_elem v loads set now eligible ties r :
  r ∈ rank_all v loads set now eligible ties →
  r_offer r ∈ eligible ∧ ∃ t, rank_one v loads set now (r_offer r) t = Some r.
Proof.
  revert ties. induction eligible as [|o eligible IH]; intros ties; cbn [rank_all]; [by intros ?%elem_of_nil|].
  destruct (rank_one v loads set now o (default (JInt 0) (head ties))) as [q|] eqn:Hq.
  - intros [->|Hr]%elem_of_cons; [|destruct (IH _ Hr); split; [by right|done]].
    assert (r_offer q = o) as ->; [|split; [by left|eauto] ]. revert Hq. unfold rank_one. case_match; [done|]. by intros [= <-].
  - intros Hr. destruct (IH _ Hr). split; [by right|done].
Qed.

Lemma rank_all_complete v loads set now eligible ties o :
  o ∈ eligible → (∀ t, rank_one v loads set now o t ≠ None) → ∃ r, r ∈ rank_all v loads set now eligible ties ∧ r_offer r = o.
Proof.
  revert ties. induction eligible as [|p eligible IH]; intros ties; [by intros ?%elem_of_nil|]. cbn [rank_all].
  intros [->|Ho]%elem_of_cons Hr.
  - destruct (rank_one v loads set now p (default (JInt 0) (head ties))) as [q|] eqn:Hq; [|by apply Hr in Hq].
    exists q. split; [by left|]. revert Hq. unfold rank_one. case_match; [done|]. by intros [= <-].
  - destruct (rank_one _ _ _ _ p _) as [q|]; [|by apply IH]. destruct (IH (tail ties) Ho Hr) as (r & ? & ?). exists r. split; [by right|done].
Qed.

(** Every offer tried is eligible and within the requester's ceiling. *)
Lemma rankOffers_eligible {K} v (decided : K → bool) eligible routing now ties rs rs' l o :
  rankOffers v decided eligible routing now ties rs = (rs', Ok l) → o ∈ l →
  o ∈ eligible ∧ ∃ set, routingSettings routing = Ok set ∧
    (∀ c, ceiling set = Some c → offerUnitCost o (ratio set) ≠ JNaN ∧ d_less c (offerUnitCost o (ratio set)) = false).
Proof.
  unfold rankOffers. destruct (routingSettings routing) as [set|e]; [|done].
  destruct (count_reservations _ _ _ _) as [kept loads]. intros [= _ <-] Hin.
  apply list_elem_of_fmap in Hin as (r & -> & Hr). apply elem_of_sort_by, rank_all_elem in Hr as (Hel & t & Hr).
  split; [done|]. exists set. split; [done|]. intros c Hc. revert Hr. unfold rank_one. rewrite Hc.
  destruct (_ || _) eqn:E; [done|]. intros _. apply orb_false_iff in E as [? ?%bool_decide_eq_false]. done.
Qed.

(** What keeps an offer back: a provider whose socket was lost, then one that
    asked for a pause. *)
Definition held_back (v : load_view) (now : Z) (o : offer) : nat :=
  (if map_has (offer_from o) (lostAt v) && negb (open_socket v (offer_from o)) then 2 else 0) +
  (if bool_decide (now < default 0 (map_get (offer_from o) (cooldownUntil v)))%Z then 1 else 0).

Definition within_price (set : settings) (o : offer) : Prop :=
  ∀ c, ceiling set = Some c → offerUnitCost o (ratio set) ≠ JNaN ∧ d_less c (offerUnitCost o (ratio set)) = false.

Lemma rank_one_class v loads set now o t r :
  rank_one v loads set now o t = Some r → rank_class r = 2 * held_back v now o + (if saturated r then 1 else 0).
Proof.
  unfold rank_one. destruct (match ceiling set with Some _ => _ | None => _ end); [done|]. intros [= <-].
  unfold rank_class, held_back. cbn [degraded cooling saturated]. repeat (destruct (_ && _) || destruct (bool_decide _)); lia.
Qed.

Lemma rank_one_priced v loads set now o t : within_price set o → rank_one v loads set now o t ≠ None.
Proof.
  unfold within_price, rank_one. intros Hp. destruct (ceiling set) as [c|]; [|done]. destruct (Hp c eq_refl) as [Hn ->].
  by rewrite bool_decide_false.
Qed.

(** C31: the offer a need is sent to is one of the eligible offers within the
    requester's price, and none of the others within the price has a better
    standing: none with a live socket is passed over for a detached one, none
    at rest for a cooling one.  No offer within the price is left out. *)
Theorem best_standing {K} v (decided : K → bool) eligible routing now ties rs rs' l :
  rankOffers v decided eligible routing now ties rs = (rs', Ok l) →
  ∃ set, routingSettings routing = Ok set ∧ (∀ o, o ∈ l ↔ o ∈ eligible ∧ within_price set o) ∧
    ∀ o, head l = Some o → ∀ o', o' ∈ l → held_back v now o ≤ held_back v now o'.
Proof.
  intros Hr. pose proof (λ o, rankOffers_eligible _ _ _ _ _ _ _ _ _ o Hr) as Hel. revert Hr. unfold rankOffers.
  destruct (routingSettings routing) as [set|e] eqn:Hset; [|done].
  destruct (count_reservations _ _ _ _) as [kept loads]. intros [= _ <-]. exists set. split; [done|]. split.
  - intros o. split.
    + intros Ho. destruct (Hel o Ho) as (Hin & set' & Hset' & Hp). split; [done|]. injection Hset' as <-. exact Hp.
    + intros [Hin Hp]. apply list_elem_of_fmap. destruct (rank_all_complete v loads set now eligible ties o Hin) as (r & Hr & <-).
      { intros t. by apply rank_one_priced. }
      exists r. split; [done|]. by apply elem_of_sort_by.
  - pose proof (sort_by_class (latency set) (rank_all v loads set now eligible ties)) as Hs.
    assert (Hc : ∀ r, r ∈ sort_by (before (latency set)) (rank_all v loads set now eligible ties) →
      rank_class r = 2 * held_back v now (r_offer r) + (if saturated r then 1 else 0)).
    { intros r Hin. apply elem_of_sort_by, rank_all_elem in Hin as (_ & t & Ht). by eapply rank_one_class. }
    destruct (sort_by _ _) as [|r rest]; [done|]. intros o [= <-] o' (r' & -> & Hin)%list_elem_of_fmap.
    apply elem_of_cons in Hin as [->|Hin]; [done|]. inversion Hs as [|? ? _ Hall]; subst.
    rewrite Forall_forall in Hall. specialize (Hall r' Hin). cbn in Hall.
    rewrite (Hc r), (Hc r') in Hall by (by constructor). destruct (saturated r), (saturated r'); lia.
Qed.

End ranking.

(** ** A concrete ranking *)

Definition toy_doubles : Doubles := {|
  d_add := λ a b, match a, b with JInt x, JInt y => JInt (x + y) | _, _ => JNaN end;
  d_mul := λ a b, match a, b with JInt x, JInt y => JInt (x * y) | _, _ => JNaN end;
  d_div := λ a b, match a, b with JInt x, JInt y => if bool_decide (y = 0)%Z then JNaN else JInt (x / y) | _, _ => JNaN end
|}.

Lemma best_standing_witness :
  let policy := ProviderPolicy "p" "p" JNull "public" "public" [] None None in
  let o from := Offer (JObj [("from", JStr from)]) "sum" policy false in
  let v := LoadView [] [("a", 100%Z)] [("b", 5%Z)] (λ _, false) 8 in
  let r := rankOffers (H := toy_doubles) (K := string) v (λ _, false) [o "a"; o "b"; o "c"] JNull 50 [JInt 1; JInt 2; JInt 3] [] in
  r.2 = Ok [o "c"; o "a"; o "b"] ∧ ∀ p, p ∈ [o "c"; o "a"; o "b"] → held_back v 50 (o "c") ≤ held_back v 50 p.
Proof.
  intros policy o v r. assert (Hr : r = ([], Ok [o "c"; o "a"; o "b"])) by (vm_compute; reflexivity). split; [by rewrite Hr|].
  destruct (best_standing (H := toy_doubles) _ _ _ _ _ _ _ _ _ Hr) as (set & _ & _ & Hb). by apply Hb.
Defined.

End RelayRouting.
