(* ===== verification/Relay.v ===== *)
(** * The relay: requests from admission to their outcome

    Models network/relay/server.js without a lifecycle ledger (the in-memory
    mode: [lifecycleLedger = null], no maintenance, no paid enforcement): nodes
    and sessions, the selection of a provider, admitted requests, their partial
    and final results, cancellation and expiry, and the queues, long polls and
    sockets that deliver the events.  Chains and contexts are left out.

    Without a ledger no handler waits for anything outside the process once it
    has read its body, so a handler is one step of the model; a handler that
    authenticates before it reads its body is two.  Results that one read of a
    connection brings are handled together, each up to its next [await] in
    turn. *)
From S2P Require Import Prelude JSMap JSValue Dates Host Protocol Negotiation Sessions Security RelayRouting.
Import Canonical Keys Envelope Compact NeedWindow Negotiate Security RelayRouting.

Module Relay.

(** ** State *)

Record config := Config {
  nodeFreshnessMs : Z; sessionTtlMs : Z; registrationFreshnessMs : Z; maxNodes : Z; maxOffers : Z;
  maxQueuedEventsPerNode : Z; maxRequests : Z; maxSeenNeedIds : Z; requestTtlMs : Z; allowedNodeIds : list string;
  trustedRequesterNodeIds : list string; allowPublicRegistration : bool; allowPublicDispatch : bool;
  localDevelopmentMode : bool; productionMode : bool; defaultProviderMaxInFlight : Z; selectionReservationMs : Z;
  expirySweepIntervalMs : Z; maxFastTerminalReservationsPerRequester : Z; maxProviderCooldownMs : Z
}.

Record node := Node { n_publicKey : jval; sessionToken : string; lastSeenAt : Z }.
Record session := Session { s_nodeId : string; expiresAt : Z }.

Inductive mode := Fast | Legacy.
Inductive status := Matched | Completed | Cancelled | Expired.

#[export] Instance mode_eq_dec : EqDecision mode.
Proof. solve_decision. Defined.
#[export] Instance status_eq_dec : EqDecision status.
Proof. solve_decision. Defined.

(** An identifier as a key of a map: the value of a frame's [i] and, when that is
    an object, which object it is, numbered from 1; an object is another key in
    every frame that is parsed. *)
Record rid := Rid { raw : jval; ref : nat }.

#[export] Instance rid_eq_dec : EqDecision rid.
Proof. solve_decision. Defined.

Definition str_id (s : string) : rid := Rid (JStr s) 0.

(** The arguments of [trustabilityLite]; the score is computed from them. *)
Record trust := Trust { successfulTasks : Z; failedTasks : Z; seenAt : option Z; assessedAt : Z }.

Inductive event :=
| NeedEvent (frame payload : jval) (from : string)
| NeedEnvelope (envelope : jval)
| PartialEvent (frame payload : jval) (from : string) (requestId : jval) (sequence : Z)
| ResultEvent (id : rid) (frame payload : jval) (from : string) (t : trust)
| ResultEnvelope (envelope : jval) (t : trust)
| RevokeEvent (targetId : string) (envelope : jval) (from : string).

(** How an event left: by the socket, by a long poll, into a queue. *)
Inductive transport := BySocket | ByLongPoll | Queued | QueueFull | QueuedAfterBackpressure.

#[export] Instance transport_eq_dec : EqDecision transport.
Proof. solve_decision. Defined.

Definition transport_name (t : transport) : string :=
  match t with
  | BySocket => "socket" | ByLongPoll => "long-poll" | Queued => "queued" | QueueFull => "full"
  | QueuedAfterBackpressure => "queued-after-socket-backpressure"
  end.

(** The last partial result: its sequence number, digest, transport and time. *)
Record partial := PartialSeen { p_sequence : Z; p_digest : string; p_transport : transport; p_at : Z }.

Record request := Request {
  requester : string; provider : string; q_capability : string; createdAt : Z; q_status : status; q_mode : mode;
  nextPartialSequence : Z; lastPartial : option partial; terminalReserved : bool; endedAt : option Z;
  failureReason : option string; cancelReason : option string; q_result : option (jval * trust)
}.

(** A JSON answer: its members, with the events and the trust it carries. *)
Record body := Body { b_fields : list (string * jval); b_events : list event; b_trust : option trust }.
Record reply := Reply { r_status : Z; r_body : body }.

(** What leaves the relay: an event on a socket or in a poll's answer, the
    answer to a request that was open, and the acknowledgement of a socket's
    message. *)
Inductive output :=
| ToSocket (node : string) (e : event)
| Polled (node : string) (es : list event)
| Responded (res : nat) (r : reply)
| Acked (node : string) (r : reply).

Record registry := Registry {
  nodes : jsmap string node; sessions : jsmap string session; usedRegistrationIds : jsmap string Z;
  stats : jsmap string (Z * Z); dir : directory
}.

Record work := Work {
  requests : jsmap rid request; seenNeedIds : list rid; inFlightByProvider : jsmap string Z;
  selectionReservations : jsmap rid reservation; lastExpirySweepAt : Z
}.

Record mail := Mail {
  events : jsmap string (list event); fastEvents : jsmap string (list event);
  fastTerminalEvents : jsmap string (list event); fastTerminalReservations : jsmap string Z;
  legacyWaiters : jsmap string nat; fastWaiters : jsmap string nat; resultWaiters : jsmap rid nat; out : list output
}.

(** The nodes with an open socket, when others lost theirs, the cooldowns. *)
Record links := Links { sockets : list string; socketLostAt : jsmap string Z; providerCooldownUntil : jsmap string Z }.

Record relay := Relay { reg : registry; wrk : work; box : mail; net : links }.

Definition initial : relay :=
  Relay (Registry [] [] [] [] (Directory [] [])) (Work [] [] [] [] 0) (Mail [] [] [] [] [] [] [] []) (Links [] [] []).

Definition on_reg (f : registry → registry) (s : relay) : relay := Relay (f (reg s)) (wrk s) (box s) (net s).
Definition on_wrk (f : work → work) (s : relay) : relay := Relay (reg s) (f (wrk s)) (box s) (net s).
Definition on_box (f : mail → mail) (s : relay) : relay := Relay (reg s) (wrk s) (f (box s)) (net s).
Definition on_net (f : links → links) (s : relay) : relay := Relay (reg s) (wrk s) (box s) (f (net s)).

Definition set_nodes (v : jsmap string node) : relay → relay :=
  on_reg (λ r, Registry v (sessions r) (usedRegistrationIds r) (stats r) (dir r)).
Definition set_sessions (v : jsmap string session) : relay → relay :=
  on_reg (λ r, Registry (nodes r) v (usedRegistrationIds r) (stats r) (dir r)).
Definition set_used (v : jsmap string Z) : relay → relay :=
  on_reg (λ r, Registry (nodes r) (sessions r) v (stats r) (dir r)).
Definition set_stats (v : jsmap string (Z * Z)) : relay → relay :=
  on_reg (λ r, Registry (nodes r) (sessions r) (usedRegistrationIds r) v (dir r)).
Definition set_dir (v : directory) : relay → relay :=
  on_reg (λ r, Registry (nodes r) (sessions r) (usedRegistrationIds r) (stats r) v).

Definition set_requests (v : jsmap rid request) : relay → relay :=
  on_wrk (λ w, Work v (seenNeedIds w) (inFlightByProvider w) (selectionReservations w) (lastExpirySweepAt w)).
Definition set_seen (v : list rid) : relay → relay :=
  on_wrk (λ w, Work (requests w) v (inFlightByProvider w) (selectionReservations w) (lastExpirySweepAt w)).
Definition set_inFlight (v : jsmap string Z) : relay → relay :=
  on_wrk (λ w, Work (requests w) (seenNeedIds w) v (selectionReservations w) (lastExpirySweepAt w)).
Definition set_selection (v : jsmap rid reservation) : relay → relay :=
  on_wrk (λ w, Work (requests w) (seenNeedIds w) (inFlightByProvider w) v (lastExpirySweepAt w)).
Definition set_sweep (v : Z) : relay → relay :=
  on_wrk (λ w, Work (requests w) (seenNeedIds w) (inFlightByProvider w) (selectionReservations w) v).

Definition set_events (v : jsmap string (list event)) : relay → relay :=
  on_box (λ b, Mail v (fastEvents b) (fastTerminalEvents b) (fastTerminalReservations b) (legacyWaiters b) (fastWaiters b)
                 (resultWaiters b) (out b)).
Definition set_fast (v : jsmap string (list event)) : relay → relay :=
  on_box (λ b, Mail (events b) v (fastTerminalEvents b) (fastTerminalReservations b) (legacyWaiters b) (fastWaiters b)
                 (resultWaiters b) (out b)).
Definition set_terminal (v : jsmap string (list event)) : relay → relay :=
  on_box (λ b, Mail (events b) (fastEvents b) v (fastTerminalReservations b) (legacyWaiters b) (fastWaiters b)
                 (resultWaiters b) (out b)).
Definition set_reserved (v : jsmap string Z) : relay → relay :=
  on_box (λ b, Mail (events b) (fastEvents b) (fastTerminalEvents b) v (legacyWaiters b) (fastWaiters b)
                 (resultWaiters b) (out b)).
Definition set_legacyWaiters (v : jsmap string nat) : relay → relay :=
  on_box (λ b, Mail (events b) (fastEvents b) (fastTerminalEvents b) (fastTerminalReservations b) v (fastWaiters b)
                 (resultWaiters b) (out b)).
Definition set_fastWaiters (v : jsmap string nat) : relay → relay :=
  on_box (λ b, Mail (events b) (fastEvents b) (fastTerminalEvents b) (fastTerminalReservations b) (legacyWaiters b) v
                 (resultWaiters b) (out b)).
Definition set_resultWaiters (v : jsmap rid nat) : relay → relay :=
  on_box (λ b, Mail (events b) (fastEvents b) (fastTerminalEvents b) (fastTerminalReservations b) (legacyWaiters b)
                 (fastWaiters b) v (out b)).
Definition emit (o : output) : relay → relay :=
  on_box (λ b, Mail (events b) (fastEvents b) (fastTerminalEvents b) (fastTerminalReservations b) (legacyWaiters b)
                 (fastWaiters b) (resultWaiters b) (out b ++ [o])).

Definition set_sockets (v : list string) : relay → relay :=
  on_net (λ l, Links v (socketLostAt l) (providerCooldownUntil l)).
Definition set_lost (v : jsmap string Z) : relay → relay :=
  on_net (λ l, Links (sockets l) v (providerCooldownUntil l)).
Definition set_cooldown (v : jsmap string Z) : relay → relay :=
  on_net (λ l, Links (sockets l) (socketLostAt l) v).

(** ** Queues, sockets and long polls *)

Section relay.
Context `{Host} `{Doubles} (cfg : config) (authority : authorities).

(** What an open socket does with one send: it takes the event, its buffer is
    too full for it, or it throws. *)
Inductive link := Accepts | Saturated | Breaks.

Inductive sent := Sent | NotSent | Full.

Definition touch (now : Z) (n : string) (s : relay) : relay :=
  match map_get n (nodes (reg s)) with
  | Some nd => set_nodes (map_set n (Node (n_publicKey nd) (sessionToken nd) now) (nodes (reg s))) s
  | None => s
  end.

Definition connectedSocket (s : relay) (n : string) : bool := bool_decide (n ∈ sockets (net s)).

Definition sendSocketEvent (now : Z) (link_of : string → link) (n : string) (e : event) (requireCapacity : bool)
    (s : relay) : relay * sent :=
  if negb (connectedSocket s n) then (s, NotSent)
  else match link_of n with
       | Breaks => (s, NotSent)
       | Saturated => if requireCapacity then (s, Full) else (touch now n (emit (ToSocket n e) s), Sent)
       | Accepts => (touch now n (emit (ToSocket n e) s), Sent)
       end.

Definition queue_of (m : jsmap string (list event)) (n : string) : list event := default [] (map_get n m).

Definition boundedQueue (n : string) (e : event) (m : jsmap string (list event)) : jsmap string (list event) :=
  let q := queue_of m n ++ [e] in
  map_set n (drop (Z.to_nat (Z.of_nat (length q) - maxQueuedEventsPerNode cfg)) q) m.

Definition deliverLegacyWaiter (now : Z) (n : string) (e : event) (s : relay) : relay * bool :=
  match map_get n (legacyWaiters (box s)) with
  | None => (s, false)
  | Some _ => (emit (Polled n [e]) (touch now n (set_legacyWaiters (map_delete n (legacyWaiters (box s))) s)), true)
  end.

Definition deliverFastWaiter (now : Z) (n : string) (e : event) (s : relay) : relay * bool :=
  match map_get n (fastWaiters (box s)) with
  | None => (s, false)
  | Some _ => (emit (Polled n [e]) (touch now n (set_fastWaiters (map_delete n (fastWaiters (box s))) s)), true)
  end.

Definition queue (now : Z) (link_of : string → link) (n : string) (e : event) (s : relay) : relay * transport :=
  match sendSocketEvent now link_of n e true s with
  | (s, Sent) => (s, BySocket)
  | (s, socketDelivery) =>
      match deliverLegacyWaiter now n e s with
      | (s, true) => (s, ByLongPoll)
      | (s, false) =>
          (set_events (boundedQueue n e (events (box s))) s,
           match socketDelivery with Full => QueuedAfterBackpressure | _ => Queued end)
      end
  end.

Definition queueCritical (now : Z) (link_of : string → link) (n : string) (e : event) (s : relay) : relay * bool :=
  match sendSocketEvent now link_of n e true s with
  | (s, Sent) => (s, true)
  | (s, Full) => (s, false)
  | (s, NotSent) =>
      match deliverLegacyWaiter now n e s with
      | (s, true) => (s, true)
      | (s, false) =>
          let q := queue_of (events (box s)) n in
          if bool_decide (maxQueuedEventsPerNode cfg ≤ Z.of_nat (length q))%Z then (s, false)
          else (set_events (map_set n (q ++ [e]) (events (box s))) s, true)
      end
  end.

Definition queueFast (now : Z) (link_of : string → link) (n : string) (e : event) (requireCapacity : bool) (s : relay)
    : relay * transport :=
  match sendSocketEvent now link_of n e requireCapacity s with
  | (s, Sent) => (s, BySocket)
  | (s, Full) => (s, QueueFull)
  | (s, NotSent) =>
      match deliverFastWaiter now n e s with
      | (s, true) => (s, ByLongPoll)
      | (s, false) =>
          if requireCapacity &&
             bool_decide (maxQueuedEventsPerNode cfg ≤ Z.of_nat (length (queue_of (fastEvents (box s)) n)))%Z
          then (s, QueueFull)
          else (set_fast (boundedQueue n e (fastEvents (box s))) s, Queued)
      end
  end.

Definition queueCancellation (now : Z) (link_of : string → link) (r : request) (e : event) (s : relay) : relay * bool :=
  match q_mode r with
  | Fast => let '(s, t) := queueFast now link_of (provider r) e true s in (s, negb (bool_decide (t = QueueFull)))
  | Legacy => queueCritical now link_of (provider r) e s
  end.

(** The end of [queueFastTerminal], without a socket. *)
Definition park_terminal (now : Z) (n : string) (e : event) (s : relay) : relay * transport :=
  match deliverFastWaiter now n e s with
  | (s, true) => (s, ByLongPoll)
  | (s, false) =>
      let q := queue_of (fastTerminalEvents (box s)) n in
      if bool_decide (maxFastTerminalReservationsPerRequester cfg ≤ Z.of_nat (length q))%Z then (s, QueueFull)
      else (set_terminal (map_set n (q ++ [e]) (fastTerminalEvents (box s))) s, Queued)
  end.

Definition close_socket (n : string) (s : relay) : relay := set_sockets (filter (λ m, m ≠ n) (sockets (net s))) s.

Definition queueFastTerminal (now : Z) (link_of : string → link) (n : string) (e : event) (s : relay) : relay * transport :=
  match sendSocketEvent now link_of n e true s with
  | (s, Sent) => (s, BySocket)
  | (s, Full) => park_terminal now n e (close_socket n s)
  | (s, NotSent) => park_terminal now n e s
  end.

(** ** Reservations for final results *)

Definition reserveFastTerminal (n : string) (s : relay) : relay * bool :=
  let queued := Z.of_nat (length (queue_of (fastTerminalEvents (box s)) n)) in
  let reserved := default 0%Z (map_get n (fastTerminalReservations (box s))) in
  if bool_decide (maxFastTerminalReservationsPerRequester cfg ≤ queued + reserved)%Z then (s, false)
  else (set_reserved (map_set n (reserved + 1)%Z (fastTerminalReservations (box s))) s, true).

(** [if (current <= 1) m.delete(k) else m.set(k, current - 1)] *)
Definition decrement (n : string) (m : jsmap string Z) : jsmap string Z :=
  let current := default 0%Z (map_get n m) in
  if bool_decide (current ≤ 1)%Z then map_delete n m else map_set n (current - 1)%Z m.

Definition release_slot (n : string) (s : relay) : relay :=
  set_reserved (decrement n (fastTerminalReservations (box s))) s.

Definition update_request (id : rid) (f : request → request) (s : relay) : relay :=
  match map_get id (requests (wrk s)) with
  | Some r => set_requests (map_set id (f r) (requests (wrk s))) s
  | None => s
  end.

Definition with_status (st : status) (r : request) : request :=
  Request (requester r) (provider r) (q_capability r) (createdAt r) st (q_mode r) (nextPartialSequence r) (lastPartial r)
    (terminalReserved r) (endedAt r) (failureReason r) (cancelReason r) (q_result r).
Definition without_slot (r : request) : request :=
  Request (requester r) (provider r) (q_capability r) (createdAt r) (q_status r) (q_mode r) (nextPartialSequence r)
    (lastPartial r) false (endedAt r) (failureReason r) (cancelReason r) (q_result r).
Definition ended (now : Z) (reason cancelled : option string) (r : request) : request :=
  Request (requester r) (provider r) (q_capability r) (createdAt r) (q_status r) (q_mode r) (nextPartialSequence r)
    (lastPartial r) (terminalReserved r) (Some now) reason cancelled (q_result r).
Definition with_result (envelope : jval) (t : trust) (r : request) : request :=
  Request (requester r) (provider r) (q_capability r) (createdAt r) (q_status r) (q_mode r) (nextPartialSequence r)
    (lastPartial r) (terminalReserved r) (endedAt r) (failureReason r) (cancelReason r) (Some (envelope, t)).
Definition with_partial (p : partial) (r : request) : request :=
  Request (requester r) (provider r) (q_capability r) (createdAt r) (q_status r) (q_mode r) (p_sequence p + 1)
    (Some p) (terminalReserved r) (endedAt r) (failureReason r) (cancelReason r) (q_result r).

Definition releaseFastTerminal (id : rid) (s : relay) : relay :=
  match map_get id (requests (wrk s)) with
  | Some r => if terminalReserved r then release_slot (requester r) (update_request id without_slot s) else s
  | None => s
  end.

(** ** The table of requests *)

Definition isTerminal (st : status) : bool := negb (bool_decide (st = Matched)).

Definition markMatchedRequest (id : rid) (r : request) : M relay unit := λ s,
  if map_has id (requests (wrk s)) then (s, Throw (fault 409 "duplicate_request"))
  else (set_selection (map_delete id (selectionReservations (wrk s)))
          (set_inFlight (map_set (provider r) (default 0 (map_get (provider r) (inFlightByProvider (wrk s))) + 1)%Z
                           (inFlightByProvider (wrk s)))
             (set_requests (map_set id r (requests (wrk s))) s)), Ok tt).

Definition markRequestStatus (id : rid) (st : status) (s : relay) : relay :=
  match map_get id (requests (wrk s)) with
  | None => s
  | Some r =>
      update_request id (with_status st)
        (if bool_decide (q_status r = Matched) && isTerminal st
         then set_inFlight (decrement (provider r) (inFlightByProvider (wrk s))) s else s)
  end.

Definition finishResultWaiter (id : rid) (r : reply) (s : relay) : relay * bool :=
  match map_get id (resultWaiters (box s)) with
  | None => (s, false)
  | Some res => (emit (Responded res r) (set_resultWaiters (map_delete id (resultWaiters (box s))) s), true)
  end.

Definition refuse (st : Z) (code : string) : reply := Reply st (Body [("ok", JBool false); ("error", JStr code)] [] None).
Definition refuse_with (st : Z) (code : string) (kvs : list (string * jval)) : reply :=
  Reply st (Body ([("ok", JBool false); ("error", JStr code)] ++ kvs) [] None).
Definition answer (kvs : list (string * jval)) : reply := Reply 200 (Body (("ok", JBool true) :: kvs) [] None).
Definition answer_events (es : list event) : reply := Reply 200 (Body [("ok", JBool true)] es None).
Definition answer_trust (kvs : list (string * jval)) (t : trust) : reply :=
  Reply 200 (Body (("ok", JBool true) :: kvs) [] (Some t)).

Definition activity (r : request) : Z := match lastPartial r with Some p => p_at p | None => createdAt r end.

Definition overdue (now : Z) (r : request) : bool :=
  bool_decide (q_mode r = Fast) && bool_decide (q_status r = Matched) &&
  negb (bool_decide (now - activity r < requestTtlMs cfg)%Z).

Definition expireFastRequest (now : Z) (id : rid) (s : relay) : relay :=
  match map_get id (requests (wrk s)) with
  | None => s
  | Some r =>
      if negb (overdue now r) then s
      else
        let s := markRequestStatus id Expired s in
        let s := update_request id (ended now (Some "request_expired") None) s in
        let s := releaseFastTerminal id s in
        (finishResultWaiter id (refuse_with 504 "request_expired" [("requestId", raw id)]) s).1
  end.

Definition expireAbandonedFastRequests (now : Z) (force : bool) (s : relay) : relay :=
  if negb force && bool_decide (now - lastExpirySweepAt (wrk s) < expirySweepIntervalMs cfg)%Z then s
  else fold_left (λ s id, expireFastRequest now id s) (map_keys (requests (wrk s))) (set_sweep now s).

(** The loop of [pruneCompleted] over the entries [todo] of [m]. *)
Fixpoint prune (max : Z) (todo m : jsmap rid request) : jsmap rid request :=
  match todo with
  | [] => m
  | (id, r) :: todo =>
      let m := if isTerminal (q_status r) then map_delete id m else m in
      if bool_decide (map_size m < max)%Z then m else prune max todo m
  end.

Definition pruneCompleted : M relay unit := λ s,
  if bool_decide (map_size (requests (wrk s)) < maxRequests cfg)%Z then (s, Ok tt)
  else
    let m := prune (maxRequests cfg) (requests (wrk s)) (requests (wrk s)) in
    (set_requests m s,
     if bool_decide (maxRequests cfg ≤ map_size m)%Z then Throw (fault 503 "relay_capacity_reached") else Ok tt).

(** Without a ledger. *)
Definition admitDirectNeedId (now : Z) (id : rid) (envelope : option jval) : M relay unit := λ s,
  if map_has id (requests (wrk s)) || bool_decide (id ∈ seenNeedIds (wrk s)) then (s, Throw (fault 409 "duplicate_request"))
  else if bool_decide (maxSeenNeedIds cfg ≤ Z.of_nat (length (seenNeedIds (wrk s))))%Z
  then (s, Throw (fault 503 "need_idempotency_capacity_reached"))
  else match (match envelope with Some e => assertNeedAdmissionWindow e (JNum (JInt now)) | None => Ok tt end) with
       | Throw e => (s, Throw e)
       | Ok _ => (set_seen (seenNeedIds (wrk s) ++ [id]) s, Ok tt)
       end.

(** ** Nodes and sessions *)

Definition authenticatedNodeId (now : Z) (token : option string) (s : relay) : relay * option string :=
  match token with
  | None => (s, None)
  | Some token =>
      match map_get token (sessions (reg s)) with
      | None => (s, None)
      | Some session =>
          if bool_decide (expiresAt session ≤ now)%Z then (set_sessions (map_delete token (sessions (reg s))) s, None)
          else match map_get (s_nodeId session) (nodes (reg s)) with
               | Some nd => if bool_decide (sessionToken nd = token) then (s, Some (s_nodeId session)) else (s, None)
               | None => (s, None)
               end
      end
  end.

Definition nodeSessionActive (now : Z) (s : relay) (n : string) : bool :=
  match map_get n (nodes (reg s)) with
  | Some nd =>
      match map_get (sessionToken nd) (sessions (reg s)) with
      | Some session => nonempty_str (sessionToken nd) && bool_decide (s_nodeId session = n) && bool_decide (now < expiresAt session)%Z
      | None => false
      end
  | None => false
  end.

Definition nodeSeenAtMs (s : relay) (n : string) : Z :=
  match map_get n (nodes (reg s)) with Some nd => lastSeenAt nd | None => 0 end.

Definition isNodeFresh (now : Z) (s : relay) (n : string) : bool :=
  connectedSocket s n || (bool_decide (0 < nodeSeenAtMs s n)%Z && bool_decide (now - nodeSeenAtMs s n ≤ nodeFreshnessMs cfg)%Z).

Definition requesterCanDispatch (now : Z) (s : relay) (n : string) : bool :=
  nonempty_str n && (localDevelopmentMode cfg || bool_decide (n ∈ trustedRequesterNodeIds cfg) ||
                     (allowPublicDispatch cfg && nodeSessionActive now s n)).

(** [allowedNodes] holds the trusted requesters too. *)
Definition nodeCanRegister (n : string) : bool :=
  nonempty_str n && (localDevelopmentMode cfg || allowPublicRegistration cfg ||
                     bool_decide (n ∈ allowedNodeIds cfg ++ trustedRequesterNodeIds cfg)).

Definition trustFor (now : Z) (s : relay) (n : string) : trust :=
  let '(ok, failed) := default (0, 0)%Z (map_get n (stats (reg s))) in
  Trust ok failed (lastSeenAt <$> map_get n (nodes (reg s))) now.

(** ** Selection of a provider *)

Definition candidate_ok (now : Z) (capability requesterNodeId : string) (s : relay) (o : offer) : bool :=
  negb (o_revoked o) &&
  (negb (nonempty_str capability) || bool_decide (o_capability o = capability)) &&
  (negb (nonempty_str requesterNodeId) || negb (bool_decide (offer_from o = requesterNodeId))) &&
  isNodeFresh now s (offer_from o) &&
  (negb (nonempty_str requesterNodeId) || localDevelopmentMode cfg ||
   providerPolicyAllowsRequester (Some (o_policy o)) (JStr requesterNodeId) (JArr (map JStr (trustedRequesterNodeIds cfg)))).

Definition loads_of (s : relay) : load_view :=
  LoadView (inFlightByProvider (wrk s)) (providerCooldownUntil (net s)) (socketLostAt (net s)) (connectedSocket s)
    (defaultProviderMaxInFlight cfg).

Definition matchingOffers (now : Z) (ties : list jnum) (capability requesterNodeId : string) (routing : jval)
    (reserveFor : option rid) : M relay (list offer) := λ s,
  let eligible := filter (λ o, candidate_ok now capability requesterNodeId s o = true) (offersForCapability capability (dir (reg s))) in
  let '(kept, r) := rankOffers (loads_of s) (λ id, map_has id (requests (wrk s))) eligible routing now ties
                      (selectionReservations (wrk s)) in
  let s := set_selection kept s in
  match r with
  | Throw e => (s, Throw e)
  | Ok ranked =>
      match reserveFor, ranked with
      | Some id, o :: _ =>
          if bool_decide (maxRequests cfg ≤ map_size kept)%Z then (s, Throw (fault 503 "selection_reservation_capacity_reached"))
          else (set_selection (map_set id (Reservation (offer_from o) (now + selectionReservationMs cfg)) kept) s, Ok ranked)
      | _, _ => (s, Ok ranked)
      end
  end.

(** ** Fast requests and their results *)

Definition run_state {A} (f : relay → relay * A) : M relay A := λ s, let '(s, a) := f s in (s, Ok a).

(** [frame.i] as a key, for a frame parsed in the given exchange. *)
Definition frame_id (exchange : nat) (frame : jval) : rid :=
  let i := oprop frame "i" in Rid i (if is_typeof_object i then S exchange else 0).

Definition payload_capability (payload : jval) : jval :=
  let capability := oprop payload "capability" in js_or (oprop capability "name") capability.

Definition routing_of (payload : jval) : jval := oprop (oprop payload "policy") "routing".

(** [floor] of a finite number *)
Definition num_floor (n : jnum) : option Z :=
  match n with
  | JInt z => Some z
  | JDec m k => Some (m / 10 ^ Zpos k)%Z
  | _ => None
  end.

Definition boundedWaitMs (raw : option jnum) (fallback max : Z) : Z :=
  match raw with
  | None => fallback
  | Some n => match num_floor n with Some z => Z.max 0 (Z.min max z) | None => fallback end
  end.

Definition delete_selection (id : rid) (s : relay) : relay :=
  set_selection (map_delete id (selectionReservations (wrk s))) s.

Definition new_request (requester provider capability : string) (now : Z) (m : mode) : request :=
  Request requester provider capability now Matched m 0 None (bool_decide (m = Fast)) None None None None.

(** The part of POST /v1/fast/needs after a provider is chosen. *)
Definition dispatch_fast_need (now : Z) (link_of : string → link) (res : nat) (requesterNodeId : string) (id : rid)
    (capability : string) (waitMs : Z) (frame payload : jval) (o : offer) : M relay (option reply) :=
  _ ← modify (expireAbandonedFastRequests now false);
  reserved ← run_state (reserveFastTerminal requesterNodeId);
  if negb reserved then _ ← modify (delete_selection id); mret (Some (refuse 429 "terminal_backpressure"))
  else
    _ ← catch_with (_ ← pruneCompleted; admitDirectNeedId now id None)
          (λ e, _ ← modify (λ s, delete_selection id (release_slot requesterNodeId s)); throw e);
    _ ← markMatchedRequest id (new_request requesterNodeId (offer_from o) capability now Fast);
    _ ← modify (λ s,
          let s := touch now requesterNodeId s in
          let s := if bool_decide (0 < waitMs)%Z then set_resultWaiters (map_set id res (resultWaiters (box s))) s else s in
          (queueFast now link_of (offer_from o) (NeedEvent frame payload requesterNodeId) false s).1);
    s ← get_state;
    mret (if bool_decide (waitMs = 0)%Z
          then Some (answer_trust [("needId", raw id); ("provider", JStr (offer_from o))] (trustFor now s (offer_from o)))
          else None).

Definition fast_need (now : Z) (link_of : string → link) (ties : list jnum) (res : nat) (requesterNodeId : string)
    (publicKey : jval) (waitMs : Z) (frame payload : jval) : M relay (option reply) :=
  v ← lift_result (verifyCompactFrame frame payload publicKey ["NEED"]);
  match v with
  | inl reason => mret (Some (refuse 400 reason))
  | inr _ =>
      let id := frame_id res frame in
      s ← get_state;
      if map_has id (requests (wrk s)) || bool_decide (id ∈ seenNeedIds (wrk s))
      then mret (Some (refuse 409 "duplicate_request"))
      else match payload_capability payload with
           | JStr capability =>
               if negb (nonempty_str capability) then mret (Some (refuse 400 "invalid_capability"))
               else
                 ranked ← matchingOffers now ties capability requesterNodeId (routing_of payload) (Some id);
                 match ranked with
                 | [] => mret (Some (refuse 404 "no_matching_provider"))
                 | o :: _ => dispatch_fast_need now link_of res requesterNodeId id capability waitMs frame payload o
                 end
           | _ => mret (Some (refuse 400 "invalid_capability"))
           end
  end.

Definition terminalRequestError (r : request) : option string :=
  match q_status r with
  | Cancelled => Some "request_cancelled"
  | Completed => Some "request_already_completed"
  | Expired => Some "request_failed"
  | Matched => None
  end.

(** In hexadecimal instead of base64url: it is only compared. *)
Definition partialDigest (frame payload : jval) : string :=
  sha256_hex (default "undefined" (stringify (JArr [frame; payload]))).

(** The checks a partial and a final result share, up to the request. *)
Definition find_request (now : Z) (type providerNodeId : string) (exchange : nat) (frame payload : jval)
    : M relay (reply + rid) :=
  s ← get_state;
  match map_get providerNodeId (nodes (reg s)) with
  | None => mret (inl (refuse 401 "unauthorized"))
  | Some nd =>
      if negb (nodeSessionActive now s providerNodeId) then mret (inl (refuse 401 "unauthorized"))
      else
        v ← lift_result (verifyCompactFrame frame payload (n_publicKey nd) [type]);
        match v with
        | inl reason => mret (inl (refuse 400 reason))
        | inr _ =>
            let id := frame_id exchange frame in
            match map_get id (requests (wrk s)) with
            | None => mret (inl (refuse 404 "request_not_found"))
            | Some r =>
                if negb (bool_decide (provider r = providerNodeId)) then mret (inl (refuse 403 "provider_mismatch"))
                else _ ← modify (expireFastRequest now id); mret (inr id)
            end
        end
  end.

Definition take_partial (now : Z) (link_of : string → link) (id : rid) (providerNodeId : string) (frame payload : jval)
    (sequence : Z) (r : request) : M relay reply :=
  let digest := partialDigest frame payload in
  let expected := nextPartialSequence r in
  let mismatch := refuse_with 409 "partial_sequence_mismatch"
                    [("expected", JNum (JInt expected)); ("received", JNum (JInt sequence))] in
  match (match lastPartial r with
         | Some p => if bool_decide (sequence = expected - 1)%Z && bool_decide (p_sequence p = sequence) then Some p else None
         | None => None
         end) with
  | Some p =>
      if bool_decide (p_digest p = digest)
      then mret (answer [("requestId", raw id); ("sequence", JNum (JInt sequence));
                     ("transport", JStr (transport_name (p_transport p))); ("idempotent", JBool true)])
      else mret mismatch
  | None =>
      if negb (bool_decide (sequence = expected)) then mret mismatch
      else
        transport ← run_state (queueFast now link_of (requester r) (PartialEvent frame payload providerNodeId (raw id) sequence) true);
        if bool_decide (transport = QueueFull)
        then mret (refuse_with 429 "partial_backpressure"
                     [("requestId", raw id); ("sequence", JNum (JInt sequence)); ("expected", JNum (JInt expected))])
        else
          _ ← modify (λ s,
                let s := if bool_decide (expected = 0)%Z
                         then (finishResultWaiter id
                                 (answer_trust [("needId", raw id); ("provider", JStr (provider r)); ("streaming", JBool true)]
                                    (trustFor now s (provider r))) s).1
                         else s in
                touch now providerNodeId (update_request id (with_partial (PartialSeen sequence digest transport now)) s));
          mret (answer [("requestId", raw id); ("sequence", JNum (JInt sequence)); ("transport", JStr (transport_name transport))])
  end.

Definition processFastPartial (now : Z) (link_of : string → link) (providerNodeId : string) (exchange : nat)
    (frame payload : jval) : M relay reply :=
  found ← find_request now "PARTIAL" providerNodeId exchange frame payload;
  match found with
  | inl refused => mret refused
  | inr id =>
      s ← get_state;
      match map_get id (requests (wrk s)) with
      | None => mret (refuse 404 "request_not_found")
      | Some r =>
          match terminalRequestError r with
          | Some code => mret (refuse 409 code)
          | None =>
              if negb (bool_decide (q_mode r = Fast)) then mret (refuse 409 "partial_requires_fast_need")
              else match is_integer (oprop payload "sequence") with
                   | Some sequence =>
                       if bool_decide (sequence < 0)%Z then mret (refuse 400 "invalid_partial_sequence")
                       else take_partial now link_of id providerNodeId frame payload sequence r
                   | None => mret (refuse 400 "invalid_partial_sequence")
                   end
          end
      end
  end.

Definition noteProviderCooldown (now : Z) (providerNodeId : string) (payload : jval) (s : relay) : relay :=
  match oprop (oprop (oprop payload "metadata") "capacity") "cooldownMs" with
  | JNum n =>
      match num_floor n with
      | Some floor =>
          if negb (d_less (JInt 0) n) then s
          else
            let until := (now + Z.min (maxProviderCooldownMs cfg) floor)%Z in
            if bool_decide (default 0 (map_get providerNodeId (providerCooldownUntil (net s))) < until)%Z
            then set_cooldown (map_set providerNodeId until (providerCooldownUntil (net s))) s else s
      | None => s
      end
  | _ => s
  end.

(** Without a ledger. *)
Definition completeRequest (now : Z) (id : rid) (providerNodeId : string) (s : relay) : relay * trust :=
  let s := update_request id (ended now None None) (markRequestStatus id Completed s) in
  let '(ok, failed) := default (0, 0)%Z (map_get providerNodeId (stats (reg s))) in
  let s := touch now providerNodeId (set_stats (map_set providerNodeId (ok + 1, failed)%Z (stats (reg s))) s) in
  (s, trustFor now s providerNodeId).

(** ** Results that arrive together

    [processFastResult] waits three times: after it found the request, before
    it marks it and before it delivers the result.  The handlers of results
    that one read of a connection brings therefore take their steps in turn. *)
Record incoming := Incoming { c_node : string; c_exchange : nat; c_frame : jval; c_payload : jval }.

(** A handler at one of its steps: it has ended, with an answer if any, or it
    goes on with [A]. *)
Definition job (A : Type) : Type := option reply + A.

Fixpoint in_turn {A B} (f : A → relay → relay * job B) (jobs : list (job A)) (s : relay) : relay * list (job B) :=
  match jobs with
  | [] => (s, [])
  | inl r :: jobs => let '(s, l) := in_turn f jobs s in (s, inl r :: l)
  | inr a :: jobs => let '(s, b) := f a s in let '(s, l) := in_turn f jobs s in (s, b :: l)
  end.

(** Up to [await expireFastRequest(request)]; [failed] answers an exception. *)
Definition find_result (now : Z) (failed : jerror → reply) (c : incoming) (s : relay) : relay * job (incoming * rid) :=
  match find_request now "RESULT" (c_node c) (c_exchange c) (c_frame c) (c_payload c) s with
  | (s, Ok (inl refused)) => (s, inl (Some refused))
  | (s, Ok (inr id)) => (s, inr (c, id))
  | (s, Throw e) => (s, inl (Some (failed e)))
  end.

(** Up to the [await] in [completeRequest]. *)
Definition check_result (now : Z) (j : incoming * rid) (s : relay) : relay * job (incoming * rid) :=
  match map_get j.2 (requests (wrk s)) with
  | None => (s, inl (Some (refuse 404 "request_not_found")))
  | Some r =>
      match terminalRequestError r with
      | Some code => (s, inl (Some (refuse 409 code)))
      | None => (noteProviderCooldown now (c_node j.1) (c_payload j.1) s, inr j)
      end
  end.

(** The rest of [completeRequest]. *)
Definition commit_result (now : Z) (j : incoming * rid) (s : relay) : relay * job (incoming * rid * trust) :=
  let '(s, t) := completeRequest now j.2 (c_node j.1) s in (s, inr (j, t)).

(** The end of [processFastResult]. *)
Definition deliver_result (now : Z) (link_of : string → link) (j : incoming * rid * trust) (s : relay) : relay * job Empty_set :=
  let '(c, id, t) := j in
  match map_get id (requests (wrk s)) with
  | None => (s, inl (Some (refuse 404 "request_not_found")))
  | Some r =>
      let e := ResultEvent id (c_frame c) (c_payload c) (c_node c) t in
      let s := releaseFastTerminal id s in
      let '(s, delivered) :=
        if bool_decide (nextPartialSequence r = 0)%Z then finishResultWaiter id (answer_events [e]) s else (s, false) in
      if delivered : bool then (s, inl (Some (answer [("requestId", raw id)])))
      else
        let '(s, transport) := queueFastTerminal now link_of (requester r) e s in
        (s, inl (Some (if bool_decide (transport = QueueFull)
                       then refuse_with 503 "terminal_capacity_invariant" [("requestId", raw id)]
                       else answer [("requestId", raw id)])))
  end.

Definition answer_of (j : job Empty_set) : option reply := match j with inl r => r | inr e => match e with end end.

Definition processFastResults (now : Z) (link_of : string → link) (receive : incoming → relay → relay * job (incoming * rid))
    (cs : list incoming) (s : relay) : relay * list (option reply) :=
  let '(s, found) := in_turn receive (map inr cs) s in
  let '(s, checked) := in_turn (check_result now) found s in
  let '(s, committed) := in_turn (commit_result now) checked s in
  let '(s, done) := in_turn (deliver_result now link_of) committed s in
  (s, map answer_of done).

(** ** Signed requests, results and revocations *)

(** [authenticateEnvelope] *)
Definition authenticateEnvelope (now : Z) (token : option string) (envelope : jval) : M relay bool :=
  n ← run_state (authenticatedNodeId now token);
  mret (match n with Some n => eq_str (oprop envelope "from") n | None => false end).

Definition legacy_need (now : Z) (link_of : string → link) (ties : list jnum) (token : option string) (envelope : jval)
    : M relay reply :=
  match verifyEnvelope envelope ["NEED"] with
  | Rejected reason => mret (refuse 400 reason)
  | Accepted =>
      auth ← authenticateEnvelope now token envelope;
      if negb auth then mret (refuse 401 "unauthorized")
      else
        let from := str_of (oprop envelope "from") in
        let id := str_id (str_of (oprop envelope "id")) in
        let payload := oprop envelope "payload" in
        s ← get_state;
        if negb (requesterCanDispatch now s from) then mret (refuse 403 "provider_access_denied")
        else if map_has id (requests (wrk s)) || bool_decide (id ∈ seenNeedIds (wrk s))
        then mret (refuse 409 "duplicate_request")
        else
          _ ← lift_result (assertNeedAdmissionWindow envelope (JNum (JInt now)));
          match payload_capability payload with
          | JStr capability =>
              if negb (nonempty_str capability) then mret (refuse 400 "invalid_capability")
              else
                ranked ← matchingOffers now ties capability from (routing_of payload) (Some id);
                match ranked with
                | [] => mret (refuse 404 "no_matching_provider")
                | o :: _ =>
                    _ ← pruneCompleted;
                    _ ← catch_with (admitDirectNeedId now id (Some envelope))
                          (λ e, _ ← modify (delete_selection id); throw e);
                    _ ← markMatchedRequest id (new_request from (offer_from o) capability now Legacy);
                    _ ← modify (λ s, touch now from (queue now link_of (offer_from o) (NeedEnvelope envelope) s).1);
                    s ← get_state;
                    mret (answer_trust [("needId", raw id); ("provider", JStr (offer_from o))] (trustFor now s (offer_from o)))
                end
          | _ => mret (refuse 400 "invalid_capability")
          end
  end.

(** [envelope.payload?.requestId], parsed with its envelope: an object is no key. *)
Definition answered_id (envelope : jval) : option rid :=
  let id := oprop (oprop envelope "payload") "requestId" in if is_typeof_object id then None else Some (Rid id 0).

Definition legacy_result (now : Z) (link_of : string → link) (token : option string) (envelope : jval) : M relay reply :=
  match verifyEnvelope envelope ["RESULT"] with
  | Rejected reason => mret (refuse 400 reason)
  | Accepted =>
      auth ← authenticateEnvelope now token envelope;
      if negb auth then mret (refuse 401 "unauthorized")
      else
        s ← get_state;
        match answered_id envelope with
        | Some id =>
            match map_get id (requests (wrk s)) with
            | None => mret (refuse 404 "request_not_found")
            | Some r =>
                if negb (bool_decide (provider r = str_of (oprop envelope "from"))) then mret (refuse 403 "provider_mismatch")
                else match terminalRequestError r with
                | Some code => mret (refuse 409 code)
                | None =>
                    t ← run_state (completeRequest now id (provider r));
                    _ ← modify (λ s, (queue now link_of (requester r) (ResultEnvelope envelope t)
                                        (update_request id (with_result envelope t) s)).1);
                    mret (answer_trust [("requestId", raw id)] t)
                end
            end
        | None => mret (refuse 404 "request_not_found")
        end
  end.

(** The members of POST /v1/revoke: the target, its kind and the reason. *)
Record revocation := Revocation { v_targetId : string; v_kind : string; v_reason : string }.

Definition MAX_CANCELLATION_REASON_CHARS : Z := 256.

Definition read_revocation (envelope : jval) : reply + revocation :=
  let payload := oprop envelope "payload" in
  match oprop payload "targetId" with
  | JStr targetId =>
      if negb (nonempty_str targetId) then inl (refuse 400 "invalid_target_id")
      else match js_or (oprop payload "targetKind") (JStr "auto") with
           | JStr kind =>
               if negb (bool_decide (kind ∈ ["auto"; "need"; "offer"])) then inl (refuse 400 "invalid_target_kind")
               else
                 let reason := oprop payload "reason" in
                 if nullish reason then inr (Revocation targetId kind "cancelled_by_requester")
                 else match reason with
                      | JStr text =>
                          if bool_decide (MAX_CANCELLATION_REASON_CHARS < Z.of_nat (String.length text))%Z
                          then inl (refuse 400 "invalid_cancel_reason")
                          else inr (Revocation targetId kind (if nonempty_str text then text else "cancelled_by_requester"))
                      | _ => inl (refuse 400 "invalid_cancel_reason")
                      end
           | _ => inl (refuse 400 "invalid_target_kind")
           end
  | _ => inl (refuse 400 "invalid_target_id")
  end.

Definition time_or_null (st : status) (r : request) : jval :=
  match endedAt r with
  | Some t => if bool_decide (q_status r = st) then JStr (toISOString t) else JNull
  | None => JNull
  end.

(** Cancelling a request: the first time, and again. *)
Definition cancel_need (now : Z) (link_of : string → link) (target from : string) (envelope : jval) (reason : string)
    (s : relay) : relay * reply :=
  let id := str_id target in
  let e := RevokeEvent target envelope from in
  let told (s : relay) (r : request) (told_so full : list (string * jval)) (at_ : jval) :=
    let '(s, delivered) := queueCancellation now link_of r e s in
    let fields rest := [("targetId", JStr target); ("targetKind", JStr "need"); ("cancelled", JBool true)] ++ rest ++
                       [("provider", JStr (provider r)); ("cancelledAt", at_)] in
    (touch now from s, if delivered : bool then answer (fields told_so) else refuse_with 429 "cancellation_backpressure" (fields full)) in
  let s := expireFastRequest now id s in
  match map_get id (requests (wrk s)) with
  | None => (s, refuse 404 "target_not_found")
  | Some r =>
      if negb (bool_decide (requester r = from)) then (s, refuse 403 "not_request_owner")
      else match q_status r with
           | Completed => (s, refuse 409 "request_already_completed")
           | Expired => (s, refuse 409 "request_failed")
           | Cancelled => told s r [("idempotent", JBool true); ("redelivered", JBool true)] [("idempotent", JBool true)]
                            (time_or_null Cancelled r)
           | Matched =>
               let s := update_request id (ended now None (Some reason)) (markRequestStatus id Cancelled s) in
               let s := releaseFastTerminal id s in
               let s := (finishResultWaiter id (refuse_with 409 "request_cancelled" [("requestId", raw id)]) s).1 in
               told s r [("idempotent", JBool false)] [] (JStr (toISOString now))
           end
  end.

Definition revoke_target (now : Z) (link_of : string → link) (from : string) (envelope : jval) (v : revocation)
    (s : relay) : relay * reply :=
  let id := v_targetId v in
  let has_request := map_has (str_id id) (requests (wrk s)) in
  let known := has_request || bool_decide (str_id id ∈ seenNeedIds (wrk s)) in
  if bool_decide (v_kind v = "auto") && known && map_has id (offers (dir (reg s)))
  then (s, refuse_with 409 "ambiguous_revoke_target" [("targetId", JStr id)])
  else if bool_decide (v_kind v = "need") || (bool_decide (v_kind v = "auto") && has_request) then
    if has_request then cancel_need now link_of id from envelope (v_reason v) s else (s, refuse 404 "target_not_found")
  else match map_get id (offers (dir (reg s))) with
       | None => (s, refuse 404 "target_not_found")
       | Some o =>
           if negb (bool_decide (offer_from o = from)) then (s, refuse 403 "not_target_owner")
           else (touch now from (set_dir (revoke_offer id (dir (reg s))) s),
                 answer [("targetId", JStr id); ("targetKind", JStr "offer")])
       end.

Definition revoke (now : Z) (link_of : string → link) (token : option string) (envelope : jval) : M relay reply :=
  match verifyEnvelope envelope ["REVOKE"] with
  | Rejected reason => mret (refuse 400 reason)
  | Accepted =>
      auth ← authenticateEnvelope now token envelope;
      if negb auth then mret (refuse 401 "unauthorized")
      else match read_revocation envelope with
           | inl refused => mret refused
           | inr v => run_state (revoke_target now link_of (str_of (oprop envelope "from")) envelope v)
           end
  end.

(** ** Status, polls and sockets *)

Definition status_name (st : status) : string :=
  match st with Matched => "matched" | Completed => "completed" | Cancelled => "cancelled" | Expired => "failed" end.

(** GET /v1/fast/requests/:id *)
Definition request_status (now : Z) (token : option string) (requestId : string) (s : relay) : relay * reply :=
  let id := str_id requestId in
  let '(s, n) := authenticatedNodeId now token s in
  match n with
  | None => (s, refuse 401 "unauthorized")
  | Some n =>
      match map_get id (requests (wrk s)) with
      | None => (s, refuse 404 "request_not_found")
      | Some r =>
          if negb (bool_decide (requester r = n)) then (s, refuse 403 "not_request_owner")
          else if negb (bool_decide (q_mode r = Fast)) then (s, refuse 409 "request_status_requires_fast_need")
          else
            let s := touch now n (expireFastRequest now id s) in
            (s, match map_get id (requests (wrk s)) with
                | None => refuse 404 "request_not_found"
                | Some r =>
                    answer [("requestId", JStr requestId); ("status", JStr (status_name (q_status r)));
                            ("error", match failureReason r with
                                      | Some reason => JStr reason
                                      | None => if bool_decide (q_status r = Cancelled) then JStr "request_cancelled" else JNull
                                      end);
                            ("provider", JStr (provider r)); ("partialCount", JNum (JInt (nextPartialSequence r)));
                            ("createdAt", JStr (toISOString (createdAt r))); ("completedAt", time_or_null Completed r);
                            ("cancelledAt", time_or_null Cancelled r); ("failedAt", time_or_null Expired r)]
                end)
      end
  end.

(** GET /v1/fast/events; [None]: the answer comes later. *)
Definition fast_poll (now : Z) (token : option string) (n : string) (waitMs : Z) (res : nat) (s : relay)
    : relay * option reply :=
  let '(s, auth) := authenticatedNodeId now token s in
  if negb (nonempty_str n) || negb (bool_decide (auth = Some n)) then (s, Some (refuse 401 "unauthorized"))
  else
    let s := touch now n s in
    let queued := queue_of (fastEvents (box s)) n in
    let terminal := queue_of (fastTerminalEvents (box s)) n in
    if bool_decide (0 < length queued) || bool_decide (0 < length terminal) then
      (emit (Polled n (queued ++ terminal))
         (set_fast (map_set n [] (fastEvents (box s))) (set_terminal (map_set n [] (fastTerminalEvents (box s))) s)),
       Some (answer_events (queued ++ terminal)))
    else if bool_decide (waitMs ≤ 0)%Z then (s, Some (answer_events []))
    else
      let s := match map_get n (fastWaiters (box s)) with
               | Some old => emit (Responded old (answer_events [])) s
               | None => s
               end in
      (set_fastWaiters (map_set n res (fastWaiters (box s))) s, None).

(** GET /v1/events *)
Definition legacy_poll (now : Z) (token : option string) (n : string) (waitMs : Z) (res : nat) (s : relay)
    : relay * option reply :=
  let '(s, auth) := authenticatedNodeId now token s in
  if negb (nonempty_str n) || negb (bool_decide (auth = Some n)) then (s, Some (refuse 401 "unauthorized"))
  else
    let queued := queue_of (events (box s)) n in
    if bool_decide (0 < length queued) then
      (emit (Polled n queued) (touch now n (set_events (map_set n [] (events (box s))) s)), Some (answer_events queued))
    else if bool_decide (0 < waitMs)%Z then
      let s := match map_get n (legacyWaiters (box s)) with
               | Some old => emit (Responded old (answer_events [])) s
               | None => s
               end in
      (set_legacyWaiters (map_set n res (legacyWaiters (box s))) s, None)
    else (touch now n s, Some (answer_events [])).

(** The timer of a held answer fires, or its connection closes. *)
Inductive held := HeldFast (n : string) | HeldLegacy (n : string) | HeldResult (id : rid).

Definition drop_held (h : held) (res : nat) (s : relay) : relay :=
  match h with
  | HeldFast n => if bool_decide (map_get n (fastWaiters (box s)) = Some res)
                  then set_fastWaiters (map_delete n (fastWaiters (box s))) s else s
  | HeldLegacy n => if bool_decide (map_get n (legacyWaiters (box s)) = Some res)
                    then set_legacyWaiters (map_delete n (legacyWaiters (box s))) s else s
  | HeldResult id => if bool_decide (map_get id (resultWaiters (box s)) = Some res)
                     then set_resultWaiters (map_delete id (resultWaiters (box s))) s else s
  end.

Definition is_held (h : held) (res : nat) (s : relay) : bool :=
  match h with
  | HeldFast n => bool_decide (map_get n (fastWaiters (box s)) = Some res)
  | HeldLegacy n => bool_decide (map_get n (legacyWaiters (box s)) = Some res)
  | HeldResult id => bool_decide (map_get id (resultWaiters (box s)) = Some res)
  end.

Definition held_timeout (now : Z) (h : held) (res : nat) (s : relay) : relay :=
  if negb (is_held h res s) then s
  else
    let s := drop_held h res s in
    match h with
    | HeldFast n | HeldLegacy n => emit (Responded res (answer_events [])) (touch now n s)
    | HeldResult id => emit (Responded res (refuse_with 504 "result_wait_timeout" [("requestId", raw id)])) s
    end.

(** One of the loops that empty a queue into a new socket; [room] sends succeed.
    What stays, how many sends are left, whether one was refused. *)
Fixpoint drain (now : Z) (n : string) (q : list event) (room : nat) (s : relay) : relay * (list event * nat * bool) :=
  match q, room with
  | [], _ => (s, ([], room, false))
  | _ :: _, O => (s, (q, O, true))
  | e :: q, S room => drain now n q room (touch now n (emit (ToSocket n e) s))
  end.

Definition socket_connect (now : Z) (n : string) (room : nat) (s : relay) : relay :=
  let s := set_sockets (n :: filter (λ m, m ≠ n) (sockets (net s))) s in
  let s := touch now n (set_lost (map_delete n (socketLostAt (net s))) s) in
  let '(s, (legacy, room, full)) := drain now n (queue_of (events (box s)) n) room s in
  let '(s, (fast, room, full)) :=
    if full : bool then (s, (queue_of (fastEvents (box s)) n, room, full)) else drain now n (queue_of (fastEvents (box s)) n) room s in
  let '(s, (terminal, room, full)) :=
    if full : bool then (s, (queue_of (fastTerminalEvents (box s)) n, room, full))
    else drain now n (queue_of (fastTerminalEvents (box s)) n) room s in
  let s := set_terminal (map_set n terminal (fastTerminalEvents (box s)))
             (set_fast (map_set n fast (fastEvents (box s))) (set_events (map_set n legacy (events (box s))) s)) in
  if full : bool then close_socket n s else s.

Definition socket_close (now : Z) (n : string) (s : relay) : relay :=
  if connectedSocket s n then set_lost (map_set n now (socketLostAt (net s))) (close_socket n s) else s.

(** ** Registration and offers *)

Definition advertised_list (advert : jval) (k : string) (d : jval) : jval := if has_own advert k then oprop advert k else d.

Definition string_list (v : jval) : bool :=
  match v with JArr l => forallb isNonEmptyString l | _ => false end.

Definition registrationIsFresh (now : Z) (envelope : jval) : bool :=
  match Date_parse (to_string (js_or (oprop envelope "createdAt") (JStr ""))) with
  | Some created => bool_decide (created ≤ now + 30000)%Z && bool_decide (now - created ≤ registrationFreshnessMs cfg)%Z
  | None => false
  end.

Definition cleanupRegistrationReplayCache (now : Z) (s : relay) : relay :=
  set_used (filter (λ e, (now < e.2)%Z) (usedRegistrationIds (reg s))) s.

Definition keep_queue (n : string) (m : jsmap string (list event)) : jsmap string (list event) := map_set n (queue_of m n) m.

(** The new session, and what a node keeps of the old one. *)
Definition open_session (now : Z) (token n : string) (publicKey : jval) (s : relay) : relay :=
  let s := match map_get n (nodes (reg s)) with
           | Some old => if nonempty_str (sessionToken old) then set_sessions (map_delete (sessionToken old) (sessions (reg s))) s else s
           | None => s
           end in
  let s := close_socket n s in
  let s := set_nodes (map_set n (Node publicKey token now) (nodes (reg s))) s in
  let s := set_sessions (map_set token (Session n (now + sessionTtlMs cfg)) (sessions (reg s))) s in
  let s := set_events (keep_queue n (events (box s))) s in
  let s := set_fast (keep_queue n (fastEvents (box s))) s in
  let s := set_terminal (keep_queue n (fastTerminalEvents (box s))) s in
  set_stats (map_set n (default (0, 0)%Z (map_get n (stats (reg s)))) (stats (reg s))) s.

Definition negotiate_registration (envelope : jval) : outcome + string :=
  let payload := oprop envelope "payload" in
  let advert := if truthy payload && is_typeof_object payload then payload else JObj [] in
  let declared := advertised_list advert "protocols" (JArr [JStr PROTOCOL]) in
  let semantics := advertised_list advert "semantics" (JArr []) in
  let required := advertised_list advert "requiredSemantics" (JArr []) in
  if negb (string_list declared && string_list semantics && string_list required) then inr "invalid_advertisement"
  else
    inl (negotiate (NegotiationArgs (JArr [JStr PROTOCOL])
           (JArr (List.filter Sessions.Sessions.protocol_name (elements_of declared)))
           (JArr []) semantics required JUndef JUndef)).

(** POST /v1/register *)
Definition register (now : Z) (token : string) (envelope : jval) (s : relay) : relay * reply :=
  match verifyEnvelope envelope ["IDENTITY"] with
  | Rejected reason => (s, refuse 400 reason)
  | Accepted =>
      let n := str_of (oprop envelope "from") in
      let id := str_of (oprop envelope "id") in
      let mismatch reason := refuse_with 409 "version_mismatch" [("reason", JStr reason)] in
      match negotiate_registration envelope with
      | inr reason => (s, mismatch reason)
      | inl NoOverlap => (s, mismatch "no_protocol_overlap")
      | inl InvalidAdvertisement => (s, mismatch "invalid_semantic_advertisement")
      | inl (MissingSemantics _ missing) =>
          (s, refuse_with 409 "version_mismatch" [("reason", JStr "required_semantic_unavailable");
                                                  ("missingSemantics", JArr (map JStr missing))])
      | inl (Agreed protocol semantics) =>
          if negb (nodeCanRegister n) then (s, refuse 403 "registration_denied")
          else
            let s := cleanupRegistrationReplayCache now s in
            if negb (registrationIsFresh now envelope) then (s, refuse 400 "stale_registration")
            else if map_has id (usedRegistrationIds (reg s)) then (s, refuse 409 "registration_replay")
            else
              let s := set_used (map_set id (now + registrationFreshnessMs cfg + 30000)%Z (usedRegistrationIds (reg s))) s in
              if negb (map_has n (nodes (reg s))) && bool_decide (maxNodes cfg ≤ map_size (nodes (reg s)))%Z
              then (s, refuse 503 "node_capacity_reached")
              else (open_session now token n (oprop envelope "publicKey") s,
                    answer [("nodeId", JStr n); ("sessionToken", JStr token); ("expiresInMs", JNum (JInt (sessionTtlMs cfg)));
                            ("negotiatedProtocol", JStr protocol); ("negotiatedSemantics", JArr (map JStr semantics))])
      end
  end.

(** POST /v1/offers *)
Definition post_offer (now : Z) (token : option string) (envelope : jval) : M relay reply :=
  match verifyEnvelope envelope ["OFFER"] with
  | Rejected reason => mret (refuse 400 reason)
  | Accepted =>
      auth ← authenticateEnvelope now token envelope;
      if negb auth then mret (refuse 401 "unauthorized")
      else
        let id := str_of (oprop envelope "id") in
        match payload_capability (oprop envelope "payload") with
        | JStr capability =>
            s ← get_state;
            if negb (nonempty_str capability) then mret (refuse 400 "invalid_capability")
            else if map_has id (offers (dir (reg s))) then mret (refuse 409 "duplicate_offer")
            else if bool_decide (maxOffers cfg ≤ map_size (offers (dir (reg s))))%Z then mret (refuse 503 "offer_capacity_reached")
            else
              policy ← lift_result (providerPolicyFromOffer authority envelope);
              _ ← modify (λ s, touch now (str_of (oprop envelope "from"))
                                 (set_dir (putOffer id (Offer envelope capability policy false) (dir (reg s))) s));
              mret (answer [("offerId", JStr id)])
        | _ => mret (refuse 400 "invalid_capability")
        end
  end.

(** ** The relay as a transition system *)

(** The answer to an exception that reaches the server's handler. *)
Definition caught (e : jerror) : reply :=
  let st := default 500%Z (e_httpStatus e) in
  refuse st (match e_publicCode e with
             | Some c => if nonempty_str c then c else if bool_decide (st < 500)%Z then e_message e else "internal_error"
             | None => if bool_decide (st < 500)%Z then e_message e else "internal_error"
             end).

(** What reaches the relay.  A handler that authenticates before it reads its
    body has a message for its head and one for its body, of the same exchange,
    which is numbered; bodies of results come together when one read brings
    them, and so do the results of a socket, each with its own number. *)
Inductive route := NeedRoute | PartialRoute | ResultRoute.

Inductive message :=
| Register (token : string) (envelope : jval)
| PostOffer (token : option string) (envelope : jval)
| Head (r : route) (token : option string) (res : nat)
| FastNeed (ties : list jnum) (res : nat) (waitMs : Z) (frame payload : jval)
| FastPartial (res : nat) (frame payload : jval)
| FastResults (results : list (nat * jval * jval))
| SocketResults (n : string) (results : list (nat * jval * jval))
| LegacyNeed (ties : list jnum) (token : option string) (envelope : jval)
| LegacyResult (token : option string) (envelope : jval)
| Revoke (token : option string) (envelope : jval)
| Status (token : option string) (id : string)
| FastPoll (token : option string) (n : string) (waitMs : Z) (res : nat)
| LegacyPoll (token : option string) (n : string) (waitMs : Z) (res : nat)
| HeldTimeout (h : held) (res : nat)
| HeldClosed (h : held) (res : nat)
| SocketOpen (token : option string) (n : string) (room : nat)
| SocketClosed (n : string)
| Sweep (force : bool).

(** A handler between its head and its body: who sent it and, for a need, the
    key its node had then. *)
Inductive opened := NeedBody (n : string) (publicKey : jval) | PartialBody (n : string) | ResultBody (n : string).

(** The relay with the handlers that wait for their bodies, by exchange. *)
Record server := Server { relay_of : relay; bodies : jsmap nat opened }.

Definition started : server := Server initial [].

Definition handled {A} (f : A → option reply) (m : M relay A) (s : relay) : relay * option reply :=
  match m s with
  | (s, Ok a) => (s, f a)
  | (s, Throw e) => (s, Some (caught e))
  end.

Definition with_reply (r : relay * reply) : relay * option reply := (r.1, Some r.2).

(** The head of a request: an answer, or its body is read next. *)
Definition head_of (now : Z) (r : route) (token : option string) (s : relay) : relay * (reply + opened) :=
  let '(s, n) := authenticatedNodeId now token s in
  match n with
  | None => (s, inl (refuse 401 "unauthorized"))
  | Some n =>
      match r with
      | NeedRoute =>
          if negb (requesterCanDispatch now s n) then (s, inl (refuse 403 "provider_access_denied"))
          else (s, inr (NeedBody n (match map_get n (nodes (reg s)) with Some nd => n_publicKey nd | None => JUndef end)))
      | PartialRoute => (s, inr (PartialBody n))
      | ResultRoute => (s, inr (ResultBody n))
      end
  end.

(** The results of a message, with who sent them. *)
Definition incoming_of (open : jsmap nat opened) (msg : message) : list incoming :=
  match msg with
  | FastResults l =>
      omap (λ '(res, frame, payload),
              match map_get res open with Some (ResultBody n) => Some (Incoming n res frame payload) | _ => None end) l
  | SocketResults n l => map (λ '(exchange, frame, payload), Incoming n exchange frame payload) l
  | _ => []
  end.

(** A socket's message, up to the first [await] of [processFastResult]. *)
Definition socket_result (now : Z) (c : incoming) (s : relay) : relay * job (incoming * rid) :=
  if negb (nodeSessionActive now s (c_node c)) then (s, inl None)
  else find_result now (λ e, refuse (match e_httpStatus e with Some st => if bool_decide (st = 0)%Z then 400 else st | None => 400 end)
                               (match e_publicCode e with
                                | Some c => if nonempty_str c then c else "invalid_socket_message"
                                | None => "invalid_socket_message"
                                end))
         c (touch now (c_node c) s).

Definition emit_all (os : list output) (s : relay) : relay := fold_left (λ s o, emit o s) os s.

(** The answers to results, each to its own handler. *)
Definition answers (f : incoming → reply → output) (cs : list incoming) (rs : list (option reply)) : list output :=
  omap (λ '(c, r), f c <$> r) (zip cs rs).

(** One message's effect on the relay, [open] being the open handlers. *)
Definition act (now : Z) (link_of : string → link) (msg : message) (open : jsmap nat opened) (s : relay)
    : relay * option reply :=
  let cs := incoming_of open msg in
  match msg with
  | Register token envelope => with_reply (register now token envelope s)
  | PostOffer token envelope => handled Some (post_offer now token envelope) s
  | Head r token _ =>
      match head_of now r token s with (s, inl refused) => (s, Some refused) | (s, inr _) => (s, None) end
  | FastNeed ties res waitMs frame payload =>
      match map_get res open with
      | Some (NeedBody n publicKey) => handled (λ r, r) (fast_need now link_of ties res n publicKey waitMs frame payload) s
      | _ => (s, None)
      end
  | FastPartial res frame payload =>
      match map_get res open with
      | Some (PartialBody n) => handled Some (processFastPartial now link_of n res frame payload) s
      | _ => (s, None)
      end
  | FastResults _ =>
      let '(s, rs) := processFastResults now link_of (find_result now caught) cs s in
      (emit_all (answers (λ c, Responded (c_exchange c)) cs rs) s, None)
  | SocketResults _ _ =>
      let '(s, rs) := processFastResults now link_of (socket_result now) cs s in
      (emit_all (answers (λ c, Acked (c_node c)) cs rs) s, None)
  | LegacyNeed ties token envelope => handled Some (legacy_need now link_of ties token envelope) s
  | LegacyResult token envelope => handled Some (legacy_result now link_of token envelope) s
  | Revoke token envelope => handled Some (revoke now link_of token envelope) s
  | Status token id => with_reply (request_status now token id s)
  | FastPoll token n waitMs res => fast_poll now token n waitMs res s
  | LegacyPoll token n waitMs res => legacy_poll now token n waitMs res s
  | HeldTimeout h res => (held_timeout now h res s, None)
  | HeldClosed h res => (drop_held h res s, None)
  | SocketOpen token n room =>
      let '(s, auth) := authenticatedNodeId now token s in
      if negb (nonempty_str n) || negb (bool_decide (auth = Some n)) then (s, Some (refuse 401 "unauthorized"))
      else (socket_connect now n room s, None)
  | SocketClosed n => (socket_close now n s, None)
  | Sweep force => (expireAbandonedFastRequests now force s, None)
  end.

(** What it does to the open handlers. *)
Definition bodies_after (now : Z) (msg : message) (open : jsmap nat opened) (s : relay) : jsmap nat opened :=
  match msg with
  | Head r token res => match head_of now r token s with (_, inr o) => map_set res o open | _ => open end
  | FastNeed _ res _ _ _ | FastPartial res _ _ => map_delete res open
  | FastResults l => fold_left (λ open x, map_delete x.1.1 open) l open
  | _ => open
  end.

Definition handle (now : Z) (link_of : string → link) (msg : message) (s : server) : server * option reply :=
  let '(relay, r) := act now link_of msg (bodies s) (relay_of s) in (Server relay (bodies_after now msg (bodies s) (relay_of s)), r).

(** A message with the clock and the sockets' behaviour when it is handled. *)
Record input := Input { i_now : Z; i_link : string → link; i_msg : message }.

Definition run (inputs : list input) (s : server) : server :=
  fold_left (λ s i, (handle (i_now i) (i_link i) (i_msg i) s).1) inputs s.

End relay.

(** ** A concrete relay *)

#[local] Existing Instance toy_doubles.

Definition toy_config : config :=
  Config 15000 3600000 300000 16 16 4 3 64 900000 [] [] true true false false 8 60000 250 2 120000.

Definition toy_node (key : string) : string :=
  match nodeIdFromPublicKey (H := Toy.host) (JStr key) with Ok n => n | Throw _ => "" end.

Definition toy_signed (type key id : string) (payload : list (string * jval)) : jval :=
  match createEnvelope (H := Toy.host)
          (EnvelopeArgs (JStr type) (JStr (toy_node key)) (JObj payload) (JStr "priv") (JStr key) JNull (JStr id)
             (JStr "2026-10-13T12:30:00.000Z")) with
  | Ok kvs => JObj kvs
  | Throw _ => JUndef
  end.

Definition toy_frame (type id : string) (payload : jval) : jval :=
  match createCompactFrame (H := Toy.host) type payload (JStr "priv") (JStr id) with Ok f => f | Throw _ => JUndef end.

Definition toy_now : Z := 1791894600500.
Definition toy_need_payload : jval := JObj [("capability", JStr "sum")].
Definition toy_result_payload : jval := JObj [("value", JNum (JInt 3))].

Definition toy_input (m : message) : input := Input toy_now (λ _, Accepts) m.

(** A requester and a provider register; the provider offers a sum. *)
Definition toy_setup : list input :=
  toy_input <$> [Register "t1" (toy_signed "IDENTITY" "alice" "reg-1" []);
                 Register "t2" (toy_signed "IDENTITY" "bob" "reg-2" []);
                 PostOffer (Some "t2") (toy_signed "OFFER" "bob" "offer-1"
                   [("capability", JStr "sum"); ("metadata", JObj [("accessMode", JStr "public")])])].

(** A need and a result, each a head and a body. *)
Definition toy_need_body (id : string) (res : nat) : message :=
  FastNeed [] res 0 (toy_frame "NEED" id toy_need_payload) toy_need_payload.
Definition toy_fast_need (id : string) (res : nat) : list input :=
  toy_input <$> [Head NeedRoute (Some "t1") res; toy_need_body id res].

Definition toy_result_body (id : string) (res : nat) : nat * jval * jval :=
  (res, toy_frame "RESULT" id toy_result_payload, toy_result_payload).
Definition toy_fast_result (id : string) (res : nat) : list input :=
  toy_input <$> [Head ResultRoute (Some "t2") res; FastResults [toy_result_body id res]].

#[local] Notation toy_run := (run (H := Toy.host) toy_config (Authorities None None)).

End Relay.
