(* ===== verification/RelayAccounts.v ===== *)
(** * The accounts of the relay

    The invariant of [Relay]: the counts of requests in flight and of slots for
    final results agree with the table of requests, an admitted identifier is
    never forgotten, every queue has room for the results it is owed, and the
    result of a fast request exists exactly once, provided requests are answered
    the way they were made and no two results of one are read together.  What an
    operation owes between two of its steps is a parameter of the invariant. *)
From S2P Require Import Prelude JSMap JSValue Dates Host Protocol Negotiation Sessions Security RelayRouting Relay.
Import Canonical Keys Envelope Compact NeedWindow Negotiate Security RelayRouting Relay.

Module RelayAccounts.

(** The request whose final result an event carries. *)
Definition result_id (e : event) : option rid := match e with ResultEvent id _ _ _ _ => Some id | _ => None end.

Definition is_result (id : rid) (e : event) : Z := Z.b2z (bool_decide (result_id e = Some id)).

Fixpoint results (id : rid) (es : list event) : Z :=
  match es with [] => 0 | e :: es => is_result id e + results id es end%Z.

Definition out_results (id : rid) (o : output) : Z :=
  match o with
  | ToSocket _ e => is_result id e
  | Polled _ es => results id es
  | Responded _ r | Acked _ r => results id (b_events (r_body r))
  end.

Fixpoint sent_results (id : rid) (os : list output) : Z :=
  match os with [] => 0 | o :: os => out_results id o + sent_results id os end%Z.

(** How many copies of a final result there are: handed over or queued. *)
Definition copies (id : rid) (s : relay) : Z :=
  (sent_results id (out (box s)) + map_sum (results id) (fastTerminalEvents (box s)))%Z.

Definition amount (k : string) (m : jsmap string Z) : Z := default 0%Z (map_get k m).

Definition in_flight (p : string) (r : request) : Z :=
  Z.b2z (bool_decide (provider r = p) && bool_decide (q_status r = Matched)).
Definition holds_slot (n : string) (r : request) : Z := Z.b2z (terminalReserved r && bool_decide (requester r = n)).
Definition open_fast (r : request) : bool := bool_decide (q_mode r = Fast) && bool_decide (q_status r = Matched).
Definition done_fast (r : request) : bool := bool_decide (q_mode r = Fast) && bool_decide (q_status r = Completed).

#[local] Arguments amount : simpl never.
#[local] Arguments copies : simpl never.
#[local] Arguments queue_of : simpl never.

Lemma results_app id l1 l2 : results id (l1 ++ l2) = (results id l1 + results id l2)%Z.
Proof. induction l1; cbn [app results]; lia. Qed.
Lemma sent_results_app id l1 l2 : sent_results id (l1 ++ l2) = (sent_results id l1 + sent_results id l2)%Z.
Proof. induction l1; cbn [app sent_results]; lia. Qed.
Lemma is_result_nonneg id e : (0 ≤ is_result id e)%Z.
Proof. unfold is_result. by case_bool_decide. Qed.
Lemma results_nonneg id l : (0 ≤ results id l)%Z.
Proof. induction l as [|e l IH]; cbn [results]; [done|]. pose proof (is_result_nonneg id e). lia. Qed.

Lemma out_results_nonneg id o : (0 ≤ out_results id o)%Z.
Proof. destruct o; cbn; [apply is_result_nonneg|apply results_nonneg..]. Qed.
Lemma sent_results_nonneg id os : (0 ≤ sent_results id os)%Z.
Proof. induction os as [|o os IH]; cbn [sent_results]; [done|]. pose proof (out_results_nonneg id o). lia. Qed.
Lemma copies_nonneg id s : (0 ≤ copies id s)%Z.
Proof.
  unfold copies. pose proof (sent_results_nonneg id (out (box s))).
  pose proof (map_sum_nonneg (results id) (fastTerminalEvents (box s)) (results_nonneg id)). lia.
Qed.

Definition plain (es : list event) : Prop := ∀ e, e ∈ es → result_id e = None.

Lemma is_result_plain id e : result_id e = None → is_result id e = 0%Z.
Proof. unfold is_result. by intros ->. Qed.
Lemma results_plain id es : plain es → results id es = 0%Z.
Proof.
  intros Hp. induction es as [|e es IH]; cbn [results]; [done|]. rewrite is_result_plain, IH; [done| |apply Hp; by left].
  intros x Hx. apply Hp. by right.
Qed.

Lemma results_set id n q m :
  map_sum (results id) (map_set n q m) = (map_sum (results id) m + results id q - results id (queue_of m n))%Z.
Proof. rewrite map_sum_set. unfold queue_of. by destruct (map_get n m). Qed.

(** One more for one key. *)
Definition plus `{EqDecision K} (k : K) (f : K → Z) : K → Z := λ n, (f n + Z.b2z (bool_decide (n = k)))%Z.
Definition zero {K} : K → Z := λ _, 0%Z.

Lemma plus_ge `{EqDecision K} (k : K) f n : (f n ≤ plus k f n)%Z.
Proof. unfold plus. destruct (bool_decide (n = k)); cbn; lia. Qed.

Section accounts.
Context `{Host} `{Doubles} (cfg : config) (authority : authorities).

(** [L]: requests completed whose slots are still held; [e]: slots held by no
    request yet; [x]: results made but not yet placed; [y]: places set apart for
    them. *)
Record pending (L : list rid) (e : string → Z) (x : rid → Z) (y : string → Z) (s : relay) : Prop := {
  g_requests : map_wf (requests (wrk s));
  g_queues : map_wf (fastTerminalEvents (box s));
  g_seen : ∀ id r, map_get id (requests (wrk s)) = Some r → id ∈ seenNeedIds (wrk s);
  g_flight : ∀ p, amount p (inFlightByProvider (wrk s)) = map_sum (in_flight p) (requests (wrk s));
  g_slots : ∀ n, amount n (fastTerminalReservations (box s)) = (map_sum (holds_slot n) (requests (wrk s)) + e n)%Z;
  g_slot : ∀ id r, map_get id (requests (wrk s)) = Some r → terminalReserved r = open_fast r || bool_decide (id ∈ L);
  g_room : ∀ n, (Z.of_nat (length (queue_of (fastTerminalEvents (box s)) n)) + amount n (fastTerminalReservations (box s)) + y n
                 ≤ maxFastTerminalReservationsPerRequester cfg)%Z;
  g_plain : ∀ n, plain (queue_of (fastEvents (box s)) n) ∧ plain (queue_of (events (box s)) n);
  g_copies : ∀ id, (0 ≤ x id)%Z ∧ (copies id s + x id ≤ 1)%Z ∧
    (id ∉ seenNeedIds (wrk s) → copies id s + x id = 0)%Z ∧
    ∀ r, map_get id (requests (wrk s)) = Some r → (copies id s + x id = Z.b2z (done_fast r))%Z;
  g_done : ∀ id, id ∈ L → ∃ r, map_get id (requests (wrk s)) = Some r ∧ done_fast r = true
}.

(** What a list of completed requests owes. *)
Definition owed (L : list rid) : rid → Z := λ id, Z.b2z (bool_decide (id ∈ L)).

Section pending.
Context {L : list rid}.
#[local] Notation good := (pending L).
Implicit Types (e y : string → Z) (x : rid → Z).

(** What the invariant reads. *)
Definition view (s : relay) :=
  (requests (wrk s), seenNeedIds (wrk s), inFlightByProvider (wrk s), fastTerminalEvents (box s),
   fastTerminalReservations (box s), fastEvents (box s), events (box s), out (box s)).

Lemma good_view e x y s s' : view s' = view s → good e x y s → good e x y s'.
Proof.
  unfold view. intros [= E1 E2 E3 E4 E5 E6 E7 E8] [].
  split; rewrite ?E1, ?E2, ?E3, ?E4, ?E5, ?E6, ?E7; try done.
  unfold copies. by rewrite E4, E8.
Qed.

Lemma good_ext e e' x x' y y' s :
  (∀ n, e n = e' n) → (∀ n, x n = x' n) → (∀ n, y n = y' n) → good e x y s → good e' x' y' s.
Proof.
  intros He Hx Hy []. split; try done.
  - intros n. by rewrite <- He.
  - intros n. by rewrite <- Hy.
  - intros id. by rewrite <- Hx.
Qed.

Lemma view_touch now n s : view (touch now n s) = view s.
Proof. unfold touch. by destruct (map_get n (nodes (reg s))). Qed.
Lemma view_close_socket n s : view (close_socket n s) = view s.
Proof. done. Qed.

Lemma good_touch e x y now n s : good e x y s → good e x y (touch now n s).
Proof. apply good_view, view_touch. Qed.

(** An output without a result changes nothing; one with a result pays it. *)
Lemma good_emit e x y o s :
  good e (λ id, x id + out_results id o)%Z y s → (∀ id, 0 ≤ x id)%Z → good e x y (emit o s).
Proof.
  intros [] Hx. split; try done. intros id. destruct (g_copies0 id) as (_ & H1 & H2 & H3).
  assert (E : copies id (emit o s) = (copies id s + out_results id o)%Z).
  { unfold copies. cbn. rewrite sent_results_app. cbn. lia. }
  rewrite E. cbn. split_and!; [apply Hx|lia|intros Hn; specialize (H2 Hn); lia|]. intros r Hr. specialize (H3 r Hr). lia.
Qed.

Lemma good_nonneg e x y s id : good e x y s → (0 ≤ x id)%Z.
Proof. intros []. by destruct (g_copies0 id). Qed.

Lemma good_emit_plain e x y o s : (∀ id, out_results id o = 0%Z) → good e x y s → good e x y (emit o s).
Proof.
  intros Ho Hg. apply good_emit; [|intros id; by apply (good_nonneg e x y s)].
  eapply good_ext; [| | |exact Hg]; [done| |done]. intros id. rewrite Ho. lia.
Qed.

Lemma good_emit_result e x y o id s :
  (∀ j, out_results j o = Z.b2z (bool_decide (j = id))) → (∀ j, 0 ≤ x j)%Z →
  good e (plus id x) y s → good e x y (emit o s).
Proof.
  intros Ho Hx Hg. apply good_emit; [|done]. eapply good_ext; [| | |exact Hg]; [done| |done]. intros j. unfold plus. by rewrite Ho.
Qed.

(** ** Sending and queueing *)

Lemma good_send e x y now link_of n ev cap s :
  result_id ev = None → good e x y s → good e x y (sendSocketEvent now link_of n ev cap s).1.
Proof.
  intros Hev Hg. unfold sendSocketEvent. destruct (negb _); [done|].
  assert (Hs : good e x y (touch now n (emit (ToSocket n ev) s))).
  { apply good_touch, good_emit_plain; [|done]. intros id. by apply is_result_plain. }
  destruct (link_of n); [done| |done]. by destruct cap.
Qed.

Lemma out_polled_one n ev id : result_id ev = None → out_results id (Polled n [ev]) = 0%Z.
Proof. intros Hev. cbn. rewrite is_result_plain by done. lia. Qed.

Lemma good_deliver_legacy e x y now n ev s :
  result_id ev = None → good e x y s → good e x y (deliverLegacyWaiter now n ev s).1.
Proof.
  intros Hev Hg. unfold deliverLegacyWaiter. destruct (map_get n _); [|done]. cbn [fst].
  apply good_emit_plain; [intros id; by apply out_polled_one|]. apply good_touch. by apply (good_view e x y s).
Qed.

Lemma good_deliver_fast e x y now n ev s :
  result_id ev = None → good e x y s → good e x y (deliverFastWaiter now n ev s).1.
Proof.
  intros Hev Hg. unfold deliverFastWaiter. destruct (map_get n _); [|done]. cbn [fst].
  apply good_emit_plain; [intros id; by apply out_polled_one|]. apply good_touch. by apply (good_view e x y s).
Qed.

Lemma queue_of_set m n q k : queue_of (map_set n q m) k = if decide (k = n) then q else queue_of m k.
Proof. unfold queue_of. rewrite map_get_set. by case_decide. Qed.

Lemma plain_bounded n ev m k :
  result_id ev = None → plain (queue_of m k) → (∀ j, plain (queue_of m j)) → plain (queue_of (boundedQueue cfg n ev m) k).
Proof.
  intros Hev Hk Hm. unfold boundedQueue. rewrite queue_of_set. case_decide; [|done]. intros v Hv.
  assert (Hin : v ∈ queue_of m n ++ [ev]).
  { rewrite <- (take_drop (Z.to_nat (Z.of_nat (length (queue_of m n ++ [ev])) - maxQueuedEventsPerNode cfg))
        (queue_of m n ++ [ev])). apply elem_of_app. by right. }
  apply elem_of_app in Hin as [?| ->%list_elem_of_singleton]; [by apply (Hm n)|done].
Qed.

Lemma good_set_fast e x y m s : (∀ n, plain (queue_of m n)) → good e x y s → good e x y (set_fast m s).
Proof. intros Hm []. split; try done. intros n. split; [apply Hm|apply g_plain0]. Qed.
Lemma good_set_events e x y m s : (∀ n, plain (queue_of m n)) → good e x y s → good e x y (set_events m s).
Proof. intros Hm []. split; try done. intros n. split; [apply g_plain0|apply Hm]. Qed.

Lemma good_queueFast e x y now link_of n ev cap s :
  result_id ev = None → good e x y s → good e x y (queueFast cfg now link_of n ev cap s).1.
Proof.
  intros Hev Hg. unfold queueFast. pose proof (good_send e x y now link_of n ev cap s Hev Hg) as H1.
  destruct (sendSocketEvent _ _ _ _ _ _) as [s1 []]; cbn [fst] in H1; [done| |done].
  pose proof (good_deliver_fast e x y now n ev s1 Hev H1) as H2. destruct (deliverFastWaiter _ _ _ _) as [s2 []]; cbn [fst] in H2; [done|].
  destruct (_ && _); [done|]. apply good_set_fast; [|done]. intros k. apply plain_bounded; [done| |]; [|intros j]; apply H2.
Qed.

Lemma good_queue e x y now link_of n ev s :
  result_id ev = None → good e x y s → good e x y (queue cfg now link_of n ev s).1.
Proof.
  intros Hev Hg. unfold queue. pose proof (good_send e x y now link_of n ev true s Hev Hg) as H1.
  destruct (sendSocketEvent _ _ _ _ _ _) as [s1 sent]; cbn [fst] in H1.
  pose proof (good_deliver_legacy e x y now n ev s1 Hev H1) as H2.
  destruct sent; [done|..]; destruct (deliverLegacyWaiter _ _ _ _) as [s2 []]; cbn [fst] in H2 |- *; try done.
  all: apply good_set_events; [|done]; intros k; apply plain_bounded; [done| |]; [|intros j]; apply H2.
Qed.

Lemma good_queueCritical e x y now link_of n ev s :
  result_id ev = None → good e x y s → good e x y (queueCritical cfg now link_of n ev s).1.
Proof.
  intros Hev Hg. unfold queueCritical. pose proof (good_send e x y now link_of n ev true s Hev Hg) as H1.
  destruct (sendSocketEvent _ _ _ _ _ _) as [s1 []]; cbn [fst] in H1; [done| |done].
  pose proof (good_deliver_legacy e x y now n ev s1 Hev H1) as H2. destruct (deliverLegacyWaiter _ _ _ _) as [s2 []]; cbn [fst] in H2; [done|].
  case_bool_decide; [done|]. apply good_set_events; [|done]. intros k. rewrite queue_of_set. case_decide; [|apply H2].
  intros v [?| ->%list_elem_of_singleton]%elem_of_app; [by apply (g_plain _ _ _ _ _ H2 n)|done].
Qed.

Lemma good_queueCancellation e x y now link_of r ev s :
  result_id ev = None → good e x y s → good e x y (queueCancellation cfg now link_of r ev s).1.
Proof.
  intros Hev Hg. unfold queueCancellation. destruct (q_mode r); [|by apply good_queueCritical].
  pose proof (good_queueFast e x y now link_of (provider r) ev true s Hev Hg) as H1. by destruct (queueFast _ _ _ _ _ _ _).
Qed.

Lemma good_finishResultWaiter e x y id r s :
  (∀ j, results j (b_events (r_body r)) = 0%Z) → good e x y s → good e x y (finishResultWaiter id r s).1.
Proof.
  intros Hr Hg. unfold finishResultWaiter. destruct (map_get id _); [|done]. cbn [fst]. apply good_emit_plain; [done|]. by apply (good_view e x y s).
Qed.

(** ** Changes of the table *)

Lemma amount_decrement k n m : (1 ≤ amount k m)%Z → amount n (decrement k m) = (amount n m - Z.b2z (bool_decide (n = k)))%Z.
Proof.
  intros Hk. unfold decrement. change (default 0%Z (map_get k m)) with (amount k m). case_bool_decide as Hone; unfold amount in *.
  - rewrite map_get_delete. case_decide as Hn; [subst; rewrite bool_decide_true by done; cbn [default Z.b2z] in *; lia|].
    rewrite bool_decide_false by done. cbn [Z.b2z]. lia.
  - rewrite map_get_set. case_decide as Hn; [subst; rewrite bool_decide_true by done; cbn; lia|].
    rewrite bool_decide_false by done. cbn [Z.b2z]. lia.
Qed.

Lemma in_flight_nonneg p r : (0 ≤ in_flight p r)%Z.
Proof. unfold in_flight. by destruct (_ && _). Qed.
Lemma holds_slot_nonneg n r : (0 ≤ holds_slot n r)%Z.
Proof. unfold holds_slot. by destruct (_ && _). Qed.

Lemma map_set_set {V} `{EqDecision K} (k : K) (v w : V) m : map_set k v (map_set k w m) = map_set k v m.
Proof.
  induction m as [|[j u] m IH]; cbn [map_set]; [by rewrite decide_True|].
  case_decide; cbn [map_set]; [by rewrite decide_True|]. rewrite decide_False by done. by rewrite IH.
Qed.

(** An open request is replaced by one that has ended; a fast one gives its slot
    back. *)
Lemma good_end e x y (s s' : relay) (id : rid) (r r' : request) (b := bool_decide (q_mode r = Fast)) :
  good e x y s → id ∉ L → map_get id (requests (wrk s)) = Some r → q_status r = Matched → q_status r' ≠ Matched →
  provider r' = provider r → requester r' = requester r → q_mode r' = q_mode r → terminalReserved r' = false →
  (0 ≤ e (requester r))%Z →
  view s' = (map_set id r' (requests (wrk s)), seenNeedIds (wrk s), decrement (provider r) (inFlightByProvider (wrk s)),
             fastTerminalEvents (box s),
             (if b then decrement (requester r) (fastTerminalReservations (box s)) else fastTerminalReservations (box s)),
             fastEvents (box s), events (box s), out (box s)) →
  good e (if done_fast r' then plus id x else x) (if b then plus (requester r) y else y) s'.
Proof.
  intros [] HL Hget Hst Hst' Hp Hq Hm Hflag He [= E1 E2 E3 E4 E5 E6 E7 E8].
  assert (Hr : terminalReserved r = b).
  { rewrite (g_slot0 _ _ Hget); unfold open_fast, b. by rewrite Hst, andb_true_r, (bool_decide_false (id ∈ L)), orb_false_r. }
  assert (Hfl : (1 ≤ amount (provider r) (inFlightByProvider (wrk s)))%Z).
  { rewrite g_flight0. pose proof (map_sum_le (in_flight (provider r)) id r _ (in_flight_nonneg _) Hget) as Hle.
    unfold in_flight at 1 in Hle. rewrite !bool_decide_true in Hle by done. done. }
  assert (Hdec : ∀ n, amount n (if b then decrement (requester r) (fastTerminalReservations (box s)) else fastTerminalReservations (box s))
    = (amount n (fastTerminalReservations (box s)) - if b then Z.b2z (bool_decide (n = requester r)) else 0)%Z).
  { intros n. destruct b eqn:Eb; [|lia]. apply amount_decrement. rewrite g_slots0.
    pose proof (map_sum_le (holds_slot (requester r)) id r _ (holds_slot_nonneg _) Hget) as Hle.
    unfold holds_slot at 1 in Hle. rewrite Hr, bool_decide_true in Hle by done. cbn in Hle. lia. }
  split; rewrite ?E1, ?E2, ?E3, ?E4, ?E5, ?E6, ?E7; try done.
  - by apply map_wf_set.
  - intros j q. rewrite map_get_set. case_decide; [intros [= <-]; subst; by eapply g_seen0|apply g_seen0].
  - intros p. rewrite amount_decrement by done. rewrite map_sum_set, Hget, g_flight0. unfold in_flight at 3 4.
    rewrite Hp, (bool_decide_false (q_status r' = Matched)), (bool_decide_true (q_status r = Matched)) by done.
    rewrite andb_false_r, andb_true_r. rewrite (bool_decide_ext (provider r = p) (p = provider r)) by done.
    change (Z.b2z false) with 0%Z. lia.
  - intros n. rewrite Hdec, map_sum_set, Hget, g_slots0. unfold holds_slot at 3 4. rewrite Hq, Hflag, Hr.
    rewrite (bool_decide_ext (requester r = n) (n = requester r)) by done. destruct b; cbn [andb Z.b2z]; lia.
  - intros j q. rewrite map_get_set. case_decide; [intros [= <-]; subst|apply g_slot0]. rewrite Hflag. unfold open_fast.
    rewrite (bool_decide_false (q_status r' = Matched)), (bool_decide_false (id ∈ L)) by done. by rewrite andb_false_r.
  - intros n. rewrite Hdec. specialize (g_room0 n). destruct b; [|lia]. unfold plus. lia.
  - intros j. destruct (g_copies0 j) as (H1 & H2 & H3 & H4).
    assert (Hc : copies j s' = copies j s) by (unfold copies; by rewrite E4, E8). rewrite Hc.
    assert (Hx : (if done_fast r' then plus id x else x) j = (x j + if decide (j = id) then Z.b2z (done_fast r') else 0)%Z).
    { unfold plus. destruct (done_fast r'), (decide (j = id)); rewrite ?bool_decide_true, ?bool_decide_false by done; cbn [Z.b2z]; lia. }
    rewrite Hx, map_get_set. destruct (decide (j = id)) as [->|Hne]; [|rewrite Z.add_0_r; by split_and!].
    specialize (H4 _ Hget). unfold done_fast in H4. rewrite (bool_decide_false (q_status r = Completed)) in H4 by congruence.
    rewrite andb_false_r in H4. change (Z.b2z false) with 0%Z in H4.
    split_and!; [by destruct (done_fast r'); cbn [Z.b2z]; lia|by destruct (done_fast r'); cbn [Z.b2z]; lia| |].
    + intros Hn. exfalso. apply Hn. by eapply g_seen0.
    + intros q [= <-]. lia.
  - intros j Hj. rewrite map_get_set, decide_False by (by intros ->). by apply g_done0.
Qed.

(** A request that has ended is forgotten. *)
Lemma good_remove e x y s id r :
  good e x y s → id ∉ L → map_get id (requests (wrk s)) = Some r → q_status r ≠ Matched →
  good e x y (set_requests (map_delete id (requests (wrk s))) s).
Proof.
  intros [] HL Hget Hst. split; try done; cbn.
  - by apply map_wf_delete.
  - intros j q. rewrite map_get_delete. case_decide; [done|]. apply g_seen0.
  - intros p. rewrite map_sum_delete, Hget, g_flight0 by done. unfold in_flight at 3.
    rewrite (bool_decide_false (q_status r = Matched)), andb_false_r by done. cbn. lia.
  - intros n. rewrite map_sum_delete, Hget, g_slots0 by done. unfold holds_slot at 3. rewrite (g_slot0 _ _ Hget). unfold open_fast.
    rewrite (bool_decide_false (q_status r = Matched)), (bool_decide_false (id ∈ L)), andb_false_r by done. cbn. lia.
  - intros j q. rewrite map_get_delete. case_decide; [done|]. apply g_slot0.
  - intros j. destruct (g_copies0 j) as (H1 & H2 & H3 & H4). split_and!; [done|done|done|]. intros q. rewrite map_get_delete.
    case_decide; [done|]. apply H4.
  - intros j Hj. rewrite map_get_delete, decide_False by (by intros ->). by apply g_done0.
Qed.

(** A request enters the table under an identifier never seen. *)
Lemma good_new e x y s s' id r :
  good e x y s → id ∉ L → id ∉ seenNeedIds (wrk s) → q_status r = Matched → terminalReserved r = bool_decide (q_mode r = Fast) →
  view s' = (map_set id r (requests (wrk s)), seenNeedIds (wrk s) ++ [id],
             map_set (provider r) (amount (provider r) (inFlightByProvider (wrk s)) + 1)%Z (inFlightByProvider (wrk s)),
             fastTerminalEvents (box s), fastTerminalReservations (box s), fastEvents (box s), events (box s), out (box s)) →
  good (λ n, e n - holds_slot n r)%Z x y s'.
Proof.
  intros [] HL Hid Hst Hflag [= E1 E2 E3 E4 E5 E6 E7 E8].
  assert (Hnone : map_get id (requests (wrk s)) = None).
  { destruct (map_get id (requests (wrk s))) as [q|] eqn:Hq; [|done]. by apply g_seen0 in Hq. }
  split; rewrite ?E1, ?E2, ?E3, ?E4, ?E5, ?E6, ?E7; try done.
  - by apply map_wf_set.
  - intros j q. rewrite map_get_set, elem_of_app. destruct (decide (j = id)) as [->|Hj]; [intros _; right; by apply list_elem_of_singleton|].
    intros ?%g_seen0. by left.
  - intros p. rewrite map_sum_set, Hnone, <- g_flight0. unfold in_flight, amount. rewrite Hst, (bool_decide_true (Matched = Matched)) by done.
    rewrite andb_true_r, map_get_set. destruct (decide (p = provider r)) as [->|Hp].
    + rewrite bool_decide_true by done. cbn. lia.
    + rewrite bool_decide_false by congruence. cbn. lia.
  - intros n. rewrite map_sum_set, Hnone, g_slots0. lia.
  - intros j q. rewrite map_get_set. destruct (decide (j = id)); [intros [= <-]; subst|apply g_slot0]. rewrite Hflag. unfold open_fast.
    by rewrite Hst, andb_true_r, (bool_decide_false (id ∈ L)), orb_false_r.
  - intros j. destruct (g_copies0 j) as (H1 & H2 & H3 & H4).
    assert (Hc : copies j s' = copies j s) by (unfold copies; by rewrite E4, E8). rewrite Hc. split_and!; [done|done| |].
    + intros Hn. apply H3. intros Hin. apply Hn, elem_of_app. by left.
    + intros q. rewrite map_get_set. destruct (decide (j = id)) as [->|]; [|apply H4]. intros [= <-]. rewrite H3 by done. unfold done_fast.
      rewrite Hst. by rewrite andb_false_r.
  - intros j Hj. rewrite map_get_set, decide_False by (by intros ->). by apply g_done0.
Qed.

Lemma good_weaken e x y y' s : (∀ n, y' n ≤ y n)%Z → good e x y s → good e x y' s.
Proof. intros Hy []. split; try done. intros n. specialize (g_room0 n). specialize (Hy n). lia. Qed.

Lemma good_seen e x y id s : good e x y s → good e x y (set_seen (seenNeedIds (wrk s) ++ [id]) s).
Proof.
  intros []. split; try done; cbn.
  - intros j q Hq. apply elem_of_app. left. by eapply g_seen0.
  - intros j. destruct (g_copies0 j) as (H1 & H2 & H3 & H4). split_and!; [done|done| |done].
    intros Hn. apply H3. intros Hin. apply Hn, elem_of_app. by left.
Qed.

Lemma good_reserve e x y n s s' :
  good e x y s → reserveFastTerminal cfg n s = (s', true) → (∀ m, y m = 0)%Z → good (plus n e) x y s'.
Proof.
  intros [] Hr Hy. unfold reserveFastTerminal in Hr. case_bool_decide as Hfull; [done|]. injection Hr as <-.
  assert (Ha : ∀ m, amount m (map_set n (default 0 (map_get n (fastTerminalReservations (box s))) + 1)%Z (fastTerminalReservations (box s)))
    = (amount m (fastTerminalReservations (box s)) + Z.b2z (bool_decide (m = n)))%Z).
  { intros m. unfold amount. rewrite map_get_set. case_decide; [subst; rewrite bool_decide_true by done; cbn; lia|].
    rewrite bool_decide_false by done. cbn. lia. }
  split; try done; cbn.
  - intros m. rewrite Ha, g_slots0. unfold plus. lia.
  - intros m. rewrite Ha. specialize (g_room0 m). rewrite (Hy m) in *. destruct (decide (m = n)) as [->|Hn].
    + rewrite bool_decide_true by done. unfold amount in *. cbn [Z.b2z]. lia.
    + rewrite bool_decide_false by done. cbn [Z.b2z]. lia.
Qed.

Lemma good_release_slot e x y n s :
  good e x y s → (1 ≤ e n)%Z → good (λ m, e m - Z.b2z (bool_decide (m = n)))%Z x y (release_slot n s).
Proof.
  intros [] He.
  assert (Hn : (1 ≤ amount n (fastTerminalReservations (box s)))%Z).
  { rewrite g_slots0. pose proof (map_sum_nonneg (holds_slot n) (requests (wrk s)) (holds_slot_nonneg n)). lia. }
  split; try done; cbn.
  - intros m. rewrite amount_decrement, g_slots0 by done. lia.
  - intros m. rewrite amount_decrement by done. specialize (g_room0 m). case_bool_decide; cbn; lia.
Qed.

(** ** Placing a result *)

Lemma result_of_one j id ev : result_id ev = Some id → is_result j ev = Z.b2z (bool_decide (j = id)).
Proof. intros Hev. unfold is_result. rewrite Hev. f_equal. apply bool_decide_ext. naive_solver. Qed.

Lemma results_one j id ev : result_id ev = Some id → results j [ev] = Z.b2z (bool_decide (j = id)).
Proof. intros Hev. cbn [results]. rewrite (result_of_one j id) by done. lia. Qed.

Definition nonneg {K} (f : K → Z) : Prop := ∀ n, (0 ≤ f n)%Z.

Lemma pay_waiter e x y id r ev s s' b :
  b_events (r_body r) = [ev] → result_id ev = Some id → nonneg x → good e (plus id x) y s →
  finishResultWaiter id r s = (s', b) → good e (if b then x else plus id x) y s'.
Proof.
  intros Hb Hev Hx Hg. unfold finishResultWaiter. destruct (map_get id _); intros [= <- <-]; [|done].
  apply (good_emit_result _ _ _ _ id); [|done|by apply (good_view e _ y s)].
  intros j. cbn [out_results r_body]. rewrite Hb. by apply results_one.
Qed.

Lemma pay_send e x y id now link_of n ev s s' t :
  result_id ev = Some id → nonneg x → good e (plus id x) y s → sendSocketEvent now link_of n ev true s = (s', t) →
  good e (match t with Sent => x | _ => plus id x end) y s'.
Proof.
  intros Hev Hx Hg. unfold sendSocketEvent. destruct (negb _); [by intros [= <- <-]|].
  assert (Hs : good e x y (touch now n (emit (ToSocket n ev) s))).
  { apply good_touch, (good_emit_result _ _ _ _ id); [|done|done]. intros j. cbn. by apply result_of_one. }
  destruct (link_of n); by intros [= <- <-].
Qed.

Lemma pay_poll e x y id now n ev s s' b :
  result_id ev = Some id → nonneg x → good e (plus id x) y s → deliverFastWaiter now n ev s = (s', b) →
  good e (if b then x else plus id x) y s'.
Proof.
  intros Hev Hx Hg. unfold deliverFastWaiter. destruct (map_get n _); intros [= <- <-]; [|done].
  apply (good_emit_result _ _ _ _ id); [|done|]; [intros j; by apply results_one|]. apply good_touch. by apply (good_view e _ y s).
Qed.

Lemma good_push e x y id n ev s :
  result_id ev = Some id → nonneg x → good e (plus id x) (plus n y) s →
  good e x y (set_terminal (map_set n (queue_of (fastTerminalEvents (box s)) n ++ [ev]) (fastTerminalEvents (box s))) s).
Proof.
  intros Hev Hx []. split; try done; cbn.
  - by apply map_wf_set.
  - intros m. rewrite queue_of_set. specialize (g_room0 m). unfold plus in g_room0. destruct (decide (m = n)) as [->|Hm].
    + rewrite bool_decide_true in g_room0 by done. rewrite length_app. cbn in *. lia.
    + rewrite bool_decide_false in g_room0 by done. cbn in *. lia.
  - intros j. destruct (g_copies0 j) as (H1 & H2 & H3 & H4).
    assert (E : copies j (set_terminal (map_set n (queue_of (fastTerminalEvents (box s)) n ++ [ev]) (fastTerminalEvents (box s))) s)
      = (copies j s + Z.b2z (bool_decide (j = id)))%Z).
    { unfold copies. cbn. rewrite results_set, results_app, (results_one j id) by done. lia. }
    rewrite E. unfold plus in *. split_and!; [apply Hx|lia|intros Hn; specialize (H3 Hn); lia|]. intros r Hr. specialize (H4 r Hr). lia.
Qed.

Lemma pay_park x id now n ev s s' t :
  result_id ev = Some id → nonneg x → good zero (plus id x) (plus n zero) s → park_terminal cfg now n ev s = (s', t) →
  good zero x zero s' ∧ t ≠ QueueFull.
Proof.
  intros Hev Hx Hg. unfold park_terminal. destruct (deliverFastWaiter now n ev s) as [s1 b] eqn:Hd.
  pose proof (pay_poll _ _ _ _ _ _ _ _ _ _ Hev Hx Hg Hd) as H1. destruct b.
  - intros [= <- <-]. split; [|done]. eapply good_weaken; [|done]. intros m. apply plus_ge.
  - case_bool_decide as Hfull.
    + exfalso. pose proof (g_room _ _ _ _ _ H1 n) as Hroom. rewrite (g_slots _ _ _ _ _ H1 n) in Hroom.
      pose proof (map_sum_nonneg (holds_slot n) (requests (wrk s1)) (holds_slot_nonneg n)).
      unfold plus, zero in Hroom. rewrite bool_decide_true in Hroom by done. cbn in Hroom. lia.
    + intros [= <- <-]. split; [|done]. by apply (good_push _ _ _ id).
Qed.

Lemma pay_terminal x id now link_of n ev s s' t :
  result_id ev = Some id → nonneg x → good zero (plus id x) (plus n zero) s →
  queueFastTerminal cfg now link_of n ev s = (s', t) → good zero x zero s' ∧ t ≠ QueueFull.
Proof.
  intros Hev Hx Hg. unfold queueFastTerminal. destruct (sendSocketEvent now link_of n ev true s) as [s1 r] eqn:Hs.
  pose proof (pay_send _ _ _ _ _ _ _ _ _ _ _ Hev Hx Hg Hs) as H1. destruct r.
  - intros [= <- <-]. split; [|done]. eapply good_weaken; [|done]. intros m. apply plus_ge.
  - by apply pay_park with id.
  - apply pay_park with id; [done|done|]. by apply (good_view _ _ _ s1).
Qed.

(** ** Ending a request *)

Lemma requests_markRequestStatus id st s r :
  map_get id (requests (wrk s)) = Some r → q_status r = Matched → st ≠ Matched →
  view (markRequestStatus id st s) =
    (map_set id (with_status st r) (requests (wrk s)), seenNeedIds (wrk s), decrement (provider r) (inFlightByProvider (wrk s)),
     fastTerminalEvents (box s), fastTerminalReservations (box s), fastEvents (box s), events (box s), out (box s)).
Proof.
  intros Hget Hst Hne. unfold markRequestStatus, isTerminal. rewrite Hget, Hst, bool_decide_true, (bool_decide_false (st = Matched)) by done.
  cbn. unfold update_request. cbn. by rewrite Hget.
Qed.

Lemma view_update id f s s' r :
  map_get id (requests (wrk s)) = Some r → view s = view s' →
  view (update_request id f s) =
    (map_set id (f r) (requests (wrk s')), seenNeedIds (wrk s'), inFlightByProvider (wrk s'),
     fastTerminalEvents (box s'), fastTerminalReservations (box s'), fastEvents (box s'), events (box s'), out (box s')).
Proof. intros Hget [= E1 E2 E3 E4 E5 E6 E7 E8]. unfold update_request. rewrite Hget. unfold view. cbn. congruence. Qed.

(** The state in which a request of [s] has ended as [r']; its slot, if it has
    one, is given back by [releaseFastTerminal]. *)
Lemma end_request id st f s s1 r :
  map_get id (requests (wrk s)) = Some r → q_status r = Matched → st ≠ Matched →
  view s1 = view (update_request id f (markRequestStatus id st s)) →
  view s1 = (map_set id (f (with_status st r)) (requests (wrk s)), seenNeedIds (wrk s),
             decrement (provider r) (inFlightByProvider (wrk s)), fastTerminalEvents (box s),
             fastTerminalReservations (box s), fastEvents (box s), events (box s), out (box s)).
Proof.
  intros Hget Hst Hne ->. pose proof (requests_markRequestStatus id st s r Hget Hst Hne) as Hv. set (s2 := markRequestStatus id st s) in *.
  unfold view in Hv. injection Hv as E1 E2 E3 E4 E5 E6 E7 E8.
  assert (Hg : map_get id (requests (wrk s2)) = Some (with_status st r)) by (rewrite E1, map_get_set; by rewrite decide_True).
  unfold update_request. rewrite Hg. unfold view. cbn. rewrite E1, E2, E3, E4, E5, E6, E7, E8. by rewrite map_set_set.
Qed.

Lemma release_ended id s1 r1 :
  map_get id (requests (wrk s1)) = Some r1 → terminalReserved r1 = true →
  view (releaseFastTerminal id s1) =
    (map_set id (without_slot r1) (requests (wrk s1)), seenNeedIds (wrk s1), inFlightByProvider (wrk s1), fastTerminalEvents (box s1),
     decrement (requester r1) (fastTerminalReservations (box s1)), fastEvents (box s1), events (box s1), out (box s1)).
Proof. intros Hget Hr. unfold releaseFastTerminal, update_request. by rewrite Hget, Hr. Qed.

Lemma good_settle e x y id st f s s1 r :
  good e x y s → id ∉ L → map_get id (requests (wrk s)) = Some r → q_status r = Matched → st ≠ Matched → nonneg e →
  provider (f (with_status st r)) = provider r → requester (f (with_status st r)) = requester r →
  q_mode (f (with_status st r)) = q_mode r → q_status (f (with_status st r)) = st →
  terminalReserved (f (with_status st r)) = terminalReserved r →
  view s1 = view (update_request id f (markRequestStatus id st s)) →
  good e (if bool_decide (q_mode r = Fast) && bool_decide (st = Completed) then plus id x else x)
    (if bool_decide (q_mode r = Fast) then plus (requester r) y else y) (releaseFastTerminal id s1).
Proof.
  intros Hg HL Hget Hst Hne He Hp Hq Hm Hs Hf Hv. pose proof (end_request id st f s s1 r Hget Hst Hne Hv) as Hv1.
  set (r1 := f (with_status st r)) in *. pose proof (g_slot _ _ _ _ _ Hg _ _ Hget) as Hslot. unfold open_fast in Hslot.
  rewrite Hst, andb_true_r, (bool_decide_false (id ∈ L)), orb_false_r in Hslot by done. unfold view in Hv1. injection Hv1 as E1 E2 E3 E4 E5 E6 E7 E8.
  assert (Hget1 : map_get id (requests (wrk s1)) = Some r1) by (rewrite E1, map_get_set; by rewrite decide_True).
  assert (Hdone : ∀ r', q_mode r' = q_mode r → q_status r' = st → done_fast r' = bool_decide (q_mode r = Fast) && bool_decide (st = Completed)).
  { intros r' Hm' Hs'. unfold done_fast. by rewrite Hm', Hs'. }
  destruct (bool_decide (q_mode r = Fast)) eqn:Hfast.
  - pose proof (release_ended id s1 r1 Hget1 ltac:(congruence)) as Hv2. rewrite E1, E2, E3, E4, E5, E6, E7, E8, map_set_set, Hq in Hv2.
    pose proof (good_end e x y s (releaseFastTerminal id s1) id r (without_slot r1) Hg HL Hget Hst) as Hend. rewrite Hfast in Hend.
    rewrite (Hdone (without_slot r1)) in Hend by done. apply Hend; try done; try apply He; cbn; by rewrite Hs.
  - assert (Hrel : releaseFastTerminal id s1 = s1) by (unfold releaseFastTerminal; rewrite Hget1; by rewrite Hf, Hslot).
    rewrite Hrel. pose proof (good_end e x y s s1 id r r1 Hg HL Hget Hst) as Hend. rewrite Hfast in Hend.
    rewrite (Hdone r1) in Hend by done. apply Hend; try done; try apply He; [by rewrite Hs|congruence|].
    unfold view. by rewrite E1, E2, E3, E4, E5, E6, E7, E8.
Qed.

End pending.

(** *** A fast request completed, its slot held until its result is delivered *)

Lemma pending_same (L L' : list rid) e x y s : (∀ id, id ∈ L ↔ id ∈ L') → pending L e x y s → pending L' e x y s.
Proof.
  intros HL []. split; try done.
  - intros id r Hr. rewrite (g_slot0 id r Hr). f_equal. by apply bool_decide_ext.
  - intros id Hid. by apply g_done0, HL.
Qed.

Lemma pending_commit L e x y id f s s1 r :
  pending L e x y s → id ∉ L → map_get id (requests (wrk s)) = Some r → q_status r = Matched → q_mode r = Fast →
  provider (f (with_status Completed r)) = provider r → requester (f (with_status Completed r)) = requester r →
  q_mode (f (with_status Completed r)) = q_mode r → q_status (f (with_status Completed r)) = Completed →
  terminalReserved (f (with_status Completed r)) = terminalReserved r →
  view s1 = view (update_request id f (markRequestStatus id Completed s)) →
  pending (id :: L) e (plus id x) y s1.
Proof.
  intros [] HL Hget Hst Hm Hp Hq Hm' Hs Hf Hv. apply (end_request id Completed f s s1 r Hget Hst) in Hv; [|done].
  set (r1 := f (with_status Completed r)) in *. injection Hv as E1 E2 E3 E4 E5 E6 E7 E8.
  assert (Hr : terminalReserved r = true) by (rewrite (g_slot0 _ _ Hget); unfold open_fast; by rewrite Hst, Hm).
  assert (Hfl : (1 ≤ amount (provider r) (inFlightByProvider (wrk s)))%Z).
  { rewrite g_flight0. pose proof (map_sum_le (in_flight (provider r)) id r _ (in_flight_nonneg _) Hget) as Hle.
    unfold in_flight at 1 in Hle. rewrite !bool_decide_true in Hle by done. done. }
  assert (Hd : done_fast r1 = true) by (unfold done_fast; by rewrite Hm', Hm, Hs).
  split; rewrite ?E1, ?E2, ?E3, ?E4, ?E5, ?E6, ?E7; try done.
  - by apply map_wf_set.
  - intros j q. rewrite map_get_set. case_decide; [intros [= <-]; subst; by eapply g_seen0|apply g_seen0].
  - intros p. rewrite amount_decrement by done. rewrite map_sum_set, Hget, g_flight0. unfold in_flight at 3 4.
    rewrite Hp, (bool_decide_false (q_status r1 = Matched)), (bool_decide_true (q_status r = Matched)) by congruence.
    rewrite andb_false_r, andb_true_r. rewrite (bool_decide_ext (provider r = p) (p = provider r)) by done.
    change (Z.b2z false) with 0%Z. lia.
  - intros n. rewrite map_sum_set, Hget, g_slots0. unfold holds_slot at 3 4. rewrite Hq, Hf. lia.
  - intros j q. rewrite map_get_set. case_decide; [intros [= <-]; subst|].
    + rewrite Hf, Hr, (bool_decide_true (id ∈ id :: L)) by left. by rewrite orb_true_r.
    + intros Hj. rewrite (g_slot0 j q Hj). f_equal. apply bool_decide_ext. rewrite elem_of_cons. naive_solver.
  - intros j. destruct (g_copies0 j) as (H1 & H2 & H3 & H4).
    assert (Hc : copies j s1 = copies j s) by (unfold copies; by rewrite E4, E8). rewrite Hc. unfold plus. rewrite map_get_set.
    destruct (decide (j = id)) as [->|Hne]; [|rewrite (bool_decide_false (j = id)), Z.add_0_r by done; by split_and!].
    specialize (H4 _ Hget). unfold done_fast in H4. rewrite (bool_decide_false (q_status r = Completed)) in H4 by congruence.
    rewrite andb_false_r in H4. change (Z.b2z false) with 0%Z in H4. rewrite (bool_decide_true (id = id)) by done. cbn [Z.b2z].
    split_and!; [lia|lia| |].
    + intros Hn. exfalso. apply Hn. by eapply g_seen0.
    + intros q [= <-]. rewrite Hd. cbn [Z.b2z]. lia.
  - intros j. rewrite map_get_set. case_decide; [intros _; by exists r1|]. intros [?|Hj]%elem_of_cons; [done|]. by apply g_done0.
Qed.

Lemma pending_release L e x y id s :
  pending (id :: L) e x y s → id ∉ L → nonneg e →
  ∃ r, map_get id (requests (wrk s)) = Some r ∧ pending L e x (plus (requester r) y) (releaseFastTerminal id s).
Proof.
  intros [] HL He. destruct (g_done0 id) as (r & Hget & Hd); [left|]. exists r. split; [done|].
  assert (Hr : terminalReserved r = true) by (rewrite (g_slot0 _ _ Hget), (bool_decide_true (id ∈ id :: L)) by left; apply orb_true_r).
  pose proof (release_ended id s r Hget Hr) as Hv. injection Hv as E1 E2 E3 E4 E5 E6 E7 E8.
  assert (Hst : q_status r = Completed) by (revert Hd; unfold done_fast; rewrite andb_true_iff, !bool_decide_eq_true; tauto).
  assert (Hslot : (1 ≤ amount (requester r) (fastTerminalReservations (box s)))%Z).
  { rewrite g_slots0. pose proof (map_sum_le (holds_slot (requester r)) id r _ (holds_slot_nonneg _) Hget) as Hle.
    unfold holds_slot at 1 in Hle. rewrite Hr, bool_decide_true in Hle by done. cbn in Hle. specialize (He (requester r)). lia. }
  split; rewrite ?E1, ?E2, ?E3, ?E4, ?E5, ?E6, ?E7; try done.
  - by apply map_wf_set.
  - intros j q. rewrite map_get_set. case_decide; [intros [= <-]; subst; by eapply g_seen0|apply g_seen0].
  - intros p. rewrite map_sum_set, Hget, g_flight0. change (in_flight p (without_slot r)) with (in_flight p r). lia.
  - intros n. rewrite amount_decrement, map_sum_set, Hget, g_slots0 by done. unfold holds_slot at 3 4. cbn [without_slot terminalReserved requester].
    rewrite Hr, (bool_decide_ext (requester r = n) (n = requester r)) by done. cbn [andb Z.b2z]. lia.
  - intros j q. rewrite map_get_set. case_decide; [intros [= <-]; subst|].
    + unfold open_fast. cbn. by rewrite Hst, (bool_decide_false (Completed = Matched)), (bool_decide_false (id ∈ L)), andb_false_r by done.
    + intros Hj. rewrite (g_slot0 j q Hj). f_equal. apply bool_decide_ext. rewrite elem_of_cons. naive_solver.
  - intros n. rewrite amount_decrement by done. specialize (g_room0 n). unfold plus. lia.
  - intros j. destruct (g_copies0 j) as (H1 & H2 & H3 & H4).
    assert (Hc : copies j (releaseFastTerminal id s) = copies j s) by (unfold copies; by rewrite E4, E8). rewrite Hc.
    split_and!; [done..|]. intros q. rewrite map_get_set. case_decide; [intros [= <-]; subst; by apply (H4 r)|apply H4].
  - intros j Hj. rewrite map_get_set, decide_False by (by intros ->). apply g_done0. by right.
Qed.

#[local] Notation good := (pending []).

Lemma good_expire now id s : good zero zero zero s → good zero zero zero (expireFastRequest cfg now id s).
Proof.
  intros Hg. unfold expireFastRequest. destruct (map_get id (requests (wrk s))) as [r|] eqn:Hget; [|done].
  unfold overdue. destruct (bool_decide (q_mode r = Fast)) eqn:Hfast; [|done].
  destruct (bool_decide (q_status r = Matched)) eqn:Hst; [|done]. apply bool_decide_eq_true in Hst. cbn [andb].
  destruct (negb (negb _)); [done|]. cbv zeta.
  apply good_finishResultWaiter; [done|].
  pose proof (good_settle zero zero zero id Expired (ended now (Some "request_expired") None) s _ r Hg (not_elem_of_nil _) Hget Hst ltac:(done)
    ltac:(done) eq_refl eq_refl eq_refl eq_refl eq_refl eq_refl) as Hs. rewrite Hfast in Hs. cbn [andb] in Hs.
  eapply good_weaken; [|exact Hs]. intros n. apply plus_ge.
Qed.

Lemma good_sweep now force s : good zero zero zero s → good zero zero zero (expireAbandonedFastRequests cfg now force s).
Proof.
  intros Hg. unfold expireAbandonedFastRequests. destruct (_ && _); [done|].
  assert (Hs : good zero zero zero (set_sweep now s)) by (by apply (good_view _ _ _ s)).
  revert Hs. generalize (set_sweep now s). generalize (map_keys (requests (wrk s))). intros ids.
  induction ids as [|id ids IH]; intros s1 Hs1; [done|]. cbn. by apply IH, good_expire.
Qed.

Lemma good_prune e x y max todo m s :
  NoDup (map_keys todo) → (∀ id r, (id, r) ∈ todo → map_get id m = Some r) →
  good e x y (set_requests m s) → good e x y (set_requests (prune max todo m) s).
Proof.
  revert m. induction todo as [|[id r] todo IH]; intros m Hnd Hin Hg; cbn [prune]; [done|].
  apply NoDup_cons in Hnd as [Hid Hnd]. cbn in Hid.
  assert (Hne : ∀ j q, (j, q) ∈ todo → j ≠ id).
  { intros j q Hj ->. apply Hid. change id with (id, q).1. by apply list_elem_of_fmap_2. }
  set (m' := if isTerminal (q_status r) then map_delete id m else m).
  assert (Hg' : good e x y (set_requests m' s)).
  { unfold m', isTerminal. case_bool_decide as Hst; [done|]. cbn [negb].
    apply (good_remove e x y (set_requests m s) id r); [done|apply not_elem_of_nil| |done]. cbn. apply Hin. by left. }
  assert (Hin' : ∀ j q, (j, q) ∈ todo → map_get j m' = Some q).
  { intros j q Hj. unfold m'. destruct (isTerminal _); [|apply Hin; by right]. rewrite map_get_delete.
    rewrite decide_False by (by eapply Hne). apply Hin. by right. }
  destruct (bool_decide _); [done|]. by apply IH.
Qed.

Lemma good_pruneCompleted e x y s : good e x y s → good e x y (pruneCompleted cfg s).1.
Proof.
  intros Hg. unfold pruneCompleted. destruct (bool_decide _); [done|]. cbn [fst]. apply good_prune.
  - apply Hg.
  - intros id r Hin. apply map_elem_get; [apply Hg|done].
  - by apply (good_view _ _ _ s).
Qed.

(** ** The handlers *)

(** The invariant between messages: nothing is owed. *)
Definition accounts : relay → Prop := good zero zero zero.

Definition keeps {A} (m : M relay A) : Prop := ∀ s, accounts s → accounts (m s).1.

Lemma keeps_bind {A B} (m : M relay A) (f : A → M relay B) : keeps m → (∀ a, keeps (f a)) → keeps (x ← m; f x).
Proof.
  intros Hm Hf s Hs. specialize (Hm s Hs). unfold mbind, M_bind. destruct (m s) as [s1 [a|e] ]; [by apply Hf|done].
Qed.

Lemma keeps_ret {A} (a : A) : keeps (mret a).
Proof. by intros s Hs. Qed.
Lemma keeps_lift {A} (r : result A) : keeps (lift_result r).
Proof. by intros s Hs. Qed.
Lemma keeps_get : keeps get_state.
Proof. by intros s Hs. Qed.
Lemma keeps_modify f : (∀ s, accounts s → accounts (f s)) → keeps (modify f).
Proof. intros Hf s Hs. by apply Hf. Qed.
Lemma keeps_run {A} (f : relay → relay * A) : (∀ s, accounts s → accounts (f s).1) → keeps (run_state f).
Proof. intros Hf s Hs. unfold run_state. specialize (Hf s Hs). by destruct (f s). Qed.

Lemma accounts_view s s' : view s' = view s → accounts s → accounts s'.
Proof. apply good_view. Qed.

Lemma view_authenticated now token s : view (authenticatedNodeId now token s).1 = view s.
Proof. unfold authenticatedNodeId. by repeat case_match. Qed.

Lemma keeps_authenticate now token envelope : keeps (authenticateEnvelope now token envelope).
Proof.
  apply keeps_bind; [|intros; apply keeps_ret]. apply keeps_run. intros s. apply accounts_view, view_authenticated.
Qed.

Lemma view_matchingOffers now ties c n routing id s : view (matchingOffers cfg now ties c n routing id s).1 = view s.
Proof. unfold matchingOffers. destruct (rankOffers _ _ _ _ _ _ _) as [kept r]. by repeat case_match. Qed.

Lemma keeps_matching now ties c n routing id : keeps (matchingOffers cfg now ties c n routing id).
Proof. intros s. apply accounts_view, view_matchingOffers. Qed.

Lemma keeps_find now type n x frame payload : keeps (find_request cfg now type n x frame payload).
Proof.
  apply keeps_bind; [apply keeps_get|]. intros s. destruct (map_get n _) as [nd|]; [|apply keeps_ret].
  destruct (negb _); [apply keeps_ret|]. apply keeps_bind; [apply keeps_lift|]. intros [?|?]; [apply keeps_ret|].
  cbv zeta. destruct (map_get (frame_id x frame) (requests (wrk s))); [|apply keeps_ret]. destruct (negb _); [apply keeps_ret|].
  apply keeps_bind; [|intros; apply keeps_ret]. apply keeps_modify. intros. by apply good_expire.
Qed.

Lemma view_note now n payload s : view (noteProviderCooldown cfg now n payload s) = view s.
Proof. unfold noteProviderCooldown. by repeat case_match. Qed.

Lemma view_complete now id n s :
  view (completeRequest now id n s).1 = view (update_request id (ended now None None) (markRequestStatus id Completed s)).
Proof. unfold completeRequest. destruct (default _ _) as [ok failed]. cbn [fst]. by rewrite view_touch. Qed.

(** *** Results that arrive together *)

(** An answer that carries no result and is not the one for a result that found
    no place. *)
Definition fair (rep : reply) : Prop :=
  b_events (r_body rep) = [] ∧ ∀ id, rep ≠ refuse_with 503 "terminal_capacity_invariant" [("requestId", id)].

Definition fair_jobs {A} (js : list (job A)) : Prop := ∀ rep, inl (Some rep) ∈ js → fair rep.

Lemma fair_refuse st code : fair (refuse st code).
Proof. split; [done|]. by intros id [=]. Qed.
Lemma fair_answer kvs : fair (answer kvs).
Proof. split; [done|]. by intros id [=]. Qed.

Lemma fair_nil {A} : fair_jobs (A := A) [].
Proof. by intros rep ?%elem_of_nil. Qed.

Lemma fair_cons {A} (j : job A) js : (∀ rep, j = inl (Some rep) → fair rep) → fair_jobs js → fair_jobs (j :: js).
Proof. intros Hj Hjs rep [E|Hr]%elem_of_cons; [by apply Hj|by apply Hjs]. Qed.

Lemma fair_uncons {A} (j : job A) js : fair_jobs (j :: js) → (∀ rep, j = inl (Some rep) → fair rep) ∧ fair_jobs js.
Proof. intros Hf. split; [intros rep ->; apply Hf; left|intros rep Hr; apply Hf; by right]. Qed.

(** The requests of the handlers that go on. *)
Definition going {A} (key : A → rid) (js : list (job A)) : list rid :=
  omap (λ j, match j with inr a => Some (key a) | inl _ => None end) js.

Lemma going_cons {A} (key : A → rid) a js : going key (inr a :: js) = key a :: going key js.
Proof. done. Qed.
Lemma going_ended {A} (key : A → rid) o js : going key (inl o :: js) = going key js.
Proof. done. Qed.

Lemma in_turn_nil {A B} (f : A → relay → relay * job B) s : in_turn f [] s = (s, []).
Proof. done. Qed.
Lemma in_turn_ended {A B} (f : A → relay → relay * job B) o js s :
  in_turn f (inl o :: js) s = ((in_turn f js s).1, inl o :: (in_turn f js s).2).
Proof. cbn. by destruct (in_turn f js s). Qed.
Lemma in_turn_going {A B} (f : A → relay → relay * job B) a js s :
  in_turn f (inr a :: js) s = ((in_turn f js (f a s).1).1, (f a s).2 :: (in_turn f js (f a s).1).2).
Proof. cbn. destruct (f a s) as [s1 b]. cbn. by destruct (in_turn f js s1). Qed.

(** A step that ends handlers and otherwise keeps their requests: [I] holds
    between the steps, [R] from first to last, [P] of those that go on. *)
Lemma in_turn_step {A B} (keyA : A → rid) (keyB : B → rid) (I : relay → Prop) (R : relay → relay → Prop) (P : B → Prop) f js s :
  Reflexive R → Transitive R →
  (∀ a s, I s → I (f a s).1 ∧ R s (f a s).1 ∧ (∀ rep, (f a s).2 = inl (Some rep) → fair rep) ∧
     ∀ b, (f a s).2 = inr b → keyB b = keyA a ∧ P b) →
  I s → fair_jobs js →
  I (in_turn f js s).1 ∧ R s (in_turn f js s).1 ∧ fair_jobs (in_turn f js s).2 ∧
  sublist (going keyB (in_turn f js s).2) (going keyA js) ∧ ∀ b, inr b ∈ (in_turn f js s).2 → P b.
Proof.
  intros HR HT Hf. revert s. induction js as [|[o|a] js IH]; intros s Hs Hfair; rewrite ?in_turn_nil, ?in_turn_ended, ?in_turn_going; cbn [fst snd].
  - split_and!; [done|done|apply fair_nil|constructor|by intros b ?%elem_of_nil].
  - apply fair_uncons in Hfair as [Ho Hfair]. destruct (IH s Hs Hfair) as (? & ? & ? & ? & HP). split_and!; [done|done| |done|].
    + apply fair_cons; [|done]. intros rep [= ->]. by apply Ho.
    + intros b [ [=]|Hb]%elem_of_cons. by apply HP.
  - apply fair_uncons in Hfair as [_ Hfair]. destruct (Hf a s Hs) as (H1 & H2 & H3 & H4). destruct (f a s) as [s1 b]. cbn [fst snd] in *.
    destruct (IH s1 H1 Hfair) as (? & ? & ? & ? & HP). split_and!; [done|by etrans|by apply fair_cons| |].
    + destruct b as [o|b]; [by rewrite going_ended, going_cons; constructor|].
      rewrite !going_cons, (proj1 (H4 b eq_refl)). by constructor.
    + intros c [Hc|Hc]%elem_of_cons; [|by apply HP]. by apply H4.
Qed.

(** Every request of [s'] was one of [s], of the same mode. *)
Definition modes (s s' : relay) : Prop :=
  ∀ j r, map_get j (requests (wrk s')) = Some r → ∃ q, map_get j (requests (wrk s)) = Some q ∧ q_mode q = q_mode r.

#[local] Instance modes_refl : Reflexive modes.
Proof. intros s j r. eauto. Qed.
#[local] Instance modes_trans : Transitive modes.
Proof. intros s1 s2 s3 H12 H23 j r Hr. destruct (H23 j r Hr) as (q & Hq & Hm). destruct (H12 j q Hq) as (p & Hp & Hn). exists p. split; congruence. Qed.

Lemma modes_view s s' : view s' = view s → modes s s'.
Proof. intros [= E _ _ _ _ _ _ _] j r. rewrite E. eauto. Qed.

(** An envelope's result ends a legacy request. *)
Lemma legacy_result_ok now link_of id n envelope s r :
  accounts s → map_get id (requests (wrk s)) = Some r → q_status r = Matched → q_mode r = Legacy →
  let '(s1, t) := completeRequest now id n s in
  accounts (queue cfg now link_of (requester r) (ResultEnvelope envelope t) (update_request id (with_result envelope t) s1)).1.
Proof.
  intros Hg Hget Hst Hm. pose proof (view_complete now id n s) as Hv. destruct (completeRequest now id n s) as [s1 t]. cbn [fst] in Hv.
  apply good_queue; [done|].
  pose proof (end_request id Completed (ended now None None) s s1 r Hget Hst ltac:(done) Hv) as Hv1.
  unfold view in Hv1. injection Hv1 as E1 E2 E3 E4 E5 E6 E7 E8.
  set (r1 := ended now None None (with_status Completed r)) in *.
  assert (Hget1 : map_get id (requests (wrk s1)) = Some r1) by (rewrite E1, map_get_set; by rewrite decide_True).
  pose proof (g_slot _ _ _ _ _ Hg _ _ Hget) as Hslot. unfold open_fast in Hslot.
  rewrite Hm, (bool_decide_false (id ∈ [])) in Hslot by apply not_elem_of_nil. cbn in Hslot.
  pose proof (good_end zero zero zero s (update_request id (with_result envelope t) s1) id r (with_result envelope t r1) Hg (not_elem_of_nil _) Hget Hst) as He.
  rewrite Hm in He. unfold done_fast in He. cbn [with_result q_mode r1 ended with_status] in He. rewrite Hm in He. cbn in He.
  apply He; try done. unfold update_request, view. rewrite Hget1. cbn. by rewrite E1, E2, E3, E4, E5, E6, E7, E8, map_set_set.
Qed.

Lemma keeps_take_partial now link_of id n frame payload sequence r :
  keeps (take_partial cfg now link_of id n frame payload sequence r).
Proof.
  unfold take_partial. destruct (match lastPartial r with Some _ => _ | None => _ end) as [p|]; [by case_bool_decide; apply keeps_ret|].
  destruct (negb _); [apply keeps_ret|]. apply keeps_bind; [apply keeps_run; intros s Hs; by apply good_queueFast|]. intros t.
  destruct (bool_decide (t = QueueFull)); [apply keeps_ret|]. apply keeps_bind; [|intros; apply keeps_ret]. apply keeps_modify.
  intros s Hs. apply good_touch. set (s1 := if bool_decide _ then _ else s).
  assert (H1 : accounts s1) by (unfold s1; destruct (bool_decide _); [by apply good_finishResultWaiter|done]). clearbody s1.
  unfold update_request. destruct (map_get id (requests (wrk s1))) as [q|] eqn:Hq; [|done].
  set (q' := with_partial _ q). destruct H1. split; try done; cbn.
  - by apply map_wf_set.
  - intros j v. rewrite map_get_set. case_decide; [intros [= <-]; subst; by eapply g_seen0|apply g_seen0].
  - intros p. rewrite map_sum_set, Hq, g_flight0. change (in_flight p q') with (in_flight p q). lia.
  - intros m. rewrite map_sum_set, Hq, g_slots0. change (holds_slot m q') with (holds_slot m q). lia.
  - intros j v. rewrite map_get_set. case_decide; [intros [= <-]; subst|apply g_slot0].
    change (terminalReserved q') with (terminalReserved q). by rewrite (g_slot0 _ _ Hq).
  - intros j. destruct (g_copies0 j) as (H1 & H2 & H3 & H4). split_and!; [done|done|done|]. intros v. rewrite map_get_set.
    case_decide; [intros [= <-]; subst|apply H4]. change (done_fast q') with (done_fast q). by apply H4.
  - by intros j ?%elem_of_nil.
Qed.

Lemma keeps_partial now link_of n x frame payload : keeps (processFastPartial cfg now link_of n x frame payload).
Proof.
  apply keeps_bind; [apply keeps_find|]. intros [?|id]; [apply keeps_ret|]. apply keeps_bind; [apply keeps_get|]. intros s.
  destruct (map_get id _) as [r|]; [|apply keeps_ret]. destruct (terminalRequestError r); [apply keeps_ret|].
  destruct (negb _); [apply keeps_ret|]. destruct (is_integer _); [|apply keeps_ret]. destruct (bool_decide _); [apply keeps_ret|].
  apply keeps_take_partial.
Qed.

(** A request and its identifier enter together. *)
Lemma dispatch_enters e now id env r s s1 s2 u :
  good e zero zero s → admitDirectNeedId cfg now id env s = (s1, Ok u) → markMatchedRequest id r s1 = (s2, Ok tt) →
  q_status r = Matched → terminalReserved r = bool_decide (q_mode r = Fast) →
  good (λ n, e n - holds_slot n r)%Z zero zero s2.
Proof.
  intros Hg. unfold admitDirectNeedId. destruct (_ || _) eqn:Hdup; [intros [=]|].
  destruct (bool_decide (maxSeenNeedIds cfg ≤ _)%Z); [intros [=]|].
  apply orb_false_iff in Hdup as [_ Hid%bool_decide_eq_false]. destruct (match env with Some _ => _ | None => _ end); [|intros [=] ].
  intros [= <- _] Hmark Hst Hflag. unfold markMatchedRequest in Hmark. destruct (map_has _ _); [done|]. injection Hmark as <-.
  apply (good_new e zero zero s _ id r); try done. apply not_elem_of_nil.
Qed.

Lemma admit_keeps e now id env s s1 err :
  good e zero zero s → admitDirectNeedId cfg now id env s = (s1, Throw err) → good e zero zero s1.
Proof.
  intros Hg. unfold admitDirectNeedId. destruct (_ || _); [by intros [= <- _]|]. destruct (bool_decide _); [by intros [= <- _]|].
  destruct (match env with Some _ => _ | None => _ end); [done|]. by intros [= <- _].
Qed.

Lemma mark_after_admit now id env r s s1 u :
  admitDirectNeedId cfg now id env s = (s1, Ok u) → ∃ s2, markMatchedRequest id r s1 = (s2, Ok tt).
Proof.
  unfold admitDirectNeedId. destruct (map_has id (requests (wrk s))) eqn:Hhas; [done|]. cbn [orb]. destruct (bool_decide _); [done|].
  destruct (bool_decide _); [done|]. destruct (match env with Some _ => _ | None => _ end); [|done]. intros [= <- _].
  unfold markMatchedRequest. cbn. rewrite Hhas. eauto.
Qed.

Lemma keeps_dispatch now link_of res n id c waitMs frame payload o :
  keeps (dispatch_fast_need cfg now link_of res n id c waitMs frame payload o).
Proof.
  unfold dispatch_fast_need. apply keeps_bind; [apply keeps_modify; intros; by apply good_sweep|]. intros _ s Hs.
  unfold mbind at 1, M_bind at 1. unfold run_state at 1. destruct (reserveFastTerminal cfg n s) as [s1 []] eqn:Hr; cbn [negb].
  2: { assert (s1 = s) as -> by (unfold reserveFastTerminal in Hr; destruct (bool_decide _); by injection Hr as <-).
       by apply (accounts_view s). }
  apply (good_reserve zero zero zero n s s1 Hs) in Hr; [|done].
  pose proof (good_pruneCompleted _ _ _ _ Hr) as Hp. unfold mbind at 1, M_bind at 1. unfold catch_with at 1.
  unfold mbind at 1, M_bind at 1. destruct (pruneCompleted cfg s1) as [s2 [[]|e] ]; cbn [fst] in Hp.
  2: { cbn. apply (accounts_view (release_slot n s2)); [done|]. eapply good_ext; [| | |apply (good_release_slot _ _ _ n s2 Hp)]; try done.
       - intros m. unfold plus, zero. lia.
       - unfold plus, zero. by rewrite bool_decide_true. }
  destruct (admitDirectNeedId cfg now id None s2) as [s3 [u|e] ] eqn:Hadm.
  2: { pose proof (admit_keeps _ _ _ _ _ _ _ Hp Hadm) as H3. cbn. apply (accounts_view (release_slot n s3)); [done|].
       eapply good_ext; [| | |apply (good_release_slot _ _ _ n s3 H3)]; try done.
       - intros m. unfold plus, zero. lia.
       - unfold plus, zero. by rewrite bool_decide_true. }
  set (r := new_request n (offer_from o) c now Fast). destruct (mark_after_admit now id None r _ _ _ Hadm) as [s4 Hmark].
  pose proof (dispatch_enters _ now id None r _ _ _ _ Hp Hadm Hmark eq_refl eq_refl) as H4.
  assert (H5 : accounts s4).
  { eapply good_ext; [| | |exact H4]; [|done..]. intros m.
    unfold plus, zero, holds_slot, r, new_request. cbn [terminalReserved requester]. rewrite (bool_decide_true (Fast = Fast)) by done.
    rewrite (bool_decide_ext (n = m) (m = n)) by done. cbn [andb]. lia. }
  unfold mbind at 1, M_bind at 1. rewrite Hmark. revert s4 Hmark H4 H5. intros s4 _ _ H5.
  match goal with |- accounts (?m s4).1 => assert (Hk : keeps m); [|by apply Hk] end.
  apply keeps_bind; [|intros _; apply keeps_bind; [apply keeps_get|intros; apply keeps_ret] ]. apply keeps_modify. intros s5 Hs5.
  apply good_queueFast; [done|]. destruct (bool_decide _); [apply (accounts_view (touch now n s5)); [done|]|]; by apply good_touch.
Qed.

Lemma keeps_fast_need now link_of ties res n pk waitMs frame payload :
  keeps (fast_need cfg now link_of ties res n pk waitMs frame payload).
Proof.
  apply keeps_bind; [apply keeps_lift|]. intros [why|why]; [apply keeps_ret|]. apply keeps_bind; [apply keeps_get|]. intros s. cbv zeta.
  destruct (_ || _); [apply keeps_ret|]. destruct (payload_capability payload) as [| | | | |c| |]; try apply keeps_ret.
  destruct (negb _); [apply keeps_ret|]. apply keeps_bind; [apply keeps_matching|]. intros [|o l]; [apply keeps_ret|apply keeps_dispatch].
Qed.

Lemma keeps_legacy_need now link_of ties token envelope : keeps (legacy_need cfg now link_of ties token envelope).
Proof.
  unfold legacy_need. destruct (verifyEnvelope _ _); [|apply keeps_ret]. apply keeps_bind; [apply keeps_authenticate|]. intros auth.
  destruct (negb auth); [apply keeps_ret|]. cbv zeta. apply keeps_bind; [apply keeps_get|]. intros s.
  destruct (negb _); [apply keeps_ret|]. destruct (_ || _); [apply keeps_ret|]. apply keeps_bind; [apply keeps_lift|]. intros _.
  destruct (payload_capability _) as [| | | | |c| |]; try apply keeps_ret. destruct (negb _); [apply keeps_ret|].
  apply keeps_bind; [apply keeps_matching|]. intros [|o l]; [apply keeps_ret|].
  apply keeps_bind; [intros s1 H1; by apply good_pruneCompleted|]. intros [] s1 Hs1.
  set (id := str_id (str_of (oprop envelope "id"))). set (r := new_request _ _ _ _ _).
  unfold mbind at 1, M_bind at 1. unfold catch_with at 1. destruct (admitDirectNeedId cfg now id (Some envelope) s1) as [s2 [u|e] ] eqn:Hadm.
  2: { pose proof (admit_keeps _ _ _ _ _ _ _ Hs1 Hadm) as H2. cbn. by apply (accounts_view s2). }
  destruct (mark_after_admit now id (Some envelope) r _ _ _ Hadm) as [s3 Hmark].
  pose proof (dispatch_enters _ now id _ r _ _ _ _ Hs1 Hadm Hmark eq_refl eq_refl) as H3.
  assert (H4 : accounts s3) by (eapply good_ext; [| | |exact H3]; done).
  unfold mbind at 1, M_bind at 1. rewrite Hmark.
  match goal with |- accounts (?m s3).1 => assert (Hk : keeps m); [|by apply Hk] end.
  apply keeps_bind; [|intros _; apply keeps_bind; [apply keeps_get|intros; apply keeps_ret] ]. apply keeps_modify. intros s5 Hs5.
  by apply good_touch, good_queue.
Qed.

Lemma good_cancel now link_of target from envelope reason s :
  accounts s → accounts (cancel_need cfg now link_of target from envelope reason s).1.
Proof.
  intros Hs. unfold cancel_need. cbv zeta. set (id := str_id target). set (e := RevokeEvent target envelope from).
  assert (Htold : ∀ s1 r, accounts s1 → accounts (touch now from (queueCancellation cfg now link_of r e s1).1)).
  { intros s1 r H1. by apply good_touch, good_queueCancellation. }
  pose proof (good_expire now id s Hs) as H1. destruct (map_get id _) as [r|] eqn:Hget; [|done]. destruct (negb _); [done|].
  destruct (q_status r) eqn:Hst; [|done| |done].
  - set (s1 := expireFastRequest cfg now id s) in *. cbv zeta.
    set (s2 := (finishResultWaiter id _ _).1).
    assert (H2 : accounts s2).
    { apply good_finishResultWaiter; [done|].
      pose proof (good_settle zero zero zero id Cancelled (ended now None (Some reason)) s1 _ r H1 (not_elem_of_nil _) Hget Hst ltac:(done) ltac:(done)
        eq_refl eq_refl eq_refl eq_refl eq_refl eq_refl) as Hset. rewrite (bool_decide_false (Cancelled = Completed)), andb_false_r in Hset by done.
      eapply good_weaken; [|exact Hset]. intros n. destruct (bool_decide _); [apply plus_ge|done]. }
    specialize (Htold s2 r H2). by destruct (queueCancellation cfg now link_of r e s2).
  - specialize (Htold (expireFastRequest cfg now id s) r H1). by destruct (queueCancellation cfg now link_of r e _).
Qed.

Lemma keeps_revoke now link_of token envelope : keeps (revoke cfg now link_of token envelope).
Proof.
  unfold revoke. destruct (verifyEnvelope _ _); [|apply keeps_ret]. apply keeps_bind; [apply keeps_authenticate|]. intros auth.
  destruct (negb auth); [apply keeps_ret|]. destruct (read_revocation envelope) as [?|v]; [apply keeps_ret|]. apply keeps_run. intros s Hs.
  unfold revoke_target. cbv zeta. destruct (_ && _); [done|]. destruct (_ || _).
  - destruct (map_has _ _); [by apply good_cancel|done].
  - destruct (map_get _ _); [|done]. destruct (negb _); [done|]. cbn [fst]. apply good_touch. by apply (accounts_view s).
Qed.

Lemma good_status now token requestId s : accounts s → accounts (request_status cfg now token requestId s).1.
Proof.
  intros Hs. unfold request_status. cbv zeta. set (id := str_id requestId). pose proof (view_authenticated now token s) as Hv.
  destruct (authenticatedNodeId now token s) as [s1 n]. cbn [fst] in Hv. assert (H1 : accounts s1) by (by apply (accounts_view s)).
  destruct n as [n|]; [|done]. destruct (map_get id (requests (wrk s1))); [|done]. destruct (negb _); [done|]. destruct (negb _); [done|].
  cbn [fst]. by apply good_touch, good_expire.
Qed.

(** Taking a queue of final results. *)
Lemma good_take e x y n q s :
  (∀ j, results j q ≤ results j (queue_of (fastTerminalEvents (box s)) n))%Z →
  length q ≤ length (queue_of (fastTerminalEvents (box s)) n) → good e x y s →
  good e (λ j, x j + (results j (queue_of (fastTerminalEvents (box s)) n) - results j q))%Z y
    (set_terminal (map_set n q (fastTerminalEvents (box s))) s).
Proof.
  intros Hq Hlen []. split; try done; cbn.
  - by apply map_wf_set.
  - intros m. rewrite queue_of_set. specialize (g_room0 m). case_decide; [subst; lia|done].
  - intros j. destruct (g_copies0 j) as (H1 & H2 & H3 & H4).
    assert (E : (copies j (set_terminal (map_set n q (fastTerminalEvents (box s))) s) =
      copies j s + results j q - results j (queue_of (fastTerminalEvents (box s)) n))%Z).
    { unfold copies. cbn. rewrite results_set. lia. }
    rewrite E. specialize (Hq j). split_and!; [lia|lia|intros Hn; specialize (H3 Hn); lia|]. intros r Hr. specialize (H4 r Hr). lia.
Qed.

Lemma good_fast_poll now token n waitMs res s : accounts s → accounts (fast_poll now token n waitMs res s).1.
Proof.
  intros Hs. unfold fast_poll. pose proof (view_authenticated now token s) as Hv.
  destruct (authenticatedNodeId now token s) as [s1 auth]. cbn [fst] in Hv. assert (H1 : accounts s1) by (by apply (accounts_view s)).
  destruct (_ || _); [done|]. cbv zeta. apply (good_touch _ _ _ now n) in H1. set (s2 := touch now n s1) in *. clearbody s2.
  destruct (_ || _).
  - cbn [fst]. apply good_emit; [|done]. apply good_set_fast.
    { intros m. rewrite queue_of_set. case_decide; [by intros v ?%elem_of_nil|]. apply H1. }
    pose proof (good_take zero zero zero n [] s2 (λ j, results_nonneg j _) ltac:(cbn; lia) H1) as Ht.
    eapply good_ext; [| | |exact Ht]; [done| |done]. intros j. cbn. rewrite results_app, (results_plain j (queue_of (fastEvents (box s2)) n)); [lia|apply H1].
  - destruct (bool_decide _); [done|]. cbn [fst]. destruct (map_get n (fastWaiters (box s2))) as [old|].
    + apply (accounts_view (emit (Responded old (answer_events [])) s2)); [done|]. by apply good_emit_plain.
    + by apply (accounts_view s2).
Qed.

Lemma good_legacy_poll now token n waitMs res s : accounts s → accounts (legacy_poll now token n waitMs res s).1.
Proof.
  intros Hs. unfold legacy_poll. pose proof (view_authenticated now token s) as Hv.
  destruct (authenticatedNodeId now token s) as [s1 auth]. cbn [fst] in Hv. assert (H1 : accounts s1) by (by apply (accounts_view s)).
  destruct (_ || _); [done|]. cbv zeta. destruct (bool_decide _).
  - cbn [fst]. apply good_emit_plain; [intros j; apply results_plain, H1|]. apply good_touch, good_set_events; [|done].
    intros m. rewrite queue_of_set. case_decide; [by intros v ?%elem_of_nil|]. apply H1.
  - destruct (bool_decide _); [|by apply good_touch]. cbn [fst].
    destruct (map_get n (legacyWaiters (box s1))) as [old|].
    + apply (accounts_view (emit (Responded old (answer_events [])) s1)); [done|]. by apply good_emit_plain.
    + by apply (accounts_view s1).
Qed.

Lemma view_drop_held h res s : view (drop_held h res s) = view s.
Proof. destruct h; cbn; by destruct (bool_decide _). Qed.

Lemma good_held_timeout now h res s : accounts s → accounts (held_timeout now h res s).
Proof.
  intros Hs. unfold held_timeout. destruct (negb _); [done|]. cbv zeta.
  assert (H1 : accounts (drop_held h res s)) by (by apply (accounts_view s); [apply view_drop_held|]).
  destruct h; apply good_emit_plain; try done; by apply good_touch.
Qed.

(** Emptying queues into a socket. *)
Lemma view_emits os s :
  view (emit_all os s) = (requests (wrk s), seenNeedIds (wrk s), inFlightByProvider (wrk s), fastTerminalEvents (box s),
    fastTerminalReservations (box s), fastEvents (box s), events (box s), out (box s) ++ os).
Proof.
  revert s. induction os as [|o os IH]; intros s; [unfold view; cbn; by rewrite app_nil_r|]. cbn. change (fold_left (λ s o, emit o s) os (emit o s))
    with (emit_all os (emit o s)). rewrite IH. cbn. by rewrite <- app_assoc.
Qed.

Lemma drain_ok now n q room s s' rest room' full :
  drain now n q room s = (s', (rest, room', full)) →
  ∃ taken, q = taken ++ rest ∧ view s' = view (emit_all (ToSocket n <$> taken) s).
Proof.
  revert room s. induction q as [|e q IH]; intros room s; cbn [drain].
  - destruct room; intros [= <- <- <- <-]; by exists [].
  - destruct room as [|room]; [intros [= <- <- <- <-]; by exists []|]. intros (taken & -> & Hv)%IH. exists (e :: taken).
    split; [done|]. rewrite Hv, !view_emits. pose proof (view_touch now n (emit (ToSocket n e) s)) as Ht. unfold view in Ht.
    injection Ht as E1 E2 E3 E4 E5 E6 E7 E8. rewrite E1, E2, E3, E4, E5, E6, E7, E8. cbn. by rewrite <- app_assoc.
Qed.

Lemma sent_results_sockets j n es : sent_results j (ToSocket n <$> es) = results j es.
Proof. induction es as [|e es IH]; cbn; [done|]. by rewrite IH. Qed.

Lemma good_emits e x y os s :
  nonneg x → good e (λ j, x j + sent_results j os)%Z y s → good e x y (emit_all os s).
Proof.
  intros Hx. revert s. pose proof sent_results_nonneg as Hsent.
  induction os as [|o os IH]; intros s Hg; cbn.
  - eapply good_ext; [| | |exact Hg]; [done| |done]. intros j. cbn. lia.
  - apply IH. apply good_emit; [|intros j; specialize (Hx j); specialize (Hsent j os); lia].
    eapply good_ext; [| | |exact Hg]; [done| |done]. intros j. cbn. lia.
Qed.

Lemma results_drop_le j taken rest : (results j rest ≤ results j (taken ++ rest))%Z.
Proof. rewrite results_app. pose proof (results_nonneg j taken). lia. Qed.

Lemma plain_suffix taken rest : plain (taken ++ rest) → plain taken ∧ plain rest.
Proof. intros Hp. split; intros v Hv; apply Hp, elem_of_app; auto. Qed.

Lemma skip_or_drain now n q (skip : bool) room s s' rest room' full :
  (if skip then (s, (q, room, skip)) else drain now n q room s) = (s', (rest, room', full)) →
  ∃ taken, q = taken ++ rest ∧ view s' = view (emit_all (ToSocket n <$> taken) s).
Proof. destruct skip; [intros [= <- <- <- <-]; by exists []|apply drain_ok]. Qed.

Lemma good_socket_connect now n room s : accounts s → accounts (socket_connect now n room s).
Proof.
  intros Hs. unfold socket_connect. cbv zeta. set (s0 := touch now n _).
  assert (Hv0 : view s0 = view s) by (unfold s0; by rewrite view_touch).
  assert (G0 : accounts s0) by (by apply (accounts_view s)). clearbody s0. clear Hv0 Hs s.
  destruct (drain now n (queue_of (events (box s0)) n) room s0) as [s1 [ [legacy room1] full1] ] eqn:D1.
  destruct (if full1 then _ else _) as [s2 [ [fast room2] full2] ] eqn:D2.
  destruct (if full2 then _ else _) as [s3 [ [terminal room3] full3] ] eqn:D3.
  apply drain_ok in D1 as (t1 & E1 & V1). apply skip_or_drain in D2 as (t2 & E2 & V2). apply skip_or_drain in D3 as (t3 & E3 & V3).
  rewrite view_emits in V1, V2, V3. unfold view in V1, V2, V3. injection V1 as A1 A2 A3 A4 A5 A6 A7 A8.
  injection V2 as B1 B2 B3 B4 B5 B6 B7 B8. injection V3 as C1 C2 C3 C4 C5 C6 C7 C8. rewrite A6 in E2. rewrite B4, A4 in E3.
  destruct (plain_suffix t1 legacy) as [P1 P1']; [rewrite <- E1; apply G0|].
  destruct (plain_suffix t2 fast) as [P2 P2']; [rewrite <- E2; apply G0|].
  set (s4 := set_terminal (map_set n terminal (fastTerminalEvents (box s0)))
               (set_fast (map_set n fast (fastEvents (box s0))) (set_events (map_set n legacy (events (box s0))) s0))).
  set (os := (ToSocket n <$> t1) ++ (ToSocket n <$> t2) ++ (ToSocket n <$> t3)).
  assert (H4 : accounts (emit_all os s4)).
  { apply good_emits; [done|]. unfold os. unfold s4.
    assert (H3 : accounts (set_fast (map_set n fast (fastEvents (box s0))) (set_events (map_set n legacy (events (box s0))) s0))).
    { apply (good_set_fast zero zero zero (map_set n fast (fastEvents (box s0)))).
      - intros m. rewrite queue_of_set. case_decide; [done|]. apply G0.
      - apply good_set_events; [|done]. intros m. rewrite queue_of_set. case_decide; [done|]. apply G0. }
    set (s5 := set_fast _ _) in *. assert (E5 : queue_of (fastTerminalEvents (box s5)) n = t3 ++ terminal) by done.
    assert (Ht : good zero (λ j, zero j + (results j (t3 ++ terminal) - results j terminal))%Z zero
      (set_terminal (map_set n terminal (fastTerminalEvents (box s5))) s5)).
    { rewrite <- E5. apply good_take; [intros j; rewrite E5; apply results_drop_le|rewrite E5, length_app; lia|done]. }
    eapply good_ext; [| | |exact Ht]; [done| |done]. intros j. cbn. rewrite !sent_results_app, !sent_results_sockets, results_app.
    rewrite (results_plain j t1), (results_plain j t2) by done. lia. }
  assert (H5 : accounts (set_terminal (map_set n terminal (fastTerminalEvents (box s3))) (set_fast (map_set n fast (fastEvents (box s3)))
      (set_events (map_set n legacy (events (box s3))) s3)))).
  { apply (accounts_view (emit_all os s4)); [|done]. rewrite view_emits. unfold view, os, s4. cbn.
    rewrite C1, C2, C3, C4, C5, C6, C7, C8, B1, B2, B3, B4, B5, B6, B7, B8, A1, A2, A3, A4, A5, A6, A7, A8. by rewrite <- !app_assoc. }
  destruct full3; [|done]. by apply (accounts_view _ _ (view_close_socket n _)).
Qed.

Lemma good_socket_close now n s : accounts s → accounts (socket_close now n s).
Proof. intros Hs. unfold socket_close. destruct (connectedSocket s n); [|done]. by apply (accounts_view s). Qed.

Lemma good_keep_terminal n s :
  accounts s → accounts (set_terminal (keep_queue n (fastTerminalEvents (box s))) s).
Proof.
  intros Hs. unfold keep_queue. eapply good_ext; [| | |apply (good_take zero zero zero n _ s (λ j, Z.le_refl _) (le_n _) Hs)]; try done.
  intros j. unfold zero. lia.
Qed.

Lemma plain_keep n m : (∀ k, plain (queue_of m k)) → ∀ k, plain (queue_of (keep_queue n m) k).
Proof. intros Hm k. unfold keep_queue. rewrite queue_of_set. by case_decide. Qed.

Lemma good_open_session now token n pk s : accounts s → accounts (open_session cfg now token n pk s).
Proof.
  intros Hs. unfold open_session. cbv zeta. set (s1 := match map_get n (nodes (reg s)) with Some _ => _ | None => s end).
  assert (H1 : accounts s1).
  { unfold s1. destruct (map_get n (nodes (reg s))) as [old|]; [|done]. destruct (nonempty_str _); [|done]. by apply (accounts_view s). }
  clearbody s1. set (s2 := set_sessions _ _). assert (H2 : accounts s2) by (by apply (accounts_view s1)). clearbody s2.
  set (s3 := set_events _ s2). assert (H3 : accounts s3) by (apply good_set_events; [apply plain_keep; intros; apply H2|done]). clearbody s3.
  set (s4 := set_fast _ s3). assert (H4 : accounts s4) by (apply good_set_fast; [apply plain_keep; intros; apply H3|done]). clearbody s4.
  eapply accounts_view; [|by apply good_keep_terminal]. done.
Qed.

Lemma good_register now token envelope s : accounts s → accounts (register cfg now token envelope s).1.
Proof.
  intros Hs. unfold register. destruct (verifyEnvelope _ _); [|done]. cbv zeta.
  destruct (negotiate_registration envelope) as [ []|]; try done. destruct (negb _); [done|].
  assert (H1 : accounts (cleanupRegistrationReplayCache now s)) by (by apply (accounts_view s)).
  set (s1 := cleanupRegistrationReplayCache now s) in *. clearbody s1.
  destruct (negb _); [done|]. destruct (map_has _ _); [done|]. set (s2 := set_used _ s1).
  assert (H2 : accounts s2) by (by apply (accounts_view s1)). clearbody s2.
  destruct (_ && _); [done|]. by apply good_open_session.
Qed.

Lemma keeps_post_offer now token envelope : keeps (post_offer cfg authority now token envelope).
Proof.
  unfold post_offer. destruct (verifyEnvelope _ _); [|apply keeps_ret]. apply keeps_bind; [apply keeps_authenticate|]. intros auth.
  destruct (negb auth); [apply keeps_ret|]. cbv zeta. destruct (payload_capability _) as [| | | | |c| |]; try apply keeps_ret.
  apply keeps_bind; [apply keeps_get|]. intros s. destruct (negb _); [apply keeps_ret|]. destruct (map_has _ _); [apply keeps_ret|].
  destruct (bool_decide _); [apply keeps_ret|]. apply keeps_bind; [apply keeps_lift|]. intros p.
  apply keeps_bind; [|intros; apply keeps_ret]. apply keeps_modify. intros s1 H1. apply good_touch. by apply (accounts_view s1).
Qed.

(** ** Results together *)

Lemma expire_mode now id s : modes s (expireFastRequest cfg now id s).
Proof.
  intros j r. unfold expireFastRequest. destruct (map_get id (requests (wrk s))) as [q|] eqn:Hget; [|eauto].
  destruct (overdue cfg now q) eqn:Ho; [|eauto]. cbn [negb]. cbv zeta.
  unfold overdue in Ho. destruct (bool_decide (q_mode q = Fast)); [|done]. destruct (bool_decide (q_status q = Matched)) eqn:Hst; [|done].
  apply bool_decide_eq_true in Hst. set (s1 := update_request id _ _).
  pose proof (end_request id Expired (ended now (Some "request_expired") None) s s1 q Hget Hst ltac:(done) eq_refl) as Hv.
  unfold view in Hv. injection Hv as E1 _ _ _ _ _ _ _.
  assert (Hr : requests (wrk (finishResultWaiter id (refuse_with 504 "request_expired" [("requestId", raw id)]) (releaseFastTerminal id s1)).1)
    = requests (wrk (releaseFastTerminal id s1))) by (unfold finishResultWaiter; by destruct (map_get id (resultWaiters _))).
  rewrite Hr. set (q1 := ended _ _ _ _) in E1.
  assert (Hget1 : map_get id (requests (wrk s1)) = Some q1) by (rewrite E1, map_get_set; by rewrite decide_True).
  unfold releaseFastTerminal. rewrite Hget1. destruct (terminalReserved q1).
  - cbn. unfold update_request. rewrite Hget1. cbn. rewrite E1, map_set_set, map_get_set. destruct (decide (j = id)) as [->|]; [|eauto].
    intros [= <-]. eauto.
  - rewrite E1, map_get_set. destruct (decide (j = id)) as [->|]; [|eauto]. intros [= <-]. eauto.
Qed.

(** The request of a result. *)
Definition target_of (c : incoming) : rid := frame_id (c_exchange c) (c_frame c).

Lemma find_request_cases now type n x frame payload s :
  (∃ st code, find_request cfg now type n x frame payload s = (s, Ok (inl (refuse st code)))) ∨
  (∃ e, find_request cfg now type n x frame payload s = (s, Throw e)) ∨
  find_request cfg now type n x frame payload s = (expireFastRequest cfg now (frame_id x frame) s, Ok (inr (frame_id x frame))).
Proof.
  unfold find_request, mbind, M_bind, get_state, lift_result. destruct (map_get n (nodes (reg s))) as [nd|]; [|left; by eexists _, _].
  destruct (negb _); [left; by eexists _, _|]. destruct (verifyCompactFrame _ _ _ _) as [ [why|t]|e]; [left; by eexists _, _| |right; left; by eexists].
  cbv zeta. destruct (map_get (frame_id x frame) (requests (wrk s))); [|left; by eexists _, _].
  destruct (negb _); [left; by eexists _, _|]. by right; right.
Qed.

Lemma find_result_ok now failed c s :
  (∀ e, fair (failed e)) → accounts s →
  accounts (find_result cfg now failed c s).1 ∧ modes s (find_result cfg now failed c s).1 ∧
  (∀ rep, (find_result cfg now failed c s).2 = inl (Some rep) → fair rep) ∧
  ∀ b, (find_result cfg now failed c s).2 = inr b → b.2 = target_of c ∧ True.
Proof.
  intros Hfail Hs. unfold find_result.
  destruct (find_request_cases now "RESULT" (c_node c) (c_exchange c) (c_frame c) (c_payload c) s)
    as [(st & code & ->)|[ [e ->]| ->] ]; cbn [fst snd]; split_and!; try done.
  - intros rep [= <-]. apply fair_refuse.
  - intros rep [= <-]. apply Hfail.
  - by apply good_expire.
  - apply expire_mode.
  - by intros b [= <-].
Qed.

Lemma socket_result_ok now c s :
  accounts s →
  accounts (socket_result cfg now c s).1 ∧ modes s (socket_result cfg now c s).1 ∧
  (∀ rep, (socket_result cfg now c s).2 = inl (Some rep) → fair rep) ∧
  ∀ b, (socket_result cfg now c s).2 = inr b → b.2 = target_of c ∧ True.
Proof.
  intros Hs. unfold socket_result. destruct (negb _); [by split_and!|].
  set (failed := λ e : jerror, _). assert (Hfail : ∀ e, fair (failed e)) by (intros e; apply fair_refuse).
  destruct (find_result_ok now failed c (touch now (c_node c) s) Hfail ltac:(by apply good_touch)) as (H1 & H2 & H3).
  split_and!; [done| |apply H3..]. etrans; [apply modes_view, view_touch|done].
Qed.

(** What reads results: one of the two. *)
Definition receiver (now : Z) (receive : incoming → relay → relay * job (incoming * rid)) : Prop :=
  receive = find_result cfg now caught ∨ receive = socket_result cfg now.

Lemma receive_ok now receive cs s (R := in_turn receive (map inr cs) s) :
  receiver now receive → accounts s →
  accounts R.1 ∧ modes s R.1 ∧ fair_jobs R.2 ∧ sublist (going snd R.2) (map target_of cs).
Proof.
  intros Hrec Hs.
  destruct (in_turn_step target_of snd accounts modes (λ _, True) receive (map inr cs) s) as (H1 & H2 & H3 & H4 & _); try apply _.
  - destruct Hrec as [->| ->]; intros c s1 H1; [by apply find_result_ok|by apply socket_result_ok].
  - done.
  - intros rep Hin. by apply list_elem_of_fmap in Hin as (? & ? & _).
  - split_and!; [done..|]. replace (map target_of cs) with (going target_of (map inr cs)); [done|]. clear.
    induction cs as [|c cs IH]; [done|]. cbn [map]. by rewrite going_cons, IH.
Qed.

Lemma check_ok now js s (R := in_turn (check_result cfg now) js s) :
  fair_jobs js →
  view R.1 = view s ∧ fair_jobs R.2 ∧ sublist (going snd R.2) (going snd js) ∧
  ∀ b, inr b ∈ R.2 → ∃ r, map_get b.2 (requests (wrk s)) = Some r ∧ q_status r = Matched.
Proof.
  intros Hfair. destruct (in_turn_step snd snd (λ s1, view s1 = view s) (λ _ _, True)
    (λ b, ∃ r, map_get b.2 (requests (wrk s)) = Some r ∧ q_status r = Matched) (check_result cfg now) js s) as (H1 & _ & H2); try done.
  intros [c id] s1 Hv. pose proof Hv as [= E _ _ _ _ _ _ _]. unfold check_result. cbn [fst snd]. rewrite E.
  destruct (map_get id (requests (wrk s))) as [r|] eqn:Hr; [|split_and!; [done|done|by intros ? [= <-]|done] ].
  destruct (terminalRequestError r) eqn:Ht; [split_and!; [done|done|by intros ? [= <-]|done]|]. cbn [fst snd].
  split_and!; [by rewrite view_note|done|done|]. intros b [= <-]. split; [done|]. exists r. split; [done|].
  unfold terminalRequestError in Ht. by destruct (q_status r).
Qed.

Lemma commit_ok now js s L (R := in_turn (commit_result now) js s) :
  pending L zero (owed L) zero s → fair_jobs js → NoDup (going snd js) →
  (∀ id, id ∈ going snd js → id ∉ L ∧ ∃ r, map_get id (requests (wrk s)) = Some r ∧ q_status r = Matched ∧ q_mode r = Fast) →
  pending (rev (going snd js) ++ L) zero (owed (rev (going snd js) ++ L)) zero R.1 ∧ fair_jobs R.2 ∧
  going (λ b, b.1.2) R.2 = going snd js.
Proof.
  unfold R. clear R. revert L s. induction js as [|[o|[c id] ] js IH]; intros L s Hp Hfair Hnd Hopen;
    rewrite ?in_turn_nil, ?in_turn_ended, ?in_turn_going; cbn [fst snd].
  - split_and!; [done|apply fair_nil|done].
  - apply fair_uncons in Hfair as [Ho Hfair]. rewrite !going_ended in *. destruct (IH L s Hp Hfair Hnd Hopen) as (? & ? & ?).
    split_and!; [done| |done].
    apply fair_cons; [|done]. intros rep [= ->]. by apply Ho.
  - apply fair_uncons in Hfair as [_ Hfair]. rewrite going_cons in *. cbn [snd] in *. apply NoDup_cons in Hnd as [Hid Hnd].
    destruct (Hopen id) as (HL & r & Hget & Hst & Hm); [left|].
    pose proof (view_complete now id (c_node c) s) as Hv.
    assert (E : commit_result now (c, id) s = ((completeRequest now id (c_node c) s).1, inr (c, id, (completeRequest now id (c_node c) s).2)))
      by (unfold commit_result; cbn [fst snd]; by destruct (completeRequest now id (c_node c) s)).
    rewrite E. clear E. destruct (completeRequest now id (c_node c) s) as [s1 t]. cbn [fst snd] in *.
    pose proof (pending_commit L zero (owed L) zero id (ended now None None) s s1 r Hp HL Hget Hst Hm eq_refl eq_refl eq_refl eq_refl eq_refl Hv) as H1.
    assert (H2 : pending (id :: L) zero (owed (id :: L)) zero s1).
    { eapply good_ext; [| | |exact H1]; [done| |done]. intros j. unfold plus, owed. destruct (decide (j = id)) as [->|Hj].
      - rewrite (bool_decide_false (id ∈ L)), !bool_decide_true by (done || left). done.
      - rewrite (bool_decide_false (j = id)), Z.add_0_r by done. f_equal. apply bool_decide_ext. rewrite elem_of_cons. naive_solver. }
    pose proof (end_request id Completed (ended now None None) s s1 r Hget Hst ltac:(done) Hv) as E. injection E as E _ _ _ _ _ _ _.
    destruct (IH (id :: L) s1 H2 Hfair Hnd) as (G1 & G2 & G3).
    { intros j Hj. destruct (Hopen j) as (HjL & q & Hq & Hqs); [by right|]. split.
      - rewrite elem_of_cons. intros [->|?]; done.
      - exists q. rewrite E, map_get_set, decide_False by (by intros ->). done. }
    split_and!.
    + cbn [rev]. by rewrite <- app_assoc.
    + by apply fair_cons.
    + by rewrite going_cons, G3.
Qed.

(** A result always finds its place. *)
Lemma deliver_result_ok now link_of c id t s L :
  pending (id :: L) zero (owed (id :: L)) zero s → id ∉ L →
  pending L zero (owed L) zero (deliver_result cfg now link_of (c, id, t) s).1 ∧
  ∃ rep, (deliver_result cfg now link_of (c, id, t) s).2 = inl (Some rep) ∧ fair rep.
Proof.
  intros Hp HL. destruct (pending_release L zero (owed (id :: L)) zero id s Hp HL) as (r & Hget & Hrel); [done|].
  unfold deliver_result. rewrite Hget. cbv zeta. set (ev := ResultEvent id (c_frame c) (c_payload c) (c_node c) t).
  assert (Hn : nonneg (owed L)) by (intros j; unfold owed; by destruct (bool_decide _)).
  assert (Hs : pending L zero (plus id (owed L)) (plus (requester r) zero) (releaseFastTerminal id s)).
  { eapply good_ext; [| | |exact Hrel]; [done| |done]. intros j. unfold plus, owed. destruct (decide (j = id)) as [->|Hj].
    - rewrite (bool_decide_false (id ∈ L)), !bool_decide_true by (done || left). done.
    - rewrite (bool_decide_false (j = id)), Z.add_0_r by done. f_equal. apply bool_decide_ext. rewrite elem_of_cons. naive_solver. }
  set (s1 := releaseFastTerminal id s) in *. clearbody s1. clear Hrel Hp.
  assert (Hdone : ∃ rep, inl (Some (answer [("requestId", raw id)])) = inl (Some rep) :> job Empty_set ∧ fair rep)
    by (eexists; split; [done|apply fair_answer]).
  assert (Hplace : ∀ s3, pending L zero (plus id (owed L)) (plus (requester r) zero) s3 →
    let '(s4, tr) := queueFastTerminal cfg now link_of (requester r) ev s3 in
    pending L zero (owed L) zero s4 ∧ tr ≠ QueueFull).
  { intros s3 H3. destruct (queueFastTerminal _ _ _ _ _ _) as [s4 tr] eqn:Hq. exact (pay_terminal (owed L) id now link_of _ ev s3 s4 tr eq_refl Hn H3 Hq). }
  destruct (bool_decide (nextPartialSequence r = 0%Z)).
  - destruct (finishResultWaiter id (answer_events [ev]) s1) as [s3 b] eqn:Hw.
    pose proof (pay_waiter zero (owed L) _ id (answer_events [ev]) ev s1 s3 b eq_refl eq_refl Hn Hs Hw) as H3. destruct b.
    + split; [|done]. eapply good_weaken; [|exact H3]. intros m. apply plus_ge.
    + specialize (Hplace s3 H3). destruct (queueFastTerminal _ _ _ _ _ _) as [s4 tr]. destruct Hplace as [? ?].
      cbn [fst snd]. by rewrite (bool_decide_false (tr = QueueFull)).
  - specialize (Hplace s1 Hs). destruct (queueFastTerminal _ _ _ _ _ _) as [s4 tr]. destruct Hplace as [? ?].
    cbn [fst snd]. by rewrite (bool_decide_false (tr = QueueFull)).
Qed.

Lemma deliver_ok now link_of js s (R := in_turn (deliver_result cfg now link_of) js s) (L := going (λ b, b.1.2) js) :
  pending L zero (owed L) zero s → fair_jobs js → NoDup L → accounts R.1 ∧ fair_jobs R.2.
Proof.
  unfold R, L. clear R L. revert s. induction js as [|[o|[ [c id] t] ] js IH]; intros s Hp Hfair Hnd;
    rewrite ?in_turn_nil, ?in_turn_ended, ?in_turn_going; cbn [fst snd].
  - split; [done|apply fair_nil].
  - apply fair_uncons in Hfair as [Ho Hfair]. rewrite going_ended in *. destruct (IH s Hp Hfair Hnd) as (? & ?). split; [done|].
    apply fair_cons; [|done]. intros rep [= ->]. by apply Ho.
  - apply fair_uncons in Hfair as [_ Hfair]. rewrite going_cons in *. cbn [fst snd] in *. apply NoDup_cons in Hnd as [Hid Hnd].
    destruct (deliver_result_ok now link_of c id t s _ Hp Hid) as (H1 & rep & H2 & H3).
    destruct (deliver_result _ _ _ _ s) as [s1 b]. cbn [fst snd] in *. subst b. destruct (IH s1 H1 Hfair Hnd) as (? & ?). split; [done|].
    apply fair_cons; [|done]. by intros ? [= <-].
Qed.

Lemma process_results_ok now link_of receive cs s (R := processFastResults cfg now link_of receive cs s) :
  receiver now receive → accounts s → NoDup (map target_of cs) →
  (∀ c r, c ∈ cs → map_get (target_of c) (requests (wrk s)) = Some r → q_mode r = Fast) →
  accounts R.1 ∧ ∀ rep, Some rep ∈ R.2 → fair rep.
Proof.
  intros Hrec Hs Hnd Hfast. unfold R, processFastResults. clear R.
  destruct (receive_ok now receive cs s Hrec Hs) as (A1 & M1 & F1 & K1). destruct (in_turn receive _ s) as [s1 found]. cbn [fst snd] in *.
  destruct (check_ok now found s1 F1) as (V2 & F2 & K2 & P2). destruct (in_turn (check_result cfg now) found s1) as [s2 checked]. cbn [fst snd] in *.
  pose proof V2 as [= E2 _ _ _ _ _ _ _].
  assert (Hsub : sublist (going snd checked) (map target_of cs)) by (by etrans).
  assert (N2 : NoDup (going snd checked)) by (eapply sublist_NoDup; [|exact Hsub]; done).
  destruct (commit_ok now checked s2 []) as (A3 & F3 & K3); [by apply (accounts_view s1)|done|done| |].
  { intros id Hid. split; [apply not_elem_of_nil|]. pose proof Hid as Hin. apply list_elem_of_omap in Hid as ([o|b] & Hb & [= <-]).
    destruct (P2 b Hb) as (r & Hr & Hst). exists r. split_and!; [by rewrite E2|done|].
    destruct (M1 _ _ Hr) as (q & Hq & <-). pose proof (sublist_subseteq _ _ Hsub _ Hin) as (c & Hc & Hcs)%list_elem_of_fmap.
    rewrite Hc in Hq. by eapply Hfast. }
  rewrite app_nil_r in A3. destruct (in_turn (commit_result now) checked s2) as [s3 committed]. cbn [fst snd] in *.
  destruct (deliver_ok now link_of committed s3) as [A4 F4]; [|done|by rewrite K3|].
  { rewrite K3. apply (pending_same (rev (going snd checked))); [intros id; by rewrite !list_elem_of_In, <- in_rev|].
    eapply good_ext; [| | |exact A3]; [done| |done]. intros id. unfold owed. f_equal. apply bool_decide_ext. by rewrite !list_elem_of_In, <- in_rev. }
  destruct (in_turn (deliver_result _ _ _) committed s3) as [s4 ended]. cbn [fst snd] in *. split; [done|].
  intros rep (j & Hj & Hin)%list_elem_of_fmap. apply F4. destruct j as [o|[] ]. cbn in Hj. by subst.
Qed.

Lemma good_answers f cs rs s :
  (∀ c rep, b_events (r_body rep) = [] → ∀ id, out_results id (f c rep) = 0%Z) → (∀ rep, Some rep ∈ rs → fair rep) →
  accounts s → accounts (emit_all (answers f cs rs) s).
Proof.
  intros Hf Hfair Hs. apply good_emits; [done|]. eapply good_ext; [| | |exact Hs]; [done| |done]. intros id. unfold zero.
  assert (E : sent_results id (answers f cs rs) = 0%Z); [|by rewrite E]. unfold answers. revert rs Hfair.
  induction cs as [|c cs IH]; intros [|r rs] Hfair; try done. cbn.
  assert (Htail : sent_results id (omap (λ '(c, r), f c <$> r) (zip cs rs)) = 0%Z) by (apply IH; intros rep Hrep; apply Hfair; by right).
  destruct r as [rep|]; [|done]. cbn. rewrite Htail, Hf; [done|]. apply Hfair. left.
Qed.

(** ** Every message keeps the accounts *)

(** Providers answer a request the way it was made, a fast one by a frame and a
    signed one by an envelope, and no two results of a request arrive in one
    read.  The relay checks neither. *)
Definition answered_as_made (msg : message) (st : server) : bool :=
  let made (m : mode) (id : rid) :=
    match map_get id (requests (wrk (relay_of st))) with Some r => bool_decide (q_mode r = m) | None => true end in
  let ids := map target_of (incoming_of (bodies st) msg) in
  bool_decide (NoDup ids) && forallb (made Fast) ids &&
  match msg with
  | LegacyResult _ envelope => match answered_id envelope with Some id => made Legacy id | None => true end
  | _ => true
  end.

Fixpoint all_answered_as_made (inputs : list input) (st : server) : bool :=
  match inputs with
  | [] => true
  | i :: inputs => answered_as_made (i_msg i) st &&
      all_answered_as_made inputs (handle cfg authority (i_now i) (i_link i) (i_msg i) st).1
  end.

Lemma answered_inv msg st :
  answered_as_made msg st = true →
  NoDup (map target_of (incoming_of (bodies st) msg)) ∧
  (∀ c r, c ∈ incoming_of (bodies st) msg → map_get (target_of c) (requests (wrk (relay_of st))) = Some r → q_mode r = Fast) ∧
  ∀ token envelope id r, msg = LegacyResult token envelope → answered_id envelope = Some id →
    map_get id (requests (wrk (relay_of st))) = Some r → q_mode r = Legacy.
Proof.
  unfold answered_as_made. rewrite !andb_true_iff, bool_decide_eq_true, forallb_forall. intros [ [Hnd Hfast] Hleg]. split_and!; [done| |].
  - intros c r Hc Hr. specialize (Hfast (target_of c)). rewrite Hr, bool_decide_eq_true in Hfast. apply Hfast. by apply in_map, list_elem_of_In.
  - intros token envelope id r -> Hid Hr. rewrite Hid, Hr in Hleg. by apply bool_decide_eq_true in Hleg.
Qed.

Lemma good_legacy_result now link_of token envelope s :
  accounts s → (∀ id r, answered_id envelope = Some id → map_get id (requests (wrk s)) = Some r → q_mode r = Legacy) →
  accounts (legacy_result cfg now link_of token envelope s).1.
Proof.
  intros Hs Hmode. unfold legacy_result. destruct (verifyEnvelope _ _); [|done]. unfold mbind at 1, M_bind at 1.
  pose proof (keeps_authenticate now token envelope s Hs) as H1.
  assert (Hw : wrk (authenticateEnvelope now token envelope s).1 = wrk s).
  { unfold authenticateEnvelope, mbind, M_bind, run_state, authenticatedNodeId. by repeat case_match; simplify_eq/=. }
  destruct (authenticateEnvelope now token envelope s) as [s1 [auth|e] ]; cbn [fst] in H1, Hw; [|done]. destruct (negb auth); [done|].
  unfold mbind at 1, M_bind at 1, get_state. destruct (answered_id envelope) as [id|] eqn:Hid; [|done].
  destruct (map_get id (requests (wrk s1))) as [r|] eqn:Hget; [|done]. destruct (negb _); [done|].
  destruct (terminalRequestError r) eqn:Ht; [done|]. unfold mbind, M_bind, run_state, modify.
  assert (Hst : q_status r = Matched) by (unfold terminalRequestError in Ht; by destruct (q_status r)).
  pose proof (legacy_result_ok now link_of id (provider r) envelope s1 r H1 Hget Hst) as Hok.
  destruct (completeRequest now id (provider r) s1) as [s2 t]. cbn [fst]. apply Hok. rewrite Hw in Hget. by eapply Hmode.
Qed.

Lemma handled_fst {A} (f : A → option reply) m s : (handled f m s).1 = (m s).1.
Proof. unfold handled. by destruct (m s) as [s1 []]. Qed.

Lemma head_of_fst now r token s : (head_of cfg now r token s).1 = (authenticatedNodeId now token s).1.
Proof. unfold head_of. destruct (authenticatedNodeId now token s) as [s1 [n|] ]; [|done]. destruct r; [by destruct (negb _)|done..]. Qed.

Lemma handle_core now link_of msg st :
  relay_of (handle cfg authority now link_of msg st).1 = (act cfg authority now link_of msg (bodies st) (relay_of st)).1.
Proof. unfold handle. by destruct (act _ _ _ _ _ _ _). Qed.

Lemma accounts_handle now link_of msg st :
  accounts (relay_of st) → answered_as_made msg st = true → accounts (relay_of (handle cfg authority now link_of msg st).1).
Proof.
  intros Hs (Hnd & Hfast & Hleg)%answered_inv. rewrite handle_core. set (open := bodies st) in *. set (s := relay_of st) in *.
  assert (Hauth : ∀ token, accounts (authenticatedNodeId now token s).1).
  { intros token. by apply (accounts_view s); [apply view_authenticated|]. }
  assert (Hres : ∀ receive f, receiver now receive →
    (∀ c rep, b_events (r_body rep) = [] → ∀ id, out_results id (f c rep) = 0%Z) →
    let '(s1, rs) := processFastResults cfg now link_of receive (incoming_of open msg) s in
    accounts (emit_all (answers f (incoming_of open msg) rs) s1)).
  { intros receive f Hrec Hf. destruct (process_results_ok now link_of receive (incoming_of open msg) s Hrec Hs Hnd Hfast) as [H1 H2].
    destruct (processFastResults _ _ _ _ _ _) as [s1 rs]. by apply good_answers. }
  destruct msg; cbn [act]; rewrite ?handled_fst; unfold with_reply; cbn [fst].
  - by apply good_register.
  - by apply keeps_post_offer.
  - pose proof (head_of_fst now r token s) as Hh. destruct (head_of _ _ _ _ _) as [s1 [?|?] ]; cbn [fst] in *; subst; apply Hauth.
  - destruct (map_get res open) as [ []|]; [rewrite handled_fst; by apply keeps_fast_need|done..].
  - destruct (map_get res open) as [ []|]; [done|rewrite handled_fst; by apply keeps_partial|done..].
  - specialize (Hres (find_result cfg now caught) (λ c, Responded (c_exchange c)) (or_introl eq_refl)).
    destruct (processFastResults _ _ _ _ _ _). apply Hres. intros c rep Hb id. cbn. by rewrite Hb.
  - specialize (Hres (socket_result cfg now) (λ c, Acked (c_node c)) (or_intror eq_refl)).
    destruct (processFastResults _ _ _ _ _ _). apply Hres. intros c rep Hb id. cbn. by rewrite Hb.
  - by apply keeps_legacy_need.
  - apply good_legacy_result; [done|]. intros id r. by apply Hleg with token.
  - by apply keeps_revoke.
  - by apply good_status.
  - by apply good_fast_poll.
  - by apply good_legacy_poll.
  - by apply good_held_timeout.
  - apply (accounts_view s); [apply view_drop_held|done].
  - specialize (Hauth token). destruct (authenticatedNodeId now token s) as [s1 auth]. destruct (_ || _); [done|]. by apply good_socket_connect.
  - by apply good_socket_close.
  - by apply good_sweep.
Qed.

Lemma accounts_started : (0 ≤ maxFastTerminalReservationsPerRequester cfg)%Z → accounts (relay_of started).
Proof.
  intros Hmax. split; try done; cbn; try apply map_wf_nil.
  - intros n. split; by intros e ?%elem_of_nil.
  - by intros id ?%elem_of_nil.
Qed.

Lemma accounts_run inputs st : accounts (relay_of st) → all_answered_as_made inputs st = true → accounts (relay_of (run cfg authority inputs st)).
Proof.
  revert st. induction inputs as [|i inputs IH]; intros st Hs; cbn [all_answered_as_made]; [done|]. intros [Hi Hr]%andb_true_iff. cbn.
  apply IH; [by apply accounts_handle|done].
Qed.

(** C15: while providers answer a request the way it was made and no two results
    of a request arrive in one read of a connection, the requests in flight by
    provider and the slots for final results by requester are exactly what the
    table of requests says, and the queued final results and the slots together
    stay within the limit. *)
Theorem relay_accounting inputs :
  (0 ≤ maxFastTerminalReservationsPerRequester cfg)%Z → all_answered_as_made inputs started = true →
  let s := relay_of (run cfg authority inputs started) in
  (∀ p, amount p (inFlightByProvider (wrk s)) = map_sum (in_flight p) (requests (wrk s))) ∧
  (∀ n, amount n (fastTerminalReservations (box s)) =
        map_sum (λ r, Z.b2z (open_fast r && bool_decide (requester r = n))) (requests (wrk s))) ∧
  (∀ n, Z.of_nat (length (queue_of (fastTerminalEvents (box s)) n)) + amount n (fastTerminalReservations (box s)) ≤
        maxFastTerminalReservationsPerRequester cfg)%Z.
Proof.
  intros Hmax Hmade s. pose proof (accounts_run inputs started (accounts_started Hmax) Hmade) as [].
  split_and!; [done| |].
  - intros n. rewrite g_slots0. unfold zero. rewrite Z.add_0_r. apply map_sum_ext. intros id r Hr. unfold holds_slot.
    rewrite (g_slot0 id r) by (by apply map_elem_get). rewrite (bool_decide_false (id ∈ [])) by apply not_elem_of_nil. by rewrite orb_false_r.
  - intros n. specialize (g_room0 n). unfold zero in g_room0. by rewrite Z.add_0_r in g_room0.
Qed.

(** C5: while providers answer a request the way it was made and no two results
    of a request arrive in one read of a connection, the final result of a fast
    request exists exactly once, handed over or queued for its requester, as
    soon as the request is completed, and not before; and the relay always has
    room for the results that arrive. *)
Theorem result_once inputs :
  (0 ≤ maxFastTerminalReservationsPerRequester cfg)%Z → all_answered_as_made inputs started = true →
  let st := run cfg authority inputs started in
  let s := relay_of st in
  (∀ id, (0 ≤ copies id s ≤ 1)%Z) ∧
  (∀ id r, map_get id (requests (wrk s)) = Some r → q_mode r = Fast → copies id s = Z.b2z (bool_decide (q_status r = Completed))) ∧
  ∀ now link_of msg receive id, answered_as_made msg st = true → receiver now receive →
    Some (refuse_with 503 "terminal_capacity_invariant" [("requestId", id)]) ∉
    (processFastResults cfg now link_of receive (incoming_of (bodies st) msg) s).2.
Proof.
  intros Hmax Hmade st s. pose proof (accounts_run inputs started (accounts_started Hmax) Hmade) as Hg. fold st s in Hg.
  split_and!.
  - intros id. destruct (g_copies _ _ _ _ _ Hg id) as (_ & Hle & _). unfold zero in Hle. rewrite Z.add_0_r in Hle. by split; [apply copies_nonneg|].
  - intros id r Hget Hm. destruct (g_copies _ _ _ _ _ Hg id) as (_ & _ & _ & Hr). specialize (Hr r Hget). unfold zero, done_fast in Hr.
    rewrite Hm in Hr. cbn [andb] in Hr. rewrite bool_decide_true in Hr by done. cbn [andb] in Hr. by rewrite Z.add_0_r in Hr.
  - intros now link_of msg receive id (Hnd & Hfast & _)%answered_inv Hrec Hin.
    destruct (process_results_ok now link_of receive _ s Hrec Hg Hnd Hfast) as [_ Hfair]. destruct (Hfair _ Hin) as [_ Hne]. by apply (Hne id).
Qed.

End accounts.

(** ** Witnesses on the concrete relay *)

#[local] Notation toy_run := (run (H := Toy.host) (H0 := toy_doubles) toy_config (Authorities None None)).
#[local] Notation toy_handle := (handle (H := Toy.host) (H0 := toy_doubles) toy_config (Authorities None None) toy_now (λ _, Accepts)).
#[local] Notation asked := (toy_setup ++ toy_fast_need "need-1" 1).
#[local] Notation answered := (toy_fast_result "need-1" 2 ++ toy_fast_need "need-2" 3).

Lemma relay_accounting_witness :
  let s := relay_of (toy_run (asked ++ answered) started) in
  amount (toy_node "bob") (inFlightByProvider (wrk s)) = 1%Z ∧ map_sum (in_flight (toy_node "bob")) (requests (wrk s)) = 1%Z ∧
  (Z.of_nat (length (queue_of (fastTerminalEvents (box s)) (toy_node "alice"))) +
   amount (toy_node "alice") (fastTerminalReservations (box s)) ≤ 2)%Z.
Proof.
  intros s. assert (Hmade : all_answered_as_made (H := Toy.host) (H0 := toy_doubles) toy_config (Authorities None None)
    (asked ++ answered) started = true) by (vm_compute; reflexivity).
  assert (E : amount (toy_node "bob") (inFlightByProvider (wrk s)) = 1%Z) by (vm_compute; reflexivity).
  pose proof (relay_accounting (H := Toy.host) (H0 := toy_doubles) toy_config (Authorities None None) (asked ++ answered)
    ltac:(discriminate) Hmade) as Ht. cbv zeta in Ht. fold s in Ht. clearbody s. destruct Ht as (H1 & _ & H3).
  split_and!; [done|by rewrite <- H1|apply H3].
Defined.

Lemma result_once_witness :
  let s := relay_of (toy_run (asked ++ answered) started) in
  ∃ r, map_get (str_id "need-1") (requests (wrk s)) = Some r ∧ q_status r = Completed ∧ copies (str_id "need-1") s = 1%Z.
Proof.
  intros s. assert (Hmade : all_answered_as_made (H := Toy.host) (H0 := toy_doubles) toy_config (Authorities None None)
    (asked ++ answered) started = true) by (vm_compute; reflexivity).
  assert (E : ∃ r, map_get (str_id "need-1") (requests (wrk s)) = Some r ∧ q_mode r = Fast ∧ q_status r = Completed)
    by (eexists; split_and!; vm_compute; reflexivity).
  pose proof (result_once (H := Toy.host) (H0 := toy_doubles) toy_config (Authorities None None) (asked ++ answered)
    ltac:(discriminate) Hmade) as Ht. cbv zeta in Ht. fold s in Ht. clearbody s. destruct Ht as (_ & H2 & _), E as (r & Hr & Hm & Hst).
  exists r. split_and!; [done|done|]. rewrite (H2 _ r Hr Hm). by rewrite Hst.
Defined.

(** ** Where the accounts end *)

(** A fast request answered by an envelope is completed and keeps its slot: two
    such answers, with room for two results, and the requester is refused for
    ever although nothing of its is open. *)
Example envelope_answer_leaks_slot :
  let answer id := [toy_input (LegacyResult (Some "t2") (toy_signed "RESULT" "bob" (String.append "result-" id) [("requestId", JStr id)]))] in
  let st := toy_run (toy_setup ++ toy_fast_need "need-1" 1 ++ answer "need-1" ++ toy_fast_need "need-2" 2 ++ answer "need-2" ++
                     [toy_input (Head NeedRoute (Some "t1") 3)]) started in
  map (λ e, q_status e.2) (requests (wrk (relay_of st))) = [Completed; Completed] ∧
  (toy_handle (toy_need_body "need-3" 3) st).2 = Some (refuse 429 "terminal_backpressure").
Proof. vm_compute. split; reflexivity. Qed.

(** Two results of a request that one read brings, on a socket or on an HTTP
    connection, both pass the check before either marks the request: the result
    is queued twice and counted twice, and the queue takes more than its slot
    was for. *)
Example commit_twice :
  let twice := [toy_input (SocketResults (toy_node "bob") [toy_result_body "need-1" 2; toy_result_body "need-1" 3])] in
  let piped := toy_input <$> [Head ResultRoute (Some "t2") 2; Head ResultRoute (Some "t2") 3;
                              FastResults [toy_result_body "need-1" 2; toy_result_body "need-1" 3]] in
  let counts inputs :=
    let s := relay_of (toy_run (asked ++ inputs) started) in
    (copies (str_id "need-1") s, map_get (toy_node "bob") (stats (reg s)), length (queue_of (fastTerminalEvents (box s)) (toy_node "alice"))) in
  counts twice = (2, Some (2, 0), 2%nat)%Z ∧ counts piped = (2, Some (2, 0), 2%nat)%Z.
Proof. vm_compute. split; reflexivity. Qed.

End RelayAccounts.
