(* ===== verification/RelayLife.v ===== *)
(** * The life of a relayed request

    What one message can do to the table of [Relay]: who may complete, cancel or
    prolong a request, when it expires, who may enter one and which provider it
    goes to; and what follows for whole runs. *)
From S2P Require Import Prelude JSMap JSValue Dates Host Protocol Negotiation Sessions Security RelayRouting Relay RelayAccounts.
Import Canonical Keys Envelope Compact NeedWindow Negotiate Security RelayRouting Relay RelayAccounts.

Module RelayLife.

#[local] Arguments queue_of : simpl never.
#[local] Arguments amount : simpl never.

#[local] Notation table s := (requests (wrk s)).
#[local] Notation seen s := (seenNeedIds (wrk s)).

(** What only a partial result changes. *)
Definition core (r : request) :=
  (requester r, provider r, q_capability r, createdAt r, q_mode r, nextPartialSequence r, lastPartial r).

(** A listed identifier has been admitted. *)
Definition tidy (s : relay) : Prop := map_wf (table s) ∧ ∀ id r, map_get id (table s) = Some r → id ∈ seen s.

(** ** Changes of the table

    [U] relates the old and the new version of a request, [F] says what a
    request that was not there may be. *)
Record moved (U : rid → request → request → Prop) (F : rid → request → Prop) (s s' : relay) : Prop := {
  m_tidy : tidy s';
  m_seen : seen s ⊆ seen s';
  m_kept : ∀ id r', map_get id (table s') = Some r' →
    (∃ r, map_get id (table s) = Some r ∧ U id r r') ∨ (F id r' ∧ id ∉ seen s ∧ id ∈ seen s');
  m_lost : ∀ id r, map_get id (table s) = Some r → map_get id (table s') = None → ∃ r1, U id r r1 ∧ q_status r1 ≠ Matched
}.

Definition moves U F (s s' : relay) : Prop := tidy s → moved U F s s'.

Definition none (id : rid) (r : request) : Prop := False.

(** A request keeps its core; its status moves from [Matched] as [ok] allows. *)
Definition change (ok : rid → request → status → Prop) (id : rid) (r r' : request) : Prop :=
  core r' = core r ∧
  (q_status r' = q_status r ∨
   q_status r = Matched ∧ ∃ r0, core r0 = core r ∧ q_status r0 = Matched ∧ ok id r0 (q_status r')).

Lemma change_refl ok id r : change ok id r r.
Proof. split; [done|by left]. Qed.

Lemma change_trans ok id r1 r2 r3 : change ok id r1 r2 → change ok id r2 r3 → change ok id r1 r3.
Proof.
  intros [C1 S1] [C2 S2]. split; [congruence|]. destruct S1 as [E1|(M1 & r0 & Hc & Hm & Hok)].
  - destruct S2 as [E2|(M2 & r0 & Hc & Hm & Hok)]; [left; congruence|]. right. split; [congruence|]. exists r0. split_and!; congruence.
  - right. split; [done|]. destruct S2 as [E2|(M2 & q0 & Hc' & Hm' & Hok')]; [exists r0; by rewrite E2|].
    exists q0. split_and!; congruence.
Qed.

Lemma change_weaken (ok ok' : rid → request → status → Prop) id r r' :
  (∀ q st, ok id q st → ok' id q st) → change ok id r r' → change ok' id r r'.
Proof. intros Hok [C [E|(M & r0 & ? & ? & ?)]]; (split; [done|]); [by left|]. right. split; [done|]. exists r0. auto. Qed.

Lemma moves_weaken (U U' : rid → request → request → Prop) (F F' : rid → request → Prop) s s' :
  (∀ id r r', U id r r' → U' id r r') → (∀ id r, F id r → F' id r) → moves U F s s' → moves U' F' s s'.
Proof.
  intros HU HF Hm Ht. destruct (Hm Ht) as [H1 H2 H3 H4]. split; [done|done| |].
  - intros id r' Hget. destruct (H3 id r' Hget) as [(r & ? & ?)|(? & ? & ?)]; eauto.
  - intros id r Hget Hn. destruct (H4 id r Hget Hn) as (r1 & ? & ?). eauto.
Qed.

Lemma moves_same (U : rid → request → request → Prop) F s s' :
  (∀ id r, U id r r) → table s' = table s → seen s' = seen s → moves U F s s'.
Proof.
  intros HU E1 E2 Ht. split; unfold tidy; rewrite ?E1, ?E2; try done.
  - intros id r' Hget. left. eauto.
  - intros id r Hget. congruence.
Qed.

Lemma moves_trans (A B C : rid → request → request → Prop) F s s1 s2 :
  (∀ id r r', A id r r' → C id r r') → (∀ id r r1 r2, A id r r1 → B id r1 r2 → C id r r2) →
  moves A none s s1 → moves B F s1 s2 → moves C F s s2.
Proof.
  intros HA HAB H1 H2 Ht. destruct (H1 Ht) as [T1 S1 K1 L1]. destruct (H2 T1) as [T2 S2 K2 L2]. split; [done|set_solver| |].
  - intros id r2 Hget. destruct (K2 id r2 Hget) as [(r1 & Hr1 & HB)|(HF & Hn & Hin)].
    + destruct (K1 id r1 Hr1) as [(r & Hr & HA1)|[[] _] ]. left. eauto.
    + right. split_and!; [done|set_solver|done].
  - intros id r Hr Hn. destruct (map_get id (table s1)) as [r1|] eqn:Hr1.
    + destruct (K1 id r1 Hr1) as [(q & Hq & HA1)|[[] _] ]. assert (q = r) as -> by congruence.
      destruct (L2 id r1 Hr1 Hn) as (r2 & HB & Hst). eauto.
    + destruct (L1 id r Hr Hr1) as (r1 & HA1 & Hst). eauto.
Qed.

Lemma moves_then_same U F s s1 s2 : moves U F s s1 → table s2 = table s1 → seen s2 = seen s1 → moves U F s s2.
Proof. intros H1 E1 E2 Ht. destruct (H1 Ht) as [T1 S1 K1 L1]. split; unfold tidy; rewrite ?E1, ?E2; done. Qed.

Lemma moves_set (U : rid → request → request → Prop) F id r r' s s' :
  (∀ id r, U id r r) → map_get id (table s) = Some r → U id r r' →
  table s' = map_set id r' (table s) → seen s' = seen s → moves U F s s'.
Proof.
  intros Hrefl Hget HU E1 E2 [Hwf Hl]. split; rewrite ?E2; [|done| |].
  - split; rewrite E1; [by apply map_wf_set|]. intros j q. rewrite map_get_set, E2. case_decide; [subst; by eauto|apply Hl].
  - intros j q. rewrite E1, map_get_set. case_decide; [|by eauto]. intros [= <-]. subst. eauto.
  - intros j q Hj. rewrite E1, map_get_set. case_decide; [done|]. congruence.
Qed.

Lemma moves_enter (U : rid → request → request → Prop) (F : rid → request → Prop) id r s s' :
  (∀ id r, U id r r) → map_get id (table s) = None → id ∉ seen s → F id r →
  table s' = map_set id r (table s) → seen s' = seen s ++ [id] → moves U F s s'.
Proof.
  intros Hrefl Hnone Hn HF E1 E2 [Hwf Hl]. assert (Hin : id ∈ seen s') by (rewrite E2; set_solver).
  assert (Hsub : seen s ⊆ seen s') by (rewrite E2; set_solver). split; [|done| |].
  - split; rewrite E1; [by apply map_wf_set|]. intros j q. rewrite map_get_set. case_decide; [by subst|]. intros ?%Hl. by apply Hsub.
  - intros j q. rewrite E1, map_get_set. case_decide; [|by eauto]. intros [= <-]. subst. by right.
  - intros j q Hj. rewrite E1, map_get_set. case_decide; [done|]. congruence.
Qed.

Section life.
Context `{Host} `{Doubles} (cfg : config) (authority : authorities).

#[local] Notation still := (change (λ _ _ _, False)).

Lemma view_table s s' : view s' = view s → table s' = table s ∧ seen s' = seen s.
Proof. unfold view. by intros [= E1 E2 _ _ _ _ _ _]. Qed.

(** ** Ending a request *)

Lemma settle_table id st (f : request → request) s s1 r :
  map_get id (table s) = Some r → q_status r = Matched → st ≠ Matched →
  (∀ q, core (f q) = core q ∧ q_status (f q) = q_status q) →
  view s1 = view (update_request id f (markRequestStatus id st s)) →
  ∃ r', table (releaseFastTerminal id s1) = map_set id r' (table s) ∧ seen (releaseFastTerminal id s1) = seen s ∧
    core r' = core r ∧ q_status r' = st.
Proof.
  intros Hget Hst Hne Hf Hv. pose proof (end_request id st f s s1 r Hget Hst Hne Hv) as Hv1.
  set (r1 := f (with_status st r)) in *. destruct (Hf (with_status st r)) as [Hc Hs].
  unfold view in Hv1. injection Hv1 as E1 E2 _ _ _ _ _ _.
  assert (Hget1 : map_get id (table s1) = Some r1) by (rewrite E1, map_get_set; by rewrite decide_True).
  destruct (terminalReserved r1) eqn:Hr.
  - pose proof (release_ended id s1 r1 Hget1 Hr) as Hv2. unfold view in Hv2. injection Hv2 as F1 F2 _ _ _ _ _ _.
    exists (without_slot r1). split_and!; [by rewrite F1, E1, map_set_set|congruence| |].
    + transitivity (core r1); [done|]. by unfold r1; rewrite Hc.
    + transitivity (q_status r1); [done|]. by unfold r1; rewrite Hs.
  - exists r1. unfold releaseFastTerminal. rewrite Hget1, Hr. split_and!; [done|done|by unfold r1; rewrite Hc|by unfold r1; rewrite Hs].
Qed.

Lemma table_finish id rep s :
  table (finishResultWaiter id rep s).1 = table s ∧ seen (finishResultWaiter id rep s).1 = seen s.
Proof. unfold finishResultWaiter. by destruct (map_get id (resultWaiters (box s))). Qed.

(** A request only expires when it is overdue. *)
Definition expires (now : Z) : rid → request → status → Prop := λ _ r st, st = Expired ∧ overdue cfg now r = true.

Lemma moves_expire now id s : moves (change (expires now)) none s (expireFastRequest cfg now id s).
Proof.
  unfold expireFastRequest. destruct (map_get id (table s)) as [r|] eqn:Hget; [|by apply moves_same; [apply change_refl|..] ].
  destruct (overdue cfg now r) eqn:Ho; [|by apply moves_same; [apply change_refl|..] ]. cbn [negb]. cbv zeta.
  assert (Hst : q_status r = Matched).
  { revert Ho. unfold overdue. rewrite !andb_true_iff, !bool_decide_eq_true. tauto. }
  destruct (settle_table id Expired (ended now (Some "request_expired") None) s _ r Hget Hst ltac:(done) ltac:(done) eq_refl)
    as (r' & E1 & E2 & Hc & Hs).
  set (s1 := releaseFastTerminal id _) in *. clearbody s1. destruct (table_finish id (refuse_with 504 "request_expired" [("requestId", raw id)]) s1) as [E3 E4].
  apply (moves_set _ _ id r r'); [apply change_refl|done| |congruence|congruence].
  split; [done|]. right. split; [done|]. exists r. by rewrite Hs.
Qed.

Lemma moves_sweep now force s : moves (change (expires now)) none s (expireAbandonedFastRequests cfg now force s).
Proof.
  unfold expireAbandonedFastRequests. destruct (_ && _); [by apply moves_same; [apply change_refl|..] |].
  assert (Hs : moves (change (expires now)) none s (set_sweep now s)) by (by apply moves_same; [apply change_refl|..]).
  revert Hs. generalize (set_sweep now s). generalize (map_keys (table s)). intros ids.
  induction ids as [|id ids IH]; intros s1 Hs1; [done|]. cbn. apply IH.
  eapply moves_trans; [| |exact Hs1|apply moves_expire]; [done|]. intros j q q1 q2. apply change_trans.
Qed.

(** ** Pruning *)

Lemma prune_ok max todo m :
  NoDup (map_keys todo) → (∀ id r, (id, r) ∈ todo → map_get id m = Some r) → map_wf m →
  map_wf (prune max todo m) ∧ (∀ id r, map_get id (prune max todo m) = Some r → map_get id m = Some r) ∧
  (∀ id r, map_get id m = Some r → map_get id (prune max todo m) = None → q_status r ≠ Matched).
Proof.
  revert m. induction todo as [|[id r] todo IH]; intros m Hnd Hin Hwf; cbn [prune].
  { split_and!; [done|done|]. intros id r. congruence. }
  apply NoDup_cons in Hnd as [Hid Hnd]. cbn in Hid.
  assert (Hne : ∀ j q, (j, q) ∈ todo → j ≠ id).
  { intros j q Hj ->. apply Hid. change id with (id, q).1. by apply list_elem_of_fmap_2. }
  set (m' := if isTerminal (q_status r) then map_delete id m else m).
  assert (Hm' : map_wf m' ∧ (∀ j q, map_get j m' = Some q → map_get j m = Some q) ∧
    (∀ j q, map_get j m = Some q → map_get j m' = None → q_status q ≠ Matched)).
  { unfold m', isTerminal. case_bool_decide as Hst; cbn [negb]; [split_and!; [done|done|]; intros; congruence|].
    split_and!; [by apply map_wf_delete| |]; intros j q; rewrite map_get_delete; case_decide; try done; [|congruence].
    subst. rewrite (Hin id r) by (by left). congruence. }
  destruct Hm' as (W & K & L). destruct (bool_decide (map_size m' < max)%Z); [done|].
  assert (Hin' : ∀ j q, (j, q) ∈ todo → map_get j m' = Some q).
  { intros j q Hj. unfold m'. destruct (isTerminal _); [|apply Hin; by right]. rewrite map_get_delete.
    rewrite decide_False by (by eapply Hne). apply Hin. by right. }
  destruct (IH m' Hnd Hin' W) as (W' & K' & L'). split_and!; [done|eauto|].
  intros j q Hj Hn. destruct (map_get j m') as [q'|] eqn:Hj'; [|eauto].
  assert (q' = q) as -> by (apply K in Hj'; congruence). eauto.
Qed.

Lemma moves_prune ok s : moves (change ok) none s (pruneCompleted cfg s).1.
Proof.
  intros Ht. unfold pruneCompleted. destruct (bool_decide _); [by apply moves_same; [apply change_refl|..] |]. cbn [fst].
  destruct Ht as [Hwf Hl]. destruct (prune_ok (maxRequests cfg) (table s) (table s) Hwf) as (W & K & L); [|done|].
  { intros id r Hin. by apply map_elem_get. }
  split; cbn; [|done| |].
  - split; [done|]. intros id r Hget. eapply Hl, K, Hget.
  - intros id r Hget. left. exists r. split; [by apply K|apply change_refl].
  - intros id r Hget Hn. exists r. split; [apply change_refl|by eapply L].
Qed.

(** ** Handlers *)

(** A handler's effect on the table; when it throws, nothing has entered. *)
Definition traverses (ok : rid → request → status → Prop) (F : rid → request → Prop) {A} (m : M relay A) : Prop :=
  ∀ s, moves (change ok) F s (m s).1.

Lemma tr_bind ok F {A B} (m : M relay A) (f : A → M relay B) :
  traverses ok none m → (∀ a, traverses ok F (f a)) → traverses ok F (x ← m; f x).
Proof.
  intros Hm Hf s. specialize (Hm s). unfold mbind, M_bind. destruct (m s) as [s1 [a|e] ]; cbn [fst] in Hm |- *.
  - eapply moves_trans; [| |exact Hm|apply Hf]; [done|]. intros id r r1 r2. apply change_trans.
  - eapply moves_weaken; [| |exact Hm]; [done|]. intros ?? [].
Qed.

Lemma tr_same ok F {A} (m : M relay A) : (∀ s, table (m s).1 = table s ∧ seen (m s).1 = seen s) → traverses ok F m.
Proof. intros Hm s. destruct (Hm s). apply moves_same; [apply change_refl|done|done]. Qed.

Lemma tr_ret ok F {A} (a : A) : traverses ok F (mret a).
Proof. by apply tr_same. Qed.
Lemma tr_modify ok F f : (∀ s, moves (change ok) F s (f s)) → traverses ok F (modify f).
Proof. intros Hf s. apply Hf. Qed.

(** Sending, queueing and authenticating leave the table. *)
Definition same (s s' : relay) : Prop := table s' = table s ∧ seen s' = seen s.

Lemma same_trans s1 s2 s3 : same s1 s2 → same s2 s3 → same s1 s3.
Proof. intros [] []. split; congruence. Qed.
Lemma same_touch now n s : same s (touch now n s).
Proof. apply view_table, view_touch. Qed.

Lemma same_send now link_of n e cap s : same s (sendSocketEvent now link_of n e cap s).1.
Proof.
  unfold sendSocketEvent. destruct (negb _); [done|]. pose proof (same_touch now n (emit (ToSocket n e) s)) as Ht.
  destruct (link_of n); [done| |done]. by destruct cap.
Qed.
Lemma same_deliver_legacy now n e s : same s (deliverLegacyWaiter now n e s).1.
Proof. unfold deliverLegacyWaiter. destruct (map_get n _); [|done]. apply (same_touch now n (set_legacyWaiters _ s)). Qed.
Lemma same_deliver_fast now n e s : same s (deliverFastWaiter now n e s).1.
Proof. unfold deliverFastWaiter. destruct (map_get n _); [|done]. apply (same_touch now n (set_fastWaiters _ s)). Qed.

Lemma same_queue now link_of n e s : same s (queue cfg now link_of n e s).1.
Proof.
  unfold queue. pose proof (same_send now link_of n e true s) as H1. destruct (sendSocketEvent _ _ _ _ _ _) as [s1 sent].
  pose proof (same_deliver_legacy now n e s1) as H2. destruct sent; [done|..].
  all: destruct (deliverLegacyWaiter _ _ _ _) as [s2 []]; by apply (same_trans s s1).
Qed.
Lemma same_queueFast now link_of n e cap s : same s (queueFast cfg now link_of n e cap s).1.
Proof.
  unfold queueFast. pose proof (same_send now link_of n e cap s) as H1. destruct (sendSocketEvent _ _ _ _ _ _) as [s1 []]; [done| |done].
  pose proof (same_deliver_fast now n e s1) as H2. destruct (deliverFastWaiter _ _ _ _) as [s2 []]; [by apply (same_trans s s1)|].
  destruct (_ && _); by apply (same_trans s s1).
Qed.
Lemma same_queueCritical now link_of n e s : same s (queueCritical cfg now link_of n e s).1.
Proof.
  unfold queueCritical. pose proof (same_send now link_of n e true s) as H1. destruct (sendSocketEvent _ _ _ _ _ _) as [s1 []]; [done| |done].
  pose proof (same_deliver_legacy now n e s1) as H2. destruct (deliverLegacyWaiter _ _ _ _) as [s2 []]; [by apply (same_trans s s1)|].
  case_bool_decide; by apply (same_trans s s1).
Qed.
Lemma same_queueCancellation now link_of r e s : same s (queueCancellation cfg now link_of r e s).1.
Proof.
  unfold queueCancellation. destruct (q_mode r); [|apply same_queueCritical].
  pose proof (same_queueFast now link_of (provider r) e true s) as H1. by destruct (queueFast _ _ _ _ _ _ _).
Qed.
Lemma same_park now n e s : same s (park_terminal cfg now n e s).1.
Proof.
  unfold park_terminal. pose proof (same_deliver_fast now n e s) as H2. destruct (deliverFastWaiter _ _ _ _) as [s2 []]; [done|].
  by case_bool_decide.
Qed.
Lemma same_queueFastTerminal now link_of n e s : same s (queueFastTerminal cfg now link_of n e s).1.
Proof.
  unfold queueFastTerminal. pose proof (same_send now link_of n e true s) as H1. destruct (sendSocketEvent _ _ _ _ _ _) as [s1 []]; [done|..].
  - by apply (same_trans s s1), same_park.
  - apply (same_trans s s1); [done|]. apply (same_park now n e (close_socket n s1)).
Qed.

(** [authenticateEnvelope] succeeds for the live session of the signer, and then
    changes nothing. *)
Definition signed (now : Z) (type : string) (token : option string) (envelope : jval) (n : string) (s : relay) : Prop :=
  verifyEnvelope envelope [type] = Accepted ∧ (authenticatedNodeId now token s).2 = Some n ∧ oprop envelope "from" = JStr n.

Lemma authenticated_same now token s n : (authenticatedNodeId now token s).2 = Some n → (authenticatedNodeId now token s).1 = s.
Proof. unfold authenticatedNodeId. by repeat case_match. Qed.

Lemma authenticate_true now token envelope s :
  authenticateEnvelope now token envelope s = (s, Ok true) ∧
    (∃ n, (authenticatedNodeId now token s).2 = Some n ∧ oprop envelope "from" = JStr n) ∨
  ∃ s1, authenticateEnvelope now token envelope s = (s1, Ok false) ∧ same s s1.
Proof.
  pose proof (view_table _ _ (view_authenticated now token s)) as Hs. pose proof (authenticated_same now token s) as Hn.
  unfold authenticateEnvelope, mbind, M_bind, run_state. destruct (authenticatedNodeId now token s) as [s1 [n|] ]; cbn [fst snd] in *.
  - specialize (Hn n eq_refl). subst s1. cbn. destruct (eq_str (oprop envelope "from") n) eqn:He; [left|right; by exists s].
    split; [done|]. exists n. split; [done|]. by apply eq_str_true.
  - right. by exists s1.
Qed.

(** ** What a message may do to a request *)

Definition framed (now : Z) (type n : string) (exchange : nat) (frame payload : jval) (id : rid) (s : relay) : Prop :=
  id = frame_id exchange frame ∧ ∃ nd t, map_get n (nodes (reg s)) = Some nd ∧ nodeSessionActive now s n = true ∧
    verifyCompactFrame frame payload (n_publicKey nd) [type] = Ok (inr t).

(** The verified result of a message. *)
Definition resulted (now : Z) (c : incoming) (id : rid) (s : relay) : Prop :=
  framed now "RESULT" (c_node c) (c_exchange c) (c_frame c) (c_payload c) id s.

(** The new status a request may get. *)
Definition allowed (now : Z) (msg : message) (st : server) (id : rid) (r : request) (new : status) : Prop :=
  match new with
  | Matched => False
  | Expired => overdue cfg now r = true
  | Completed =>
      match msg with
      | FastResults _ | SocketResults _ _ =>
          ∃ c, c ∈ incoming_of (bodies st) msg ∧ c_node c = provider r ∧ resulted now c id (relay_of st)
      | LegacyResult token envelope =>
          signed now "RESULT" token envelope (provider r) (relay_of st) ∧ answered_id envelope = Some id
      | _ => False
      end
  | Cancelled =>
      match msg with
      | Revoke token envelope =>
          ∃ target, signed now "REVOKE" token envelope (requester r) (relay_of st) ∧
            oprop (oprop envelope "payload") "targetId" = JStr target ∧ id = str_id target
      | _ => False
      end
  end.

Lemma expires_allowed now msg s id r new : expires now id r new → allowed now msg s id r new.
Proof. by intros [-> ?]. Qed.

Lemma find_request_ok now type n x frame payload s s1 id :
  find_request cfg now type n x frame payload s = (s1, Ok (inr id)) →
  framed now type n x frame payload id s ∧ s1 = expireFastRequest cfg now id s ∧
  ∃ r, map_get id (table s) = Some r ∧ provider r = n.
Proof.
  unfold find_request. unfold mbind at 1, M_bind at 1, get_state. destruct (map_get n (nodes (reg s))) as [nd|] eqn:Hnd; [|done].
  destruct (nodeSessionActive now s n) eqn:Hact; [|done]. cbn [negb]. unfold mbind at 1, M_bind at 1, lift_result.
  destruct (verifyCompactFrame _ _ _ _) as [ [why|t]|] eqn:Hv; [done| |done]. cbv zeta.
  destruct (map_get (frame_id x frame) (table s)) as [r|] eqn:Hget; [|done].
  destruct (bool_decide (provider r = n)) eqn:Hp; [|done]. apply bool_decide_eq_true in Hp. intros [= <- <-].
  split_and!; [|done|eauto]. split; [done|]. eauto.
Qed.

Lemma tr_find now type n x frame payload : traverses (expires now) none (find_request cfg now type n x frame payload).
Proof.
  apply tr_bind; [by apply tr_same|]. intros s. destruct (map_get n _) as [nd|]; [|apply tr_ret].
  destruct (negb _); [apply tr_ret|]. apply tr_bind; [by apply tr_same|]. intros [?|?]; [apply tr_ret|].
  cbv zeta. destruct (map_get (frame_id x frame) (table s)); [|apply tr_ret]. destruct (negb _); [apply tr_ret|].
  apply tr_bind; [|intros; apply tr_ret]. apply tr_modify. intros. apply moves_expire.
Qed.

(** The request found is the one that was listed, its age aside. *)
Lemma found_core now id s r1 :
  tidy s → map_get id (table (expireFastRequest cfg now id s)) = Some r1 →
  ∃ r, map_get id (table s) = Some r ∧ core r1 = core r ∧ (q_status r1 = Matched → q_status r = Matched).
Proof.
  intros Ht Hget. destruct (moves_expire now id s Ht) as [_ _ K _]. destruct (K id r1 Hget) as [(r & Hr & Hc & Hs)|[[] _] ].
  exists r. split_and!; [done|done|]. destruct Hs as [->|[? _] ]; [done|congruence].
Qed.

Lemma matched_open r : terminalRequestError r = None → q_status r = Matched.
Proof. unfold terminalRequestError. by destruct (q_status r). Qed.

Lemma update_table id f s r :
  map_get id (table s) = Some r → table (update_request id f s) = map_set id (f r) (table s) ∧ seen (update_request id f s) = seen s.
Proof. intros Hget. unfold update_request. by rewrite Hget. Qed.

Lemma mark_table id new s r :
  map_get id (table s) = Some r →
  table (markRequestStatus id new s) = map_set id (with_status new r) (table s) ∧ seen (markRequestStatus id new s) = seen s.
Proof. intros Hget. unfold markRequestStatus. rewrite Hget. destruct (_ && _); unfold update_request; cbn; by rewrite Hget. Qed.

Lemma complete_table now id n s r :
  map_get id (table s) = Some r →
  ∃ r', table (completeRequest now id n s).1 = map_set id r' (table s) ∧ seen (completeRequest now id n s).1 = seen s ∧
    core r' = core r ∧ q_status r' = Completed.
Proof.
  intros Hget. destruct (view_table _ _ (view_complete now id n s)) as [-> ->]. destruct (mark_table id Completed s r Hget) as [E1 E2].
  destruct (update_table id (ended now None None) (markRequestStatus id Completed s) (with_status Completed r)) as [F1 F2].
  { rewrite E1, map_get_set. by rewrite decide_True. }
  eexists. rewrite F1, F2, E1, E2, map_set_set. by split_and!.
Qed.

Lemma moves_chain ok F s s1 s2 : moves (change ok) none s s1 → moves (change ok) F s1 s2 → moves (change ok) F s s2.
Proof. apply moves_trans; [done|]. intros ????. apply change_trans. Qed.

Lemma moves_unchanged ok F s s' : same s s' → moves (change ok) F s s'.
Proof. intros []. apply moves_same; [apply change_refl|done|done]. Qed.

(** A request of a later state was there before, with its core. *)
Lemma moves_core ok s s1 id r1 :
  tidy s → moves (change ok) none s s1 → map_get id (table s1) = Some r1 →
  ∃ r, map_get id (table s) = Some r ∧ core r1 = core r.
Proof. intros Ht Hm Hget. destruct (Hm Ht) as [_ _ K _]. destruct (K id r1 Hget) as [(r & Hr & Hc & _)|[ [] _] ]. eauto. Qed.

(** *** Results that arrive together *)

Lemma in_turn_inv {A B} (I : relay → Prop) (P : A → Prop) (Q : B → Prop) f js s :
  (∀ a s, P a → I s → I (f a s).1 ∧ ∀ b, (f a s).2 = inr b → Q b) → I s → (∀ a, inr a ∈ js → P a) →
  I (in_turn f js s).1 ∧ ∀ b, inr b ∈ (in_turn f js s).2 → Q b.
Proof.
  intros Hf. revert s. induction js as [|[o|a] js IH]; intros s Hs HP; rewrite ?in_turn_nil, ?in_turn_ended, ?in_turn_going; cbn [fst snd].
  - split; [done|]. by intros b ?%elem_of_nil.
  - destruct (IH s Hs) as [H1 H2]; [intros a Ha; apply HP; by right|]. split; [done|]. intros b [ [=]|Hb]%elem_of_cons. by apply H2.
  - destruct (Hf a s) as [H1 H2]; [apply HP; left|done|]. destruct (IH _ H1) as [H3 H4]; [intros c Hc; apply HP; by right|].
    split; [done|]. intros b [Hb|Hb]%elem_of_cons; [by apply H2|by apply H4].
Qed.

(** The keys and sessions of the nodes. *)
Definition alike (s s' : relay) : Prop :=
  sessions (reg s') = sessions (reg s) ∧
  ∀ n, (λ nd, (n_publicKey nd, sessionToken nd)) <$> map_get n (nodes (reg s')) =
       (λ nd, (n_publicKey nd, sessionToken nd)) <$> map_get n (nodes (reg s)).

#[local] Instance alike_refl : Reflexive alike.
Proof. by intros s. Qed.
#[local] Instance alike_trans : Transitive alike.
Proof. intros s1 s2 s3 [E1 F1] [E2 F2]. split; [congruence|]. intros n. by rewrite F2, F1. Qed.

Lemma alike_touch now n s : alike s (touch now n s).
Proof.
  unfold touch. destruct (map_get n (nodes (reg s))) as [nd|] eqn:Hn; [|done]. split; [done|]. intros m. cbn. rewrite map_get_set.
  case_decide; [subst; by rewrite Hn|done].
Qed.

Lemma reg_update id f s : reg (update_request id f s) = reg s.
Proof. unfold update_request. by destruct (map_get id (table s)). Qed.
Lemma reg_mark id new s : reg (markRequestStatus id new s) = reg s.
Proof. unfold markRequestStatus. destruct (map_get id (table s)); [|done]. rewrite reg_update. by destruct (_ && _). Qed.
Lemma reg_release id s : reg (releaseFastTerminal id s) = reg s.
Proof.
  unfold releaseFastTerminal. destruct (map_get id (table s)) as [r|]; [|done]. destruct (terminalReserved r); [|done]. apply reg_update.
Qed.
Lemma reg_finish id rep s : reg (finishResultWaiter id rep s).1 = reg s.
Proof. unfold finishResultWaiter. by destruct (map_get id (resultWaiters (box s))). Qed.

Lemma alike_expire now id s : alike s (expireFastRequest cfg now id s).
Proof.
  assert (E : reg (expireFastRequest cfg now id s) = reg s); [|by split; rewrite E].
  unfold expireFastRequest. destruct (map_get id (table s)) as [r|]; [|done]. destruct (negb _); [done|]. cbv zeta.
  by rewrite reg_finish, reg_release, reg_update, reg_mark.
Qed.

Lemma framed_alike now type n x frame payload id s s' :
  alike s s' → framed now type n x frame payload id s' → framed now type n x frame payload id s.
Proof.
  intros [Es En] (-> & nd & t & Hnd & Hact & Hv). split; [done|]. pose proof (En n) as E. rewrite Hnd in E. cbn in E.
  destruct (map_get n (nodes (reg s))) as [nd0|] eqn:Hnd0; [|done]. injection E as Ek Et. exists nd0, t. split_and!; [done| |congruence].
  revert Hact. unfold nodeSessionActive. by rewrite Hnd, Hnd0, Es, Et.
Qed.

Section together.
Context (now : Z) (link_of : string → link) (msg : message) (st : server) (Ht : tidy (relay_of st)).
#[local] Notation s0 := (relay_of st).
#[local] Notation ok := (allowed now msg st).
#[local] Notation along := (moves (change ok) none s0).

(** What is known of a result whose request was found. *)
Definition found (j : incoming * rid) : Prop :=
  j.1 ∈ incoming_of (bodies st) msg ∧ resulted now j.1 j.2 s0 ∧ ∃ r, map_get j.2 (table s0) = Some r ∧ provider r = c_node j.1.

Lemma found_find failed c s :
  c ∈ incoming_of (bodies st) msg → along s ∧ alike s0 s →
  (along (find_result cfg now failed c s).1 ∧ alike s0 (find_result cfg now failed c s).1) ∧
  ∀ j, (find_result cfg now failed c s).2 = inr j → found j.
Proof.
  intros Hc [Hm Ha]. unfold find_result. pose proof (tr_find now "RESULT" (c_node c) (c_exchange c) (c_frame c) (c_payload c) s) as Htr.
  destruct (find_request_cases cfg now "RESULT" (c_node c) (c_exchange c) (c_frame c) (c_payload c) s)
    as [(code & why & E)|[ [e E]|E] ]; [rewrite E; cbn [fst snd]; done..|].
  rewrite E in Htr |- *. cbn [fst snd] in *. split.
  - split; [|etrans; [exact Ha|apply alike_expire] ]. eapply moves_chain; [exact Hm|]. eapply moves_weaken; [| |exact Htr]; [|done].
    intros ???. apply change_weaken. intros. by apply expires_allowed.
  - intros j [= <-]. apply find_request_ok in E as (Hf & _ & r & Hr & Hp). split_and!; [done|by eapply framed_alike|].
    destruct (moves_core _ _ _ _ _ Ht Hm Hr) as (r0 & Hr0 & Hcore). exists r0. split; [done|]. injection Hcore as _ E _ _ _ _ _. cbn. congruence.
Qed.

Lemma found_receive receive c s :
  receiver cfg now receive → c ∈ incoming_of (bodies st) msg → along s ∧ alike s0 s →
  (along (receive c s).1 ∧ alike s0 (receive c s).1) ∧ ∀ j, (receive c s).2 = inr j → found j.
Proof.
  intros [->| ->] Hc [Hm Ha]; [by apply found_find|]. unfold socket_result. destruct (negb _); [done|].
  apply found_find; [done|]. split; [|etrans; [exact Ha|apply alike_touch] ]. eapply moves_chain; [exact Hm|]. apply moves_unchanged, same_touch.
Qed.

(** Between the check and the delivery a request found is open or completed. *)
Definition ready (s : relay) (j : incoming * rid) : Prop :=
  ∃ r, map_get j.2 (table s) = Some r ∧ (q_status r = Matched ∨ q_status r = Completed).

Lemma commit_along j s :
  (∀ c id r, c ∈ incoming_of (bodies st) msg → c_node c = provider r → resulted now c id s0 → ok id r Completed) →
  found j → along s → ready s j →
  along (commit_result now j s).1 ∧ ∀ j', ready s j' → ready (commit_result now j s).1 j'.
Proof.
  intros Hok (Hc & Hres & r0 & Hr0 & Hp) Hm (r & Hr & Hst). unfold commit_result.
  destruct (complete_table now j.2 (c_node j.1) s r Hr) as (r' & E1 & E2 & Hcore & Hs).
  destruct (completeRequest _ _ _ _) as [s1 t]. cbn [fst] in *. split.
  - eapply moves_chain; [exact Hm|]. eapply (moves_set _ _ j.2 r r'); [apply change_refl|done| |done|done]. split; [done|].
    destruct Hst as [Hst|Hst]; [|left; congruence]. right. split; [done|]. exists r. split_and!; [done|done|]. rewrite Hs.
    eapply Hok; [exact Hc| |exact Hres]. destruct (moves_core _ _ _ _ _ Ht Hm Hr) as (q & Hq & E). assert (q = r0) as -> by congruence.
    injection E as _ E _ _ _ _ _. congruence.
  - intros j' (q & Hq & Hqs). unfold ready. rewrite E1, map_get_set. case_decide; [exists r'; auto|eauto].
Qed.

Lemma map_set_same {V} (k : rid) (v : V) m : map_get k m = Some v → map_set k v m = m.
Proof. induction m as [|[j w] m IH]; cbn; [done|]. case_decide; [by intros [= ->]; subst|]. intros Hm. by rewrite IH. Qed.

Lemma release_table id s r :
  map_get id (table s) = Some r →
  ∃ r', table (releaseFastTerminal id s) = map_set id r' (table s) ∧ seen (releaseFastTerminal id s) = seen s ∧
    core r' = core r ∧ q_status r' = q_status r.
Proof.
  intros Hget. unfold releaseFastTerminal. rewrite Hget. destruct (terminalReserved r).
  - destruct (update_table id without_slot s r Hget). exists (without_slot r). by split_and!.
  - exists r. split_and!; [|done..]. symmetry. by apply map_set_same.
Qed.

Lemma deliver_moves ok' j s : moves (change ok') none s (deliver_result cfg now link_of j s).1.
Proof.
  destruct j as [ [c id] t]. unfold deliver_result. destruct (map_get id (table s)) as [r|] eqn:Hget; [|by apply moves_unchanged].
  destruct (release_table id s r Hget) as (r' & E1 & E2 & Hc & Hs). set (s1 := releaseFastTerminal id s) in *. clearbody s1. cbv zeta.
  assert (H1 : moves (change ok') none s s1).
  { eapply (moves_set _ _ id r r'); [apply change_refl|done| |done|done]. split; [done|by left]. }
  set (ev := ResultEvent _ _ _ _ _).
  assert (Hq : ∀ s3, same s1 s3 → moves (change ok') none s (queueFastTerminal cfg now link_of (requester r) ev s3).1).
  { intros s3 H3. eapply moves_chain; [exact H1|]. apply moves_unchanged. eapply same_trans; [exact H3|]. apply same_queueFastTerminal. }
  pose proof (table_finish id (answer_events [ev]) s1) as Hf.
  destruct (bool_decide (nextPartialSequence r = 0)%Z).
  - destruct (finishResultWaiter id (answer_events [ev]) s1) as [s3 b]. cbn [fst] in Hf. destruct b.
    + cbn [fst]. eapply moves_chain; [exact H1|]. by apply moves_unchanged.
    + specialize (Hq s3 Hf). by destruct (queueFastTerminal _ _ _ _ _ _).
  - specialize (Hq s1 ltac:(done)). by destruct (queueFastTerminal _ _ _ _ _ _).
Qed.

Lemma same_check j s : same s (check_result cfg now j s).1.
Proof.
  unfold check_result. destruct (map_get _ _) as [r|]; [|done]. destruct (terminalRequestError r); [done|]. apply view_table, view_note.
Qed.

Lemma moves_together receive :
  (∀ c id r, c ∈ incoming_of (bodies st) msg → c_node c = provider r → resulted now c id s0 → ok id r Completed) →
  receiver cfg now receive → along (processFastResults cfg now link_of receive (incoming_of (bodies st) msg) s0).1.
Proof.
  intros Hok Hrec. unfold processFastResults. set (cs := incoming_of (bodies st) msg) in *.
  destruct (in_turn_inv (λ s, along s ∧ alike s0 s) (λ c, c ∈ cs) found receive (map inr cs) s0) as [ [A1 _] Q1].
  { intros c s. by apply found_receive. }
  { split; [by apply moves_unchanged|done]. }
  { intros c (? & [= ->] & ?)%list_elem_of_fmap. done. }
  destruct (in_turn receive _ s0) as [s1 js1]. cbn [fst snd] in *.
  destruct (in_turn_inv (same s1) found (λ j, found j ∧ ready s1 j) (check_result cfg now) js1 s1) as [A2 Q2]; [|done|done|].
  { intros j s Hj Hs. split; [eapply same_trans; [exact Hs|apply same_check]|]. destruct Hs as [E _]. unfold check_result. rewrite E.
    destruct (map_get j.2 (table s1)) as [r|] eqn:Hr; [|done]. destruct (terminalRequestError r) eqn:He; [done|]. intros j' [= <-].
    split; [done|]. exists r. split; [done|]. left. by apply matched_open. }
  destruct (in_turn (check_result _ _) js1 s1) as [s2 js2]. cbn [fst snd] in *.
  assert (A2' : along s2) by (eapply moves_chain; [exact A1|by apply moves_unchanged]).
  destruct (in_turn_inv (λ s, along s ∧ ∀ j, inr j ∈ js2 → ready s j) (λ j, inr j ∈ js2) (λ _, True) (commit_result now) js2 s2) as [ [A3 _] _]; [| |done|].
  { intros j s Hj [Hm Hr]. split; [|done]. destruct (Q2 j Hj) as [Hf _].
    destruct (commit_along j s Hok Hf Hm (Hr j Hj)) as [H1 H2]. split; [done|]. intros j' Hj'. by apply H2, Hr. }
  { split; [done|]. intros j Hj. destruct (Q2 j Hj) as [_ (r & Hr & Hst)]. exists r. destruct A2 as [E _]. by rewrite E. }
  destruct (in_turn (commit_result _) js2 s2) as [s3 js3]. cbn [fst snd] in *.
  destruct (in_turn_inv along (λ _, True) (λ _, True) (deliver_result cfg now link_of) js3 s3) as [A4 _]; [|done|done|].
  { intros j s _ Hm. split; [|done]. eapply moves_chain; [exact Hm|apply deliver_moves]. }
  by destruct (in_turn (deliver_result _ _ _) js3 s3).
Qed.

End together.

Lemma same_emit_all os s : same s (emit_all os s).
Proof. pose proof (view_emits os s) as [= E1 E2 _ _ _ _ _ _]. done. Qed.

(** A partial result, in sequence and from the provider, prolongs an open
    request. *)
Definition prolonged (now : Z) (msg : message) (st : server) (id : rid) (r r' : request) : Prop :=
  match msg with
  | FastPartial res frame payload =>
      map_get res (bodies st) = Some (PartialBody (provider r)) ∧
      framed now "PARTIAL" (provider r) res frame payload id (relay_of st) ∧ q_mode r = Fast ∧ q_status r = Matched ∧ q_status r' = Matched ∧
      is_integer (oprop payload "sequence") = Some (nextPartialSequence r) ∧
      ∃ p, core r' = core (with_partial p r) ∧ p_sequence p = nextPartialSequence r ∧ p_digest p = partialDigest frame payload ∧
        p_at p = now
  | _ => False
  end.

Definition step (now : Z) (msg : message) (st : server) (id : rid) (r r' : request) : Prop :=
  change (allowed now msg st) id r r' ∨ prolonged now msg st id r r'.

Lemma step_refl now msg s id r : step now msg s id r r.
Proof. left. apply change_refl. Qed.

Lemma take_partial_table now link_of id n frame payload sequence r s :
  map_get id (table s) = Some r →
  let s' := (take_partial cfg now link_of id n frame payload sequence r s).1 in
  same s s' ∨ ∃ p, table s' = map_set id (with_partial p r) (table s) ∧ seen s' = seen s ∧ sequence = nextPartialSequence r ∧
    p_sequence p = sequence ∧ p_digest p = partialDigest frame payload ∧ p_at p = now.
Proof.
  intros Hget. unfold take_partial. destruct (match lastPartial r with Some _ => _ | None => _ end) as [p|].
  { left. by destruct (bool_decide _). }
  destruct (bool_decide (sequence = nextPartialSequence r)) eqn:Hseq; [|by left]. apply bool_decide_eq_true in Hseq. cbn [negb].
  unfold mbind, M_bind, run_state, modify.
  pose proof (same_queueFast now link_of (requester r) (PartialEvent frame payload n (raw id) sequence) true s) as Hq.
  destruct (queueFast _ _ _ _ _ _ _) as [s1 t]. cbn [fst] in Hq. destruct (bool_decide (t = QueueFull)); [by left|].
  assert (Hg : ∀ (b : bool) rep p,
    let s2 := touch now n (update_request id (with_partial p) (if b then (finishResultWaiter id rep s1).1 else s1)) in
    table s2 = map_set id (with_partial p r) (table s) ∧ seen s2 = seen s).
  { intros b rep p. set (s2 := if b then _ else s1).
    assert (Hs2 : same s s2) by (unfold s2; destruct b; [eapply same_trans; [done|apply table_finish]|done]). clearbody s2.
    destruct Hs2 as [E1 E2]. cbv zeta. destruct (same_touch now n (update_request id (with_partial p) s2)) as [F1 F2].
    rewrite F1, F2. unfold update_request. rewrite E1, Hget. cbn. by rewrite ?E1. }
  right. exists (PartialSeen sequence (partialDigest frame payload) t now). split; [apply Hg|]. split; [apply Hg|done].
Qed.

Lemma moves_partial now link_of n x frame payload st :
  map_get x (bodies st) = Some (PartialBody n) → let s := relay_of st in
  moves (step now (FastPartial x frame payload) st) none s (processFastPartial cfg now link_of n x frame payload s).1.
Proof.
  intros Hopen s Ht. unfold processFastPartial, mbind at 1, M_bind at 1. pose proof (tr_find now "PARTIAL" n x frame payload s) as Hm.
  assert (Hm' : moves (step now (FastPartial x frame payload) st) none s (find_request cfg now "PARTIAL" n x frame payload s).1).
  { eapply moves_weaken; [| |exact Hm]; [|done]. intros ??? Hc. left. eapply change_weaken; [|exact Hc]. intros. by apply expires_allowed. }
  destruct (find_request cfg now "PARTIAL" n x frame payload s) as [s1 [ [why|id]|e] ] eqn:Hf; cbn [fst] in Hm, Hm';
    [by apply Hm'| |by apply Hm'].
  apply find_request_ok in Hf as (Hframed & -> & r0 & Hr0 & Hp). unfold mbind, M_bind, get_state.
  destruct (map_get id (table (expireFastRequest cfg now id s))) as [r|] eqn:Hget; [|by apply Hm'].
  destruct (terminalRequestError r) eqn:He; [by apply Hm'|]. apply matched_open in He.
  destruct (bool_decide (q_mode r = Fast)) eqn:Hfast; [|by apply Hm']. apply bool_decide_eq_true in Hfast. cbn [negb].
  destruct (is_integer (oprop payload "sequence")) as [sequence|] eqn:Hint; [|by apply Hm'].
  destruct (bool_decide (sequence < 0)%Z); [by apply Hm'|].
  destruct (found_core now id s r Ht Hget) as (r1 & Hr1 & Hc & Hst0). assert (r1 = r0) as -> by congruence. specialize (Hst0 He).
  destruct (take_partial_table now link_of id n frame payload sequence r _ Hget) as [ [E1 E2]|(p & E1 & E2 & Hseq & Hps & Hd & Ha)].
  { exact (moves_then_same _ _ _ _ _ Hm' E1 E2 Ht). }
  revert Ht. eapply (moves_trans (change (expires now)) (λ j q q', q' = q ∨ j = id ∧ q = r ∧ q' = with_partial p r)); [| |exact Hm|].
  - intros j q q' Hq. left. eapply change_weaken; [|exact Hq]. intros. by apply expires_allowed.
  - intros j q q1 q2 Hq [->|(-> & -> & ->)]; [left; eapply change_weaken; [|exact Hq]; intros; by apply expires_allowed|].
    destruct Hq as [Hqc Hqs]. right. injection Hqc as C1 C2 C3 C4 C5 C6 C7. cbn. injection Hc as D1 D2 D3 D4 D5 D6 D7.
    assert (q_status q = Matched) by (destruct Hqs as [Hqs|[? _] ]; [congruence|done]).
    assert (provider q = n) as -> by congruence.
    split_and!; [done|done|congruence|done|done|congruence|]. exists p. unfold core. cbn. split_and!; [|congruence|done|done].
    congruence.
  - eapply (moves_set _ _ id r (with_partial p r)); [by left|done|by right|done|done].
Qed.

Lemma moves_legacy_result now link_of token envelope st (s := relay_of st) :
  moves (change (allowed now (LegacyResult token envelope) st)) none s (legacy_result cfg now link_of token envelope s).1.
Proof.
  set (ok := allowed now (LegacyResult token envelope) st). unfold legacy_result.
  destruct (verifyEnvelope envelope ["RESULT"]) eqn:Hv; [|by apply moves_unchanged]. unfold mbind at 1, M_bind at 1.
  destruct (authenticate_true now token envelope s) as [ [-> (n & Hn & Hfrom)]|(s1 & -> & Hs1)]; [|by apply moves_unchanged]. cbn [negb].
  unfold mbind at 1, M_bind at 1, get_state. destruct (answered_id envelope) as [id|] eqn:Hid; [|by apply moves_unchanged].
  destruct (map_get id (table s)) as [r|] eqn:Hget; [|by apply moves_unchanged].
  destruct (bool_decide (provider r = _)) eqn:Hp; [|by apply moves_unchanged]. apply bool_decide_eq_true in Hp. rewrite Hfrom in Hp. cbn in Hp. cbn [negb].
  destruct (terminalRequestError r) eqn:He; [by apply moves_unchanged|]. apply matched_open in He. unfold mbind, M_bind, run_state, modify.
  destruct (complete_table now id (provider r) s r Hget) as (r' & E1 & E2 & Hc & Hs). destruct (completeRequest _ _ _ _) as [s1 t].
  cbn [fst] in *. set (r2 := with_result envelope t r').
  destruct (update_table id (with_result envelope t) s1 r') as [U1 U2]; [by rewrite E1, map_get_set, decide_True|]. rewrite E1, map_set_set in U1.
  destruct (same_queue now link_of (requester r) (ResultEnvelope envelope t) (update_request id (with_result envelope t) s1)) as [Q1 Q2].
  apply (moves_set _ _ id r r2); [apply change_refl|done| |by etransitivity; [exact Q1|]|etransitivity; [exact Q2|]; by rewrite U2]. split; [done|]. right. split; [done|].
  exists r. split_and!; [done|done|]. change (q_status r2) with (q_status r'). rewrite Hs. split; [|done].
  rewrite Hp. by split_and!.
Qed.

(** ** Cancelling *)

Lemma moves_cancel (ok : rid → request → status → Prop) now link_of target from envelope reason s :
  (∀ j r st, expires now j r st → ok j r st) → (∀ r, requester r = from → ok (str_id target) r Cancelled) →
  moves (change ok) none s (cancel_need cfg now link_of target from envelope reason s).1.
Proof.
  intros Hexp Hcan. unfold cancel_need. cbv zeta. set (id := str_id target) in *. set (s1 := expireFastRequest cfg now id s).
  assert (H1 : moves (change ok) none s s1).
  { eapply moves_weaken; [| |apply moves_expire]; [|done]. intros ???. apply change_weaken. apply Hexp. }
  clearbody s1. set (ev := RevokeEvent target envelope from).
  assert (Htold : ∀ s2 r, same s2 (touch now from (queueCancellation cfg now link_of r ev s2).1)).
  { intros s2 r. eapply same_trans; [apply same_queueCancellation|apply same_touch]. }
  destruct (map_get id (table s1)) as [r|] eqn:Hget; [|done]. destruct (bool_decide (requester r = from)) eqn:Hfrom; [|done].
  apply bool_decide_eq_true in Hfrom. cbn [negb]. destruct (q_status r) eqn:Hst; [|done| |done].
  - destruct (settle_table id Cancelled (ended now None (Some reason)) s1 _ r Hget Hst ltac:(done) ltac:(done) eq_refl)
      as (r' & E1 & E2 & Hc & Hs).
    set (s2 := releaseFastTerminal id _) in *. clearbody s2.
    destruct (table_finish id (refuse_with 409 "request_cancelled" [("requestId", raw id)]) s2) as [F1 F2].
    set (s3 := (finishResultWaiter id _ s2).1) in *. clearbody s3. destruct (Htold s3 r) as [G1 G2].
    destruct (queueCancellation cfg now link_of r ev s3) as [s4 d]. cbn [fst] in *.
    eapply moves_trans; [| |exact H1|]; [done|intros ????; apply change_trans|].
    eapply (moves_set _ _ id r r'); [apply change_refl|done| |congruence|congruence]. split; [done|]. right. split; [done|].
    exists r. split_and!; [done|done|]. rewrite Hs. by apply Hcan.
  - destruct (Htold s1 r) as [G1 G2]. destruct (queueCancellation cfg now link_of r ev s1) as [s4 d]. cbn [fst] in *.
    by eapply moves_then_same.
Qed.

Lemma read_target envelope v : read_revocation envelope = inr v → oprop (oprop envelope "payload") "targetId" = JStr (v_targetId v).
Proof. unfold read_revocation. by repeat case_match; intros [= <-]. Qed.

Lemma moves_revoke now link_of token envelope st (s := relay_of st) :
  moves (change (allowed now (Revoke token envelope) st)) none s (revoke cfg now link_of token envelope s).1.
Proof.
  set (ok := allowed now (Revoke token envelope) st).
  assert (Hrefl : ∀ s', same s s' → moves (change ok) none s s').
  { intros s' []. apply moves_same; [apply change_refl|done|done]. }
  unfold revoke. destruct (verifyEnvelope envelope ["REVOKE"]) eqn:Hv; [|by apply Hrefl]. unfold mbind at 1, M_bind at 1.
  destruct (authenticate_true now token envelope s) as [ [-> (n & Hn & Hfrom)]|(s1 & -> & Hs1)]; [|by apply Hrefl]. cbn [negb].
  destruct (read_revocation envelope) as [rep|v] eqn:Hread; [by apply Hrefl|]. apply read_target in Hread.
  assert (Hc : ∀ reason, moves (change ok) none s
    (cancel_need cfg now link_of (v_targetId v) (str_of (oprop envelope "from")) envelope reason s).1).
  { intros reason. apply moves_cancel; [intros; by apply expires_allowed|]. intros r Hr.
    exists (v_targetId v). rewrite Hr, Hfrom. by split_and!. }
  unfold run_state, revoke_target. cbv zeta. destruct (_ && _ && _); [by apply Hrefl|]. destruct (_ || _).
  - destruct (map_has _ _); [|by apply Hrefl]. specialize (Hc (v_reason v)). by destruct (cancel_need _ _ _ _ _ _ _ _).
  - destruct (map_get _ (offers _)) as [o|]; [|by apply Hrefl]. destruct (negb _); [by apply Hrefl|]. cbn [fst]. apply Hrefl.
    apply (same_touch now _ (set_dir _ s)).
Qed.

(** ** Entering a request *)

(** The provider of a listed offer that serves the requester, within its price. *)
Definition chosen (now : Z) (s : relay) (capability requesterNodeId : string) (routing : jval) (p : string) : Prop :=
  ∃ k o set, map_get k (offers (dir (reg s))) = Some o ∧ offer_from o = p ∧
    candidate_ok cfg now capability requesterNodeId s o = true ∧ routingSettings routing = Ok set ∧
    ∀ c, ceiling set = Some c → offerUnitCost o (ratio set) ≠ JNaN ∧ d_less c (offerUnitCost o (ratio set)) = false.

Definition admitted (now : Z) (msg : message) (st : server) (id : rid) (r : request) : Prop :=
  q_status r = Matched ∧ createdAt r = now ∧
  match msg with
  | FastNeed _ res _ frame payload =>
      id = frame_id res frame ∧ q_mode r = Fast ∧
      (∃ publicKey t, map_get res (bodies st) = Some (NeedBody (requester r) publicKey) ∧
         verifyCompactFrame frame payload publicKey ["NEED"] = Ok (inr t)) ∧
      payload_capability payload = JStr (q_capability r) ∧
      chosen now (relay_of st) (q_capability r) (requester r) (routing_of payload) (provider r)
  | LegacyNeed _ token envelope =>
      let payload := oprop envelope "payload" in
      id = str_id (str_of (oprop envelope "id")) ∧ signed now "NEED" token envelope (requester r) (relay_of st) ∧ q_mode r = Legacy ∧
      requesterCanDispatch cfg now (relay_of st) (requester r) = true ∧ assertNeedAdmissionWindow envelope (JNum (JInt now)) = Ok tt ∧
      payload_capability payload = JStr (q_capability r) ∧
      chosen now (relay_of st) (q_capability r) (requester r) (routing_of payload) (provider r)
  | _ => False
  end.

Lemma offersForCapability_listed c d o :
  nonempty_str c = true → o ∈ offersForCapability c d → ∃ k, map_get k (offers d) = Some o.
Proof.
  unfold offersForCapability. intros ->. cbn [negb].
  destruct (map_get c (offersByCapability d)) as [ids|]; [|by intros ?%elem_of_nil].
  rewrite list_elem_of_omap. intros (k & _ & Hk). eauto.
Qed.

Lemma matching_chosen now ties c n routing id s s1 o l :
  nonempty_str c = true → matchingOffers cfg now ties c n routing id s = (s1, Ok (o :: l)) → chosen now s c n routing (offer_from o).
Proof.
  intros Hc. unfold matchingOffers. set (eligible := filter _ _).
  destruct (rankOffers _ _ _ _ _ _ _) as [kept [ranked|e] ] eqn:Hr; [|done]. intros Heq.
  assert (ranked = o :: l) as -> by (destruct id, ranked; try case_bool_decide; congruence).
  apply (rankOffers_eligible _ _ _ _ _ _ _ _ _ o) in Hr as (Hin & set & Hset & Hcost); [|by left].
  apply list_elem_of_filter in Hin as [Hok Hin]. apply offersForCapability_listed in Hin as [k Hk]; [|done].
  exists k, o, set. by split_and!.
Qed.

Lemma enters ok F now id env r s s1 s2 u :
  admitDirectNeedId cfg now id env s = (s1, Ok u) → markMatchedRequest id r s1 = (s2, Ok tt) → F id r → moves (change ok) F s s2.
Proof.
  unfold admitDirectNeedId. destruct (_ || _) eqn:Hdup; [intros [=]|].
  destruct (bool_decide (maxSeenNeedIds cfg ≤ _)%Z); [intros [=]|].
  apply orb_false_iff in Hdup as [Hhas Hid%bool_decide_eq_false]. destruct (match env with Some _ => _ | None => _ end); [|intros [=] ].
  intros [= <- _] Hmark HF. unfold markMatchedRequest in Hmark. cbn in Hmark. rewrite Hhas in Hmark. injection Hmark as <-.
  apply map_has_false in Hhas. apply (moves_enter _ _ id r); [apply change_refl|by apply map_get_None|done|done|done|done].
Qed.

Lemma admit_same now id env s s1 err : admitDirectNeedId cfg now id env s = (s1, Throw err) → s1 = s.
Proof.
  unfold admitDirectNeedId. destruct (_ || _); [by intros [= <- _]|]. destruct (bool_decide _); [by intros [= <- _]|].
  destruct (match env with Some _ => _ | None => _ end); [done|]. by intros [= <- _].
Qed.

Lemma admit_window now id envelope s s1 u :
  admitDirectNeedId cfg now id (Some envelope) s = (s1, Ok u) → assertNeedAdmissionWindow envelope (JNum (JInt now)) = Ok tt.
Proof.
  unfold admitDirectNeedId. destruct (_ || _); [done|]. destruct (bool_decide _); [done|].
  by destruct (assertNeedAdmissionWindow envelope (JNum (JInt now))) as [ []|].
Qed.

Lemma tr_dispatch now link_of res n id c waitMs frame payload o (F : rid → request → Prop) :
  F id (new_request n (offer_from o) c now Fast) →
  traverses (expires now) F (dispatch_fast_need cfg now link_of res n id c waitMs frame payload o).
Proof.
  intros HF. unfold dispatch_fast_need. apply tr_bind; [apply tr_modify; intros; apply moves_sweep|]. intros _.
  apply tr_bind; [apply tr_same; intros s; unfold run_state, reserveFastTerminal; by destruct (bool_decide _)|]. intros [].
  2: { cbn [negb]. apply tr_bind; [by apply tr_same|intros; apply tr_ret]. }
  cbn [negb]. intros s. unfold mbind at 1, M_bind at 1. unfold catch_with at 1. unfold mbind at 1, M_bind at 1.
  pose proof (moves_prune (expires now) s) as Hp. destruct (pruneCompleted cfg s) as [s1 [ []|e] ]; cbn [fst] in Hp.
  2: { cbn. eapply moves_weaken; [| |apply (moves_then_same _ none _ s1); done]; [done|]. intros ?? []. }
  eapply moves_trans; [| |exact Hp|]; [done|intros ????; apply change_trans|].
  destruct (admitDirectNeedId cfg now id None s1) as [s2 [u|e] ] eqn:Hadm.
  2: { apply admit_same in Hadm as ->. cbn. by apply moves_same; [apply change_refl|..]. }
  set (r := new_request n (offer_from o) c now Fast) in *. destruct (mark_after_admit cfg now id None r _ _ _ Hadm) as [s3 Hmark].
  pose proof (enters (expires now) F now id None r _ _ _ _ Hadm Hmark HF) as H3.
  unfold mbind at 1, M_bind at 1. rewrite Hmark. unfold mbind, M_bind, modify, get_state. cbn [fst].
  match goal with |- moves _ _ _ ?s4 => assert (H4 : same s3 s4) end; [|destruct H4; by eapply moves_then_same].
  cbv zeta. set (s4 := touch now n s3). set (s5 := if bool_decide (0 < waitMs)%Z then _ else s4).
  assert (H5 : same s3 s5).
  { apply (same_trans s3 s4); [apply same_touch|]. unfold s5. by destruct (bool_decide (0 < waitMs)%Z). }
  eapply same_trans; [exact H5|]. apply same_queueFast.
Qed.

Lemma moves_fast_need now link_of ties res n pk waitMs frame payload st :
  let msg := FastNeed ties res waitMs frame payload in
  let s := relay_of st in
  map_get res (bodies st) = Some (NeedBody n pk) →
  moves (change (expires now)) (admitted now msg st) s (fast_need cfg now link_of ties res n pk waitMs frame payload s).1.
Proof.
  intros msg s Hopen. assert (Hrefl : moves (change (expires now)) (admitted now msg st) s s) by (by apply moves_same; [apply change_refl|..]).
  unfold fast_need. unfold mbind at 1, M_bind at 1, lift_result. destruct (verifyCompactFrame _ _ _ _) as [ [why|t]|] eqn:Hv;
    [done| |done]. unfold mbind at 1, M_bind at 1, get_state. cbv zeta. destruct (_ || _); [done|].
  destruct (payload_capability payload) as [| | | | |c| |] eqn:Hcap; try done. destruct (nonempty_str c) eqn:Hc; [|done]. cbn [negb].
  unfold mbind at 1, M_bind at 1.
  destruct (view_table _ _ (view_matchingOffers cfg now ties c n (routing_of payload) (Some (frame_id res frame)) s)) as [E1 E2].
  destruct (matchingOffers _ _ _ _ _ _ _ s) as [s1 [ [|o l]|e] ] eqn:Hm; cbn [fst] in *; [by eapply moves_then_same| |by eapply moves_then_same].
  assert (H1 : moves (change (expires now)) none s s1) by (by apply moves_same; [apply change_refl|..]).
  eapply moves_trans; [| |exact H1|apply tr_dispatch]; [done|intros ????; apply change_trans|].
  split_and!; [done|done|]. cbn. split_and!; [done|done|by exists pk, t|done|]. by eapply matching_chosen.
Qed.

Lemma moves_legacy_need now link_of ties token envelope st :
  let msg := LegacyNeed ties token envelope in
  let s := relay_of st in
  moves (change (expires now)) (admitted now msg st) s (legacy_need cfg now link_of ties token envelope s).1.
Proof.
  intros msg s. assert (Hrefl : ∀ s', same s s' → moves (change (expires now)) (admitted now msg st) s s').
  { intros s' []. by apply moves_same; [apply change_refl|..]. }
  unfold legacy_need. destruct (verifyEnvelope envelope ["NEED"]) eqn:Hv; [|by apply Hrefl]. unfold mbind at 1, M_bind at 1.
  destruct (authenticate_true now token envelope s) as [ [-> (n & Hn & Hfrom)]|(s1 & -> & Hs1)]; [|by apply Hrefl]. cbn [negb].
  rewrite Hfrom. cbn [str_of]. unfold mbind at 1, M_bind at 1, get_state.
  destruct (requesterCanDispatch cfg now s n) eqn:Hcan; [|by apply Hrefl]. cbn [negb]. destruct (_ || _); [by apply Hrefl|].
  unfold mbind at 1, M_bind at 1, lift_result. destruct (assertNeedAdmissionWindow _ _) as [ []|] eqn:Hwin; [|by apply Hrefl].
  destruct (payload_capability (oprop envelope "payload")) as [| | | | |c| |] eqn:Hcap; try by apply Hrefl.
  destruct (nonempty_str c) eqn:Hc; [|by apply Hrefl]. cbn [negb]. unfold mbind at 1, M_bind at 1.
  set (id := str_id (str_of (oprop envelope "id"))). set (routing := routing_of (oprop envelope "payload")).
  destruct (view_table _ _ (view_matchingOffers cfg now ties c n routing (Some id) s)) as [E1 E2].
  destruct (matchingOffers _ _ _ _ _ _ _ s) as [s1 [ [|o l]|e] ] eqn:Hm; cbn [fst] in E1, E2; [by apply Hrefl| |by apply Hrefl].
  assert (H1 : moves (change (expires now)) none s s1) by (by apply moves_same; [apply change_refl|..]).
  eapply moves_trans; [| |exact H1|]; [done|intros ????; apply change_trans|].
  unfold mbind at 1, M_bind at 1. pose proof (moves_prune (expires now) s1) as Hp.
  destruct (pruneCompleted cfg s1) as [s2 [ []|e] ]; cbn [fst] in Hp.
  2: { cbn. eapply moves_weaken; [| |exact Hp]; [done|]. intros ?? []. }
  eapply moves_trans; [| |exact Hp|]; [done|intros ????; apply change_trans|].
  unfold mbind at 1, M_bind at 1. unfold catch_with at 1. destruct (admitDirectNeedId cfg now id (Some envelope) s2) as [s3 [u|e] ] eqn:Hadm.
  2: { apply admit_same in Hadm as ->. cbn. by apply moves_same; [apply change_refl|..]. }
  set (r := new_request n (offer_from o) c now Legacy). destruct (mark_after_admit cfg now id (Some envelope) r _ _ _ Hadm) as [s4 Hmark].
  assert (H4 : moves (change (expires now)) (admitted now msg st) s2 s4).
  { eapply enters; [exact Hadm|exact Hmark|]. split_and!; [done|done|]. cbn. split_and!; try done. by eapply matching_chosen. }
  unfold mbind at 1, M_bind at 1. rewrite Hmark. unfold mbind, M_bind, modify, get_state. cbn [fst].
  match goal with |- moves _ _ _ ?s5 => assert (H5 : same s4 s5) end; [|destruct H5; by eapply moves_then_same].
  eapply same_trans; [|apply same_touch]. apply same_queue.
Qed.

(** ** Every message *)

Lemma same_drain now n q room s : same s (drain now n q room s).1.
Proof.
  revert room s. induction q as [|e q IH]; intros room s; cbn [drain]; [done|]. destruct room as [|room]; [done|].
  eapply same_trans; [|apply IH]. apply (same_touch now n (emit (ToSocket n e) s)).
Qed.

Lemma same_socket_connect now n room s : same s (socket_connect now n room s).
Proof.
  unfold socket_connect. cbv zeta. set (s0 := touch now n _).
  assert (H0' : same s s0) by (eapply (same_trans s); [|apply same_touch]; done).
  clearbody s0. pose proof (same_drain now n (queue_of (events (box s0)) n) room s0) as D1.
  destruct (drain _ _ _ _ s0) as [s1 [ [legacy room1] full1] ]. cbn [fst] in D1.
  pose proof (same_drain now n (queue_of (fastEvents (box s1)) n) room1 s1) as D2.
  destruct (if full1 then _ else _) as [s2 [ [fast room2] full2] ] eqn:E2.
  assert (D2' : same s1 s2) by (destruct full1; [by injection E2 as <- _ _ _|by rewrite E2 in D2]).
  pose proof (same_drain now n (queue_of (fastTerminalEvents (box s2)) n) room2 s2) as D3.
  destruct (if full2 then _ else _) as [s3 [ [terminal room3] full3] ] eqn:E3.
  assert (D3' : same s2 s3) by (destruct full2; [by injection E3 as <- _ _ _|by rewrite E3 in D3]).
  assert (D : same s s3) by (eapply same_trans; [|exact D3']; eapply same_trans; [|exact D2']; by eapply same_trans).
  by destruct full3.
Qed.

Lemma same_register now token envelope s : same s (register cfg now token envelope s).1.
Proof.
  unfold register. destruct (verifyEnvelope _ _); [|done]. cbv zeta.
  destruct (negotiate_registration envelope) as [ []|]; try done. destruct (negb _); [done|].
  destruct (negb _); [done|]. destruct (map_has _ _); [done|]. destruct (_ && _); [done|]. cbn [fst].
  unfold open_session. cbv zeta. match goal with |- context [match ?m with Some _ => _ | None => _ end] => destruct m as [old|] end; [|done].
  by destruct (nonempty_str _).
Qed.

Lemma same_post_offer now token envelope s : same s (post_offer cfg authority now token envelope s).1.
Proof.
  unfold post_offer. destruct (verifyEnvelope _ _); [|done]. unfold mbind at 1, M_bind at 1.
  destruct (authenticate_true now token envelope s) as [ [-> _]|(s1 & -> & Hs1)]; [|done]. cbn [negb].
  cbv zeta. destruct (payload_capability _) as [| | | | |c| |]; try done. unfold mbind at 1, M_bind at 1, get_state.
  destruct (negb _); [done|]. destruct (map_has _ _); [done|]. destruct (bool_decide _); [done|].
  unfold mbind at 1, M_bind at 1, lift_result. destruct (providerPolicyFromOffer _ _) as [p|e]; [|done].
  apply (same_touch now _ (set_dir _ s)).
Qed.

Lemma same_authenticated now token s : same s (authenticatedNodeId now token s).1.
Proof. apply view_table, view_authenticated. Qed.

Lemma moves_status now token requestId s : moves (change (expires now)) none s (request_status cfg now token requestId s).1.
Proof.
  unfold request_status. cbv zeta. set (id := str_id requestId). pose proof (same_authenticated now token s) as [E1 E2].
  destruct (authenticatedNodeId now token s) as [s1 n]. cbn [fst] in *.
  assert (H1 : moves (change (expires now)) none s s1) by (by apply moves_same; [apply change_refl|..]).
  destruct n as [n|]; [|done]. destruct (map_get id (table s1)) as [r|]; [|done]. destruct (negb _); [done|].
  destruct (negb _); [done|]. cbn [fst]. eapply moves_trans; [| |exact H1|]; [done|intros ????; apply change_trans|].
  destruct (same_touch now n (expireFastRequest cfg now id s1)). eapply moves_then_same; [apply moves_expire|done|done].
Qed.

Lemma same_fast_poll now token n waitMs res s : same s (fast_poll now token n waitMs res s).1.
Proof.
  unfold fast_poll. pose proof (same_authenticated now token s) as H1. destruct (authenticatedNodeId now token s) as [s1 auth].
  cbn [fst] in H1. destruct (_ || _); [done|]. cbv zeta. pose proof (same_trans _ _ _ H1 (same_touch now n s1)) as H2.
  set (s2 := touch now n s1) in *. clearbody s2. destruct (_ || _); [done|]. destruct (bool_decide _); [done|].
  by destruct (map_get n (fastWaiters (box s2))).
Qed.

Lemma same_legacy_poll now token n waitMs res s : same s (legacy_poll now token n waitMs res s).1.
Proof.
  unfold legacy_poll. pose proof (same_authenticated now token s) as H1. destruct (authenticatedNodeId now token s) as [s1 auth].
  cbn [fst] in H1. destruct (_ || _); [done|]. cbv zeta. destruct (bool_decide (0 < _)).
  - eapply same_trans; [exact H1|]. apply (same_touch now n (set_events _ s1)).
  - destruct (bool_decide _); [by destruct (map_get n (legacyWaiters (box s1)))|]. eapply same_trans; [exact H1|]. apply same_touch.
Qed.

Lemma same_drop_held h res s : same s (drop_held h res s).
Proof. apply view_table, view_drop_held. Qed.

Lemma same_held_timeout now h res s : same s (held_timeout now h res s).
Proof.
  unfold held_timeout. destruct (negb _); [done|]. pose proof (same_drop_held h res s) as H1. cbv zeta.
  set (s1 := drop_held h res s) in *. clearbody s1. destruct h; [..|done]; eapply same_trans; try exact H1.
  all: destruct (same_touch now n s1); split; done.
Qed.

Lemma act_moves now link_of msg st (s := relay_of st) :
  tidy s → moved (step now msg st) (admitted now msg st) s (act cfg authority now link_of msg (bodies st) s).1.
Proof.
  intros Ht. assert (Hsame : ∀ s', same s s' → moved (step now msg st) (admitted now msg st) s s').
  { intros s' [] . by apply moves_same; [apply step_refl|..]. }
  assert (Hchange : ∀ s' F, (∀ id r, F id r → admitted now msg st id r) → moves (change (allowed now msg st)) F s s' →
    moved (step now msg st) (admitted now msg st) s s').
  { intros s' F HF Hm. revert Ht. revert Hm. apply moves_weaken; [|done]. intros ???. by left. }
  assert (Hexp : ∀ s' F, (∀ id r, F id r → admitted now msg st id r) → moves (change (expires now)) F s s' →
    moved (step now msg st) (admitted now msg st) s s').
  { intros s' F HF Hm. apply (Hchange s' F HF). eapply moves_weaken; [| |exact Hm]; [|done]. intros ???. apply change_weaken.
    intros. by apply expires_allowed. }
  assert (Htog : ∀ receive f, (∀ c id r, c ∈ incoming_of (bodies st) msg → c_node c = provider r → resulted now c id s →
      allowed now msg st id r Completed) → receiver cfg now receive →
    let '(s1, rs) := processFastResults cfg now link_of receive (incoming_of (bodies st) msg) s in
    moved (step now msg st) (admitted now msg st) s (emit_all (answers f (incoming_of (bodies st) msg) rs) s1)).
  { intros receive f Hok Hrec. pose proof (moves_together now link_of msg st Ht receive Hok Hrec) as Hm. subst s.
    destruct (processFastResults _ _ _ _ _ _) as [s1 rs]. cbn [fst] in Hm. apply (Hchange _ none); [intros ?? []|].
    eapply moves_chain; [exact Hm|]. apply moves_unchanged, same_emit_all. }
  destruct msg; cbn [act]; rewrite ?handled_fst; unfold with_reply; cbn [fst].
  - apply Hsame, same_register.
  - apply Hsame, same_post_offer.
  - apply Hsame. pose proof (same_authenticated now token s) as H1. rewrite <- (head_of_fst cfg now r token s) in H1.
    by destruct (head_of _ _ _ _ _) as [s1 [?|?] ].
  - destruct (map_get res (bodies st)) as [ []|] eqn:Ho; try by apply Hsame. rewrite handled_fst. eapply Hexp; [|by apply moves_fast_need]. done.
  - destruct (map_get res (bodies st)) as [ []|] eqn:Ho; try by apply Hsame. rewrite handled_fst. revert Ht.
    eapply moves_weaken; [| |by apply moves_partial]; [done|]. intros ?? [].
  - specialize (Htog (find_result cfg now caught) (λ c, Responded (c_exchange c))).
    destruct (processFastResults _ _ _ _ _ _). apply Htog; [|by left]. intros c id q Hc Hp Hr. by exists c.
  - specialize (Htog (socket_result cfg now) (λ c, Acked (c_node c))).
    destruct (processFastResults _ _ _ _ _ _). apply Htog; [|by right]. intros c id q Hc Hp Hr. by exists c.
  - eapply Hexp; [|apply moves_legacy_need]. done.
  - eapply Hchange; [|apply moves_legacy_result]. intros ?? [].
  - eapply Hchange; [|apply moves_revoke]. intros ?? [].
  - eapply Hexp; [|apply moves_status]. intros ?? [].
  - apply Hsame, same_fast_poll.
  - apply Hsame, same_legacy_poll.
  - apply Hsame, same_held_timeout.
  - apply Hsame, same_drop_held.
  - apply Hsame. pose proof (same_authenticated now token s) as H1. destruct (authenticatedNodeId now token s) as [s1 auth].
    destruct (_ || _); [done|]. eapply same_trans; [exact H1|apply same_socket_connect].
  - apply Hsame. unfold socket_close. by destruct (connectedSocket s n).
  - eapply Hexp; [|apply moves_sweep]. intros ?? [].
Qed.

#[local] Notation table_of st := (table (relay_of st)).
#[local] Notation seen_of st := (seen (relay_of st)).

Lemma handle_moves now link_of msg st :
  tidy (relay_of st) →
  moved (step now msg st) (admitted now msg st) (relay_of st) (relay_of (handle cfg authority now link_of msg st).1).
Proof. rewrite handle_core. apply act_moves. Qed.

Lemma tidy_run inputs st : tidy (relay_of st) → tidy (relay_of (run cfg authority inputs st)).
Proof.
  revert st. induction inputs as [|i inputs IH]; intros st Ht; [done|]. cbn. apply IH.
  by apply (m_tidy _ _ _ _ (handle_moves (i_now i) (i_link i) (i_msg i) st Ht)).
Qed.

Lemma tidy_started : tidy (relay_of started).
Proof. split; [apply map_wf_nil|done]. Qed.

Lemma allowed_core now msg st id r0 r new :
  core r0 = core r → q_status r0 = Matched → q_status r = Matched → allowed now msg st id r0 new → allowed now msg st id r new.
Proof.
  intros [= E1 E2 E3 E4 E5 E6 E7] S0 S. destruct new; cbn; [done| | |].
  - by destruct msg; rewrite ?E2.
  - by destruct msg; rewrite ?E1.
  - unfold overdue, activity. by rewrite S0, S, E4, E5, E7.
Qed.

Lemma step_parties now msg s id r r' :
  step now msg s id r r' →
  requester r' = requester r ∧ provider r' = provider r ∧ q_capability r' = q_capability r ∧ createdAt r' = createdAt r ∧
  q_mode r' = q_mode r ∧
  (q_status r' = q_status r ∨ q_status r = Matched ∧ allowed now msg s id r (q_status r')) ∧
  (nextPartialSequence r' = nextPartialSequence r ∧ lastPartial r' = lastPartial r ∨ prolonged now msg s id r r').
Proof.
  intros [ [Hc Hs]|Hp].
  - injection Hc as E1 E2 E3 E4 E5 E6 E7. split_and!; try done; [|by left].
    destruct Hs as [?|(? & r0 & ? & ? & ?)]; [by left|]. right. split; [done|]. by eapply allowed_core.
  - destruct msg; try done. destruct Hp as (Hn & Hf & Hm & Hst & Hst' & Hi & p & Hc & Hp).
    injection Hc as E1 E2 E3 E4 E5 E6 E7. split_and!; try done; [left; congruence|]. right. split_and!; try done.
    exists p. split; [|done]. unfold core. cbn. by rewrite E1, E2, E3, E4, E5, E6, E7.
Qed.

(** ** What follows for runs *)

(** What stays of a request: its parties and, once it has ended, its outcome. *)
Definition continues (r r' : request) : Prop :=
  requester r' = requester r ∧ provider r' = provider r ∧ q_capability r' = q_capability r ∧ q_mode r' = q_mode r ∧
  (q_status r ≠ Matched → q_status r' = q_status r).

Lemma run_app inputs1 inputs2 s : run cfg authority (inputs1 ++ inputs2) s = run cfg authority inputs2 (run cfg authority inputs1 s).
Proof. apply fold_left_app. Qed.

(** What later states know of a request that was once listed as [r]. *)
Definition remembers (id : rid) (r : request) (st : server) : Prop :=
  tidy (relay_of st) ∧ id ∈ seen_of st ∧ ∀ r', map_get id (table_of st) = Some r' → continues r r'.

Lemma remembers_handle id r now link_of msg st :
  remembers id r st → remembers id r (handle cfg authority now link_of msg st).1.
Proof.
  intros (Ht & Hin & Hr). destruct (handle_moves now link_of msg st Ht) as [T S K _]. split_and!; [done|set_solver|].
  intros r' Hget. destruct (K id r' Hget) as [(q & Hq & Hstep)|(_ & ? & _)]; [|done].
  destruct (Hr q Hq) as (E1 & E2 & E3 & E4 & E5). apply step_parties in Hstep as (F1 & F2 & F3 & _ & F4 & Hst & _).
  split_and!; try congruence. intros Hne. specialize (E5 Hne). destruct Hst as [?|[? _] ]; congruence.
Qed.

Lemma remembers_run id r inputs st : remembers id r st → remembers id r (run cfg authority inputs st).
Proof. revert st. induction inputs as [|i inputs IH]; intros st Hs; [done|]. cbn. by apply IH, remembers_handle. Qed.

Lemma gone_handle id now link_of msg st (st' := (handle cfg authority now link_of msg st).1) :
  tidy (relay_of st) → id ∈ seen_of st → map_get id (table_of st) = None →
  tidy (relay_of st') ∧ id ∈ seen_of st' ∧ map_get id (table_of st') = None.
Proof.
  intros Ht Hin Hn. destruct (handle_moves now link_of msg st Ht) as [T S K _]. split_and!; [done|set_solver|].
  apply eq_None_not_Some. intros [r' Hget]. destruct (K id r' Hget) as [(q & Hq & _)|(_ & ? & _)]; [congruence|done].
Qed.

Lemma gone_run id inputs st :
  tidy (relay_of st) → id ∈ seen_of st → map_get id (table_of st) = None →
  map_get id (table_of (run cfg authority inputs st)) = None.
Proof.
  revert st. induction inputs as [|i inputs IH]; intros st Ht Hin Hn; [done|]. cbn.
  destruct (gone_handle id (i_now i) (i_link i) (i_msg i) st Ht Hin Hn) as (T & S & N). by apply IH.
Qed.

(** The handler of a need that waits for its body was opened by its node: with a
    live session, allowed to dispatch, and with the key registered for it. *)
Definition opened_by (inputs : list input) (res : nat) (n : string) (publicKey : jval) : Prop :=
  ∃ before i after token, inputs = before ++ i :: after ∧ i_msg i = Head NeedRoute token res ∧
    let s := relay_of (run cfg authority before started) in
    (authenticatedNodeId (i_now i) token s).2 = Some n ∧ requesterCanDispatch cfg (i_now i) s n = true ∧
    ∃ nd, map_get n (nodes (reg s)) = Some nd ∧ n_publicKey nd = publicKey.

Lemma run_snoc inputs i st :
  run cfg authority (inputs ++ [i]) st = (handle cfg authority (i_now i) (i_link i) (i_msg i) (run cfg authority inputs st)).1.
Proof. apply fold_left_app. Qed.

Lemma handle_bodies now link_of msg st :
  bodies (handle cfg authority now link_of msg st).1 = bodies_after cfg now msg (bodies st) (relay_of st).
Proof. unfold handle. by destruct (act _ _ _ _ _ _ _). Qed.

Lemma deleted_bodies (l : list (nat * jval * jval)) (open : jsmap nat opened) res o :
  map_get res (fold_left (λ open x, map_delete x.1.1 open) l open) = Some o → map_get res open = Some o.
Proof.
  revert open. induction l as [|x l IH]; intros open; [done|]. cbn. intros Hget%IH. rewrite map_get_delete in Hget. by case_decide.
Qed.

Lemma head_need now token r s n publicKey :
  (head_of cfg now r token s).2 = inr (NeedBody n publicKey) →
  r = NeedRoute ∧ (authenticatedNodeId now token s).2 = Some n ∧ requesterCanDispatch cfg now s n = true ∧
  ∃ nd, map_get n (nodes (reg s)) = Some nd ∧ n_publicKey nd = publicKey.
Proof.
  unfold head_of, authenticatedNodeId. destruct token as [token|]; [|done]. destruct (map_get token (sessions (reg s))) as [se|]; [|done].
  destruct (bool_decide _); [done|]. destruct (map_get (s_nodeId se) (nodes (reg s))) as [nd|] eqn:Hnd; [|done].
  destruct (bool_decide _); [|done]. destruct r; [|done..]. destruct (requesterCanDispatch cfg now s (s_nodeId se)) eqn:Hd; [|done]. cbn.
  rewrite Hnd. intros [= <- <-]. split_and!; [done..|]. by exists nd.
Qed.

Lemma bodies_opened inputs res n publicKey :
  map_get res (bodies (run cfg authority inputs started)) = Some (NeedBody n publicKey) → opened_by inputs res n publicKey.
Proof.
  induction inputs as [|i inputs IH] using rev_ind; [done|]. rewrite run_snoc, handle_bodies.
  assert (Hold : map_get res (bodies (run cfg authority inputs started)) = Some (NeedBody n publicKey) →
    opened_by (inputs ++ [i]) res n publicKey).
  { intros (before & j & after & token & -> & Hj & Hs)%IH. exists before, j, (after ++ [i]), token. split; [|done]. by rewrite <- app_assoc. }
  set (st := run cfg authority inputs started) in *. destruct (i_msg i) eqn:Hmsg; cbn [bodies_after]; try exact Hold.
  - pose proof (head_need (i_now i) token r (relay_of st) n publicKey) as Hneed.
    destruct (head_of cfg (i_now i) r token (relay_of st)) as [s1 [refused|o] ]; [exact Hold|]. rewrite map_get_set. case_decide as Hres; [|exact Hold].
    intros [= ->]. destruct (Hneed eq_refl) as (-> & Hauth). subst. by exists inputs, i, [], token.
  - rewrite map_get_delete. case_decide; [done|exact Hold].
  - rewrite map_get_delete. case_decide; [done|exact Hold].
  - intros ?%deleted_bodies. by apply Hold.
Qed.

(** C17: a request, once listed, keeps its requester, provider, capability and
    mode for the rest of the run; once ended it keeps its outcome; and once it
    has left the table its identifier never enters again. *)
Theorem request_final inputs1 inputs2 id r :
  map_get id (table_of (run cfg authority inputs1 started)) = Some r →
  match map_get id (table_of (run cfg authority (inputs1 ++ inputs2) started)) with
  | Some r' => continues r r'
  | None => ∀ inputs3, map_get id (table_of (run cfg authority (inputs1 ++ inputs2 ++ inputs3) started)) = None
  end.
Proof.
  intros Hget. pose proof (tidy_run inputs1 started tidy_started) as Ht.
  assert (Hr : remembers id r (run cfg authority inputs1 started)).
  { split_and!; [done|by eapply (proj2 Ht)|]. intros r' Hr'. assert (r' = r) as -> by congruence. by split_and!. }
  apply (remembers_run _ _ inputs2) in Hr as (T & S & K). rewrite <- run_app in *.
  destruct (map_get id (table_of (run cfg authority (inputs1 ++ inputs2) started))) as [r'|] eqn:Hn; [by apply K|].
  intros inputs3. rewrite app_assoc, run_app. by apply gone_run.
Qed.

(** C8: one message only completes a request by its provider's verified result,
    cancels it by its requester's signed revocation, expires it when it is
    overdue, prolongs it by its provider's next partial result, and removes it
    when it has ended. *)
Theorem request_owned inputs now link_of msg id r :
  let st := run cfg authority inputs started in
  map_get id (table_of st) = Some r →
  match map_get id (table_of (handle cfg authority now link_of msg st).1) with
  | Some r' =>
      requester r' = requester r ∧ provider r' = provider r ∧ q_mode r' = q_mode r ∧
      (q_status r' ≠ q_status r → q_status r = Matched ∧ allowed now msg st id r (q_status r')) ∧
      ((nextPartialSequence r', lastPartial r') ≠ (nextPartialSequence r, lastPartial r) → prolonged now msg st id r r')
  | None => q_status r ≠ Matched ∨ ∃ new, allowed now msg st id r new
  end.
Proof.
  intros st Hget. destruct (handle_moves now link_of msg st (tidy_run inputs started tidy_started)) as [_ _ K L].
  destruct (map_get id (table_of (handle cfg authority now link_of msg st).1)) as [r'|] eqn:Hget'.
  - destruct (K id r' Hget') as [(q & Hq & Hstep)|(_ & Hn & _)].
    + assert (q = r) as -> by congruence. apply step_parties in Hstep as (E1 & E2 & _ & _ & E3 & Hst & Hp).
      split_and!; try done; [by destruct Hst|]. intros Hne. destruct Hp as [ [E4 E5]|Hp]; [|exact Hp]. by rewrite E4, E5 in Hne.
    + exfalso. apply Hn. by eapply (proj2 (tidy_run inputs started tidy_started)).
  - destruct (L id r Hget Hget') as (r1 & Hstep & Hne). apply step_parties in Hstep as (_ & _ & _ & _ & _ & Hst & _).
    destruct Hst as [?|[? ?] ]; [left; congruence|right; eauto].
Qed.

(** C16: a message that enters a request is a verified need of its requester,
    which had a live session and was allowed to dispatch, under the key
    registered for it, with an identifier (as the tables compare them: an
    object is a new one in every frame) never admitted before; and it hands the
    need to the provider of a listed offer that is live, offers the capability,
    is not the requester's own, serves the requester and is within its price. *)
Theorem need_admission inputs now link_of msg id r :
  let st := run cfg authority inputs started in
  let st' := (handle cfg authority now link_of msg st).1 in
  let s := relay_of st in
  map_get id (table s) = None → map_get id (table_of st') = Some r →
  id ∉ seen s ∧ id ∈ seen_of st' ∧ admitted now msg st id r ∧
  (∀ ties res waitMs frame payload, msg = FastNeed ties res waitMs frame payload →
     ∃ publicKey t, opened_by inputs res (requester r) publicKey ∧ verifyCompactFrame frame payload publicKey ["NEED"] = Ok (inr t)) ∧
  ∃ k o, map_get k (offers (dir (reg s))) = Some o ∧ offer_from o = provider r ∧ o_revoked o = false ∧
    isNodeFresh cfg now s (provider r) = true ∧ (q_capability r ≠ "" → o_capability o = q_capability r) ∧
    (requester r ≠ "" → provider r ≠ requester r ∧
       (localDevelopmentMode cfg = true ∨
        providerPolicyAllowsRequester (Some (o_policy o)) (JStr (requester r)) (JArr (map JStr (trustedRequesterNodeIds cfg))) = true)).
Proof.
  intros st st' s Hn Hget. destruct (handle_moves now link_of msg st (tidy_run inputs started tidy_started)) as [_ _ K _].
  destruct (K id r Hget) as [(q & Hq & _)|(Ha & Hnin & Hin)]; [unfold s in Hn; congruence|]. split_and!; [done|done|done| |].
  { intros ties res waitMs frame payload ->. destruct Ha as (_ & _ & _ & _ & (publicKey & t & Hopen & Hv) & _).
    exists publicKey, t. split; [by apply bodies_opened|done]. }
  assert (Hch : ∃ routing, chosen now s (q_capability r) (requester r) routing (provider r)).
  { destruct Ha as (_ & _ & Ha). destruct msg; try done; eexists; apply Ha. }
  destruct Hch as (routing & k & o & set & Hk & Hp & Hok & _). exists k, o. unfold candidate_ok in Hok.
  rewrite !andb_true_iff, !orb_true_iff, !negb_true_iff in Hok. destruct Hok as ((((Hrev & Hcap) & Hself) & Hfresh) & Hpol).
  assert (Hne : ∀ t : string, t ≠ "" → nonempty_str t = true) by (intros t; apply nonempty_str_true).
  rewrite Hp in *. split_and!; try done.
  - intros Hc%Hne. destruct Hcap as [?|?%bool_decide_eq_true]; [congruence|done].
  - intros Hr%Hne. rewrite Hr in *. split.
    + destruct Hself as [|?%bool_decide_eq_false]; done.
    + destruct Hpol as [ [?|?]|?]; [done|by left|by right].
Qed.

End life.

(** ** Witnesses on the concrete relay *)

#[local] Notation toy_run := (run (H := Toy.host) (H0 := toy_doubles) toy_config (Authorities None None)).
#[local] Notation toy_handle := (handle (H := Toy.host) (H0 := toy_doubles) toy_config (Authorities None None) toy_now (λ _, Accepts)).
#[local] Notation asked := (toy_setup ++ toy_fast_need "need-1" 1).
#[local] Notation answered := (toy_fast_result "need-1" 2 ++ toy_fast_need "need-2" 3).
#[local] Notation table_of st := (table (relay_of st)).

Lemma request_final_witness :
  ∃ r r', map_get (str_id "need-1") (table_of (toy_run (asked ++ answered) started)) = Some r ∧ q_status r = Completed ∧
    map_get (str_id "need-1") (table_of (toy_run ((asked ++ answered) ++ toy_fast_result "need-1" 4) started)) = Some r' ∧
    q_status r' = Completed ∧ provider r' = provider r.
Proof.
  assert (E : (∃ r, map_get (str_id "need-1") (table_of (toy_run (asked ++ answered) started)) = Some r ∧ q_status r = Completed) ∧
    is_Some (map_get (str_id "need-1") (table_of (toy_run ((asked ++ answered) ++ toy_fast_result "need-1" 4) started)))).
  { split; [eexists; split; vm_compute; reflexivity|vm_compute; eauto]. }
  destruct E as [ (r & Hr & Hst) [r' Hr'] ]. exists r, r'.
  pose proof (request_final (H := Toy.host) (H0 := toy_doubles) toy_config (Authorities None None)
    (asked ++ answered) (toy_fast_result "need-1" 4) (str_id "need-1") r Hr) as Ht.
  rewrite Hr' in Ht. destruct Ht as (_ & Hp & _ & _ & Hs). split_and!; [done|done|done| |done].
  rewrite Hs; [done|]. by rewrite Hst.
Defined.

Lemma request_owned_witness :
  let st := toy_run (asked ++ [toy_input (Head ResultRoute (Some "t2") 2)]) started in
  let msg := FastResults [toy_result_body "need-1" 2] in
  ∃ r r', map_get (str_id "need-1") (table_of st) = Some r ∧ map_get (str_id "need-1") (table_of (toy_handle msg st).1) = Some r' ∧
    q_status r = Matched ∧ q_status r' = Completed ∧ allowed (H := Toy.host) toy_config toy_now msg st (str_id "need-1") r Completed.
Proof.
  intros st msg.
  assert (E : (∃ r, map_get (str_id "need-1") (table_of st) = Some r ∧ q_status r = Matched) ∧
    ∃ r', map_get (str_id "need-1") (table_of (toy_handle msg st).1) = Some r' ∧ q_status r' = Completed).
  { split; eexists; split; vm_compute; reflexivity. }
  destruct E as [ (r & Hr & Hst) (r' & Hr' & Hst') ]. exists r, r'.
  pose proof (request_owned (H := Toy.host) (H0 := toy_doubles) toy_config (Authorities None None)
    (asked ++ [toy_input (Head ResultRoute (Some "t2") 2)]) toy_now (λ _, Accepts) msg (str_id "need-1") r Hr) as Ht.
  cbv zeta in Ht. fold st in Ht. clearbody st msg.
  rewrite Hr' in Ht. destruct Ht as (_ & _ & _ & Hs & _). destruct Hs as [_ Ha]; [congruence|]. rewrite Hst' in Ha. by split_and!.
Defined.

Lemma need_admission_witness :
  let inputs := toy_setup ++ [toy_input (Head NeedRoute (Some "t1") 1)] in
  let st := toy_run inputs started in
  let msg := toy_need_body "need-1" 1 in
  ∃ r publicKey, map_get (str_id "need-1") (table_of st) = None ∧ map_get (str_id "need-1") (table_of (toy_handle msg st).1) = Some r ∧
    str_id "need-1" ∉ seen (relay_of st) ∧
    opened_by (H := Toy.host) (H0 := toy_doubles) toy_config (Authorities None None) inputs 1 (requester r) publicKey ∧
    isNodeFresh toy_config toy_now (relay_of st) (provider r) = true.
Proof.
  intros inputs st msg. assert (Hn : map_get (str_id "need-1") (table_of st) = None) by (vm_compute; reflexivity).
  assert (E : is_Some (map_get (str_id "need-1") (table_of (toy_handle msg st).1))) by (vm_compute; eauto).
  destruct E as [r Hr].
  pose proof (need_admission (H := Toy.host) (H0 := toy_doubles) toy_config (Authorities None None) inputs toy_now (λ _, Accepts)
    msg (str_id "need-1") r Hn Hr) as Ht. cbv zeta in Ht. fold st in Ht. clearbody st.
  destruct Ht as (Hnin & _ & _ & Hopen & k & o & _ & _ & _ & Hfresh & _).
  destruct (Hopen _ _ _ _ _ eq_refl) as (publicKey & t & Hby & _). exists r, publicKey. by split_and!.
Defined.

(** Where the identifier is an object, every copy of the frame has its own: the
    same signed need enters twice. *)
Example object_id_enters_twice :
  let frame := match createCompactFrame (H := Toy.host) "NEED" toy_need_payload (JStr "priv") (JStr "x") with
               | Ok (JObj kvs) => JObj (map (λ kv, if bool_decide (kv.1 = "i") then ("i", JObj []) else kv) kvs)
               | _ => JUndef
               end in
  let need res := toy_input <$> [Head NeedRoute (Some "t1") res; FastNeed [] res 0 frame toy_need_payload] in
  map_keys (table_of (toy_run (toy_setup ++ need 1 ++ need 2) started)) = [Rid (JObj []) 2; Rid (JObj []) 3].
Proof. vm_compute. reflexivity. Qed.

End RelayLife.
